(* ===== verification/_CoqProject ===== *)
-Q . S2P
Prelude.v
Lists.v
BTree.v
RustStr.v
Digits.v
F64.v
TunnelCrypto.v
RingModel.v
TunnelFrame.v
TunnelDns.v
TunnelMtu.v
TunnelAddr.v
TunnelCompress.v
TunnelArq.v
ArqPoll.v
ArqLocal.v
ArqTypes.v
ArqSafety.v
ArqLiveness.v
ArqDelivery.v
SessionBase.v
RoundRobin.v
TunnelSession.v
SessionProps.v
SessionServer.v
NetAddr.v
Checksum.v
NetNat.v
NetRewrite.v
NetPump.v
NetPacket.v
FakeIp.v
DnsServer.v
RustNet.v
Arena.v
RuleTrie.v
RuleCover.v
SrsSet.v
SrsRange.v
Srs.v
RuleMatcher.v
SrsMatch.v
RuleRouter.v
SplitTunnel.v
Bip324Crypto.v
Bip324Session.v
Bip324Packet.v
Bip324Handshake.v
Bip324Module.v
Bip324Link.v
HysteriaUdp.v
Balancer.v
Stall.v
Select.v
SelectProps.v
SelectSystem.v
AnyTls.v
AnyTlsSession.v
AnyTlsStreams.v
AnyTlsPool.v
TcpTunnel.v
Shadowsocks.v
ShadowsocksTcp.v
ShadowsocksUdp.v
