(* ===== verification/Prelude.v ===== *)
(** * Verification of spark

    spark is a censorship-circumvention client and its servers, in Rust.  A TUN device
    hands the client the packets of the host; a user-space network stack turns them into
    flows; a router decides for each flow whether it goes through a proxy transport,
    directly or nowhere; a DNS server with made-up addresses lets the router see names.
    One of the transports tunnels streams through DNS resolvers and has a crate of its
    own.  This library models the parts of the program that are pure or hold state of
    their own, from the bytes up, and leaves the sockets, tasks and foreign libraries
    between them out (see the end of this comment).

    ** Conventions

    A byte string, a [&str] and a [Vec<u8>] are [bytes], a list of [Z] whose elements a
    predicate ([bytes_ok]) bounds; a [wN]-bit integer is a [Z] with [wrap] and [fits]; a
    [usize] that indexes is a [nat].  [Result] is [result] with [let?], a panic is the
    outer [None] of an option with [let!], both together [let?!].  A record is updated with
    [r <| field := v |>].  A [HashMap] is stdpp's [gmap], and where the code iterates over
    one the order is an argument that theorems quantify over; a [BTreeMap] is the sorted
    association list of [BTree].  Time is a [Z].  Third-party code is a type class or an
    argument with its documented laws as hypotheses; [RingModel] shows that the laws of the
    cryptographic class can hold.

    [Prelude] (this file) holds the notations, the tactics, the hint databases [spark] and
    [spark_len] and the shared lemmas on lists, bytes and integers.  [RustStr], [RustNet],
    [Digits], [F64] and [BTree] model what the sources use of the standard library:
    strings, the parsers of addresses and integers, radix arithmetic, binary64
    arithmetic and ordered maps; [Lists] holds lemmas on filtered and reordered lists.

    ** The DNS tunnel ([dns-tunnel-core/src])

    - [TunnelCrypto] ([crypto.rs]): base64, key derivation, the handshake keys and the AEAD
      wrapper over the class [Ring], the interface of the ring crate.
    - [TunnelFrame] ([frame.rs]): frames and packets.  Decoding accepts exactly what
      encoding produces; a sealed frame opens to itself.
    - [TunnelDns] ([dns.rs]), [TunnelMtu] ([mtu.rs]): the carrier queries and answers and
      their capacities.  Data survives resolvers that change letter case, and the
      capacity functions are exact.
    - [TunnelAddr] ([addr.rs]), [TunnelCompress] ([compress.rs]): targets and payloads.
    - [TunnelArq] ([arq.rs]): the reliable stream, with [ArqPoll], [ArqLocal] and
      [ArqTypes] on one side of it, [ArqSafety], [ArqLiveness] and [ArqDelivery] on two sides
      joined by a network that drops, duplicates and reorders, as a step relation.  What is
      read is a prefix of what was written, the end of a stream is seen only after all of
      it, and from every reachable state, whatever the network lost, all that was written
      can still be delivered.
    - [SessionBase], [RoundRobin], [TunnelSession] ([session.rs]): client and server
      sessions.  [SessionProps] shows that a handshake ends in shared keys, that only the
      signed answer establishes a client and that frames reach their streams;
      [SessionServer] that targets are handed out once and idle sessions swept.

    ** Packets and the system network stack ([core/src/packet], [core/src/netstack/system])

    - [NetAddr], [Checksum]: addresses and the Internet checksum, full and incremental.
    - [NetNat] ([nat.rs]): the port table, refined to an abstract map of ports.
    - [NetRewrite] ([rewrite.rs]), [NetPacket] ([packet/mod.rs]): parsing, rewriting and
      building packets and echo replies; endpoints are set, every byte but those of
      addresses, ports and checksums kept, and checksums stay valid.
    - [NetPump] ([pump.rs]): the gateway over the two; redirection is invisible to the
      application, which the gateway takes to the target of its mapping.

    ** Names ([core/src/dns])

    - [FakeIp] ([fakeip.rs]): the pool of made-up addresses, in every history of calls.
    - [DnsServer] ([wire.rs], [server.rs]): the codec and the query handler over the pool.
      The address in an answer recovers the name of the question, for the time to live
      and as long as the pool is not used beyond its cap.

    ** Rules ([core/src/rules], [core/src/split_tunnel.rs])

    - [SrsSet], [SrsRange], [Srs] ([srs.rs]): the parser of compiled rule sets.  It ends on
      every input; the walk of the succinct set finds exactly the stored keys; an
      address range becomes prefixes that cover exactly it.  [SrsMatch]: splitting keys
      into rules keeps what they match.
    - [Arena], [RuleTrie], [RuleCover], [RuleMatcher] ([matcher.rs]): tries in an arena of
      nodes, as a class of node types with laws; the domain trie and the prefix trie as
      instances; why compaction is invisible; the matcher, equivalent to scanning the
      rule lists in order.
    - [RuleRouter] ([router.rs], [routing_mode.rs]): the router, its switches and its reload,
      refined to the rule lists in force.  [SplitTunnel] ([split_tunnel.rs]): the edits of
      the bypass list, every entry of which takes effect.

    ** The Bitcoin-v2 transport ([bip324-core/src], [modules/bip324/src], [core/src/transport/wasm])

    - [Bip324Crypto] ([lib.rs], [crypto.rs], [ecdh.rs], [side_door.rs]): the constants, the
      provider of primitives as a class with laws and a runnable instance, the shared
      secret and the side-door tag.
    - [Bip324Session] ([session.rs]), [Bip324Packet] ([packet.rs]): the key schedule, the two
      rekeying ciphers and the packet layer.  The length cipher computes the positional
      function of the specification; packets and decoys survive any cut of the wire.
    - [Bip324Handshake] ([handshake.rs]): the handshake machine, whose result does not
      depend on how the bytes arrive.
    - [Bip324Module] ([modules/bip324/src/lib.rs], [wasm/mod.rs], [wasm/splitter.rs]): the
      exports of the guest module, the host's calls of them, and the splitting egress: its
      peek, its verdict and the stream that replays the peeked bytes.  [Bip324Link] joins two modules by byte streams, as a step
      relation: no export traps, and what is written arrives.

    ** Other transports ([core/src/transport])

    - [HysteriaUdp] ([hysteria2/tcp.rs], [udp.rs], [mod.rs]): variable-length integers, the
      fragmentation of UDP packets, their reassembly, the receive pump and the bounded
      channels of the sessions, over a network that drops, duplicates and reorders
      datagrams.
    - [Balancer] ([dns_tunnel/balancer.rs]): the pool of resolvers.  A pick is never empty
      or ambiguous, and a stream leaves a resolver that stopped answering.

    ** The server pool ([core/src/transport])

    - [Stall] ([stall.rs]): the trackers and guards that notice a flow without progress.
      A guarded stream reports a stall exactly if it was idle for a whole window.
    - [Select] ([select.rs]): the pool of servers with its breaker, quarantine, ranking,
      pin, reload, dials, watchdog and prober, every critical section a function.
      [SelectProps] characterises the dial order, the dials and the ranking;
      [SelectSystem] interleaves the critical sections in any order: the selection stays
      consistent with the pool, the breaker leaves a member, a reload keeps the pin and
      ranks the best known server first.

    ** AnyTLS ([core/src/transport/anytls])

    - [AnyTls] ([frame.rs], [padding.rs], [settings.rs], [auth.rs]): the codecs, and the
      shaping of writes into padded records, which changes no byte of them and follows
      the plan of the padding scheme.
    - [AnyTlsSession], [AnyTlsStreams] ([io.rs], [session.rs]): a client session, whose
      writer, reader and streams a schedule interleaves: what its streams send, and
      what they receive, under every schedule and failure.
    - [AnyTlsPool] ([transport.rs]): the sessions that dials share; none with a stream is
      swept, if no sweep falls inside a dial.

    ** Streams and datagrams of the other proxies ([core/src/transport])

    - [TcpTunnel] ([tcp_tunnel], [uot.rs], [anytls/udp.rs]): the address of an opening and
      datagrams over a stream, found again however the network cuts the bytes.
    - [Shadowsocks], [ShadowsocksTcp] ([shadowsocks/mod.rs], [crypto.rs], [tcp.rs]): the key,
      the request and the stream of sealed chunks, over the class [SsPrims] of primitives
      with the laws [SsLaws] and a runnable instance.  Both directions are transparent
      and no nonce is used twice.
    - [ShadowsocksUdp] ([shadowsocks/udp.rs]): both datagram envelopes and the replay window,
      refined to a filter over sets of ids.

    ** Bounds and fuel

    Loops that are not structural carry fuel, and running out is a value of its own
    ([None] or [Exhausted]) that theorems exclude: the rounds of the trie walks are the
    nodes of the arena; those of the rule-set parser the bytes left, since every
    round reads one; the pops of the key walk the labels and one, since no node is
    visited twice; the nesting of the range expansion [2 w + 3] for addresses of
    [w] bits; the labels of a name the bytes of the query; the turns of the packet and
    handshake loops the bytes buffered, of which every turn that goes on consumes some,
    and the four states of the handshake; the turns of a dial the members of its order;
    those of a Shadowsocks read are bounded at its definition.  The loops of the tunnel
    have their bounds at their definitions.  Integers keep their width where the code
    relies on it: sequence numbers wrap at 32 bits, ports at 16, ranks saturate at
    16.

    ** Not modelled

    Sockets, timers and files.  Locks and tasks are modelled where code relies on how they
    interleave (the server pool, AnyTLS); elsewhere the state they guard is a function of
    one call at a time.  The probes of the pool, the raw AnyTLS session, the metering
    wrappers of streams and the connecting of transports are left out.  The connections over QUIC, TLS, HTTP and WebRTC and the
    WebAssembly runtime are third-party libraries with drivers around them.
    Configuration and inter-process messages are data described to serde.  The user
    interface, the bindings and the platform code call what is modelled here.
    zlib, lz4, the primitives of ring, the file system and the process table are
    parameters. *)

From Stdlib Require Export ZArith Lia ZifyNat ZifyBool ZifyN Sorted.
From stdpp Require Export prelude strings gmap list list_numbers numbers option.

(** ** Results: Rust's [Result<A, E>] with the [?] operator as [let?] *)

Inductive result (E A : Type) : Type :=
| Ok (a : A)
| Err (e : E).
Arguments Ok {E A} a.
Arguments Err {E A} e.

Declare Scope spark_scope.
Delimit Scope spark_scope with spark.

Notation "'let?' x := c 'in' k" :=
  (match c with Ok x => k | Err e => Err e end)
  (at level 10, x pattern, c at level 150, k at level 200, only parsing) : spark_scope.
Notation "'let!' x := c 'in' k" :=
  (match c with Some x => k | None => None end)
  (at level 10, x pattern, c at level 150, k at level 200, only parsing) : spark_scope.
(** Code that may panic ([None]) and may fail ([Err]). *)
Notation "'let?!' x := c 'in' k" :=
  (match c with Some (Ok x) => k | Some (Err e) => Some (Err e) | None => None end)
  (at level 10, x pattern, c at level 150, k at level 200, only parsing) : spark_scope.
#[global] Open Scope spark_scope.

(** Injectivity stated on its own: [injection] would evaluate the payloads. *)
Lemma Ok_inj {E A} (a b : A) : @Ok E A a = Ok b -> a = b.
Proof. congruence. Qed.

(** [Result::ok], [Option::ok_or]. *)
Definition ok {E A} (r : result E A) : option A :=
  match r with Ok a => Some a | Err _ => None end.

Definition ok_or {E A} (o : option A) (e : E) : result E A :=
  match o with Some a => Ok a | None => Err e end.

(** [Option::is_some]. *)
Definition is_some {A} (o : option A) : bool := match o with Some _ => true | None => false end.

(** ** Record update: [s <| f := v |>] replaces the field [f] of the record [s].
    A record type declares itself updatable by its eta-expansion. *)

Class Settable (R : Type) := eta_record : R -> R.
Class Setter {R T : Type} (proj : R -> T) := update_field : (T -> T) -> R -> R.
Arguments update_field {R T} proj {_} _ _.

Ltac build_setter :=
  lazymatch goal with
  | |- @Setter ?R ?T ?proj =>
      let r := fresh "r" in
      let g := fresh "g" in
      refine (fun (g : T -> T) (r : R) => _);
      let body := eval hnf in (eta_record r) in
      lazymatch (eval pattern (proj r) in body) with
      | ?h _ => let t := eval cbv beta in (h (g (proj r))) in exact t
      end
  end.
#[global] Hint Extern 1 (Setter _) => build_setter : typeclass_instances.

Notation "s <| f := v |>" := (update_field f (fun _ => v) s)
  (at level 1, f at level 0, v at level 200, left associativity, format "s  <|  f  :=  v  |>") : spark_scope.

#[global] Open Scope Z_scope.
Ltac Zify.zify_post_hook ::= Z.div_mod_to_equations.

(** The development's hint databases: [spark] resolves side conditions on
    bytes, bounds and maps; [spark_len] rewrites lengths. *)
Create HintDb spark.
Create Rewrite HintDb spark_len.
#[export] Hint Rewrite @length_app @length_nil @length_cons @length_take @length_drop
  @length_replicate @length_fmap @length_reverse : spark_len.

(** Decide a closed proposition by evaluation. *)
Ltac decided := refine (bool_decide_unpack _ _); vm_compute; exact I.

(** Normalise the lengths in the goal and close it arithmetically. *)
Ltac len := autorewrite with spark_len in *; simpl length in *; try lia.

(** [lia] without the hypotheses on powers, which it cannot use and is slow on. *)
Ltac slia := repeat match goal with H : context [Z.pow] |- _ => clear H end; lia.

(** Split the innermost [match] of the goal or of a hypothesis on its scrutinee. *)
Ltac split_match :=
  match goal with
  | |- context [match ?x with _ => _ end] => destruct x eqn:?; simplify_eq/=
  | H : context [match ?x with _ => _ end] |- _ => destruct x eqn:?; simplify_eq/=
  end.

(** Take the [Forall]s over explicit lists apart. *)
Ltac inv_Forall :=
  repeat match goal with
  | H : Forall _ (_ :: _) |- _ => apply Forall_cons_iff in H as [? H]
  | H : Forall _ (_ ++ _) |- _ => apply Forall_app in H as [? H]
  | H : Forall _ [] |- _ => clear H
  end.

(** ** Machine integers: unsigned [w]-bit values are [Z] in [0, 2^w) *)

Definition wrap (w : Z) (z : Z) : Z := z mod 2 ^ w.
Abbreviation wrap8 := (wrap 8).
Abbreviation wrap16 := (wrap 16).
Abbreviation wrap32 := (wrap 32).
Abbreviation wrap64 := (wrap 64).

Definition fits (w : Z) (z : Z) : Prop := 0 <= z < 2 ^ w.
Abbreviation is_u8 := (fits 8).
Abbreviation is_u16 := (fits 16).
Abbreviation is_u32 := (fits 32).
Abbreviation is_u64 := (fits 64).

#[export] Instance fits_dec w z : Decision (fits w z).
Proof. unfold fits; apply _. Defined.

(** [saturating_sub] on unsigned integers. *)
Definition sat_sub (a b : Z) : Z := Z.max 0 (a - b).

Lemma wrap_small w z : fits w z -> wrap w z = z.
Proof. apply Z.mod_small. Qed.

Lemma wrap_fits w z : 0 <= w -> fits w (wrap w z).
Proof. intros. apply Z.mod_pos_bound. lia. Qed.

Lemma wrap_add_l w a b : wrap w (wrap w a + b) = wrap w (a + b).
Proof. apply Zplus_mod_idemp_l. Qed.

Lemma wrap_idemp w a : wrap w (wrap w a) = wrap w a.
Proof. apply Zmod_mod. Qed.
#[export] Hint Resolve wrap_small wrap_fits : spark.

(** ** Bytes *)

Abbreviation bytes := (list Z).
Abbreviation is_byte := (fits 8).
Abbreviation bytes_ok := (Forall (fits 8)).

(** [uN::to_be_bytes] for an [n]-byte integer. *)
Fixpoint to_be_bytes (n : nat) (v : Z) : bytes :=
  match n with
  | O => []
  | S n' => to_be_bytes n' (v / 256) ++ [v mod 256]
  end.

(** [uN::from_be_bytes]. *)
Definition from_be_bytes (l : bytes) : Z := fold_left (fun acc b => acc * 256 + b) l 0.

Lemma length_to_be_bytes n v : length (to_be_bytes n v) = n.
Proof. revert v. induction n as [|n IH]; intros v; simpl; [done|]. rewrite length_app, IH. simpl. lia. Qed.
#[export] Hint Rewrite length_to_be_bytes : spark_len.

Lemma to_be_bytes_ok n v : bytes_ok (to_be_bytes n v).
Proof.
  revert v. induction n as [|n IH]; intros v; simpl; [constructor|].
  apply Forall_app; split; [apply IH|]. repeat constructor; change (2 ^ 8) with 256; lia.
Qed.
#[export] Hint Resolve to_be_bytes_ok : spark.

Lemma from_be_bytes_snoc l b : from_be_bytes (l ++ [b]) = from_be_bytes l * 256 + b.
Proof. unfold from_be_bytes. rewrite fold_left_app. done. Qed.

Lemma from_to_be_bytes n v : from_be_bytes (to_be_bytes n v) = v mod 256 ^ Z.of_nat n.
Proof.
  revert v. induction n as [|n IH]; intros v; cbn [to_be_bytes]; [rewrite Z.mod_1_r; done|].
  rewrite from_be_bytes_snoc, IH, Nat2Z.inj_succ, Z.pow_succ_r by lia.
  rewrite Z.rem_mul_r by lia. lia.
Qed.

Lemma from_to_be_bytes_small n v : 0 <= v < 256 ^ Z.of_nat n -> from_be_bytes (to_be_bytes n v) = v.
Proof. intros. rewrite from_to_be_bytes. by apply Z.mod_small. Qed.

Lemma from_be_bytes_bound l : bytes_ok l -> 0 <= from_be_bytes l < 256 ^ Z.of_nat (length l).
Proof.
  induction l as [|b l IH] using rev_ind; [cbn; lia|].
  intros [Hl Hb]%Forall_app. rewrite Forall_singleton in Hb. apply IH in Hl.
  rewrite from_be_bytes_snoc, length_app, Nat2Z.inj_add, Z.pow_add_r by lia.
  change (256 ^ Z.of_nat (length [b])) with 256. unfold fits in Hb. change (2 ^ 8) with 256 in Hb.
  set (P := 256 ^ Z.of_nat (length l)) in *. clearbody P. lia.
Qed.

Lemma to_from_be_bytes l : bytes_ok l -> to_be_bytes (length l) (from_be_bytes l) = l.
Proof.
  induction l as [|b l IH] using rev_ind; [done|].
  intros [Hl Hb]%Forall_app. rewrite Forall_singleton in Hb. unfold fits in Hb. change (2 ^ 8) with 256 in Hb.
  rewrite length_app, Nat.add_comm. cbn [to_be_bytes length Nat.add].
  rewrite from_be_bytes_snoc.
  replace ((from_be_bytes l * 256 + b) mod 256) with b by lia.
  replace ((from_be_bytes l * 256 + b) / 256) with (from_be_bytes l) by lia.
  by rewrite IH.
Qed.

(** The bytes of a Rust byte-string literal. *)
Definition lit (s : string) : bytes := Z.of_N ∘ Ascii.N_of_ascii <$> String.list_ascii_of_string s.

(** ** Bit operations in arithmetic form *)

Lemma shiftr_div a k : 0 <= k -> Z.shiftr a k = a / 2 ^ k.
Proof. apply Z.shiftr_div_pow2. Qed.

Lemma land_mask a k : 0 <= k -> Z.land a (2 ^ k - 1) = a mod 2 ^ k.
Proof. intros. rewrite <- Z.land_ones by lia. by rewrite Z.ones_equiv. Qed.

Lemma testbit_high v k i : 0 <= k <= i -> 0 <= v < 2 ^ k -> Z.testbit v i = false.
Proof.
  intros Hk Hv. destruct (decide (v = 0)) as [->|]; [apply Z.bits_0|].
  apply Z.bits_above_log2; [lia|]. apply Z.lt_le_trans with k; [|lia]. apply Z.log2_lt_pow2; lia.
Qed.

Lemma land_disjoint a k v : 0 <= k -> 0 <= v < 2 ^ k -> Z.land (a * 2 ^ k) v = 0.
Proof.
  intros Hk Hv. apply Z.bits_inj'. intros i Hi. rewrite Z.land_spec, Z.bits_0.
  destruct (decide (i < k)); [by rewrite Z.mul_pow2_bits_low by lia|].
  rewrite (testbit_high v k i) by lia. apply andb_false_r.
Qed.

Lemma lor_disjoint_add a k v : 0 <= k -> 0 <= v < 2 ^ k -> Z.lor (a * 2 ^ k) v = a * 2 ^ k + v.
Proof.
  intros. rewrite <- Z.lxor_lor by by apply land_disjoint.
  symmetry. apply Z.add_nocarry_lxor. by apply land_disjoint.
Qed.

Lemma lor_shiftl_add a k v : 0 <= k -> 0 <= v < 2 ^ k -> Z.lor (Z.shiftl a k) v = a * 2 ^ k + v.
Proof. intros. rewrite Z.shiftl_mul_pow2 by done. by apply lor_disjoint_add. Qed.

(** ** Slices *)

(** [l.get(a..b)]. *)
Definition slice_get {A} (l : list A) (a b : nat) : option (list A) :=
  if (a <=? b)%nat && (b <=? length l)%nat then Some (take (b - a) (drop a l)) else None.

(** [l[off..off + src.len()].copy_from_slice(src)], within bounds. *)
Definition write_at {A} (l : list A) (off : nat) (src : list A) : list A :=
  take off l ++ src ++ drop (off + length src) l.

(** The same copy, a panic when the destination is out of range. *)
Definition copy_at {A} (l : list A) (off : nat) (src : list A) : option (list A) :=
  if (off + length src <=? length l)%nat then Some (write_at l off src) else None.

Lemma slice_get_app {A} (pre s post : list A) :
  slice_get (pre ++ s ++ post) (length pre) (length pre + length s) = Some s.
Proof.
  unfold slice_get. rewrite (proj2 (Nat.leb_le _ _)), (proj2 (Nat.leb_le _ _)); [|len..].
  simpl. rewrite drop_app_length, Nat.add_comm, Nat.add_sub. by rewrite take_app_length.
Qed.

Lemma slice_get_Some {A} (l s : list A) a b :
  slice_get l a b = Some s <->
  exists pre post, l = pre ++ s ++ post /\ length pre = a /\ b = (a + length s)%nat.
Proof.
  split.
  - unfold slice_get. destruct (Nat.leb_spec a b), (Nat.leb_spec b (length l)); simpl; intros; simplify_eq.
    exists (take a l), (drop b l). split; [|len].
    rewrite <- (take_drop a l) at 1. f_equal.
    rewrite <- (take_drop (b - a) (drop a l)) at 1. f_equal. rewrite drop_drop. f_equal. lia.
  - intros (pre & post & -> & <- & ->). apply slice_get_app.
Qed.

Lemma slice_get_None {A} (l : list A) a n :
  slice_get l a (a + n) = None <-> (length l < a + n)%nat.
Proof.
  unfold slice_get. destruct (Nat.leb_spec a (a + n)), (Nat.leb_spec (a + n) (length l)); simpl;
    split; intros; simplify_eq; try lia; done.
Qed.

Lemma slice_get_0 {A} (l : list A) n : slice_get l 0 n = if (n <=? length l)%nat then Some (take n l) else None.
Proof. unfold slice_get. by rewrite drop_0, Nat.sub_0_r. Qed.

Lemma length_write_at {A} (l src : list A) off :
  (off + length src <= length l)%nat -> length (write_at l off src) = length l.
Proof. intros. unfold write_at. len. Qed.

(** Reading and overwriting a piece of a concatenation. *)
Lemma slice_at {A} (l pre s post : list A) a b : l = pre ++ s ++ post -> length pre = a -> b = (a + length s)%nat ->
  slice_get l a b = Some s.
Proof. intros -> <- ->. apply slice_get_app. Qed.
(** Cut a list into a first part of known length and the rest. *)
Lemma cut {A} (l : list A) n : (n <= length l)%nat -> exists a b, l = a ++ b /\ length a = n.
Proof. intros. exists (take n l), (drop n l). split; [by rewrite take_drop|]. rewrite length_take. lia. Qed.
Lemma copy_at_app {A} (l pre old new post : list A) off : l = pre ++ old ++ post -> length pre = off -> length new = length old ->
  copy_at l off new = Some (pre ++ new ++ post).
Proof.
  intros -> <- Hl. unfold copy_at, write_at. rewrite (proj2 (Nat.leb_le _ _)) by len.
  rewrite take_app_length, Hl, (app_assoc pre old), <- length_app, drop_app_length. done.
Qed.

(** [chunks(n)]: consecutive pieces of [n] elements, the last one possibly shorter. *)
Fixpoint chunks_fuel {A} (fuel : nat) (n : nat) (l : list A) : list (list A) :=
  match fuel, l with
  | S fuel', _ :: _ => take n l :: chunks_fuel fuel' n (drop n l)
  | _, _ => []
  end.
Definition chunks {A} (n : nat) (l : list A) : list (list A) := chunks_fuel (length l) n l.

Section Chunks.
Context {A : Type} (n : nat) (Hn : (0 < n)%nat).

Lemma chunks_fuel_concat fuel (l : list A) : (length l <= fuel)%nat -> concat (chunks_fuel fuel n l) = l.
Proof.
  revert l. induction fuel as [|fuel IH]; intros [|x l]; simpl; intros; try lia; try done.
  rewrite IH by len. apply (take_drop n (x :: l)).
Qed.

Lemma chunks_concat (l : list A) : concat (chunks n l) = l.
Proof. by apply chunks_fuel_concat. Qed.

Lemma chunks_fuel_bounds fuel (l : list A) :
  Forall (fun c => 1 <= length c <= n)%nat (chunks_fuel fuel n l).
Proof.
  revert l. induction fuel as [|fuel IH]; intros [|x l]; simpl; constructor; try apply IH.
  destruct n; simpl; len.
Qed.

Lemma chunks_bounds (l : list A) : Forall (fun c => 1 <= length c <= n)%nat (chunks n l).
Proof. apply chunks_fuel_bounds. Qed.

Lemma chunks_fuel_count fuel (l : list A) :
  (length l <= fuel)%nat -> length (chunks_fuel fuel n l) = ((length l + n - 1) / n)%nat.
Proof.
  revert l. induction fuel as [|fuel IH]; intros [|x l]; intros; simpl length; try (len; fail).
  - rewrite Nat.div_small; lia.
  - rewrite Nat.div_small; lia.
  - rewrite IH by len. len.
    destruct (decide (length l < n)%nat) as [Hlt|Hge].
    + replace (S (length l) - n)%nat with 0%nat by lia. rewrite (Nat.div_small (0 + n - 1)) by lia.
      apply Nat.div_unique with (length l); lia.
    + replace (S (length l) + n - 1)%nat with ((S (length l) - n + n - 1) + 1 * n)%nat by lia.
      rewrite Nat.div_add by lia. lia.
Qed.

Lemma chunks_count (l : list A) : length (chunks n l) = ((length l + n - 1) / n)%nat.
Proof. by apply chunks_fuel_count. Qed.

Lemma chunks_fuel_of_concat fuel (cs : list (list A)) :
  Forall (fun c => length c = n) cs -> (length (concat cs) <= fuel)%nat ->
  chunks_fuel fuel n (concat cs) = cs.
Proof.
  revert cs. induction fuel as [|fuel IH]; intros cs Hcs Hf; destruct Hcs as [|c cs Hc Hcs];
    cbn [concat] in *; try done.
  { len. }
  destruct c as [|x c]; [simpl in Hc; lia|]. cbn [app chunks_fuel].
  change (x :: c ++ concat cs) with ((x :: c) ++ concat cs) in *. subst n.
  rewrite take_app_length, drop_app_length. f_equal. apply IH; [done|len].
Qed.

(** Cutting a concatenation of full pieces gives the pieces back. *)
Lemma chunks_of_concat (cs : list (list A)) :
  Forall (fun c => length c = n) cs -> chunks n (concat cs) = cs.
Proof. intros. by apply chunks_fuel_of_concat. Qed.
End Chunks.

Lemma Forall_elem {A} (P : A -> Prop) (l : list A) : Forall P l <-> forall x, x ∈ l -> P x.
Proof. apply list.Forall_forall. Qed.

Lemma concat_length_sum {A} (ls : list (list A)) : length (concat ls) = sum_list (length <$> ls).
Proof. induction ls as [|l ls IH]; simpl; [done|]. rewrite length_app, IH. done. Qed.

Lemma concat_length_const {A} n (ls : list (list A)) :
  Forall (fun l => length l = n) ls -> length (concat ls) = (n * length ls)%nat.
Proof. induction 1 as [|l ls Hl _ IH]; cbn [concat length]; [lia|]. rewrite length_app, Hl, IH. lia. Qed.

(** ** Bounds-checked big-endian readers (the [Cursor] and [Reader] types of the codecs) *)

Record cursor := mk_cursor { cur_buf : bytes; cur_pos : nat }.

Section Reader.
Context {E : Type} (truncated : E).

(** [take(n)]: [self.buf.get(pos..pos + n)], advancing the position. *)
Definition cur_take (n : nat) (c : cursor) : result E (bytes * cursor) :=
  match slice_get (cur_buf c) (cur_pos c) (cur_pos c + n) with
  | Some s => Ok (s, mk_cursor (cur_buf c) (cur_pos c + n))
  | None => Err truncated
  end.

Definition cur_int (n : nat) (c : cursor) : result E (Z * cursor) :=
  let? (s, c') := cur_take n c in Ok (from_be_bytes s, c').

Definition cur_rest (c : cursor) : bytes := drop (cur_pos c) (cur_buf c).
End Reader.

(** A cursor that has consumed [pre] and has [rest] left. *)
Definition cur_at (pre rest : bytes) : cursor := mk_cursor (pre ++ rest) (length pre).

Section ReaderFacts.
Context {E : Type} (e : E).

Lemma cur_take_at n pre s rest :
  n = length s -> cur_take e n (cur_at pre (s ++ rest)) = Ok (s, cur_at (pre ++ s) rest).
Proof.
  intros ->. unfold cur_take, cur_at. cbn [cur_buf cur_pos]. rewrite slice_get_app. cbn.
  by rewrite <- app_assoc, length_app.
Qed.

Lemma cur_int_at n pre s rest :
  n = length s -> cur_int e n (cur_at pre (s ++ rest)) = Ok (from_be_bytes s, cur_at (pre ++ s) rest).
Proof. intros. unfold cur_int. by rewrite cur_take_at. Qed.

Lemma cur_int_be_at n pre v rest :
  0 <= v < 256 ^ Z.of_nat n ->
  cur_int e n (cur_at pre (to_be_bytes n v ++ rest)) = Ok (v, cur_at (pre ++ to_be_bytes n v) rest).
Proof. intros. rewrite cur_int_at by len. by rewrite from_to_be_bytes_small. Qed.

Lemma cur_rest_at pre rest : cur_rest (cur_at pre rest) = rest.
Proof. apply drop_app_length. Qed.

Lemma cur_take_short n pre rest : (length rest < n)%nat -> cur_take e n (cur_at pre rest) = Err e.
Proof. intros. unfold cur_take, cur_at; cbn. rewrite (proj2 (slice_get_None _ _ _)); [done|len]. Qed.

Lemma cur_int_short n pre rest : (length rest < n)%nat -> cur_int e n (cur_at pre rest) = Err e.
Proof. intros. unfold cur_int. by rewrite cur_take_short. Qed.

Lemma cur_take_at_inv n pre rest r :
  cur_take e n (cur_at pre rest) = r ->
  (r = Err e /\ (length rest < n)%nat) \/
  (exists s rest', rest = s ++ rest' /\ length s = n /\ r = Ok (s, cur_at (pre ++ s) rest')).
Proof.
  intros <-. destruct (decide (length rest < n)%nat) as [Hlt|Hge].
  - left. split; [by apply cur_take_short|done].
  - right. exists (take n rest), (drop n rest). split_and!; [by rewrite take_drop|len|].
    rewrite <- (take_drop n rest) at 1. apply cur_take_at. len.
Qed.

Lemma cur_int_at_inv n pre rest r :
  cur_int e n (cur_at pre rest) = r ->
  (r = Err e /\ (length rest < n)%nat) \/
  (exists s rest', rest = s ++ rest' /\ length s = n /\ r = Ok (from_be_bytes s, cur_at (pre ++ s) rest')).
Proof.
  intros <-. unfold cur_int.
  destruct (cur_take_at_inv n pre rest _ eq_refl) as [[-> ?]|(s & rest' & -> & ? & ->)]; [by left|].
  right. eauto 10.
Qed.

Lemma cur_int_at_ok n pre rest a c :
  bytes_ok rest -> cur_int e n (cur_at pre rest) = Ok (a, c) ->
  exists rest', rest = to_be_bytes n a ++ rest' /\ c = cur_at (pre ++ to_be_bytes n a) rest' /\
    0 <= a < 256 ^ Z.of_nat n.
Proof.
  intros Hok H.
  destruct (cur_int_at_inv n pre rest _ eq_refl) as [[Er ?]|(s & rest' & -> & <- & Er)];
    rewrite Er in H; simplify_eq. apply Forall_app in Hok as [Hs _].
  rewrite to_from_be_bytes by done. exists rest'. split_and!; [done..| |]; by apply from_be_bytes_bound.
Qed.
End ReaderFacts.

Lemma to_be_bytes_1 a : fits 8 a -> to_be_bytes 1 a = [a].
Proof. intros. cbn. f_equal. by apply Z.mod_small. Qed.

Lemma cur_at_nil b : mk_cursor b 0 = cur_at [] b.
Proof. done. Qed.
