(* ===== verification/Lists.v ===== *)
(** Facts on filters and reorderings of lists that several components share. *)

From S2P Require Import Prelude.

Lemma filter_all {A} (P : A -> Prop) `{!forall x, Decision (P x)} (l : list A) : Forall P l -> filter P l = l.
Proof. induction 1 as [|x l Hx _ IH]; [done|]. rewrite filter_cons_True by done. by rewrite IH. Qed.

Lemma filter_elem_iff {A} (P Q : A -> Prop) `{!forall x, Decision (P x)} `{!forall x, Decision (Q x)} (l : list A) :
  (forall x, x ∈ l -> P x <-> Q x) -> filter P l = filter Q l.
Proof.
  induction l as [|x l IH]; intros Hpq; [done|]. rewrite !list.filter_cons, IH by (intros y Hy; apply Hpq; apply elem_of_cons; by right).
  assert (P x <-> Q x) by (apply Hpq; apply elem_of_cons; by left). by repeat case_decide; try tauto.
Qed.

Lemma filter_none {A} (P : A -> Prop) `{!forall x, Decision (P x)} (l : list A) : Forall (fun x => ~ P x) l -> filter P l = [].
Proof. induction 1 as [|x l Hx _ IH]; [done|]. rewrite list.filter_cons. by destruct (decide (P x)). Qed.

Lemma filter_split {A} (P : A -> Prop) `{!forall x, Decision (P x)} l : filter P l ++ filter (fun x => ~ P x) l ≡ₚ l.
Proof. induction l as [|x l IH]; [done|]. rewrite !list.filter_cons. destruct (decide (P x)), (decide (~ P x)); try done; simpl; by rewrite <- ?Permutation_middle, IH. Qed.

Lemma move_front i (l : list nat) : NoDup l -> i ∈ l -> i :: filter (fun j => j <> i) l ≡ₚ l.
Proof.
  intros N Hi. apply NoDup_Permutation; [constructor; [by rewrite list_elem_of_filter; intros []|by apply list.NoDup_filter]|done|].
  intros j. rewrite elem_of_cons, list_elem_of_filter. destruct (decide (j = i)) as [->|]; [|tauto]. split; intros; [done|by left].
Qed.

(** ** Sorted lists *)

Lemma sorted_impl {A} (R S : A -> A -> Prop) (l : list A) :
  (forall x y, x ∈ l -> y ∈ l -> R x y -> S x y) -> StronglySorted R l -> StronglySorted S l.
Proof.
  intros Hrs Hl. induction Hl as [|x l Hl IH Hx]; constructor.
  - apply IH. intros y z Hy Hz. apply Hrs; by right.
  - rewrite list.Forall_forall in Hx |- *. intros y Hy. apply Hrs; [left|by right|by apply Hx].
Qed.

Lemma sorted_filter {A} (R : A -> A -> Prop) (P : A -> Prop) `{!forall x, Decision (P x)} (l : list A) :
  StronglySorted R l -> StronglySorted R (filter P l).
Proof.
  induction 1 as [|x l Hl IH Hx]; [constructor|]. rewrite list.filter_cons. case_decide; [|done]. constructor; [done|].
  rewrite list.Forall_forall in Hx |- *. intros y [_ Hy]%list_elem_of_filter. by apply Hx.
Qed.

Lemma sorted_app {A} (R : A -> A -> Prop) (l k : list A) :
  StronglySorted R l -> StronglySorted R k -> (forall x y, x ∈ l -> y ∈ k -> R x y) -> StronglySorted R (l ++ k).
Proof.
  intros Hl Hk H. induction Hl as [|x l Hl IH Hx]; [done|]. cbn. constructor; [apply IH; intros; apply H; [by right|done]|].
  apply Forall_app. split; [done|]. apply list.Forall_forall. intros y Hy. apply H; [left|done].
Qed.

(** [x] stands before [y] in the list. *)
Definition before {A} (l : list A) (x y : A) : Prop := exists i j, (i < j)%nat /\ l !! i = Some x /\ l !! j = Some y.

Lemma sorted_before {A} (l : list A) : StronglySorted (before l) l.
Proof.
  induction l as [|x l IH]; constructor.
  - eapply sorted_impl; [|exact IH]. intros y z _ _ (i & j & ? & ? & ?). exists (S i), (S j). split; [lia|done].
  - apply list.Forall_forall. intros y (j & Hj)%list_elem_of_lookup_1. exists 0%nat, (S j). split; [lia|done].
Qed.
