(* ===== verification/BTree.v ===== *)
(** Ordered maps: the [std::collections::BTreeMap] operations the sources use.

    A map is its ascending list of entries, so that [keys], [values], [iter] and
    the searches over them visit the entries in the order Rust visits them. *)

From S2P Require Import Prelude.

Class KeyOrder (K : Type) := {
  kcmp : K -> K -> comparison;
  kcmp_eq a b : kcmp a b = Eq <-> a = b;
  kcmp_antisym a b : kcmp b a = CompOpp (kcmp a b);
  kcmp_trans a b c : kcmp a b = Lt -> kcmp b c = Lt -> kcmp a c = Lt;
}.

#[export] Instance Z_key_order : KeyOrder Z.
Proof.
  refine {| kcmp := Z.compare |}; intros *.
  - apply Z.compare_eq_iff.
  - apply Z.compare_antisym.
  - rewrite !Z.compare_lt_iff; lia.
Defined.

(** Lexicographic order, Rust's order on byte arrays. *)
Fixpoint bytes_cmp (a b : bytes) : comparison :=
  match a, b with
  | [], [] => Eq
  | [], _ :: _ => Lt
  | _ :: _, [] => Gt
  | x :: a', y :: b' =>
      match Z.compare x y with Eq => bytes_cmp a' b' | c => c end
  end.

#[export] Instance bytes_key_order : KeyOrder bytes.
Proof.
  refine {| kcmp := bytes_cmp |}.
  - induction a as [|x a IH]; intros [|y b]; simpl; try done.
    destruct (Z.compare_spec x y) as [->|Hlt|Hlt]; rewrite ?IH; split; intros; simplify_eq; try done; lia.
  - induction a as [|x a IH]; intros [|y b]; simpl; try done.
    rewrite (Z.compare_antisym x y). destruct (Z.compare x y); simpl; auto.
  - induction a as [|x a IH]; intros [|y b] [|z c]; simpl; try done.
    destruct (Z.compare_spec x y) as [->|Hlt|Hlt]; try done; intros H1;
      destruct (Z.compare_spec y z) as [->|Hlt'|Hlt']; try done; intros H2.
    all: try (by eauto); by rewrite (proj2 (Z.compare_lt_iff _ _)) by lia.
Defined.

Section BTreeMap.
Context {K V : Type} `{!KeyOrder K}.
Implicit Types (m : list (K * V)) (k : K) (v : V).

Definition bt_empty : list (K * V) := [].

(** [get]. *)
Fixpoint bt_get k m : option V :=
  match m with
  | [] => None
  | (k', v') :: m' => match kcmp k k' with Eq => Some v' | _ => bt_get k m' end
  end.

(** [contains_key]. *)
Definition bt_mem k m : bool := match bt_get k m with Some _ => true | None => false end.

(** [insert]: replaces the value of a present key. *)
Fixpoint bt_insert k v m : list (K * V) :=
  match m with
  | [] => [(k, v)]
  | (k', v') :: m' =>
      match kcmp k k' with
      | Lt => (k, v) :: m
      | Eq => (k, v) :: m'
      | Gt => (k', v') :: bt_insert k v m'
      end
  end.

(** [remove], without the removed value. *)
Fixpoint bt_remove k m : list (K * V) :=
  match m with
  | [] => []
  | (k', v') :: m' => match kcmp k k' with Eq => bt_remove k m' | _ => (k', v') :: bt_remove k m' end
  end.

(** [entry(k).or_insert(v)]. *)
Definition bt_or_insert k v m : list (K * V) :=
  match bt_get k m with Some _ => m | None => bt_insert k v m end.

(** [get_mut(k)] followed by an update of the value it yields. *)
Definition bt_alter (f : V -> V) k m : list (K * V) :=
  match bt_get k m with Some v => bt_insert k (f v) m | None => m end.

(** [iter().find(p)]. *)
Fixpoint bt_find (p : K -> V -> bool) m : option (K * V) :=
  match m with
  | [] => None
  | (k, v) :: m' => if p k v then Some (k, v) else bt_find p m'
  end.

Definition bt_keys m : list K := m.*1.
Definition bt_values m : list V := m.*2.

(** Entries in strictly ascending key order: the representation invariant. *)
Definition bt_sorted m : Prop := StronglySorted (fun a b => kcmp a.1 b.1 = Lt) m.

Lemma kcmp_refl k : kcmp k k = Eq.
Proof. by apply kcmp_eq. Qed.

Lemma kcmp_ne a b : a <> b -> kcmp a b <> Eq.
Proof. intros Hne H. by apply kcmp_eq in H. Qed.

Lemma bt_get_empty k : bt_get k bt_empty = None.
Proof. done. Qed.

Lemma bt_get_insert k v m : bt_get k (bt_insert k v m) = Some v.
Proof.
  induction m as [|[k' v'] m IH]; simpl; [by rewrite kcmp_refl|].
  destruct (kcmp k k') eqn:E; simpl; rewrite ?kcmp_refl, ?E; auto.
Qed.

Lemma bt_get_insert_ne k k' v m : k <> k' -> bt_get k' (bt_insert k v m) = bt_get k' m.
Proof.
  intros Hne. assert (kcmp k' k <> Eq) as Hk by (apply kcmp_ne; congruence).
  induction m as [|[k2 v2] m IH]; simpl.
  - by destruct (kcmp k' k).
  - destruct (kcmp k k2) eqn:E; simpl.
    + apply kcmp_eq in E as ->. by destruct (kcmp k' k2).
    + by destruct (kcmp k' k).
    + by rewrite IH.
Qed.

Lemma bt_get_remove k m : bt_get k (bt_remove k m) = None.
Proof.
  induction m as [|[k' v'] m IH]; simpl; [done|].
  destruct (kcmp k k') eqn:E; simpl; rewrite ?E; auto.
Qed.

Lemma bt_remove_None k m : bt_get k m = None -> bt_remove k m = m.
Proof.
  induction m as [|[k' v'] m IH]; simpl; [done|]. destruct (kcmp k k'); [done|..]; intros; by rewrite IH.
Qed.

Lemma bt_get_remove_ne k k' m : k <> k' -> bt_get k' (bt_remove k m) = bt_get k' m.
Proof.
  intros Hne. induction m as [|[k2 v2] m IH]; simpl; [done|].
  destruct (kcmp k k2) eqn:E; simpl; rewrite IH; try done.
  apply kcmp_eq in E as ->. destruct (kcmp k' k2) eqn:E2; try done.
  by apply kcmp_eq in E2.
Qed.

Lemma bt_get_In k v m : bt_get k m = Some v -> (k, v) ∈ m.
Proof.
  induction m as [|[k' v'] m IH]; simpl; [done|].
  destruct (kcmp k k') eqn:E; intros; simplify_eq; try (right; auto; done).
  apply kcmp_eq in E as ->. left.
Qed.

Lemma bt_sorted_tail_gt k v m : bt_sorted ((k, v) :: m) -> Forall (fun e => kcmp k e.1 = Lt) m.
Proof. intros H. inversion_clear H. done. Qed.

Lemma bt_In_get k v m : bt_sorted m -> (k, v) ∈ m -> bt_get k m = Some v.
Proof.
  induction m as [|[k' v'] m IH]; intros Hs Hin; [inversion Hin|].
  inversion_clear Hs as [|? ? Hs' Hlt]. simpl. apply elem_of_cons in Hin as [Heq|Hin].
  - simplify_eq. by rewrite kcmp_refl.
  - rewrite Forall_elem in Hlt. specialize (Hlt _ Hin). simpl in Hlt.
    rewrite kcmp_antisym, Hlt. simpl. auto.
Qed.

Lemma bt_get_lt_None k m : Forall (fun e => kcmp k e.1 = Lt) m -> bt_get k m = None.
Proof. induction 1 as [|[k' v'] m Hlt _ IH]; simpl in *; [done|]. by rewrite Hlt. Qed.

Lemma bt_insert_Forall (P : K * V -> Prop) k v m : P (k, v) -> Forall P m -> Forall P (bt_insert k v m).
Proof.
  intros Hkv. induction 1 as [|[k' v'] m H Hm IH]; simpl; [by repeat constructor|].
  destruct (kcmp k k'); by repeat constructor.
Qed.

Lemma bt_remove_Forall (P : K * V -> Prop) k m : Forall P m -> Forall P (bt_remove k m).
Proof.
  induction 1 as [|[k' v'] m H Hm IH]; simpl; [done|].
  destruct (kcmp k k'); by repeat constructor.
Qed.

Lemma bt_alter_Forall (P : K * V -> Prop) f k m :
  (forall k v, P (k, v) -> P (k, f v)) -> Forall P m -> Forall P (bt_alter f k m).
Proof.
  intros Hf Hm. unfold bt_alter. destruct (bt_get k m) as [v|] eqn:E; [|done].
  apply bt_insert_Forall; [|done]. apply Hf.
  rewrite Forall_elem in Hm. by apply Hm, bt_get_In.
Qed.

Lemma bt_sorted_insert k v m : bt_sorted m -> bt_sorted (bt_insert k v m).
Proof.
  unfold bt_sorted. induction 1 as [|[k' v'] m Hs IH Hlt]; simpl; [by repeat constructor|].
  destruct (kcmp k k') eqn:E.
  - apply kcmp_eq in E as ->. by constructor.
  - constructor; [by constructor|]. constructor; [done|].
    eapply Forall_impl; [|exact Hlt]. intros e He. by eapply kcmp_trans.
  - constructor; [done|]. apply bt_insert_Forall; [|done]. simpl. by rewrite kcmp_antisym, E.
Qed.

Lemma bt_sorted_remove k m : bt_sorted m -> bt_sorted (bt_remove k m).
Proof.
  unfold bt_sorted. induction 1 as [|[k' v'] m Hs IH Hlt]; simpl; [constructor|].
  destruct (kcmp k k'); [done|..]; constructor; auto using bt_remove_Forall.
Qed.

Lemma bt_sorted_alter f k m : bt_sorted m -> bt_sorted (bt_alter f k m).
Proof. unfold bt_alter. destruct (bt_get k m); auto using bt_sorted_insert. Qed.

Lemma bt_sorted_or_insert k v m : bt_sorted m -> bt_sorted (bt_or_insert k v m).
Proof. unfold bt_or_insert. destruct (bt_get k m); auto using bt_sorted_insert. Qed.

Lemma bt_sorted_NoDup m : bt_sorted m -> NoDup (bt_keys m).
Proof.
  unfold bt_sorted, bt_keys. induction 1 as [|[k v] m Hs IH Hlt]; cbn; constructor; [|done].
  intros Hin. apply list_elem_of_fmap in Hin as ([k' v'] & E & Hin). cbn in E. subst k'.
  apply (proj1 (Forall_elem _ _) Hlt) in Hin. cbn in Hin. by rewrite kcmp_refl in Hin.
Qed.

Lemma length_bt_remove_lt k v m : bt_get k m = Some v -> (length (bt_remove k m) < length m)%nat.
Proof.
  assert (forall m, length (bt_remove k m) <= length m)%nat as Hle.
  { clear m. induction m as [|[k' v'] m IH]; simpl; [done|]. destruct (kcmp k k'); simpl; lia. }
  induction m as [|[k' v'] m IH]; simpl; [done|].
  destruct (kcmp k k'); simpl; intros H; [specialize (Hle m)|specialize (IH H)..]; lia.
Qed.

Lemma bt_keys_insert_mem k v v' m :
  bt_sorted m -> bt_get k m = Some v' -> bt_keys (bt_insert k v m) = bt_keys m.
Proof.
  unfold bt_keys. induction m as [|[k2 v2] m IH]; simpl; [done|]. intros Hs. inversion_clear Hs as [|? ? Hs' Hlt].
  destruct (kcmp k k2) eqn:E; simpl; intros Hg.
  - apply kcmp_eq in E as ->. done.
  - apply bt_get_In in Hg. apply (proj1 (Forall_elem _ _) Hlt) in Hg. simpl in Hg.
    by rewrite kcmp_antisym, E in Hg.
  - f_equal. by apply IH.
Qed.

Lemma length_bt_insert_mem k v v' m :
  bt_sorted m -> bt_get k m = Some v' -> length (bt_insert k v m) = length m.
Proof.
  induction m as [|[k2 v2] m IH]; simpl; [done|]. intros Hs.
  destruct (kcmp k k2) eqn:E; simpl; intros Hg; [done| |].
  - apply bt_sorted_tail_gt in Hs as Hlt. rewrite bt_get_lt_None in Hg; [done|].
    eapply Forall_impl; [|exact Hlt]. intros e He. by eapply kcmp_trans.
  - inversion_clear Hs. rewrite IH; done.
Qed.

Lemma length_bt_insert_new k v m : bt_get k m = None -> length (bt_insert k v m) = S (length m).
Proof.
  induction m as [|[k2 v2] m IH]; simpl; [done|].
  destruct (kcmp k k2) eqn:E; simpl; intros Hg; simplify_eq; try done. by rewrite IH.
Qed.

Lemma length_bt_alter f k m : bt_sorted m -> length (bt_alter f k m) = length m.
Proof.
  intros. unfold bt_alter. destruct (bt_get k m) eqn:E; [|done]. by eapply length_bt_insert_mem.
Qed.

Lemma bt_get_alter f k m : bt_get k (bt_alter f k m) = f <$> bt_get k m.
Proof. unfold bt_alter. destruct (bt_get k m) eqn:E; simpl; [by rewrite bt_get_insert|done]. Qed.

Lemma bt_get_alter_ne f k k' m : k <> k' -> bt_get k' (bt_alter f k m) = bt_get k' m.
Proof. intros. unfold bt_alter. destruct (bt_get k m); [by rewrite bt_get_insert_ne|done]. Qed.

Lemma bt_find_Some p m k v : bt_find p m = Some (k, v) -> (k, v) ∈ m /\ p k v = true.
Proof.
  induction m as [|[k' v'] m IH]; simpl; [done|]. destruct (p k' v') eqn:E; intros H.
  - simplify_eq. split; [left|done].
  - apply IH in H as [??]. split; [by right|done].
Qed.

Lemma bt_find_None p m : bt_find p m = None <-> Forall (fun e => p e.1 e.2 = false) m.
Proof.
  induction m as [|[k v] m IH]; simpl; [by split|]. destruct (p k v) eqn:E; split; intros H.
  - done.
  - inversion_clear H. simpl in *. congruence.
  - constructor; [done|]. by apply IH.
  - inversion_clear H. by apply IH.
Qed.
End BTreeMap.

Arguments bt_empty {K V} : simpl never.
#[export] Hint Resolve bt_sorted_insert bt_sorted_remove bt_sorted_alter bt_sorted_or_insert : spark.
