(* ===== verification/RustStr.v ===== *)
(** Rust strings: a [&str] is its UTF-8 bytes.  The [str] methods the sources use. *)

From S2P Require Import Prelude.

(** The UTF-8 encodings of the code points with the Unicode [White_Space]
    property, which [char::is_whitespace] tests. *)
Definition ws_prefix (s : bytes) : nat :=
  match s with
  | b :: _ =>
      if ((9 <=? b) && (b <=? 13)) || (b =? 32) then 1%nat
      else match s with
      | 0xC2 :: c :: _ => if (c =? 0x85) || (c =? 0xA0) then 2%nat else 0%nat
      | 0xE1 :: 0x9A :: 0x80 :: _ => 3%nat
      | 0xE2 :: 0x80 :: c :: _ =>
          if ((0x80 <=? c) && (c <=? 0x8A)) || (c =? 0xA8) || (c =? 0xA9) || (c =? 0xAF)
          then 3%nat else 0%nat
      | 0xE2 :: 0x81 :: 0x9F :: _ => 3%nat
      | 0xE3 :: 0x80 :: 0x80 :: _ => 3%nat
      | _ => 0%nat
      end
  | [] => 0%nat
  end.

(** The same for the last code point, on the reversed bytes. *)
Definition ws_suffix_rev (r : bytes) : nat :=
  match r with
  | b :: r' =>
      if ((9 <=? b) && (b <=? 13)) || (b =? 32) then 1%nat
      else if (b <? 128) then 0%nat
      else match ws_prefix (reverse (take 2 r)) with
           | 2%nat => 2%nat
           | _ => match ws_prefix (reverse (take 3 r)) with 3%nat => 3%nat | _ => 0%nat end
           end
  | [] => 0%nat
  end.

Fixpoint trim_with (w : bytes -> nat) (fuel : nat) (s : bytes) : bytes :=
  match fuel with
  | O => s
  | S fuel' => match w s with O => s | n => trim_with w fuel' (drop n s) end
  end.

Definition trim_start (s : bytes) : bytes := trim_with ws_prefix (length s) s.
Definition trim_end (s : bytes) : bytes :=
  reverse (trim_with ws_suffix_rev (length s) (reverse s)).
(** [str::trim]. *)
Definition trim (s : bytes) : bytes := trim_end (trim_start s).

(** An ASCII byte that is not white space. *)
Definition graphic (b : Z) : bool := (32 <? b) && (b <? 128).

Lemma ws_prefix_graphic b s : graphic b = true -> ws_prefix (b :: s) = 0%nat.
Proof.
  unfold graphic. intros H. cbn [ws_prefix].
  replace (((9 <=? b) && (b <=? 13)) || (b =? 32)) with false by lia.
  destruct b as [|p|p]; try lia. do 8 (destruct p as [p|p|]; try lia; try done).
Qed.

Lemma ws_suffix_graphic b s : graphic b = true -> ws_suffix_rev (b :: s) = 0%nat.
Proof.
  unfold graphic. intros H. cbn [ws_suffix_rev].
  replace (((9 <=? b) && (b <=? 13)) || (b =? 32)) with false by lia.
  by replace (b <? 128) with true by lia.
Qed.

Lemma trim_graphic s : Forall (fun b => graphic b = true) s -> trim s = s.
Proof.
  intros Hs. unfold trim, trim_end, trim_start.
  replace (trim_with ws_prefix (length s) s) with s; cycle 1.
  { destruct Hs; cbn [trim_with length]; [done|]. by rewrite ws_prefix_graphic. }
  apply Forall_reverse in Hs. rewrite <- (reverse_involutive s) at 3. f_equal.
  rewrite <- (length_reverse s). destruct Hs; cbn [trim_with length]; [done|]. by rewrite ws_suffix_graphic.
Qed.

(** [u8::to_ascii_lowercase], [u8::eq_ignore_ascii_case]. *)
Definition ascii_lower (b : Z) : Z := if (65 <=? b) && (b <=? 90) then b + 32 else b.
(** [str::to_ascii_lowercase]. *)
Definition to_ascii_lowercase (s : bytes) : bytes := ascii_lower <$> s.
Definition eq_ignore_ascii_case (a b : Z) : bool := ascii_lower a =? ascii_lower b.

(** [std::str::from_utf8]: the well-formed byte sequences of the Unicode standard
    (no overlong forms, no surrogates, nothing above U+10FFFF), as the table in the
    standard library's validator. *)
Definition in_range (lo hi b : Z) : bool := (lo <=? b) && (b <=? hi).
Definition cont (b : Z) : bool := in_range 0x80 0xBF b.

Fixpoint utf8_valid_fuel (fuel : nat) (s : bytes) : bool :=
  match fuel with
  | O => false
  | S fuel' =>
      match s with
      | [] => true
      | a :: s1 =>
          if a <? 0x80 then utf8_valid_fuel fuel' s1
          else if in_range 0xC2 0xDF a then
            match s1 with b :: s2 => cont b && utf8_valid_fuel fuel' s2 | _ => false end
          else if in_range 0xE0 0xEF a then
            match s1 with
            | b :: c :: s3 =>
                in_range (if a =? 0xE0 then 0xA0 else 0x80) (if a =? 0xED then 0x9F else 0xBF) b
                && cont c && utf8_valid_fuel fuel' s3
            | _ => false
            end
          else if in_range 0xF0 0xF4 a then
            match s1 with
            | b :: c :: d :: s4 =>
                in_range (if a =? 0xF0 then 0x90 else 0x80) (if a =? 0xF4 then 0x8F else 0xBF) b
                && cont c && cont d && utf8_valid_fuel fuel' s4
            | _ => false
            end
          else false
      end
  end.
Definition utf8_valid (s : bytes) : bool := utf8_valid_fuel (S (length s)) s.

(** [str::split]: the pieces between occurrences of [c], one more than those. *)
Fixpoint split_on (c : Z) (s : bytes) : list bytes :=
  match s with
  | [] => [[]]
  | x :: s' =>
      if x =? c then [] :: split_on c s'
      else match split_on c s' with [] => [[x]] | p :: ps => (x :: p) :: ps end
  end.

(** [str::starts_with], [str::strip_prefix], [str::strip_suffix]. *)
Fixpoint strip_prefix (p s : bytes) : option bytes :=
  match p, s with
  | [], _ => Some s
  | x :: p, y :: s => if x =? y then strip_prefix p s else None
  | _ :: _, [] => None
  end.
Definition starts_with (p s : bytes) : bool := is_some (strip_prefix p s).
Definition strip_suffix (p s : bytes) : option bytes := reverse <$> strip_prefix (reverse p) (reverse s).

(** [str::contains] with a string pattern. *)
Fixpoint contains (p s : bytes) : bool :=
  starts_with p s || match s with [] => false | _ :: s => contains p s end.

Lemma strip_prefix_Some p s r : strip_prefix p s = Some r <-> s = p ++ r.
Proof.
  revert s. induction p as [|x p IH]; intros s; cbn; [split; [by intros [= ->]|by intros ->]|].
  destruct s as [|y s]; [done|]. destruct (Z.eqb_spec x y) as [->|Hn]; [rewrite IH; split; [by intros ->|by intros [= ->]]|].
  split; [done|]. intros [= -> _]. done.
Qed.

(** [str::trim] leaves nothing to trim. *)
Lemma ws_prefix_le s : (ws_prefix s <= length s)%nat.
Proof.
  destruct s as [|b s]; [done|]. cbn [ws_prefix length]. destruct (_ || _); [lia|].
  repeat match goal with |- context [match ?x with _ => _ end] => destruct x end; cbn [length]; lia.
Qed.
Lemma ws_prefix_app p q : ws_prefix p <> 0%nat -> ws_prefix (p ++ q) <> 0%nat.
Proof.
  destruct p as [|b p]; [done|]. cbn [ws_prefix app]. destruct (_ || _); [done|].
  repeat match goal with |- context [match ?x with _ => _ end] => is_var x; destruct x; cbn [app]; try done end; destruct (_ || _); done.
Qed.
Lemma ws_suffix_le r : (ws_suffix_rev r <= length r)%nat.
Proof.
  destruct r as [|b r]; [done|]. cbn [ws_suffix_rev length]. destruct (_ || _); [lia|]. destruct (b <? 128); [lia|].
  pose proof (ws_prefix_le (reverse (take 2 (b :: r)))) as H2. pose proof (ws_prefix_le (reverse (take 3 (b :: r)))) as H3. rewrite length_reverse, length_take in H2, H3. cbn [length] in H2, H3.
  destruct (ws_prefix (reverse (take 2 (b :: r)))) as [|[|[|n]]]; destruct (ws_prefix (reverse (take 3 (b :: r)))) as [|[|[|[|m]]]]; lia.
Qed.
Lemma trim_with_done w fuel s : (forall s, (w s <= length s)%nat) -> (length s <= fuel)%nat -> w (trim_with w fuel s) = 0%nat.
Proof.
  intros Hw. revert s. induction fuel as [|fuel IH]; intros s Hf; cbn [trim_with]; [pose proof (Hw s); lia|]. pose proof (Hw s) as Hs. destruct (w s) as [|n] eqn:E; [done|].
  apply IH. rewrite length_drop. lia.
Qed.
Lemma trim_with_suffix w fuel s : exists p, s = p ++ trim_with w fuel s.
Proof.
  revert s. induction fuel as [|fuel IH]; intros s; cbn [trim_with]; [by exists []|]. destruct (w s) as [|n]; [by exists []|].
  destruct (IH (drop (S n) s)) as [p Hp]. exists (take (S n) s ++ p). by rewrite <- app_assoc, <- Hp, take_drop.
Qed.
Lemma trim_with_0 w fuel s : w s = 0%nat -> trim_with w fuel s = s.
Proof. destruct fuel; cbn; [done|]. by intros ->. Qed.
Lemma trim_trim s : trim (trim s) = trim s.
Proof.
  unfold trim, trim_end. set (t := trim_start s). set (u := trim_with ws_suffix_rev (length t) (reverse t)).
  assert (ws_prefix t = 0%nat) as Ht by (apply trim_with_done; [apply ws_prefix_le|done]).
  assert (ws_suffix_rev u = 0%nat) as Hu by (apply trim_with_done; [apply ws_suffix_le|by rewrite length_reverse]).
  destruct (trim_with_suffix ws_suffix_rev (length t) (reverse t)) as [p Hp]. fold u in Hp.
  assert (ws_prefix (reverse u) = 0%nat) as Hr.
  { destruct (ws_prefix (reverse u)) eqn:E; [done|]. apply (f_equal reverse) in Hp. rewrite reverse_involutive, reverse_app in Hp. destruct (ws_prefix_app (reverse u) (reverse p)); [congruence|by rewrite <- Hp]. }
  unfold trim_start at 1 2. rewrite (trim_with_0 ws_prefix _ (reverse u) Hr), reverse_involutive. by rewrite trim_with_0.
Qed.
