(* ===== verification/Digits.v ===== *)
(** Regrouping bit strings: fixed-width digit lists and the accumulator loops
    (base32) that turn digits of one width into digits of another. *)

From S2P Require Import Prelude.

(** The [n] lowest [w]-bit digits of [v], most significant first. *)
Fixpoint to_digits (w : Z) (n : nat) (v : Z) : list Z :=
  match n with
  | O => []
  | S n' => to_digits w n' (v / 2 ^ w) ++ [v mod 2 ^ w]
  end.

Definition from_digits (w : Z) (l : list Z) : Z := fold_left (fun acc d => acc * 2 ^ w + d) l 0.

Lemma to_be_bytes_digits n v : to_be_bytes n v = to_digits 8 n v.
Proof. revert v. induction n as [|n IH]; intros v; cbn [to_be_bytes to_digits]; [done|]. by rewrite IH. Qed.

Lemma from_be_bytes_digits l : from_be_bytes l = from_digits 8 l.
Proof. done. Qed.

Lemma length_to_digits w n v : length (to_digits w n v) = n.
Proof. revert v. induction n as [|n IH]; intros v; simpl; [done|]. rewrite length_app, IH. simpl. lia. Qed.
#[export] Hint Rewrite length_to_digits : spark_len.

Lemma from_digits_snoc w l d : from_digits w (l ++ [d]) = from_digits w l * 2 ^ w + d.
Proof. unfold from_digits. by rewrite fold_left_app. Qed.

Lemma from_to_digits w n v : 0 < w -> from_digits w (to_digits w n v) = v mod 2 ^ (w * Z.of_nat n).
Proof.
  intros Hw. revert v. induction n as [|n IH]; intros v; cbn [to_digits].
  - rewrite Z.mul_0_r, Z.mod_1_r. done.
  - rewrite from_digits_snoc, IH. replace (w * Z.of_nat (S n)) with (w + w * Z.of_nat n) by lia.
    rewrite Z.pow_add_r by lia.
    rewrite Z.rem_mul_r by (try apply Z.pow_nonzero; try apply Z.pow_pos_nonneg; lia). lia.
Qed.

(** A window of a number: dropping [b] bits and keeping [c]. *)
Lemma div_mod_window a b c : 0 <= b -> 0 <= c -> (a / 2 ^ b) mod 2 ^ c = (a mod 2 ^ (b + c)) / 2 ^ b.
Proof.
  intros. rewrite Z.pow_add_r by lia.
  rewrite Z.rem_mul_r by (try apply Z.pow_nonzero; try apply Z.pow_pos_nonneg; lia).
  rewrite Z.mul_comm, Z.div_add by (apply Z.pow_nonzero; lia).
  rewrite (Z.div_small (a mod 2 ^ b)); [lia|]. apply Z.mod_pos_bound. apply Z.pow_pos_nonneg; lia.
Qed.

Lemma mod_pow2_mod a b c : 0 <= b <= c -> (a mod 2 ^ c) mod 2 ^ b = a mod 2 ^ b.
Proof.
  intros. replace c with (b + (c - b)) by lia. rewrite Z.pow_add_r by lia.
  rewrite Z.rem_mul_r by (try apply Z.pow_nonzero; try apply Z.pow_pos_nonneg; lia).
  rewrite Z.mul_comm, Z.mod_add by (apply Z.pow_nonzero; lia). apply Zmod_mod.
Qed.

(** [acc << w | v] on 64 bits keeps the low bits of the exact value. *)
Lemma acc_step acc V w v bits :
  0 <= bits -> 0 <= w -> bits + w <= 64 -> 0 <= v < 2 ^ w ->
  acc mod 2 ^ bits = V mod 2 ^ bits ->
  (Z.lor (wrap64 (Z.shiftl acc w)) v) mod 2 ^ (bits + w) = (V * 2 ^ w + v) mod 2 ^ (bits + w).
Proof.
  intros Hb Hw Hbw Hv Heq. unfold wrap. rewrite Z.shiftl_mul_pow2 by lia.
  assert (0 < 2 ^ w) by (apply Z.pow_pos_nonneg; lia).
  replace (2 ^ 64) with (2 ^ (64 - w) * 2 ^ w) by (rewrite <- Z.pow_add_r by lia; f_equal; lia).
  rewrite Z.mul_mod_distr_r by (try apply Z.pow_nonzero; lia).
  rewrite lor_disjoint_add by done.
  rewrite (Z.pow_add_r 2 bits) by lia.
  rewrite (Z.add_mod (_ * 2 ^ w) v), (Z.add_mod (V * 2 ^ w) v) by (apply Z.neq_mul_0; split; apply Z.pow_nonzero; lia).
  rewrite !Z.mul_mod_distr_r by (try apply Z.pow_nonzero; lia).
  rewrite mod_pow2_mod by lia. by rewrite Heq.
Qed.

(** Emitting one more [w]-bit digit. *)
Lemma push_digit (w : Z) (chr : Z -> Z) V acc bits k (out : list Z) :
  0 <= bits -> 0 < w -> acc mod 2 ^ (bits + w) = V mod 2 ^ (bits + w) ->
  out = chr <$> to_digits w k (V / 2 ^ (bits + w)) ->
  out ++ [chr (Z.land (Z.shiftr acc bits) (2 ^ w - 1))] = chr <$> to_digits w (S k) (V / 2 ^ bits).
Proof.
  intros Hb Hw Hacc ->. cbn [to_digits]. rewrite fmap_app. cbn [fmap list_fmap].
  rewrite Z.div_div, <- Z.pow_add_r by (try apply Z.pow_nonzero; try apply Z.pow_pos_nonneg; lia).
  do 3 f_equal. rewrite land_mask, shiftr_div by lia.
  rewrite !div_mod_window by lia. by rewrite Hacc.
Qed.
