(* ===== verification/F64.v ===== *)
(** IEEE 754 binary64 as the sources use it: the operations of the Standard
    Library's [SpecFloat] at the precision and exponent range of [f64], with the
    conversions and [max] of Rust. *)

From S2P Require Import Prelude.
From Stdlib Require Import Floats.SpecFloat.

Module f64.

Abbreviation t := spec_float.
Definition prec : Z := 53.
Definition emax : Z := 1024.

(** [m * 2^e] rounded to nearest even. *)
Definition of_dyadic (m e : Z) : t := binary_normalize prec emax m e false.

(** [u64 as f64], [u32 as f64]. *)
Definition of_int (z : Z) : t := of_dyadic z 0.

Definition add (x y : t) : t := SFadd prec emax x y.
Definition sub (x y : t) : t := SFsub prec emax x y.
Definition mul (x y : t) : t := SFmul prec emax x y.
Definition div (x y : t) : t := SFdiv prec emax x y.
Definition abs (x : t) : t := SFabs x.
Definition lt (x y : t) : bool := SFltb x y.
Definition le (x y : t) : bool := SFleb x y.

(** [f64::max]: the other operand if one is a NaN. *)
Definition max (x y : t) : t :=
  match x, y with
  | S754_nan, _ => y
  | _, S754_nan => x
  | _, _ => if lt x y then y else x
  end.
Definition min (x y : t) : t :=
  match x, y with
  | S754_nan, _ => y
  | _, S754_nan => x
  | _, _ => if lt y x then y else x
  end.

(** The saturating cast [f64 as uN]: a NaN gives 0, the fraction is dropped. *)
Definition trunc (x : t) : Z :=
  match x with
  | S754_finite false m e => Z.shiftl (Z.pos m) e
  | S754_finite true m e => - Z.shiftl (Z.pos m) e
  | _ => 0
  end.
Definition to_uint (w : Z) (x : t) : Z :=
  match x with
  | S754_infinity false => 2 ^ w - 1
  | S754_infinity true | S754_nan | S754_zero _ => 0
  | _ => Z.max 0 (Z.min (2 ^ w - 1) (trunc x))
  end.

Lemma to_uint_fits w x : 0 <= w -> fits w (to_uint w x).
Proof.
  intros. assert (0 < 2 ^ w) by lia.
  unfold to_uint, fits. destruct x as [| [] | | ]; lia.
Qed.

Example first_rto : to_uint 64 (max (add (of_int 137) (mul (of_int 4) (div (of_int 137) (of_int 2)))) (of_int 1)) = 411.
Proof. vm_compute. reflexivity. Qed.
Example dyadic_quarter : mul (of_dyadic 1 (-2)) (of_int 10) = of_dyadic 5 (-1).
Proof. vm_compute. reflexivity. Qed.

End f64.
