(* ===== verification/TunnelCrypto.v ===== *)
(** [dns-tunnel-core/src/crypto.rs]: lengths, the [ring] primitives as an
    interface, the key schedule, the AEAD wrappers and the base64 codec. *)

From S2P Require Import Prelude RustStr.

Module crypto.

Definition KEY_LEN : nat := 32.
Definition NONCE_LEN : nat := 12.
Definition TAG_LEN : nat := 16.
Definition SALT_LEN : nat := 16.
Definition CONN_ID_LEN : nat := 8.
Definition COMMIT_LEN : nat := 16.
Definition MIN_PSK_LEN : nat := 32.
Definition X25519_PUB_LEN : nat := 32.
Definition ED25519_PUB_LEN : nat := 32.
Definition ED25519_SIG_LEN : nat := 64.
Definition HKDF_BASE : bytes := lit "spark-dns-tunnel v1".

Inductive CryptoError :=
| BadBase64
| PskTooShort (got min : nat)
| Auth
| KeySetup
| Seal
| Rng
| BadKey
| Agreement
| BadSignature.

Inductive Cipher := ChaCha20Poly1305 | Aes256Gcm.

(** ** Base64 *)

Definition ALPHABET : bytes := lit "ABCDEFGHIJKLMNOPQRSTUVWXYZabcdefghijklmnopqrstuvwxyz0123456789+/".
Definition PAD : Z := 61.

Definition b64_char (i : Z) : Z := ALPHABET !!! Z.to_nat (Z.land i 0x3f).

(** The body of the loop over [data.chunks(3)]. *)
Definition encode_chunk (chunk : bytes) : bytes :=
  let b0 := chunk !!! 0%nat in
  let b1 := default 0 (chunk !! 1%nat) in
  let b2 := default 0 (chunk !! 2%nat) in
  let n := Z.lor (Z.lor (Z.shiftl b0 16) (Z.shiftl b1 8)) b2 in
  [ b64_char (Z.shiftr n 18);
    b64_char (Z.shiftr n 12);
    if (1 <? length chunk)%nat then b64_char (Z.shiftr n 6) else PAD;
    if (2 <? length chunk)%nat then b64_char n else PAD ].

Definition base64_encode (data : bytes) : bytes := concat (encode_chunk <$> chunks 3 data).

Definition val (c : Z) : option Z :=
  if (65 <=? c) && (c <=? 90) then Some (c - 65)
  else if (97 <=? c) && (c <=? 122) then Some (c - 97 + 26)
  else if (48 <=? c) && (c <=? 57) then Some (c - 48 + 52)
  else if c =? 43 then Some 62
  else if c =? 47 then Some 63
  else None.

(** [chunk.iter().rev().take_while(|c| c == '=').count()]. *)
Fixpoint leading_pads (r : bytes) : nat :=
  match r with
  | c :: r' => if c =? PAD then S (leading_pads r') else 0%nat
  | [] => 0%nat
  end.

(** The inner loop over [chunk.iter().enumerate()]: [acc = (acc << 6) | v]. *)
Fixpoint decode_acc (pad i : nat) (chunk : bytes) (acc : Z) : option Z :=
  match chunk with
  | [] => Some acc
  | c :: chunk' =>
      let! v := (if c =? PAD then if (i <? 4 - pad)%nat then None else Some 0 else val c) in
      decode_acc pad (S i) chunk' (wrap32 (Z.lor (Z.shiftl acc 6) v))
  end.

Definition decode_chunk (chunk : bytes) : option bytes :=
  let pad := leading_pads (reverse chunk) in
  if (2 <? pad)%nat then None else
  let! acc := decode_acc pad 0 chunk 0 in
  Some ([wrap8 (Z.shiftr acc 16)]
        ++ (if (pad <? 2)%nat then [wrap8 (Z.shiftr acc 8)] else [])
        ++ (if (pad <? 1)%nat then [wrap8 acc] else [])).

Fixpoint decode_chunks (cs : list bytes) : option bytes :=
  match cs with
  | [] => Some []
  | c :: cs' => let! o := decode_chunk c in let! r := decode_chunks cs' in Some (o ++ r)
  end.

Definition base64_decode (s : bytes) : option bytes :=
  let s := trim s in
  if (length s =? 0)%nat || negb (length s mod 4 =? 0)%nat then None
  else decode_chunks (chunks 4 s).

Definition decode_psk (b64 : bytes) : result CryptoError bytes :=
  let? psk := ok_or (base64_decode b64) BadBase64 in
  if (length psk <? MIN_PSK_LEN)%nat then Err (PskTooShort (length psk) MIN_PSK_LEN) else Ok psk.

Definition decode_server_pub (b64 : bytes) : result CryptoError bytes :=
  let? raw := ok_or (base64_decode b64) BadBase64 in
  if (length raw =? ED25519_PUB_LEN)%nat then Ok raw else Err BadKey.

(** ** The [ring] crate: an interface, the code of which is not in the repository *)

Class Ring := {
  LessSafeKey : Type;
  new_key : Cipher -> bytes -> option LessSafeKey;
  seal_in_place_append_tag : LessSafeKey -> bytes -> bytes -> option bytes;
  open_in_place : LessSafeKey -> bytes -> bytes -> option bytes;
  Ed25519KeyPair : Type;
  keypair_from_pkcs8 : bytes -> option Ed25519KeyPair;
  keypair_public : Ed25519KeyPair -> bytes;
  keypair_sign : Ed25519KeyPair -> bytes -> bytes;
  ed25519_verify : bytes -> bytes -> bytes -> bool;
  EphemeralPrivateKey : Type;
  compute_public_key : EphemeralPrivateKey -> option bytes;
  agree_ephemeral : EphemeralPrivateKey -> bytes -> option bytes;
  Prk : Type;
  hkdf_extract : bytes -> bytes -> Prk;
  hkdf_expand : Prk -> list bytes -> nat -> bytes;
  (** The state of the secure random generator, and the draws the code makes. *)
  Rand : Type;
  rand_fill : nat -> Rand -> option bytes * Rand;
  rand_ephemeral : Rand -> option EphemeralPrivateKey * Rand;
  rand_pkcs8 : Rand -> option bytes * Rand;
}.

(** What the sources rely on: the documented behaviour of the primitives. *)
Class RingLaws (R : Ring) := {
  new_key_ok c key : length key = KEY_LEN -> is_Some (new_key c key);
  seal_ok k n p : length n = NONCE_LEN -> bytes_ok p -> Z.of_nat (length p) <= 65535 ->
    is_Some (seal_in_place_append_tag k n p);
  seal_length k n p c : seal_in_place_append_tag k n p = Some c ->
    length c = (length p + TAG_LEN)%nat;
  seal_bytes k n p c : seal_in_place_append_tag k n p = Some c -> bytes_ok c;
  open_seal k n p c : seal_in_place_append_tag k n p = Some c -> open_in_place k n c = Some p;
  sign_length kp m : length (keypair_sign kp m) = ED25519_SIG_LEN;
  sign_bytes kp m : bytes_ok (keypair_sign kp m);
  verify_sign kp m : ed25519_verify (keypair_public kp) m (keypair_sign kp m) = true;
  public_length e p : compute_public_key e = Some p -> length p = X25519_PUB_LEN;
  public_bytes e p : compute_public_key e = Some p -> bytes_ok p;
  agree_sym a b pa pb : compute_public_key a = Some pa -> compute_public_key b = Some pb ->
    agree_ephemeral a pb = agree_ephemeral b pa;
  expand_length prk info n : (n <= 255 * 32)%nat -> length (hkdf_expand prk info n) = n;
  fill_length n r x r' : rand_fill n r = (Some x, r') -> length x = n;
  fill_bytes n r x r' : rand_fill n r = (Some x, r') -> bytes_ok x;
}.

Section WithRing.
Context {R : Ring}.

Record SessionKeys := mk_keys { up : bytes; down : bytes; handshake : bytes; commit : bytes }.

Definition expand (prk : Prk) (info : list bytes) (n : nat) : bytes := hkdf_expand prk info n.

Definition derive_session_keys (psk salt conn_id : bytes) : SessionKeys :=
  let prk := hkdf_extract salt psk in
  {| up := expand prk [HKDF_BASE; lit " up"; conn_id] KEY_LEN;
     down := expand prk [HKDF_BASE; lit " down"; conn_id] KEY_LEN;
     handshake := expand prk [HKDF_BASE; lit " hs"; conn_id] KEY_LEN;
     commit := expand prk [HKDF_BASE; lit " commit"; conn_id] COMMIT_LEN |}.

Definition derive_session_keys_ecdh (ee transcript : bytes) : SessionKeys :=
  let prk := hkdf_extract transcript ee in
  {| up := expand prk [HKDF_BASE; lit " up"] KEY_LEN;
     down := expand prk [HKDF_BASE; lit " down"] KEY_LEN;
     handshake := expand prk [HKDF_BASE; lit " hs"] KEY_LEN;
     commit := expand prk [HKDF_BASE; lit " commit"] COMMIT_LEN |}.

(** [struct ServerStatic], its constructor and accessors. *)
Record ServerStatic := mk_static { keypair : Ed25519KeyPair }.

Definition from_pkcs8 (pkcs8 : bytes) : result CryptoError ServerStatic :=
  match keypair_from_pkcs8 pkcs8 with Some kp => Ok (mk_static kp) | None => Err BadKey end.
(** [ServerStatic::generate]: a fresh private key, PKCS#8 encoded. *)
Definition generate_static (r : Rand) : result CryptoError bytes * Rand :=
  let '(doc, r') := rand_pkcs8 r in (ok_or doc Rng, r').
Definition public_key (s : ServerStatic) : bytes := keypair_public (keypair s).
Definition sign (s : ServerStatic) (msg : bytes) : bytes := keypair_sign (keypair s) msg.

Definition server_public_from_pkcs8 (pkcs8 : bytes) : result CryptoError bytes :=
  let? s := from_pkcs8 pkcs8 in Ok (public_key s).

Definition verify_server_sig (server_pub msg sig : bytes) : result CryptoError unit :=
  if ed25519_verify server_pub msg sig then Ok tt else Err BadSignature.

(** [struct Ephemeral]: a private key with its public key. *)
Record Ephemeral := mk_eph { private : EphemeralPrivateKey; eph_public : bytes }.

Definition generate (r : Rand) : result CryptoError Ephemeral * Rand :=
  let '(e, r') := rand_ephemeral r in
  (match e with
   | None => Err Rng
   | Some e => match compute_public_key e with None => Err Rng | Some pk => Ok (mk_eph e pk) end
   end, r').

Definition agree (e : Ephemeral) (peer_public : bytes) : result CryptoError bytes :=
  ok_or (agree_ephemeral (private e) peer_public) Agreement.

(** [struct Aead]. *)
Definition Aead := LessSafeKey.
Definition aead_new (c : Cipher) (key : bytes) : result CryptoError Aead := ok_or (new_key c key) KeySetup.
Definition seal (a : Aead) (nonce buf : bytes) : result CryptoError bytes :=
  ok_or (seal_in_place_append_tag a nonce buf) Seal.
Definition open (a : Aead) (nonce buf : bytes) : result CryptoError bytes :=
  ok_or (open_in_place a nonce buf) Auth.

Definition random (n : nat) (r : Rand) : result CryptoError bytes * Rand :=
  let '(x, r') := rand_fill n r in (ok_or x Rng, r').
Definition random_nonce (r : Rand) := random NONCE_LEN r.
Definition random_conn_id (r : Rand) := random CONN_ID_LEN r.
Definition random_salt (r : Rand) := random SALT_LEN r.
End WithRing.

(** ** Base64 round trip *)

Lemma alphabet_table :
  Forall (fun i => val (b64_char i) = Some i /\ b64_char i <> PAD /\ graphic (b64_char i) = true)
         (seqZ 0 64).
Proof. vm_compute. repeat (constructor; [split_and!; done|]). constructor. Qed.

Lemma b64_char_mod i : b64_char i = b64_char (i mod 64).
Proof.
  unfold b64_char. do 2 f_equal. change 0x3f with (2 ^ 6 - 1). rewrite !land_mask by lia.
  symmetry. apply Zmod_mod.
Qed.

Lemma b64_char_spec i :
  val (b64_char i) = Some (i mod 64) /\ (b64_char i =? PAD) = false /\ graphic (b64_char i) = true.
Proof.
  rewrite b64_char_mod.
  pose proof (proj1 (Forall_elem _ _) alphabet_table (i mod 64)) as H.
  destruct H as (Hv & Hp & Hg); [apply elem_of_seqZ; lia|]. split_and!; [done|by apply Z.eqb_neq|done].
Qed.

(** Three bytes packed big-endian, as the encoder packs them. *)
Lemma pack3 b0 b1 b2 : fits 8 b0 -> fits 8 b1 -> fits 8 b2 ->
  Z.lor (Z.lor (Z.shiftl b0 16) (Z.shiftl b1 8)) b2 = b0 * 65536 + b1 * 256 + b2.
Proof.
  unfold fits. change (2 ^ 8) with 256. intros.
  rewrite (Z.shiftl_mul_pow2 b1) by lia. rewrite lor_shiftl_add by lia.
  replace (b0 * 2 ^ 16 + b1 * 2 ^ 8) with ((b0 * 256 + b1) * 2 ^ 8) by lia.
  rewrite lor_disjoint_add by lia. lia.
Qed.

Lemma shift6_or acc v : 0 <= acc < 2 ^ 26 -> 0 <= v < 64 ->
  wrap32 (Z.lor (Z.shiftl acc 6) v) = acc * 64 + v.
Proof. intros. rewrite lor_shiftl_add by lia. apply wrap_small. unfold fits. lia. Qed.

Ltac b64_step :=
  repeat (first
    [ match goal with
      | |- context [b64_char ?i =? PAD] => rewrite (proj1 (proj2 (b64_char_spec i)))
      | |- context [val (b64_char ?i)] => rewrite (proj1 (b64_char_spec i))
      end
    | progress cbn -[wrap Z.lor Z.shiftl Z.shiftr val b64_char Z.modulo Z.add Z.mul PAD]
    | match goal with
      | |- context [wrap32 (Z.lor (Z.shiftl ?a 6) ?v)] =>
          lazymatch a with context [wrap32] => fail | _ => rewrite (shift6_or a v) by lia end
      end
    | rewrite Z.eqb_refl ]).

Lemma decode_encode_chunk c :
  bytes_ok c -> (1 <= length c <= 3)%nat -> decode_chunk (encode_chunk c) = Some c.
Proof.
  intros Hc Hlen. destruct c as [|b0 [|b1 [|b2 [|]]]]; simpl in Hlen; try lia;
    unfold decode_chunk, encode_chunk; cbn -[b64_char Z.lor Z.shiftl Z.shiftr PAD leading_pads decode_acc reverse];
    inv_Forall.
  - rewrite (pack3 b0 0 0) by (done || unfold fits; lia). rewrite !shiftr_div by lia.
    unfold fits in *. b64_step. rewrite !shiftr_div by lia. unfold wrap. do 2 f_equal. lia.
  - rewrite (pack3 b0 b1 0) by (done || unfold fits; lia). rewrite !shiftr_div by lia.
    unfold fits in *. b64_step. rewrite !shiftr_div by lia. unfold wrap. repeat f_equal; lia.
  - rewrite (pack3 b0 b1 b2) by done. rewrite !shiftr_div by lia.
    unfold fits in *. b64_step. rewrite !shiftr_div by lia. unfold wrap. repeat f_equal; lia.
Qed.

Lemma length_encode_chunk c : length (encode_chunk c) = 4%nat.
Proof. done. Qed.

Lemma encode_chunk_graphic c : Forall (fun b => graphic b = true) (encode_chunk c).
Proof. unfold encode_chunk. repeat constructor; try case_match; try apply b64_char_spec; done. Qed.

Lemma decode_encode_chunks cs :
  Forall (fun c => bytes_ok c /\ 1 <= length c <= 3)%nat cs ->
  decode_chunks (encode_chunk <$> cs) = Some (concat cs).
Proof.
  induction 1 as [|c cs [Hok Hlen] Hcs IH]; cbn [decode_chunks fmap list_fmap concat]; [done|].
  by rewrite decode_encode_chunk, IH.
Qed.

Lemma chunks_bytes_ok n (d : bytes) : (0 < n)%nat -> bytes_ok d -> Forall (fun c => bytes_ok c) (chunks n d).
Proof. intros Hn Hd. apply Forall_concat. by rewrite chunks_concat. Qed.

(** every non-empty byte string survives the base64 encoder followed by the
    decoder (white-space trimming, padding and length checks included). *)
Theorem base64_roundtrip d : bytes_ok d -> d <> [] -> base64_decode (base64_encode d) = Some d.
Proof.
  intros Hd Hne. unfold base64_decode, base64_encode.
  assert (Forall (fun c => length c = 4)%nat (encode_chunk <$> chunks 3 d)) as H4
    by (apply Forall_fmap, Forall_true; done).
  rewrite trim_graphic.
  2:{ apply Forall_concat, Forall_fmap, Forall_true. apply encode_chunk_graphic. }
  rewrite chunks_of_concat by (done || lia).
  assert (length (concat (encode_chunk <$> chunks 3 d)) = 4 * length (chunks 3 d))%nat as Hl.
  { rewrite (concat_length_const 4) by done. by rewrite length_fmap. }
  rewrite Hl, chunks_count by lia.
  destruct d as [|x d]; [done|]. cbn [length].
  assert (0 < (S (length d) + 3 - 1) / 3)%nat by lia.
  rewrite (proj2 (Nat.eqb_neq _ _)) by lia.
  rewrite (proj2 (Nat.eqb_eq _ _)) by lia. cbn [orb negb].
  rewrite decode_encode_chunks; [by rewrite chunks_concat by lia|].
  pose proof (chunks_bytes_ok 3 (x :: d) ltac:(lia) Hd) as H1.
  pose proof (chunks_bounds 3 ltac:(lia) (x :: d)) as H2.
  rewrite Forall_elem in H1, H2 |- *. auto.
Qed.

Lemma base64_roundtrip_witness : base64_decode (base64_encode (lit "any carnal")) = Some (lit "any carnal").
Proof. apply (base64_roundtrip (lit "any carnal")); [decided|discriminate]. Defined.
End crypto.
