(* ===== verification/RingModel.v ===== *)
(** A computable instance of the interface to the [ring] crate that satisfies its
    laws: it shows that the laws are consistent, and lets the sessions be run. *)

From S2P Require Import Prelude TunnelCrypto.

Module ring_model.
Import crypto.

(** A keyed checksum of [n] bytes. *)
Definition mac (n : nat) (key msg : bytes) : bytes := to_be_bytes n (from_be_bytes key * 31 + from_be_bytes msg).

Lemma length_mac n key msg : length (mac n key msg) = n.
Proof. apply length_to_be_bytes. Qed.

Definition toy_seal (k n p : bytes) : option bytes :=
  if decide (bytes_ok p) then Some (p ++ mac TAG_LEN (k ++ n) p) else None.
Definition toy_open (k n c : bytes) : option bytes :=
  let p := take (length c - TAG_LEN) c in
  if decide (drop (length c - TAG_LEN) c = mac TAG_LEN (k ++ n) p) then Some p else None.

#[export] Instance toy_ring : Ring := {|
  LessSafeKey := bytes;
  new_key _ key := if (length key =? KEY_LEN)%nat then Some key else None;
  seal_in_place_append_tag := toy_seal;
  open_in_place := toy_open;
  Ed25519KeyPair := bytes;
  keypair_from_pkcs8 k := Some k;
  keypair_public k := k;
  keypair_sign k m := mac ED25519_SIG_LEN k m;
  ed25519_verify pub m sig := bool_decide (sig = mac ED25519_SIG_LEN pub m);
  EphemeralPrivateKey := Z;
  compute_public_key e := Some (to_be_bytes X25519_PUB_LEN (e mod 256));
  agree_ephemeral e pub := Some (to_be_bytes X25519_PUB_LEN ((e mod 256) * from_be_bytes pub));
  Prk := bytes;
  hkdf_extract salt ikm := salt ++ ikm;
  hkdf_expand prk info n := take n (concat info ++ prk ++ replicate n 0);
  Rand := Z;
  rand_fill n r := (Some (to_be_bytes n r), r + 1);
  rand_ephemeral r := (Some r, r + 1);
  rand_pkcs8 r := (Some (to_be_bytes 32 r), r + 1);
|}.

#[export] Instance toy_laws : RingLaws toy_ring.
Proof.
  constructor; cbn [toy_ring new_key seal_in_place_append_tag open_in_place keypair_sign keypair_public ed25519_verify
    compute_public_key agree_ephemeral hkdf_expand rand_fill LessSafeKey Ed25519KeyPair EphemeralPrivateKey Prk Rand].
  - intros c key ->. by eexists.
  - intros k n p _ Hp _. unfold toy_seal. rewrite decide_True by done. by eexists.
  - intros k n p c. unfold toy_seal, mac. case_decide; [|done]. intros H1; apply (inj Some) in H1 as <-. by rewrite length_app, length_to_be_bytes.
  - intros k n p c. unfold toy_seal, mac. case_decide; [|done]. intros H1; apply (inj Some) in H1 as <-. apply Forall_app_2; [done|apply to_be_bytes_ok].
  - intros k n p c. unfold toy_seal, toy_open. case_decide; [|done]. intros H1; apply (inj Some) in H1 as <-.
    assert (length (p ++ mac TAG_LEN (k ++ n) p) - TAG_LEN = length p)%nat as ->
      by (rewrite length_app, length_mac; lia).
    rewrite take_app_length, drop_app_length.
    by rewrite decide_True.
  - intros. unfold mac. by rewrite length_to_be_bytes.
  - intros. apply to_be_bytes_ok.
  - intros. by apply bool_decide_eq_true.
  - intros e p H. apply (inj Some) in H as <-. by rewrite length_to_be_bytes.
  - intros e p H. apply (inj Some) in H as <-. apply to_be_bytes_ok.
  - intros a b pa pb H1 H2. apply (inj Some) in H1 as <-. apply (inj Some) in H2 as <-. rewrite !from_to_be_bytes_small by (unfold X25519_PUB_LEN; lia).
    by rewrite Z.mul_comm.
  - intros prk info n _. len.
  - intros n r x r' H. apply (f_equal fst), (inj Some) in H as <-. apply length_to_be_bytes.
  - intros n r x r' H. apply (f_equal fst), (inj Some) in H as <-. apply to_be_bytes_ok.
Qed.
End ring_model.
