(* ===== verification/TunnelFrame.v ===== *)
(** [dns-tunnel-core/src/frame.rs]: the inner frame codec, the three wire packet
    forms and the sealed data frame. *)

From S2P Require Import Prelude TunnelCrypto RingModel.

Module frame.
Import crypto.

Definition VERSION : Z := 1.
Definition FORM_SHORT : Z := 0x00.
Definition FORM_SYN : Z := 0x01.
Definition FORM_SYNACK : Z := 0x02.
Definition FLAG_STREAM : Z := 1.
Definition FLAG_SEQ : Z := 2.
Definition FLAG_FRAGMENT : Z := 4.
Definition FLAG_COMPRESSED : Z := 8.
Definition FLAG_KNOWN : Z :=
  Z.lor (Z.lor (Z.lor FLAG_STREAM FLAG_SEQ) FLAG_FRAGMENT) FLAG_COMPRESSED.

Inductive Kind :=
| Syn | SynAck | Data | Ack | Nack | Fin | Rst | KeepAlive | MtuProbe | MtuProbeResp | SetMtu.

#[export] Instance Kind_eq_dec : EqDecision Kind.
Proof. solve_decision. Defined.

(** The discriminants, [kind as u8]. *)
Definition kind_u8 (k : Kind) : Z :=
  match k with
  | Syn => 1 | SynAck => 2 | Data => 3 | Ack => 4 | Nack => 5 | Fin => 6 | Rst => 7
  | KeepAlive => 8 | MtuProbe => 9 | MtuProbeResp => 10 | SetMtu => 11
  end.

Definition from_u8 (v : Z) : option Kind :=
  match v with
  | 1 => Some Syn | 2 => Some SynAck | 3 => Some Data | 4 => Some Ack | 5 => Some Nack
  | 6 => Some Fin | 7 => Some Rst | 8 => Some KeepAlive | 9 => Some MtuProbe
  | 10 => Some MtuProbeResp | 11 => Some SetMtu
  | _ => None
  end.

Inductive FrameError :=
| Truncated
| Version (v : Z)
| UnknownKind (v : Z)
| UnknownFlags (v : Z)
| BadForm (v : Z)
| Crypto (e : CryptoError).

Record Frame := mk_frame {
  kind : Kind;
  stream_id : option Z;
  seq : option Z;
  fragment : option (Z * Z);
  comp_algo : option Z;
  payload : bytes;
}.
#[export] Instance Frame_eta : Settable Frame :=
  fun f => mk_frame (kind f) (stream_id f) (seq f) (fragment f) (comp_algo f) (payload f).

Definition new (k : Kind) : Frame := mk_frame k None None None None [].

(** ** The read cursor *)

Definition c_take (n : nat) (c : cursor) := cur_take Truncated n c.
Definition c_u8 (c : cursor) := cur_int Truncated 1 c.
Definition c_u16 (c : cursor) := cur_int Truncated 2 c.
Definition c_u32 (c : cursor) := cur_int Truncated 4 c.

(** ** The inner plaintext *)

Definition encode (f : Frame) : bytes :=
  let flags := 0 in
  let flags := if is_some (stream_id f) then Z.lor flags FLAG_STREAM else flags in
  let flags := if is_some (seq f) then Z.lor flags FLAG_SEQ else flags in
  let flags := if is_some (fragment f) then Z.lor flags FLAG_FRAGMENT else flags in
  let flags := if is_some (comp_algo f) then Z.lor flags FLAG_COMPRESSED else flags in
  [VERSION] ++ [kind_u8 (kind f)] ++ [flags]
  ++ (match stream_id f with Some s => to_be_bytes 2 s | None => [] end)
  ++ (match seq f with Some q => to_be_bytes 4 q | None => [] end)
  ++ (match fragment f with Some (i, c) => [i; c] | None => [] end)
  ++ (match comp_algo f with Some a => [a] | None => [] end)
  ++ payload f.

(** [if flags & FLAG != 0 { Some(read()?) } else { None }]. *)
Definition read_if {A} (present : bool) (read : cursor -> result FrameError (A * cursor))
    (c : cursor) : result FrameError (option A * cursor) :=
  if present then let? (v, c) := read c in Ok (Some v, c) else Ok (None, c).

Definition has (flags flag : Z) : bool := negb (Z.land flags flag =? 0).

Definition c_fragment (c : cursor) : result FrameError ((Z * Z) * cursor) :=
  let? (i, c) := c_u8 c in let? (n, c) := c_u8 c in Ok ((i, n), c).

Definition decode (buf : bytes) : result FrameError Frame :=
  let c := mk_cursor buf 0 in
  let? (version, c) := c_u8 c in
  if negb (version =? VERSION) then Err (Version version) else
  let? (k, c) := c_u8 c in
  let? k := ok_or (from_u8 k) (UnknownKind (buf !!! 1%nat)) in
  let? (flags, c) := c_u8 c in
  if negb (Z.land flags (255 - FLAG_KNOWN) =? 0) then Err (UnknownFlags flags) else
  let? (sid, c) := read_if (has flags FLAG_STREAM) c_u16 c in
  let? (sq, c) := read_if (has flags FLAG_SEQ) c_u32 c in
  let? (fr, c) := read_if (has flags FLAG_FRAGMENT) c_fragment c in
  let? (ca, c) := read_if (has flags FLAG_COMPRESSED) c_u8 c in
  Ok (mk_frame k sid sq fr ca (cur_rest c)).

(** ** Wire packets *)

Inductive Packet :=
| PSyn (conn_id client_eph : bytes)
| PSynAck (conn_id server_eph sig : bytes)
| PData (conn_id nonce ciphertext : bytes).

Definition conn_id (p : Packet) : bytes :=
  match p with PSyn id _ | PSynAck id _ _ | PData id _ _ => id end.

Definition parse_packet (buf : bytes) : result FrameError Packet :=
  let c := mk_cursor buf 0 in
  let? (form, c) := c_u8 c in
  let? (id, c) := c_take CONN_ID_LEN c in
  if form =? FORM_SYN then
    let? (eph, c) := c_take X25519_PUB_LEN c in Ok (PSyn id eph)
  else if form =? FORM_SYNACK then
    let? (eph, c) := c_take X25519_PUB_LEN c in
    let? (sg, c) := c_take ED25519_SIG_LEN c in Ok (PSynAck id eph sg)
  else if form =? FORM_SHORT then
    let? (nonce, c) := c_take NONCE_LEN c in
    let ct := cur_rest c in
    if (length ct <? TAG_LEN)%nat then Err Truncated else Ok (PData id nonce ct)
  else Err (BadForm form).

Definition build_syn (id client_eph : bytes) : bytes := [FORM_SYN] ++ id ++ client_eph.
Definition build_synack (id server_eph sig : bytes) : bytes := [FORM_SYNACK] ++ id ++ server_eph ++ sig.

Definition seal_short `{Ring} (aead : Aead) (id nonce : bytes) (f : Frame) : result CryptoError bytes :=
  let? ct := seal aead nonce (encode f) in
  Ok ([FORM_SHORT] ++ id ++ nonce ++ ct).

Definition open_frame `{Ring} (aead : Aead) (nonce ciphertext : bytes) : result FrameError Frame :=
  match open aead nonce ciphertext with
  | Ok plain => decode plain
  | Err e => Err (Crypto e)
  end.

(** ** Well-formedness: the field widths of [struct Frame] *)

Definition opt_ok {A} (P : A -> Prop) (o : option A) : Prop := match o with Some a => P a | None => True end.

Record frame_ok (f : Frame) : Prop := {
  ok_stream : opt_ok is_u16 (stream_id f);
  ok_seq : opt_ok is_u32 (seq f);
  ok_frag : opt_ok (fun p => is_u8 p.1 /\ is_u8 p.2) (fragment f);
  ok_comp : opt_ok is_u8 (comp_algo f);
  ok_payload : bytes_ok (payload f);
}.

(** ** The inner codec *)

Lemma from_kind_u8 k : from_u8 (kind_u8 k) = Some k.
Proof. by destruct k. Qed.

Lemma from_u8_kind v k : from_u8 v = Some k -> kind_u8 k = v.
Proof.
  unfold from_u8. destruct v as [|p|p]; try done.
  do 4 (try (destruct p as [p|p|]; try done)); intros; simplify_eq; done.
Qed.

(** The optional fields as the encoder writes them. *)
Definition field {A} (w : A -> bytes) (o : option A) : bytes := match o with Some a => w a | None => [] end.

Lemma read_if_at {A} (w : A -> bytes) rd o pre rest :
  (forall a pre rest, o = Some a -> rd (cur_at pre (w a ++ rest)) = Ok (a, cur_at (pre ++ w a) rest)) ->
  read_if (is_some o) rd (cur_at pre (field w o ++ rest)) =
    Ok (o, cur_at (pre ++ field w o) rest).
Proof.
  intros H. destruct o as [a|]; unfold read_if; cbn [field is_some].
  - by rewrite (H a).
  - by rewrite app_nil_l, app_nil_r.
Qed.

(** The flag byte as a function of the fields present. *)
Definition flags_of (a b c d : bool) : Z :=
  (if a then 1 else 0) + (if b then 2 else 0) + (if c then 4 else 0) + (if d then 8 else 0).

Lemma encode_eq f :
  encode f = [VERSION] ++ [kind_u8 (kind f)]
    ++ [flags_of (is_some (stream_id f)) (is_some (seq f)) (is_some (fragment f)) (is_some (comp_algo f))]
    ++ field (to_be_bytes 2) (stream_id f) ++ field (to_be_bytes 4) (seq f)
    ++ field (fun p => [p.1; p.2]) (fragment f) ++ field (fun a => [a]) (comp_algo f) ++ payload f.
Proof. destruct f as [k [] [] [[]|] [] p]; done. Qed.

Lemma flags_of_has a b c d (fl := flags_of a b c d) :
  Z.land fl (255 - FLAG_KNOWN) = 0 /\ has fl FLAG_STREAM = a /\ has fl FLAG_SEQ = b /\
  has fl FLAG_FRAGMENT = c /\ has fl FLAG_COMPRESSED = d.
Proof. destruct a, b, c, d; done. Qed.

Lemma flags_known_table :
  Forall (fun fl => Z.land fl (255 - FLAG_KNOWN) = 0 ->
    fl = flags_of (has fl FLAG_STREAM) (has fl FLAG_SEQ) (has fl FLAG_FRAGMENT) (has fl FLAG_COMPRESSED))
    (seqZ 0 256).
Proof. vm_compute. repeat (constructor; [done|]). constructor. Qed.

Lemma flags_known fl : is_u8 fl -> Z.land fl (255 - FLAG_KNOWN) = 0 ->
  fl = flags_of (has fl FLAG_STREAM) (has fl FLAG_SEQ) (has fl FLAG_FRAGMENT) (has fl FLAG_COMPRESSED).
Proof. intros. apply (proj1 (Forall_elem _ _) flags_known_table); [apply elem_of_seqZ; unfold fits in *; lia|done]. Qed.

Lemma c_u8_at b pre rest : c_u8 (cur_at pre ([b] ++ rest)) = Ok (b, cur_at (pre ++ [b]) rest).
Proof. unfold c_u8. rewrite cur_int_at by done. done. Qed.

Lemma decode_encode f : frame_ok f -> decode (encode f) = Ok f.
Proof.
  intros [Hs Hq Hf Hc Hp]. rewrite encode_eq. unfold decode. rewrite cur_at_nil, c_u8_at.
  cbn [Z.eqb Pos.eqb VERSION negb].
  rewrite c_u8_at, from_kind_u8. cbn [ok_or]. rewrite c_u8_at.
  destruct (flags_of_has (is_some (stream_id f)) (is_some (seq f)) (is_some (fragment f)) (is_some (comp_algo f)))
    as (-> & -> & -> & -> & ->). cbn [Z.eqb negb].
  rewrite read_if_at; cycle 1.
  { intros a ?? E. rewrite E in Hs. apply cur_int_be_at. exact Hs. }
  rewrite read_if_at; cycle 1.
  { intros a ?? E. rewrite E in Hq. apply cur_int_be_at. exact Hq. }
  rewrite (read_if_at (fun p => [p.1; p.2])); cycle 1.
  { intros [i n] pre rest _. unfold c_fragment. cbn [fst snd].
    change ([i; n] ++ rest) with ([i] ++ [n] ++ rest). rewrite c_u8_at, c_u8_at. by rewrite <- app_assoc. }
  rewrite (read_if_at (fun a => [a])) by (intros; apply c_u8_at).
  rewrite cur_rest_at. by destruct f.
Qed.

Lemma read_if_at_inv {A} (w : A -> bytes) (P : A -> Prop) rd b pre rest o c :
  bytes_ok rest ->
  (forall a c pre rest, bytes_ok rest -> rd (cur_at pre rest) = Ok (a, c) ->
     exists rest', rest = w a ++ rest' /\ c = cur_at (pre ++ w a) rest' /\ P a) ->
  read_if b rd (cur_at pre rest) = Ok (o, c) ->
  b = is_some o /\ opt_ok P o /\
  exists rest', rest = field w o ++ rest' /\ c = cur_at (pre ++ field w o) rest' /\ bytes_ok rest'.
Proof.
  intros Hok Hrd. unfold read_if. destruct b.
  - destruct (rd (cur_at pre rest)) as [[a c']|] eqn:E; [|done]. intros; simplify_eq.
    apply Hrd in E as (rest' & -> & -> & HP); [|done]. apply Forall_app in Hok as [_ Hok].
    split_and!; [done..|]. by exists rest'.
  - intros; simplify_eq. split_and!; [done..|]. exists rest. by rewrite app_nil_r.
Qed.

Lemma c_u8_ok a c pre rest :
  bytes_ok rest -> c_u8 (cur_at pre rest) = Ok (a, c) ->
  exists rest', rest = [a] ++ rest' /\ c = cur_at (pre ++ [a]) rest' /\ is_u8 a.
Proof.
  intros Hok H. apply cur_int_at_ok in H as (rest' & -> & -> & Hb); [|done].
  rewrite to_be_bytes_1 by exact Hb. eauto.
Qed.

Lemma c_fragment_ok a c pre rest :
  bytes_ok rest -> c_fragment (cur_at pre rest) = Ok (a, c) ->
  exists rest', rest = [a.1; a.2] ++ rest' /\ c = cur_at (pre ++ [a.1; a.2]) rest' /\ is_u8 a.1 /\ is_u8 a.2.
Proof.
  unfold c_fragment. intros Hok H.
  destruct (c_u8 _) as [[i c1]|] eqn:E1; [|done].
  apply c_u8_ok in E1 as (r1 & -> & -> & Hi); [|done]. inv_Forall.
  destruct (c_u8 _) as [[n c2]|] eqn:E2; [|done].
  apply c_u8_ok in E2 as (r2 & -> & -> & Hn); [|done]. simplify_eq/=.
  exists r2. rewrite <- app_assoc. done.
Qed.

Lemma decode_ok b f : bytes_ok b -> decode b = Ok f -> b = encode f /\ frame_ok f.
Proof.
  intros Hb. unfold decode. rewrite cur_at_nil.
  destruct (c_u8 _) as [[v c1]|] eqn:E1; [|done]. apply c_u8_ok in E1 as (r1 & -> & -> & _); [|done].
  destruct (Z.eqb_spec v VERSION) as [->|]; [|done]. cbn [negb]. inv_Forall.
  destruct (c_u8 _) as [[k c2]|] eqn:E2; [|done]. apply c_u8_ok in E2 as (r2 & -> & -> & _); [|done].
  destruct (from_u8 k) as [k'|] eqn:Ek; [|done]. cbn [ok_or]. apply from_u8_kind in Ek as <-. inv_Forall.
  destruct (c_u8 _) as [[fl c3]|] eqn:E3; [|done]. apply c_u8_ok in E3 as (r3 & -> & -> & Hfl); [|done].
  destruct (Z.eqb_spec (Z.land fl (255 - FLAG_KNOWN)) 0) as [Hk|]; [|done]. cbn [negb]. inv_Forall.
  apply flags_known in Hk; [|done].
  destruct (read_if (has fl FLAG_STREAM) _ _) as [[sid c4]|] eqn:E4; [|done].
  eapply (read_if_at_inv (to_be_bytes 2) is_u16) in E4 as (F1 & O1 & r4 & -> & -> & Hr4);
    [|done|by intros; eapply cur_int_at_ok].
  destruct (read_if (has fl FLAG_SEQ) _ _) as [[sq c5]|] eqn:E5; [|done].
  eapply (read_if_at_inv (to_be_bytes 4) is_u32) in E5 as (F2 & O2 & r5 & -> & -> & Hr5);
    [|done|by intros; eapply cur_int_at_ok].
  destruct (read_if (has fl FLAG_FRAGMENT) _ _) as [[fr c6]|] eqn:E6; [|done].
  eapply (read_if_at_inv (fun p => [p.1; p.2]) (fun p => is_u8 p.1 /\ is_u8 p.2))
    in E6 as (F3 & O3 & r6 & -> & -> & Hr6); [|done|by apply c_fragment_ok].
  destruct (read_if (has fl FLAG_COMPRESSED) _ _) as [[ca c7]|] eqn:E7; [|done].
  eapply (read_if_at_inv (fun a => [a]) is_u8) in E7 as (F4 & O4 & r7 & -> & -> & Hr7);
    [|done|by apply c_u8_ok].
  rewrite cur_rest_at. intros; simplify_eq. rewrite encode_eq. cbn -[to_be_bytes flags_of].
  split; [|by constructor]. rewrite F1, F2, F3, F4 in Hk. by rewrite Hk.
Qed.

(** C33: the inner frame codec is exact.  A byte string decodes to a frame exactly when it
    is that frame's encoding: nothing well-formed is lost on the way through the wire, and the
    decoder accepts no second spelling of a frame. *)
Theorem decode_iff_encode b f : bytes_ok b -> decode b = Ok f <-> b = encode f /\ frame_ok f.
Proof.
  intros Hb. split; [by apply decode_ok|]. intros [-> Hf]. by apply decode_encode.
Qed.

Lemma decode_iff_encode_witness :
  decode (encode ((new Data) <| stream_id := Some 7 |> <| seq := Some 9 |> <| payload := lit "hello" |>)) =
  Ok ((new Data) <| stream_id := Some 7 |> <| seq := Some 9 |> <| payload := lit "hello" |>).
Proof.
  apply (decode_iff_encode (encode ((new Data) <| stream_id := Some 7 |> <| seq := Some 9 |> <| payload := lit "hello" |>))); [decided|].
  split; [reflexivity|]. constructor; cbn [opt_ok stream_id seq fragment comp_algo payload]; try exact I; decided.
Defined.

(** ** The wire packets *)

(** The bytes that carry a packet. *)
Definition packet_bytes (p : Packet) : bytes :=
  match p with
  | PSyn id eph => build_syn id eph
  | PSynAck id eph sg => build_synack id eph sg
  | PData id nonce ct => [FORM_SHORT] ++ id ++ nonce ++ ct
  end.

(** The array lengths in [enum Packet], and the tag check on data packets. *)
Definition packet_ok (p : Packet) : Prop :=
  length (conn_id p) = CONN_ID_LEN /\
  match p with
  | PSyn _ eph => length eph = X25519_PUB_LEN
  | PSynAck _ eph sg => length eph = X25519_PUB_LEN /\ length sg = ED25519_SIG_LEN
  | PData _ nonce ct => length nonce = NONCE_LEN /\ (TAG_LEN <= length ct)%nat
  end.

(** What may follow a packet in the buffer: anything after a handshake packet,
    nothing after a data packet, whose ciphertext runs to the end. *)
Definition trailer_ok (p : Packet) (t : bytes) : Prop :=
  match p with PData _ _ _ => t = [] | _ => True end.

Lemma c_take_at n pre s rest :
  length s = n -> c_take n (cur_at pre (s ++ rest)) = Ok (s, cur_at (pre ++ s) rest).
Proof. intros. by apply cur_take_at. Qed.

Lemma c_take_ok n pre rest s c :
  c_take n (cur_at pre rest) = Ok (s, c) ->
  exists rest', rest = s ++ rest' /\ c = cur_at (pre ++ s) rest' /\ length s = n.
Proof.
  unfold c_take. intros H.
  destruct (cur_take_at_inv Truncated n pre rest _ eq_refl) as [[E ?]|(s' & rest' & -> & Hl & E)];
    rewrite E in H; simplify_eq. eauto.
Qed.

Lemma parse_packet_build p t : packet_ok p -> trailer_ok p t -> parse_packet (packet_bytes p ++ t) = Ok p.
Proof.
  intros [Hid Hp] Ht. unfold parse_packet. rewrite cur_at_nil.
  destruct p as [id eph|id eph sg|id nonce ct]; cbn [packet_bytes conn_id] in *;
    unfold build_syn, build_synack; rewrite <- !app_assoc, c_u8_at, c_take_at by done.
  - change (FORM_SYN =? FORM_SYN) with true. cbn iota. by rewrite c_take_at.
  - destruct Hp as [He Hs]. change (FORM_SYNACK =? FORM_SYN) with false.
    change (FORM_SYNACK =? FORM_SYNACK) with true. cbn iota. by rewrite !c_take_at.
  - destruct Hp as [Hn Hc]. cbn in Ht. subst t. change (FORM_SHORT =? FORM_SYN) with false.
    change (FORM_SHORT =? FORM_SYNACK) with false. change (FORM_SHORT =? FORM_SHORT) with true. cbn iota.
    rewrite c_take_at by done. rewrite cur_rest_at, app_nil_r.
    by rewrite (proj2 (Nat.ltb_ge _ _)).
Qed.

Lemma parse_packet_ok b p : bytes_ok b -> parse_packet b = Ok p ->
  packet_ok p /\ exists t, b = packet_bytes p ++ t /\ trailer_ok p t.
Proof.
  intros Hb. unfold parse_packet. rewrite cur_at_nil.
  destruct (c_u8 _) as [[fm c1]|] eqn:E1; [|done]. apply c_u8_ok in E1 as (r1 & -> & -> & _); [|done].
  destruct (c_take _ _) as [[id c2]|] eqn:E2; [|done]. apply c_take_ok in E2 as (r2 & -> & -> & Hid).
  destruct (Z.eqb_spec fm FORM_SYN) as [->|].
  { destruct (c_take _ _) as [[eph c3]|] eqn:E3; [|done]. apply c_take_ok in E3 as (r3 & -> & -> & He).
    intros; simplify_eq. split; [done|]. exists r3. unfold packet_bytes, build_syn. by rewrite <- !app_assoc. }
  destruct (Z.eqb_spec fm FORM_SYNACK) as [->|].
  { destruct (c_take _ _) as [[eph c3]|] eqn:E3; [|done]. apply c_take_ok in E3 as (r3 & -> & -> & He).
    destruct (c_take ED25519_SIG_LEN _) as [[sg c4]|] eqn:E4; [|done]. apply c_take_ok in E4 as (r4 & -> & -> & Hs).
    intros; simplify_eq. split; [done|]. exists r4. unfold packet_bytes, build_synack. by rewrite <- !app_assoc. }
  destruct (Z.eqb_spec fm FORM_SHORT) as [->|]; [|done].
  destruct (c_take NONCE_LEN _) as [[nonce c3]|] eqn:E3; [|done]. apply c_take_ok in E3 as (r3 & -> & -> & Hn).
  rewrite cur_rest_at. destruct (Nat.ltb_spec (length r3) TAG_LEN); [done|].
  intros; simplify_eq. split; [done|]. exists []. by rewrite app_nil_r.
Qed.

(** the wire packet parser accepts exactly the well-formed packets: the bytes of a packet
    with the declared array lengths, a data packet carrying at least an AEAD tag and running to
    the end of the buffer. *)
Theorem parse_packet_iff b p : bytes_ok b ->
  parse_packet b = Ok p <-> packet_ok p /\ exists t, b = packet_bytes p ++ t /\ trailer_ok p t.
Proof.
  intros Hb. split; [by apply parse_packet_ok|].
  intros (Hp & t & -> & Ht). by apply parse_packet_build.
Qed.

Lemma parse_packet_iff_witness :
  parse_packet (packet_bytes (PSyn (replicate 8 1) (replicate 32 2)) ++ lit "tail") = Ok (PSyn (replicate 8 1) (replicate 32 2)).
Proof.
  apply (parse_packet_iff (packet_bytes (PSyn (replicate 8 1) (replicate 32 2)) ++ lit "tail")); [decided|].
  split; [split; reflexivity|]. exists (lit "tail"). split; [reflexivity|exact I].
Defined.

Section Sealed.
Context {R : Ring} {RL : RingLaws R}.

Lemma seal_short_inv aead id nonce f wire :
  seal_short aead id nonce f = Ok wire ->
  exists ct, seal_in_place_append_tag aead nonce (encode f) = Some ct /\
    wire = packet_bytes (PData id nonce ct) /\ length ct = (length (encode f) + TAG_LEN)%nat.
Proof.
  unfold seal_short, seal. destruct (seal_in_place_append_tag _ _ _) as [ct|] eqn:E; [|done].
  cbn [ok_or]. intros [= <-]. exists ct. split_and!; [done..|]. by eapply seal_length.
Qed.

Lemma seal_short_open aead id nonce f wire :
  frame_ok f -> length id = CONN_ID_LEN -> length nonce = NONCE_LEN ->
  seal_short aead id nonce f = Ok wire ->
  exists ct, parse_packet wire = Ok (PData id nonce ct) /\ open_frame aead nonce ct = Ok f.
Proof.
  intros Hf Hid Hn Hs. apply seal_short_inv in Hs as (ct & Hct & -> & Hl). exists ct. split.
  - rewrite <- (app_nil_r (packet_bytes _)). apply parse_packet_build; [|done].
    split; [done|]. split; [done|]. rewrite Hl. lia.
  - unfold open_frame, open. rewrite (open_seal _ _ _ _ Hct). by apply decode_encode.
Qed.

Lemma encode_bytes f : frame_ok f -> bytes_ok (encode f).
Proof.
  intros [Hs Hq Hf Hc Hp]. rewrite encode_eq.
  assert (forall a b c d, is_byte (flags_of a b c d)) as Hfl by by intros [] [] [] [].
  repeat apply Forall_app_2; [by repeat constructor| |by constructor; [apply Hfl|]|..|done].
  - repeat constructor; by destruct (kind f).
  - destruct (stream_id f); [apply to_be_bytes_ok|constructor].
  - destruct (seq f); [apply to_be_bytes_ok|constructor].
  - destruct (fragment f) as [[i n]|]; [|constructor]. destruct Hf. constructor; [done|]. constructor; [done|constructor].
  - destruct (comp_algo f); [constructor; [done|constructor]|constructor].
Qed.

Lemma length_encode f : (length (encode f) <= 12 + length (payload f))%nat.
Proof. rewrite encode_eq. destruct f as [k [] [] [[]|] [] p]; cbn [field stream_id seq fragment comp_algo payload]; len. Qed.

(** Sealing succeeds, and adds exactly the form byte, the ConnectionID, the nonce and the tag. *)
Lemma seal_short_ok aead id nonce f :
  frame_ok f -> length id = CONN_ID_LEN -> bytes_ok id -> length nonce = NONCE_LEN -> bytes_ok nonce ->
  Z.of_nat (length (encode f)) <= 65535 ->
  exists wire, seal_short aead id nonce f = Ok wire /\ bytes_ok wire /\
    length wire = (1 + CONN_ID_LEN + NONCE_LEN + length (encode f) + TAG_LEN)%nat.
Proof.
  intros Hf Hid Hib Hn Hnb Hl. unfold seal_short, seal.
  destruct (seal_ok aead nonce (encode f) Hn (encode_bytes f Hf) Hl) as [ct Hct]. rewrite Hct. cbn [ok_or].
  eexists. split; [reflexivity|]. split.
  - apply Forall_app_2; [by repeat constructor|]. repeat apply Forall_app_2; [done..|]. by eapply seal_bytes.
  - rewrite !length_app, Hid, Hn, (seal_length _ _ _ _ Hct). cbn [length]. lia.
Qed.

(** a frame sealed into a data packet parses back to that packet and opens, under the
    same key, to the same frame; the wire is exactly the documented overhead longer. *)
Theorem seal_open_roundtrip aead id nonce f wire :
  frame_ok f -> length id = CONN_ID_LEN -> length nonce = NONCE_LEN ->
  seal_short aead id nonce f = Ok wire ->
  exists ct, parse_packet wire = Ok (PData id nonce ct) /\ open_frame aead nonce ct = Ok f /\
    length wire = (1 + CONN_ID_LEN + NONCE_LEN + length (encode f) + TAG_LEN)%nat.
Proof.
  intros Hf Hid Hn Hs. destruct (seal_short_open _ _ _ _ _ Hf Hid Hn Hs) as (ct & H1 & H2). exists ct.
  split_and!; [done..|]. apply seal_short_inv in Hs as (ct' & _ & -> & Hl).
  cbn [packet_bytes]. rewrite !length_app, Hid, Hn, Hl. cbn [length]. lia.
Qed.
End Sealed.

Lemma seal_open_roundtrip_witness :
  match @seal_short ring_model.toy_ring (replicate 32 5) (replicate 8 1) (replicate 12 2) ((new Data) <| payload := lit "hi" |>) with
  | Ok wire => length wire = (1 + CONN_ID_LEN + NONCE_LEN + length (encode ((new Data) <| payload := lit "hi" |>)) + TAG_LEN)%nat
  | Err _ => False
  end.
Proof.
  destruct (seal_short _ _ _ _) as [wire|] eqn:E.
  - destruct (@seal_open_roundtrip ring_model.toy_ring ring_model.toy_laws (replicate 32 5) (replicate 8 1) (replicate 12 2)
      ((new Data) <| payload := lit "hi" |>) wire) as (ct & _ & _ & H); [|reflexivity|reflexivity|exact E|exact H].
    constructor; cbn [opt_ok stream_id seq fragment comp_algo payload new]; try exact I; decided.
  - vm_compute in E. discriminate E.
Defined.
End frame.
