(* ===== verification/TunnelDns.v ===== *)
(** [dns-tunnel-core/src/dns.rs]: base32, domain names, the TXT query and answer. *)

From S2P Require Import Prelude RustStr Digits.

Module dns.

Definition TYPE_TXT : Z := 16.
Definition TYPE_SOA : Z := 6.
Definition TYPE_OPT : Z := 41.
Definition CLASS_IN : Z := 1.
Definition MAX_NAME_LEN : nat := 255.
Definition MAX_LABEL_LEN : nat := 63.
Definition MAX_CHAR_STRING : nat := 255.
Definition HEADER_LEN : nat := 12.

Inductive DnsError := Truncated | NameTooLong | BadBase32 | WrongZone | NoQuestion | BadPointer.

(** ** Base32 *)

Definition B32_ALPHABET : bytes := lit "abcdefghijklmnopqrstuvwxyz234567".
Definition b32_char (v : Z) : Z := B32_ALPHABET !!! Z.to_nat v.

(** The inner [while bits >= 5] loop; [bits] is at most 12 on entry, so that
    three rounds always exhaust it ([b32_drain_spec] leaves [bits mod 5]). *)
Fixpoint b32_drain (fuel : nat) (acc bits : Z) (out : bytes) : Z * bytes :=
  match fuel with
  | O => (bits, out)
  | S fuel' =>
      if 5 <=? bits then
        let bits := bits - 5 in
        b32_drain fuel' acc bits (out ++ [b32_char (Z.land (Z.shiftr acc bits) 0x1f)])
      else (bits, out)
  end.

Fixpoint b32_encode_loop (data : bytes) (acc bits : Z) (out : bytes) : Z * Z * bytes :=
  match data with
  | [] => (acc, bits, out)
  | b :: data' =>
      let acc := Z.lor (wrap64 (Z.shiftl acc 8)) b in
      let '(bits, out) := b32_drain 3 acc (bits + 8) out in
      b32_encode_loop data' acc bits out
  end.

Definition b32_encode (data : bytes) : bytes :=
  let '(acc, bits, out) := b32_encode_loop data 0 0 [] in
  if 0 <? bits then out ++ [b32_char (Z.land (wrap64 (Z.shiftl acc (5 - bits))) 0x1f)] else out.

Definition b32_val (c : Z) : option Z :=
  if (97 <=? c) && (c <=? 122) then Some (c - 97)
  else if (65 <=? c) && (c <=? 90) then Some (c - 65)
  else if (50 <=? c) && (c <=? 55) then Some (c - 50 + 26)
  else None.

Fixpoint b32_decode_loop (s : bytes) (acc bits : Z) (out : bytes) : option bytes :=
  match s with
  | [] => Some out
  | c :: s' =>
      let! v := b32_val c in
      let acc := Z.lor (wrap64 (Z.shiftl acc 5)) v in
      let bits := bits + 5 in
      if 8 <=? bits then
        let bits := bits - 8 in
        b32_decode_loop s' acc bits (out ++ [Z.land (Z.shiftr acc bits) 0xff])
      else b32_decode_loop s' acc bits out
  end.

Definition b32_decode (s : bytes) : option bytes := b32_decode_loop s 0 0 [].

(** ** Names *)

Record Name := mk_name { labels : list bytes }.

Fixpoint drop_while_eq (c : Z) (s : bytes) : bytes :=
  match s with x :: s' => if x =? c then drop_while_eq c s' else s | [] => [] end.
Definition trim_end_matches (c : Z) (s : bytes) : bytes := reverse (drop_while_eq c (reverse s)).

Fixpoint parse_labels (parts : list bytes) : result DnsError (list bytes) :=
  match parts with
  | [] => Ok []
  | b :: parts' =>
      if (length b =? 0)%nat || (MAX_LABEL_LEN <? length b)%nat then Err NameTooLong
      else let? ls := parse_labels parts' in Ok (b :: ls)
  end.

Definition DOT : Z := 46.
Definition parse (s : bytes) : result DnsError Name :=
  let s := trim_end_matches DOT s in
  if (length s =? 0)%nat then Ok (mk_name [])
  else let? ls := parse_labels (split_on DOT s) in Ok (mk_name ls).

Definition labels_len (ls : list bytes) : nat := sum_list_with (fun l => 1 + length l)%nat ls.
Definition wire_len (n : Name) : nat := labels_len (labels n) + 1.

Definition eq_ci (a b : bytes) : bool :=
  (length a =? length b)%nat && forallb (fun p => eq_ignore_ascii_case p.1 p.2) (zip a b).

(** ** The message reader *)

Definition r_take (n : nat) (c : cursor) := cur_take Truncated n c.
Definition r_skip (n : nat) (c : cursor) : result DnsError cursor := let? (_, c) := r_take n c in Ok c.
Definition r_u16 (c : cursor) := cur_int Truncated 2 c.
Definition r_u32 (c : cursor) := cur_int Truncated 4 c.
Definition r_u8 (c : cursor) := cur_int Truncated 1 c.

(** The loop of [read_labels]: each round consumes at least one byte, so that
    [S (remaining bytes)] rounds always reach a return ([read_labels_loop_fuel]). *)
Fixpoint read_labels_loop (fuel : nat) (total : nat) (acc : list bytes) (c : cursor)
    : result DnsError (list bytes * cursor) :=
  match fuel with
  | O => Err Truncated
  | S fuel' =>
      let? (len, c) := r_u8 c in
      if Z.land len 0xC0 =? 0x00 then
        if len =? 0 then Ok (acc, c) else
        let? (l, c) := r_take (Z.to_nat len) c in
        let total := (total + (1 + length l))%nat in
        if (MAX_NAME_LEN <? total)%nat then Err NameTooLong
        else read_labels_loop fuel' total (acc ++ [l]) c
      else if Z.land len 0xC0 =? 0xC0 then
        let? (_, c) := r_take 1 c in Ok (acc, c)
      else Err BadPointer
  end.

Definition read_labels (c : cursor) : result DnsError (list bytes * cursor) :=
  read_labels_loop (S (length (cur_buf c))) 0 [] c.

Fixpoint skip_name_loop (fuel : nat) (c : cursor) : result DnsError cursor :=
  match fuel with
  | O => Err Truncated
  | S fuel' =>
      let? (len, c) := r_u8 c in
      if Z.land len 0xC0 =? 0x00 then
        if len =? 0 then Ok c else
        let? c := r_skip (Z.to_nat len) c in skip_name_loop fuel' c
      else if Z.land len 0xC0 =? 0xC0 then r_skip 1 c
      else Err BadPointer
  end.

Definition skip_name (c : cursor) : result DnsError cursor := skip_name_loop (S (length (cur_buf c))) c.

(** ** Queries *)

Record Query := mk_query { q_txn_id : Z; q_data : bytes }.

Definition put_label (l : bytes) : bytes := [wrap8 (Z.of_nat (length l))] ++ l.
Definition put_labels (ls : list bytes) : bytes := concat (put_label <$> ls).

(** EDNS0 OPT: root name, TYPE, CLASS = UDP size, TTL = 0, RDLENGTH = 0. *)
Definition opt_rr (edns_udp : Z) : bytes :=
  [0] ++ to_be_bytes 2 TYPE_OPT ++ to_be_bytes 2 edns_udp ++ [0; 0; 0; 0] ++ to_be_bytes 2 0.

Definition build_query (txn_id : Z) (data : bytes) (zone : Name) (edns_udp : Z) : result DnsError bytes :=
  let enc := b32_encode data in
  let data_labels := if (length enc =? 0)%nat then [] else chunks MAX_LABEL_LEN enc in
  let name_len := (labels_len data_labels + wire_len zone)%nat in
  if (MAX_NAME_LEN <? name_len)%nat then Err NameTooLong else
  Ok (to_be_bytes 2 txn_id ++ [0x01; 0x00] ++ to_be_bytes 2 1 ++ to_be_bytes 2 0
      ++ to_be_bytes 2 0 ++ to_be_bytes 2 1
      ++ put_labels data_labels ++ put_labels (labels zone) ++ [0]
      ++ to_be_bytes 2 TYPE_TXT ++ to_be_bytes 2 CLASS_IN
      ++ opt_rr edns_udp).

Definition parse_query (buf : bytes) (zone : Name) : result DnsError Query :=
  let r := mk_cursor buf 0 in
  let? (txn_id, r) := r_u16 r in
  let? (_, r) := r_u16 r in
  let? (qd, r) := r_u16 r in
  let? (_, r) := r_u16 r in
  let? (_, r) := r_u16 r in
  let? (_, r) := r_u16 r in
  if qd <? 1 then Err NoQuestion else
  let? (ls, r) := read_labels r in
  if (length ls <? length (labels zone))%nat then Err WrongZone else
  let split := (length ls - length (labels zone))%nat in
  if negb (forallb (fun p => eq_ci p.1 p.2) (zip (drop split ls) (labels zone))) then Err WrongZone else
  let enc := concat (take split ls) in
  let? data := ok_or (b32_decode enc) BadBase32 in
  Ok (mk_query txn_id data).

(** ** Answers *)

Definition question_end (buf : bytes) : result DnsError nat :=
  let r := mk_cursor buf 0 in
  let? r := r_skip HEADER_LEN r in
  let qd := from_be_bytes [buf !!! 4%nat; buf !!! 5%nat] in
  if qd <? 1 then Err NoQuestion else
  let? r := skip_name r in
  let? r := r_skip 4 r in
  Ok (cur_pos r).

(** RDATA: the downlink in character-strings of at most 255 bytes. *)
Definition txt_rdata (downlink : bytes) : bytes :=
  if (length downlink =? 0)%nat then [0]
  else concat ((fun c => [wrap8 (Z.of_nat (length c))] ++ c) <$> chunks MAX_CHAR_STRING downlink).

Definition answer_header (request : bytes) (an ns : Z) : bytes :=
  let txn_id := from_be_bytes [request !!! 0%nat; request !!! 1%nat] in
  let req_flags := from_be_bytes [request !!! 2%nat; request !!! 3%nat] in
  to_be_bytes 2 txn_id ++ to_be_bytes 2 (Z.lor 0x8400 (Z.land req_flags 0x0100))
  ++ to_be_bytes 2 1 ++ to_be_bytes 2 an ++ to_be_bytes 2 ns ++ to_be_bytes 2 1.

(** [&request[HEADER_LEN..qend]]. *)
Definition question (request : bytes) (qend : nat) : bytes := take (qend - HEADER_LEN) (drop HEADER_LEN request).

Definition build_answer (request downlink : bytes) (edns_udp : Z) : result DnsError bytes :=
  let? qend := question_end request in
  let rdata := txt_rdata downlink in
  Ok (answer_header request 1 0
      ++ question request qend
      ++ [0xC0; 0x0C] ++ to_be_bytes 2 TYPE_TXT ++ to_be_bytes 2 CLASS_IN ++ to_be_bytes 4 0
      ++ to_be_bytes 2 (wrap16 (Z.of_nat (length rdata))) ++ rdata
      ++ opt_rr edns_udp).

Definition write_name (n : Name) : bytes := put_labels (labels n) ++ [0].

Definition build_nodata (request : bytes) (zone : Name) (edns_udp : Z) : result DnsError bytes :=
  let? qend := question_end request in
  let rd := write_name zone ++ write_name zone ++ to_be_bytes 4 1 ++ to_be_bytes 4 3600
            ++ to_be_bytes 4 600 ++ to_be_bytes 4 86400 ++ to_be_bytes 4 60 in
  Ok (answer_header request 0 1
      ++ question request qend
      ++ write_name zone ++ to_be_bytes 2 TYPE_SOA ++ to_be_bytes 2 CLASS_IN ++ to_be_bytes 4 60
      ++ to_be_bytes 2 (wrap16 (Z.of_nat (length rd))) ++ rd
      ++ opt_rr edns_udp).

Record Answer := mk_answer { a_txn_id : Z; a_data : bytes }.

(** The loop over the character-strings of one TXT RDATA. *)
Fixpoint char_strings (fuel : nat) (rdata : bytes) : result DnsError bytes :=
  match fuel with
  | O => Err Truncated
  | S fuel' =>
      match rdata with
      | [] => Ok []
      | clen :: rest =>
          match slice_get rest 0 (Z.to_nat clen) with
          | None => Err Truncated
          | Some s => let? more := char_strings fuel' (drop (Z.to_nat clen) rest) in Ok (s ++ more)
          end
      end
  end.

Fixpoint skip_questions (n : nat) (r : cursor) : result DnsError cursor :=
  match n with
  | O => Ok r
  | S n' => let? r := skip_name r in let? r := r_skip 4 r in skip_questions n' r
  end.

Fixpoint read_answers (n : nat) (data : bytes) (r : cursor) : result DnsError bytes :=
  match n with
  | O => Ok data
  | S n' =>
      let? r := skip_name r in
      let? (rtype, r) := r_u16 r in
      let? (_, r) := r_u16 r in
      let? (_, r) := r_u32 r in
      let? (rdlen, r) := r_u16 r in
      let? (rdata, r) := r_take (Z.to_nat rdlen) r in
      if rtype =? TYPE_TXT then
        let? s := char_strings (S (length rdata)) rdata in read_answers n' (data ++ s) r
      else read_answers n' data r
  end.

Definition parse_answer (buf : bytes) : result DnsError Answer :=
  let r := mk_cursor buf 0 in
  let? (txn_id, r) := r_u16 r in
  let? (_, r) := r_u16 r in
  let? (qd, r) := r_u16 r in
  let? (an, r) := r_u16 r in
  let? (_, r) := r_u16 r in
  let? (_, r) := r_u16 r in
  let? r := skip_questions (Z.to_nat qd) r in
  let? data := read_answers (Z.to_nat an) [] r in
  Ok (mk_answer txn_id data).

Example query_ex :
  let z := mk_name [lit "t"; lit "example"; lit "com"] in
  (let? q := build_query 0x1234 (lit "hello, world") z 1232 in parse_query q z)
  = Ok (mk_query 0x1234 (lit "hello, world")).
Proof. vm_compute. reflexivity. Qed.

Example answer_ex :
  let z := mk_name [lit "t"; lit "example"; lit "com"] in
  (let? q := build_query 7 (lit "x") z 1232 in
   let? a := build_answer q (replicate 300 65) 1232 in parse_answer a)
  = Ok (mk_answer 7 (replicate 300 65)).
Proof. vm_compute. reflexivity. Qed.

(** ** Base32 round trip *)

Lemma b32_drain_spec V fuel acc bits k out :
  0 <= bits < 5 * Z.of_nat fuel + 5 -> acc mod 2 ^ bits = V mod 2 ^ bits ->
  out = b32_char <$> to_digits 5 k (V / 2 ^ bits) ->
  exists k', b32_drain fuel acc bits out = (bits mod 5, b32_char <$> to_digits 5 k' (V / 2 ^ (bits mod 5))) /\
    5 * Z.of_nat k' + bits mod 5 = 5 * Z.of_nat k + bits.
Proof.
  revert bits k out. induction fuel as [|fuel IH]; intros bits k out Hb Hacc Hout; cbn [b32_drain].
  - exists k. rewrite Z.mod_small by lia. by subst.
  - destruct (Z.leb_spec 5 bits) as [Hge|Hlt].
    + destruct (IH (bits - 5) (S k) (out ++ [b32_char (Z.land (Z.shiftr acc (bits - 5)) 0x1f)])) as (k' & -> & Hk).
      * lia.
      * rewrite <- (mod_pow2_mod acc (bits - 5) bits), Hacc by lia. apply mod_pow2_mod. lia.
      * apply (push_digit 5 b32_char V acc (bits - 5) k); [lia..| |]; by replace (bits - 5 + 5) with bits by lia.
      * exists k'. replace ((bits - 5) mod 5) with (bits mod 5) in * by lia. split; [done|lia].
    + exists k. rewrite Z.mod_small by lia. by subst.
Qed.

Lemma b32_encode_loop_spec data : forall p acc bits out k,
  bytes_ok data -> 0 <= bits < 5 -> 8 * Z.of_nat (length p) = 5 * Z.of_nat k + bits ->
  acc mod 2 ^ bits = from_be_bytes p mod 2 ^ bits ->
  out = b32_char <$> to_digits 5 k (from_be_bytes p / 2 ^ bits) ->
  exists acc' bits' k', b32_encode_loop data acc bits out =
      (acc', bits', b32_char <$> to_digits 5 k' (from_be_bytes (p ++ data) / 2 ^ bits')) /\
    0 <= bits' < 5 /\ 8 * Z.of_nat (length (p ++ data)) = 5 * Z.of_nat k' + bits' /\
    acc' mod 2 ^ bits' = from_be_bytes (p ++ data) mod 2 ^ bits'.
Proof.
  induction data as [|b data IH]; intros p acc bits out k Hok Hbits Hlen Hacc Hout; cbn [b32_encode_loop].
  - exists acc, bits, k. rewrite app_nil_r. by subst.
  - inv_Forall.
    assert (Z.lor (wrap64 (Z.shiftl acc 8)) b mod 2 ^ (bits + 8) = from_be_bytes (p ++ [b]) mod 2 ^ (bits + 8)) as Hacc'.
    { rewrite from_be_bytes_snoc. apply acc_step; [lia..| |done]. done. }
    assert (out = b32_char <$> to_digits 5 k (from_be_bytes (p ++ [b]) / 2 ^ (bits + 8))) as Hout'.
    { rewrite Hout. do 2 f_equal. rewrite from_be_bytes_snoc, (Z.add_comm bits), Z.pow_add_r by lia.
      rewrite <- Z.div_div by (try apply Z.pow_nonzero; try apply Z.pow_pos_nonneg; lia).
      f_equal. unfold fits in *. clear -H. lia. }
    destruct (b32_drain_spec (from_be_bytes (p ++ [b])) 3 _ (bits + 8) k out ltac:(lia) Hacc' Hout')
      as (k' & -> & Hk').
    replace (p ++ b :: data) with ((p ++ [b]) ++ data) by by rewrite <- app_assoc.
    eapply IH; [done|slia| | |done].
    + rewrite length_app. cbn [length]. slia.
    + rewrite <- (mod_pow2_mod _ _ (bits + 8)), Hacc' by slia. apply mod_pow2_mod. slia.
Qed.

(** The encoding in closed form: the data as an integer, padded with zero bits to
    a whole number of base-32 digits. *)
Lemma b32_encode_eq data : bytes_ok data ->
  exists m s, 5 * Z.of_nat m = 8 * Z.of_nat (length data) + s /\ 0 <= s < 5 /\
    b32_encode data = b32_char <$> to_digits 5 m (from_be_bytes data * 2 ^ s).
Proof.
  intros Hok. unfold b32_encode.
  destruct (b32_encode_loop_spec data [] 0 0 [] 0%nat Hok) as (acc & bits & k & -> & Hbits & Hlen & Hacc);
    [lia|done|by rewrite !Z.mod_1_r|done|]. rewrite app_nil_l in *.
  destruct (Z.ltb_spec 0 bits).
  - exists (S k), (5 - bits). split_and!; [lia..|]. cbn [to_digits]. rewrite fmap_app. cbn [fmap list_fmap].
    set (V := from_be_bytes data) in *.
    replace (2 ^ 5) with (2 ^ bits * 2 ^ (5 - bits)) at 1 by (rewrite <- Z.pow_add_r by lia; f_equal; lia).
    rewrite Z.div_mul_cancel_r by (apply Z.pow_nonzero; lia).
    do 4 f_equal. change 0x1f with (2 ^ 5 - 1). rewrite land_mask by lia. unfold wrap.
    rewrite mod_pow2_mod by lia. rewrite Z.shiftl_mul_pow2 by lia.
    replace (2 ^ 5) with (2 ^ bits * 2 ^ (5 - bits)) by (rewrite <- Z.pow_add_r by lia; f_equal; lia).
    rewrite !Z.mul_mod_distr_r by (apply Z.pow_nonzero; lia). by rewrite Hacc.
  - exists k, 0. split_and!; [lia..|]. replace bits with 0 by lia. by rewrite Z.mul_1_r, Z.div_1_r.
Qed.

Lemma b32_table : Forall (fun v => b32_val (b32_char v) = Some v) (seqZ 0 32).
Proof. vm_compute. repeat (constructor; [done|]). constructor. Qed.

Lemma b32_val_char v : 0 <= v < 32 -> b32_val (b32_char v) = Some v.
Proof. intros. apply (proj1 (Forall_elem _ _) b32_table). apply elem_of_seqZ. lia. Qed.

Lemma to_digits_range w n v : 0 <= w -> Forall (fun d => 0 <= d < 2 ^ w) (to_digits w n v).
Proof.
  intros. revert v. induction n as [|n IH]; intros v; cbn [to_digits]; [constructor|].
  apply Forall_app; split; [apply IH|]. repeat constructor; apply Z.mod_pos_bound; lia.
Qed.

Lemma b32_decode_loop_spec ds : forall q acc bits out k,
  Forall (fun d => 0 <= d < 32) ds -> 0 <= bits < 8 -> 5 * Z.of_nat (length q) = 8 * Z.of_nat k + bits ->
  acc mod 2 ^ bits = from_digits 5 q mod 2 ^ bits ->
  out = to_digits 8 k (from_digits 5 q / 2 ^ bits) ->
  exists bits' k', b32_decode_loop (b32_char <$> ds) acc bits out =
      Some (to_digits 8 k' (from_digits 5 (q ++ ds) / 2 ^ bits')) /\
    0 <= bits' < 8 /\ 5 * Z.of_nat (length (q ++ ds)) = 8 * Z.of_nat k' + bits'.
Proof.
  induction ds as [|d ds IH]; intros q acc bits out k Hok Hbits Hlen Hacc Hout;
    cbn [b32_decode_loop fmap list_fmap].
  - exists bits, k. rewrite app_nil_r. by subst.
  - inv_Forall. rewrite b32_val_char by lia.
    assert (Z.lor (wrap64 (Z.shiftl acc 5)) d mod 2 ^ (bits + 5) = from_digits 5 (q ++ [d]) mod 2 ^ (bits + 5)) as Hacc'.
    { rewrite from_digits_snoc. apply acc_step; [lia..| |done]. done. }
    assert (out = to_digits 8 k (from_digits 5 (q ++ [d]) / 2 ^ (bits + 5))) as Hout'.
    { rewrite Hout. f_equal. rewrite from_digits_snoc, (Z.add_comm bits), Z.pow_add_r by lia.
      rewrite <- Z.div_div by (try apply Z.pow_nonzero; try apply Z.pow_pos_nonneg; lia).
      f_equal. clear -H. lia. }
    replace (q ++ d :: ds) with ((q ++ [d]) ++ ds) by by rewrite <- app_assoc.
    destruct (Z.leb_spec 8 (bits + 5)).
    + apply (IH _ _ _ _ (S k)); [done|slia|rewrite length_app; cbn [length]; slia| |].
      * rewrite <- (mod_pow2_mod _ _ (bits + 5)), Hacc' by slia. apply mod_pow2_mod. slia.
      * rewrite <- (list_fmap_id (to_digits 8 (S k) _)).
        apply (push_digit 8 id (from_digits 5 (q ++ [d])) _ (bits + 5 - 8) k); [lia..| |];
          replace (bits + 5 - 8 + 8) with (bits + 5) by lia; [done|]. by rewrite list_fmap_id.
    + apply (IH _ _ _ _ k); [done|slia|rewrite length_app; cbn [length]; slia|done|done].
Qed.

Lemma b32_roundtrip data : bytes_ok data -> b32_decode (b32_encode data) = Some data.
Proof.
  intros Hok. destruct (b32_encode_eq data Hok) as (m & s & Hm & Hs & ->). unfold b32_decode.
  destruct (b32_decode_loop_spec (to_digits 5 m (from_be_bytes data * 2 ^ s)) [] 0 0 [] 0%nat)
    as (bits & k & -> & Hb & Hk); [apply (to_digits_range 5); lia|lia|done|by rewrite !Z.mod_1_r|done|].
  rewrite app_nil_l, length_to_digits in Hk. rewrite app_nil_l, from_to_digits by lia.
  assert (k = length data) as -> by lia. assert (bits = s) as -> by lia.
  pose proof (from_be_bytes_bound data Hok) as Hv. replace (5 * Z.of_nat m) with (8 * Z.of_nat (length data) + s) by lia.
  assert (2 ^ s <> 0) by (apply Z.pow_nonzero; lia).
  rewrite Z.pow_add_r by lia. rewrite Z.mul_mod_distr_r by (done || apply Z.pow_nonzero; lia).
  rewrite Z.div_mul by done.
  rewrite Z.mod_small; [|rewrite Z.pow_mul_r by lia; exact Hv].
  rewrite <- to_be_bytes_digits. by rewrite to_from_be_bytes.
Qed.

Lemma length_b32_encode data : bytes_ok data -> length (b32_encode data) = ((8 * length data + 4) / 5)%nat.
Proof.
  intros Hok. destruct (b32_encode_eq data Hok) as (m & s & Hm & Hs & ->). len.
Qed.

(** ** Names on the wire *)

Definition label_ok (l : bytes) : Prop := bytes_ok l /\ (1 <= length l <= MAX_LABEL_LEN)%nat.
Definition name_ok (n : Name) : Prop := Forall label_ok (labels n).

(** *** Dotted names *)

Fixpoint join (c : Z) (ls : list bytes) : bytes :=
  match ls with [] => [] | l :: ls' => match ls' with [] => l | _ => l ++ c :: join c ls' end end.

Lemma split_on_nonempty c s : split_on c s <> [].
Proof. induction s as [|x s IH]; cbn; [done|]. destruct (x =? c); [done|]. by destruct (split_on c s). Qed.

Lemma join_split c s : join c (split_on c s) = s.
Proof.
  induction s as [|x s IH]; [done|]. cbn. pose proof (split_on_nonempty c s). destruct (Z.eqb_spec x c) as [->|].
  - cbn. destruct (split_on c s); [done|]. by rewrite IH.
  - destruct (split_on c s) as [|p ps]; [done|]. cbn in IH |- *. destruct ps; cbn; by f_equal.
Qed.

Lemma split_on_free c s : Forall (fun l => c ∉ l) (split_on c s).
Proof.
  induction s as [|x s IH]; cbn; [constructor; [apply not_elem_of_nil|constructor]|].
  destruct (Z.eqb_spec x c); [constructor; [apply not_elem_of_nil|done]|].
  pose proof (split_on_nonempty c s). destruct (split_on c s); [done|]. inversion IH; subst. constructor; [|done].
  apply not_elem_of_cons. split; [congruence|done].
Qed.

Lemma split_on_app c l s : c ∉ l -> split_on c (l ++ c :: s) = l :: split_on c s.
Proof.
  induction l as [|x l IH]; intros Hc; cbn; [by rewrite Z.eqb_refl|]. apply not_elem_of_cons in Hc as [Hx Hc].
  destruct (Z.eqb_spec x c); [congruence|]. by rewrite IH.
Qed.
Lemma split_on_end c l : c ∉ l -> split_on c l = [l].
Proof.
  induction l as [|x l IH]; intros Hc; cbn; [done|]. apply not_elem_of_cons in Hc as [Hx Hc].
  destruct (Z.eqb_spec x c); [congruence|]. by rewrite IH.
Qed.
Lemma split_on_join c ls : ls <> [] -> Forall (fun l => c ∉ l) ls -> split_on c (join c ls) = ls.
Proof.
  induction ls as [|l ls IH]; [done|]. intros _ H. inversion H as [|? ? Hl Hls]; subst. cbn.
  destruct ls as [|l' ls]; [by apply split_on_end|]. rewrite split_on_app by done. f_equal. by apply IH.
Qed.

(** No occurrence of [c] at the end. *)
Definition trimmed (c : Z) (s : bytes) : Prop := forall s' x, s = s' ++ [x] -> x <> c.

Lemma drop_while_eq_spec c s : exists k, s = replicate k c ++ drop_while_eq c s.
Proof.
  induction s as [|x s [k IH]]; [by exists 0%nat|]. cbn. destruct (Z.eqb_spec x c) as [->|]; [|by exists 0%nat].
  exists (S k). cbn. by rewrite <- IH.
Qed.
Lemma drop_while_eq_head c s x s' : drop_while_eq c s = x :: s' -> x <> c.
Proof. induction s as [|y s IH]; [done|]. cbn. destruct (Z.eqb_spec y c); [done|]. congruence. Qed.
Lemma drop_while_eq_replicate c k s : (forall x s', s = x :: s' -> x <> c) -> drop_while_eq c (replicate k c ++ s) = s.
Proof.
  intros H. induction k as [|k IH]; cbn; [|by rewrite Z.eqb_refl]. destruct s as [|x s]; [done|]. cbn.
  destruct (Z.eqb_spec x c) as [->|]; [by destruct (H c s eq_refl)|done].
Qed.

Lemma trim_end_spec c s : exists k, s = trim_end_matches c s ++ replicate k c /\ trimmed c (trim_end_matches c s).
Proof.
  unfold trim_end_matches. destruct (drop_while_eq_spec c (reverse s)) as [k E]. exists k. split.
  - rewrite <- (reverse_involutive s), E at 1. by rewrite reverse_app, reverse_replicate.
  - intros s' x E'. eapply drop_while_eq_head. rewrite <- (reverse_involutive (drop_while_eq c (reverse s))), E'.
    by rewrite reverse_snoc.
Qed.
Lemma trim_end_replicate c s k : trimmed c s -> trim_end_matches c (s ++ replicate k c) = s.
Proof.
  intros H. unfold trim_end_matches. rewrite reverse_app, reverse_replicate, drop_while_eq_replicate; [apply reverse_involutive|].
  intros x s' E. apply (H (reverse s')). by rewrite <- (reverse_involutive s), E, reverse_cons.
Qed.

Lemma trimmed_join c ls : Forall (fun l => (c ∉ l) /\ (1 <= length l)%nat) ls -> trimmed c (join c ls).
Proof.
  intros H. induction H as [|l ls [Hc Hl] Hls IH]; cbn; [intros ? ? E; by destruct s'|].
  assert (forall s' x, l = s' ++ [x] -> x <> c) as Ht.
  { intros s' x -> ->. apply Hc. apply elem_of_app. right. by apply list_elem_of_singleton. }
  destruct ls as [|l' ls]; [exact Ht|]. intros s' x E.
  assert (join c (l' :: ls) <> []) as Hne.
  { inversion Hls as [|? ? [_ Hl'] _]; subst. cbn. destruct l', ls; cbn in *; try done; lia. }
  destruct (exists_last Hne) as (j & y & Ej). rewrite Ej in E. rewrite app_comm_cons, app_assoc in E.
  apply app_inj_tail in E as [_ <-]. by eapply IH.
Qed.

Lemma parse_labels_iff parts ls : parse_labels parts = Ok ls <->
  ls = parts /\ Forall (fun l => 1 <= length l <= MAX_LABEL_LEN)%nat parts.
Proof.
  revert ls. induction parts as [|b parts IH]; intros ls; cbn [parse_labels].
  { split; [intros [= <-]; done|intros [-> _]; done]. }
  destruct (Nat.eqb_spec (length b) 0), (Nat.ltb_spec MAX_LABEL_LEN (length b)); cbn [orb].
  1-3: split; [done|intros [_ Hf]; inversion Hf; lia].
  destruct (parse_labels parts) as [ls'|].
  - destruct (IH ls') as [IH1 _]. destruct (IH1 eq_refl) as [-> Hf]. split; [intros [= <-]|intros [-> _]; done].
    split; [done|]. constructor; [lia|done].
  - split; [done|]. intros [-> Hf]. inversion Hf; subst. by discriminate (proj2 (IH parts) (conj eq_refl ltac:(eassumption))).
Qed.

Lemma length_put_labels ls : length (put_labels ls) = labels_len ls.
Proof.
  unfold put_labels. induction ls as [|l ls IH]; cbn [fmap list_fmap concat]; [done|].
  rewrite length_app, IH. done.
Qed.

Lemma labels_len_app a b : labels_len (a ++ b) = (labels_len a + labels_len b)%nat.
Proof. apply sum_list_with_app. Qed.

Lemma put_labels_app a b : put_labels (a ++ b) = put_labels a ++ put_labels b.
Proof. unfold put_labels. by rewrite fmap_app, concat_app. Qed.

Lemma short_len_table : Forall (fun v => Z.land v 0xC0 = 0) (seqZ 0 64).
Proof. vm_compute. repeat (constructor; [done|]). constructor. Qed.

Lemma short_len v : 0 <= v < 64 -> Z.land v 0xC0 = 0.
Proof. intros. apply (proj1 (Forall_elem _ _) short_len_table). apply elem_of_seqZ. lia. Qed.

Lemma r_u8_at b pre rest : r_u8 (cur_at pre ([b] ++ rest)) = Ok (b, cur_at (pre ++ [b]) rest).
Proof. unfold r_u8. by rewrite cur_int_at. Qed.

Lemma r_take_at n pre s rest : n = length s -> r_take n (cur_at pre (s ++ rest)) = Ok (s, cur_at (pre ++ s) rest).
Proof. apply cur_take_at. Qed.

Lemma r_u16_at pre s rest : length s = 2%nat -> r_u16 (cur_at pre (s ++ rest)) = Ok (from_be_bytes s, cur_at (pre ++ s) rest).
Proof. intros. by apply cur_int_at. Qed.

Lemma r_u32_at pre s rest : length s = 4%nat -> r_u32 (cur_at pre (s ++ rest)) = Ok (from_be_bytes s, cur_at (pre ++ s) rest).
Proof. intros. by apply cur_int_at. Qed.

Lemma read_labels_loop_put ls : forall fuel total acc pre rest,
  Forall label_ok ls -> (length ls < fuel)%nat -> (total + labels_len ls <= MAX_NAME_LEN)%nat ->
  read_labels_loop fuel total acc (cur_at pre (put_labels ls ++ [0] ++ rest)) =
    Ok (acc ++ ls, cur_at (pre ++ put_labels ls ++ [0]) rest).
Proof.
  induction ls as [|l ls IH]; intros fuel total acc pre rest Hok Hf Ht; destruct fuel as [|fuel]; cbn [length] in Hf; try lia.
  - cbn [read_labels_loop put_labels concat fmap list_fmap]. rewrite app_nil_l, r_u8_at. cbn [Z.land Z.eqb].
    by rewrite app_nil_r.
  - apply Forall_cons_iff in Hok as [[Hlb Hl] Hok]. unfold MAX_LABEL_LEN in Hl. cbn [read_labels_loop].
    unfold put_labels. cbn [fmap list_fmap concat]. unfold put_label at 1. rewrite <- !app_assoc, r_u8_at.
    rewrite wrap_small by (unfold fits; lia). rewrite short_len by lia. rewrite Z.eqb_refl.
    rewrite (proj2 (Z.eqb_neq _ _)) by lia. rewrite r_take_at by lia.
    change (labels_len (l :: ls)) with (1 + length l + labels_len ls)%nat in Ht.
    rewrite (proj2 (Nat.ltb_ge _ _)) by lia.
    change (concat (put_label <$> ls)) with (put_labels ls). rewrite (IH fuel) by (done || lia).
    rewrite <- !app_assoc. unfold put_label. rewrite wrap_small by (unfold fits; lia). by rewrite <- !app_assoc.
Qed.

Lemma eq_ci_refl l : eq_ci l l = true.
Proof.
  unfold eq_ci. rewrite Nat.eqb_refl. cbn [andb]. induction l as [|x l IH]; cbn; [done|].
  unfold eq_ignore_ascii_case at 1. by rewrite Z.eqb_refl.
Qed.

Lemma zone_match_refl ls : forallb (fun p => eq_ci p.1 p.2) (zip ls ls) = true.
Proof. induction ls as [|l ls IH]; cbn [zip zip_with forallb fst snd]; [done|]. by rewrite eq_ci_refl. Qed.

Lemma labels_len_ge ls : (length ls <= labels_len ls)%nat.
Proof.
  induction ls as [|l ls IH]; [done|].
  change (labels_len (l :: ls)) with (1 + length l + labels_len ls)%nat. cbn [length]. lia.
Qed.

Lemma b32_char_byte v : is_byte (b32_char v).
Proof.
  unfold b32_char. destruct (decide (Z.to_nat v < 32)%nat) as [Hlt|Hge].
  - assert (Forall (fun i => is_byte (B32_ALPHABET !!! i)) (seq 0 32)) as H
      by (vm_compute; repeat (constructor; [done|]); constructor).
    apply (proj1 (Forall_elem _ _) H). apply elem_of_seq. lia.
  - rewrite list_lookup_total_alt, lookup_ge_None_2 by (vm_compute length; lia). done.
Qed.

Lemma b32_encode_bytes data : bytes_ok data -> bytes_ok (b32_encode data).
Proof.
  intros H. destruct (b32_encode_eq data H) as (m & s & _ & _ & ->).
  apply Forall_fmap, Forall_true. intros v. apply b32_char_byte.
Qed.

(** The labels that carry the data. *)
Definition data_labels (data : bytes) : list bytes :=
  if (length (b32_encode data) =? 0)%nat then [] else chunks MAX_LABEL_LEN (b32_encode data).

Lemma data_labels_ok data : bytes_ok data -> Forall label_ok (data_labels data).
Proof.
  intros H. unfold data_labels. case_match; [constructor|].
  pose proof (chunks_bounds MAX_LABEL_LEN ltac:(unfold MAX_LABEL_LEN; lia) (b32_encode data)) as H1.
  assert (Forall (fun c => bytes_ok c) (chunks MAX_LABEL_LEN (b32_encode data))) as H2.
  { apply Forall_concat. rewrite chunks_concat by (unfold MAX_LABEL_LEN; lia). by apply b32_encode_bytes. }
  rewrite Forall_elem in H1, H2 |- *. intros l Hl. split; auto.
Qed.

Lemma data_labels_concat data : concat (data_labels data) = b32_encode data.
Proof.
  unfold data_labels. destruct (Nat.eqb_spec (length (b32_encode data)) 0) as [H|H].
  - by apply length_zero_iff_nil in H as ->.
  - apply chunks_concat. unfold MAX_LABEL_LEN; lia.
Qed.

Lemma build_query_inv txn data zone edns m :
  build_query txn data zone edns = Ok m ->
  (labels_len (data_labels data) + wire_len zone <= MAX_NAME_LEN)%nat /\
  m = to_be_bytes 2 txn ++ [0x01; 0x00] ++ to_be_bytes 2 1 ++ to_be_bytes 2 0
      ++ to_be_bytes 2 0 ++ to_be_bytes 2 1
      ++ put_labels (data_labels data ++ labels zone) ++ [0]
      ++ (to_be_bytes 2 TYPE_TXT ++ to_be_bytes 2 CLASS_IN ++ opt_rr edns).
Proof.
  unfold build_query. fold (data_labels data).
  destruct (Nat.ltb_spec MAX_NAME_LEN (labels_len (data_labels data) + wire_len zone)); [done|].
  intros [= <-]. split; [done|]. rewrite put_labels_app. by rewrite <- !app_assoc.
Qed.

Lemma read_labels_put ls pre rest :
  Forall label_ok ls -> (labels_len ls <= MAX_NAME_LEN)%nat ->
  read_labels (cur_at pre (put_labels ls ++ [0] ++ rest)) = Ok (ls, cur_at (pre ++ put_labels ls ++ [0]) rest).
Proof.
  intros. unfold read_labels. rewrite read_labels_loop_put; [done..| |done].
  pose proof (labels_len_ge ls). cbn [cur_at cur_buf]. rewrite !length_app, length_put_labels. lia.
Qed.

Lemma parse_build_query txn data zone edns m :
  is_u16 txn -> bytes_ok data -> name_ok zone -> build_query txn data zone edns = Ok m ->
  parse_query m zone = Ok (mk_query txn data).
Proof.
  intros Ht Hd Hz Hm. apply build_query_inv in Hm as [Hlen ->]. unfold parse_query.
  rewrite cur_at_nil. do 6 (rewrite r_u16_at by (done || apply length_to_be_bytes)).
  rewrite (from_to_be_bytes_small 2 1) by done. cbn [Z.ltb Z.compare Pos.compare Pos.compare_cont].
  unfold wire_len in Hlen. rewrite read_labels_put; cycle 1.
  { apply Forall_app; split; [by apply data_labels_ok|done]. }
  { rewrite labels_len_app. lia. }
  rewrite length_app. rewrite (proj2 (Nat.ltb_ge _ _)) by lia. rewrite Nat.add_sub.
  rewrite drop_app_length, take_app_length, zone_match_refl. cbn [negb].
  rewrite data_labels_concat, b32_roundtrip by done. cbn [ok_or].
  by rewrite from_to_be_bytes_small.
Qed.
(** ** Termination: the loops return before their fuel runs out *)

Lemma read_labels_loop_fuel f1 : forall f2 total acc pre rest,
  (length rest < f1)%nat -> (length rest < f2)%nat ->
  read_labels_loop f1 total acc (cur_at pre rest) = read_labels_loop f2 total acc (cur_at pre rest).
Proof.
  induction f1 as [|f1 IH]; intros f2 total acc pre rest H1 H2; [lia|]. destruct f2 as [|f2]; [lia|].
  cbn [read_labels_loop]. unfold r_u8, r_take.
  destruct (cur_int_at_inv Truncated 1 pre rest _ eq_refl) as [[-> ?]|(s & rest' & -> & Hs & ->)]; [done|].
  destruct (Z.land (from_be_bytes s) 0xC0 =? 0); [|done]. destruct (from_be_bytes s =? 0); [done|].
  destruct (cur_take_at_inv Truncated (Z.to_nat (from_be_bytes s)) (pre ++ s) rest' _ eq_refl)
    as [[-> ?]|(l & rest'' & -> & Hl & ->)]; [done|].
  case_match; [done|]. apply IH; len.
Qed.

Lemma skip_name_loop_local f1 : forall pre rest c,
  (length rest < f1)%nat -> skip_name_loop f1 (cur_at pre rest) = Ok c ->
  exists s rest', rest = s ++ rest' /\ c = cur_at (pre ++ s) rest' /\
    forall f2 pre2 rest2, (length s < f2)%nat ->
      skip_name_loop f2 (cur_at pre2 (s ++ rest2)) = Ok (cur_at (pre2 ++ s) rest2).
Proof.
  induction f1 as [|f1 IH]; intros pre rest c H1; [lia|]. cbn [skip_name_loop]. unfold r_u8, r_skip, r_take.
  destruct (cur_int_at_inv Truncated 1 pre rest _ eq_refl) as [[-> ?]|(s & rest' & -> & Hs & ->)]; [done|].
  assert (forall p r, cur_int Truncated 1 (cur_at p (s ++ r)) = Ok (from_be_bytes s, cur_at (p ++ s) r)) as Hu8
    by (intros; by apply cur_int_at).
  destruct (Z.land (from_be_bytes s) 0xC0 =? 0) eqn:E0; [destruct (from_be_bytes s =? 0) eqn:Ez|
    destruct (Z.land (from_be_bytes s) 0xC0 =? 0xC0) eqn:EC]; [..|done].
  - intros [= <-]. exists s, rest'. split_and!; [done..|]. intros [|f2] pre2 rest2 Hf; [lia|].
    cbn [skip_name_loop]. unfold r_u8. by rewrite Hu8, E0, Ez.
  - destruct (cur_take_at_inv Truncated (Z.to_nat (from_be_bytes s)) (pre ++ s) rest' _ eq_refl)
      as [[-> ?]|(l & rest'' & -> & Hl & ->)]; [done|].
    intros H. apply IH in H as (s' & rest3 & -> & -> & Hgen); [|len].
    exists (s ++ l ++ s'), rest3. rewrite <- !app_assoc. split_and!; [done..|]. intros [|f2] pre2 rest2 Hf; [lia|].
    rewrite <- !app_assoc. cbn [skip_name_loop]. unfold r_u8, r_skip, r_take. rewrite Hu8, E0, Ez.
    rewrite cur_take_at by done. rewrite Hgen by len. by rewrite <- !app_assoc.
  - destruct (cur_take_at_inv Truncated 1 (pre ++ s) rest' _ eq_refl)
      as [[-> ?]|(l & rest'' & -> & Hl & ->)]; [done|]. intros [= <-].
    exists (s ++ l), rest''. rewrite <- !app_assoc. split_and!; [done..|]. intros [|f2] pre2 rest2 Hf; [lia|].
    rewrite <- !app_assoc. cbn [skip_name_loop]. unfold r_u8, r_skip, r_take. rewrite Hu8, E0, EC.
    rewrite cur_take_at by done. by rewrite <- !app_assoc.
Qed.

(** A name that was skipped once is skipped alike wherever its bytes are copied to. *)
Lemma skip_name_local pre rest c :
  skip_name (cur_at pre rest) = Ok c ->
  exists s rest', rest = s ++ rest' /\ c = cur_at (pre ++ s) rest' /\
    forall pre2 rest2, skip_name (cur_at pre2 (s ++ rest2)) = Ok (cur_at (pre2 ++ s) rest2).
Proof.
  intros H. apply skip_name_loop_local in H as (s & rest' & -> & -> & Hgen); [|cbn; len].
  exists s, rest'. split_and!; [done..|]. intros. apply Hgen. cbn. len.
Qed.

(** ** The answer round trip *)

Lemma question_end_local request qend :
  question_end request = Ok qend ->
  exists hdr s t rest, request = hdr ++ s ++ t ++ rest /\ length hdr = HEADER_LEN /\ length t = 4%nat /\
    qend = (HEADER_LEN + length s + 4)%nat /\
    forall pre2 rest2, skip_name (cur_at pre2 (s ++ rest2)) = Ok (cur_at (pre2 ++ s) rest2).
Proof.
  unfold question_end, r_skip, r_take. rewrite cur_at_nil.
  destruct (cur_take_at_inv Truncated HEADER_LEN [] request _ eq_refl) as [[-> ?]|(hdr & r1 & -> & Hh & ->)]; [done|].
  case_match; [done|].
  destruct (skip_name _) as [c|] eqn:Hs; [|done]. apply skip_name_local in Hs as (s & r2 & -> & -> & Hgen).
  destruct (cur_take_at_inv Truncated 4 (([] ++ hdr) ++ s) r2 _ eq_refl) as [[-> ?]|(t & r3 & -> & Ht & ->)]; [done|].
  intros [= <-]. exists hdr, s, t, r3. split_and!; [done..| |done]. cbn [cur_at cur_pos]. len.
Qed.

Lemma char_strings_chunks cs : forall fuel,
  Forall (fun c => 1 <= length c <= MAX_CHAR_STRING)%nat cs ->
  (length (concat ((fun c => [wrap8 (Z.of_nat (length c))] ++ c) <$> cs)) < fuel)%nat ->
  char_strings fuel (concat ((fun c => [wrap8 (Z.of_nat (length c))] ++ c) <$> cs)) = Ok (concat cs).
Proof.
  induction cs as [|c cs IH]; intros [|fuel] Hc Hf; cbn [fmap list_fmap concat] in *; try (cbn in Hf; lia); [done|].
  apply Forall_cons_iff in Hc as [Hc Hcs]. unfold MAX_CHAR_STRING in Hc. rewrite <- app_assoc in *. cbn [app char_strings].
  rewrite wrap_small by (unfold fits; lia). rewrite Nat2Z.id.
  rewrite (slice_get_app [] c _ : slice_get (c ++ _) 0 (length c) = _). rewrite drop_app_length, IH; [done|done|]. cbn in Hf. len.
Qed.

Lemma char_strings_rdata downlink : char_strings (S (length (txt_rdata downlink))) (txt_rdata downlink) = Ok downlink.
Proof.
  unfold txt_rdata. destruct (Nat.eqb_spec (length downlink) 0) as [H|H].
  - by apply length_zero_iff_nil in H as ->.
  - rewrite char_strings_chunks; [|apply chunks_bounds; unfold MAX_CHAR_STRING; lia|lia].
    f_equal. apply chunks_concat. unfold MAX_CHAR_STRING; lia.
Qed.

Lemma skip_pointer pre rest : skip_name (cur_at pre ([0xC0; 0x0C] ++ rest)) = Ok (cur_at (pre ++ [0xC0; 0x0C]) rest).
Proof.
  unfold skip_name. generalize (length (cur_buf (cur_at pre ([0xC0; 0x0C] ++ rest)))). intros n.
  change ([0xC0; 0x0C] ++ rest) with ([0xC0] ++ [0x0C] ++ rest). cbn [skip_name_loop]. rewrite r_u8_at.
  change (Z.land 192 192 =? 0) with false. change (Z.land 192 192 =? 192) with true. unfold r_skip. cbn iota.
  rewrite r_take_at by done. by rewrite <- app_assoc.
Qed.

Lemma parse_build_answer request downlink edns m :
  bytes_ok (take 2 request) -> is_u16 (Z.of_nat (length (txt_rdata downlink))) ->
  build_answer request downlink edns = Ok m ->
  parse_answer m = Ok (mk_answer (from_be_bytes (take 2 request)) downlink).
Proof.
  intros Hok Hrd. unfold build_answer. destruct (question_end request) as [qend|] eqn:Hq; [|done].
  apply question_end_local in Hq as (hdr & s & t & rest & -> & Hh & Ht & -> & Hskip).
  assert (question (hdr ++ s ++ t ++ rest) (HEADER_LEN + length s + 4) = s ++ t) as ->.
  { unfold question. rewrite <- Hh, drop_app_length, (app_assoc s t). apply take_app_length'. len. }
  unfold answer_header. intros H. apply Ok_inj in H as <-.
  rewrite <- !app_assoc. unfold parse_answer. rewrite cur_at_nil.
  do 6 (rewrite r_u16_at by apply length_to_be_bytes).
  rewrite !(from_to_be_bytes_small 2 1) by done. change (Z.to_nat 1) with 1%nat. cbn [skip_questions read_answers].
  rewrite Hskip. unfold r_skip. rewrite r_take_at by done. rewrite skip_pointer.
  do 2 (rewrite r_u16_at by apply length_to_be_bytes). rewrite r_u32_at by apply length_to_be_bytes.
  rewrite r_u16_at by apply length_to_be_bytes. rewrite (from_to_be_bytes_small 2 TYPE_TXT) by done.
  change (TYPE_TXT =? TYPE_TXT) with true. cbn iota.
  rewrite (wrap_small 16 _ Hrd), (from_to_be_bytes_small 2 (Z.of_nat _)), Nat2Z.id by done.
  rewrite r_take_at by done. rewrite char_strings_rdata. cbn [app].
  destruct hdr as [|b0 [|b1 hdr]]; [done..|]. cbn [app take] in *.
  change ((b0 :: b1 :: hdr ++ s ++ t ++ rest) !!! 0%nat) with b0.
  change ((b0 :: b1 :: hdr ++ s ++ t ++ rest) !!! 1%nat) with b1.
  rewrite from_to_be_bytes_small; [done|]. by apply from_be_bytes_bound in Hok.
Qed.

(** ** Case insensitivity (DNS 0x20): resolvers may flip the case of any letter of the name *)

Definition same_ci (a b : Z) : Prop := ascii_lower a = ascii_lower b.

Lemma same_ci_cases a b : same_ci a b ->
  a = b \/ (65 <= a <= 90 /\ b = a + 32) \/ (65 <= b <= 90 /\ a = b + 32).
Proof. unfold same_ci, ascii_lower. repeat case_match; lia. Qed.

Lemma letter_table : Forall (fun v => Z.land v 0xC0 = 0x40) (seqZ 64 64).
Proof. vm_compute. repeat (constructor; [done|]). constructor. Qed.

Lemma letter_top v : 64 <= v < 128 -> Z.land v 0xC0 = 0x40.
Proof. intros. apply (proj1 (Forall_elem _ _) letter_table). apply elem_of_seqZ. lia. Qed.

Lemma b32_val_ci a b : same_ci a b -> b32_val a = b32_val b.
Proof.
  intros [->|[[? ->]|[? ->]]]%same_ci_cases; [done|..]; unfold b32_val.
  - rewrite (proj2 (Z.leb_gt 97 a)) by lia. repeat case_match; try lia. f_equal; lia.
  - rewrite (proj2 (Z.leb_gt 97 b)) by lia. repeat case_match; try lia. f_equal; lia.
Qed.

Lemma b32_decode_loop_ci s s' : Forall2 same_ci s s' -> forall acc bits out,
  b32_decode_loop s acc bits out = b32_decode_loop s' acc bits out.
Proof.
  induction 1 as [|a b s s' Hab _ IH]; intros; [done|]. cbn [b32_decode_loop].
  rewrite (b32_val_ci a b Hab). destruct (b32_val b); [|done]. case_match; apply IH.
Qed.

Lemma eq_ci_ci l l' z : Forall2 same_ci l l' -> eq_ci l z = eq_ci l' z.
Proof.
  intros H. unfold eq_ci. rewrite (Forall2_length H). f_equal. revert z.
  induction H as [|a b l l' Hab _ IH]; intros [|c z]; [done..|]. cbn [zip zip_with forallb fst snd].
  rewrite IH. unfold eq_ignore_ascii_case at 1 3. by rewrite Hab.
Qed.

Lemma zone_match_ci ls ls' zs : Forall2 (Forall2 same_ci) ls ls' ->
  forallb (fun p => eq_ci p.1 p.2) (zip ls zs) = forallb (fun p => eq_ci p.1 p.2) (zip ls' zs).
Proof.
  intros H. revert zs. induction H as [|l l' ls ls' Hl _ IH]; intros [|z zs]; [done..|].
  cbn [zip zip_with forallb fst snd]. by rewrite (eq_ci_ci l l'), IH.
Qed.

(** Two label readers that agree up to case. *)
Inductive labels_ci : result DnsError (list bytes * cursor) -> result DnsError (list bytes * cursor) -> Prop :=
| labels_ci_ok ls ls' c c' : Forall2 (Forall2 same_ci) ls ls' -> labels_ci (Ok (ls, c)) (Ok (ls', c'))
| labels_ci_err e : labels_ci (Err e) (Err e).

Lemma read_labels_loop_ci fuel : forall total acc acc' pre pre' rest rest',
  Forall2 (Forall2 same_ci) acc acc' -> Forall2 same_ci rest rest' ->
  labels_ci (read_labels_loop fuel total acc (cur_at pre rest)) (read_labels_loop fuel total acc' (cur_at pre' rest')).
Proof.
  induction fuel as [|fuel IH]; intros total acc acc' pre pre' rest rest' Hacc Hr; cbn [read_labels_loop]; [constructor|].
  destruct Hr as [|a b rest rest' Hab Hr].
  { unfold r_u8. rewrite !cur_int_short by (cbn; lia). constructor. }
  change (a :: rest) with ([a] ++ rest). change (b :: rest') with ([b] ++ rest'). rewrite !r_u8_at.
  apply same_ci_cases in Hab as [->|[[? ->]|[? ->]]]; [|rewrite !letter_top by lia; constructor..].
  destruct (Z.land b 192 =? 0).
  - destruct (b =? 0); [by constructor|]. unfold r_take.
    destruct (cur_take_at_inv Truncated (Z.to_nat b) (pre ++ [b]) rest _ eq_refl) as [[-> Hlen]|(l & r1 & -> & Hl & ->)].
    { rewrite (Forall2_length Hr) in Hlen. rewrite cur_take_short by done. constructor. }
    apply Forall2_app_inv_l in Hr as (l' & r1' & Hll & Hr & ->).
    rewrite cur_take_at by (rewrite <- (Forall2_length Hll); done). rewrite <- (Forall2_length Hll).
    case_match; [constructor|]. apply IH; [|done]. apply Forall2_app; [done|by repeat constructor].
  - destruct (Z.land b 192 =? 192); [|constructor]. unfold r_take.
    destruct Hr as [|x y rest rest' Hxy Hr]; [rewrite !cur_take_short by (cbn; lia); constructor|].
    rewrite (cur_take_at _ 1 _ [x] rest), (cur_take_at _ 1 _ [y] rest') by done. by constructor.
Qed.

Lemma read_labels_ci pre rest rest' : Forall2 same_ci rest rest' ->
  labels_ci (read_labels (cur_at pre rest)) (read_labels (cur_at pre rest')).
Proof.
  intros H. unfold read_labels.
  replace (length (cur_buf (cur_at pre rest))) with (length (cur_buf (cur_at pre rest')))
    by (cbn; rewrite !length_app, (Forall2_length H); done).
  by apply read_labels_loop_ci.
Qed.

Lemma parse_query_ci hdr body body' zone :
  length hdr = HEADER_LEN -> Forall2 same_ci body body' ->
  parse_query (hdr ++ body) zone = parse_query (hdr ++ body') zone.
Proof.
  intros Hh Hb.
  assert (exists h0 h1 h2 h3 h4 h5, hdr = h0 ++ h1 ++ h2 ++ h3 ++ h4 ++ h5 /\ Forall (fun h => length h = 2%nat) [h0;h1;h2;h3;h4;h5])
    as (h0 & h1 & h2 & h3 & h4 & h5 & -> & Hl).
  { do 13 (destruct hdr as [|? hdr]; try done). 
    eexists [_; _], [_; _], [_; _], [_; _], [_; _], [_; _]. split; [done|]. by repeat constructor. }
  inv_Forall. unfold parse_query. rewrite !cur_at_nil, <- !app_assoc.
  do 6 (rewrite 2!r_u16_at by done). case_match; [done|].
  match goal with |- context [cur_at ?pre body] =>
    destruct (read_labels_ci pre body body' Hb) as [ls ls' c c' Hls|]; [|done] end.
  rewrite (Forall2_length Hls). case_match; [done|].
  rewrite (zone_match_ci (drop _ ls) (drop (length ls' - length (labels zone)) ls')) by by apply Forall2_drop.
  case_match; [done|]. unfold b32_decode. erewrite b32_decode_loop_ci; [done|].
  apply (Forall2_take _ _ _ (length ls' - length (labels zone))%nat) in Hls. clear -Hls.
  induction Hls; cbn [concat]; [constructor|]. by apply Forall2_app.
Qed.

(** [Name::parse] accepts exactly the dotted spellings of its result: labels of 1
    to 63 bytes without a dot, joined by dots, with any number of dots at the end. *)
Theorem name_parse_iff s n : parse s = Ok n <->
  Forall (fun l => (DOT ∉ l) /\ (1 <= length l <= MAX_LABEL_LEN)%nat) (labels n) /\
  exists k, s = join DOT (labels n) ++ replicate k DOT.
Proof.
  unfold parse. split.
  - destruct (trim_end_spec DOT s) as (k & Es & Ht). intros H. destruct (Nat.eqb_spec (length (trim_end_matches DOT s)) 0) as [E|E].
    + injection H as <-. split; [constructor|]. exists k. apply length_zero_iff_nil in E. by rewrite E in Es.
    + destruct (parse_labels _) as [ls|] eqn:Ep; [|done]. injection H as <-. cbn [labels].
      apply parse_labels_iff in Ep as [-> Hf]. split; [|exists k; by rewrite join_split].
      pose proof (split_on_free DOT (trim_end_matches DOT s)) as H'. by apply Forall_and.
  - intros [Hf [k ->]]. destruct n as [ls]. cbn [labels] in *.
    rewrite trim_end_replicate by (apply trimmed_join; eapply Forall_impl; [|exact Hf]; cbn; intros l [? [? ?]]; done).
    apply list.Forall_and in Hf as [Hf1 Hf2]. destruct ls as [|l ls]; [done|].
    destruct (Nat.eqb_spec (length (join DOT (l :: ls))) 0) as [E|_].
    { apply length_zero_iff_nil in E. inversion Hf2; subst. cbn in E. destruct l, ls; cbn in *; try done; lia. }
    rewrite split_on_join by done. by rewrite (proj2 (parse_labels_iff _ _) (conj eq_refl Hf2)).
Qed.

Lemma parse_name_ok s n : bytes_ok s -> parse s = Ok n -> name_ok n.
Proof.
  intros Hs. unfold parse. destruct (trim_end_spec DOT s) as (k & Es & _). destruct (_ =? 0)%nat; [intros [= <-]; constructor|].
  destruct (parse_labels _) as [ls|] eqn:Ep; [|done]. intros [= <-]. apply parse_labels_iff in Ep as [-> Hf].
  assert (Forall bytes_ok (split_on DOT (trim_end_matches DOT s))) as Hb.
  { rewrite Es in Hs. apply Forall_app in Hs as [Hs _]. set (t := trim_end_matches DOT s) in *. clearbody t. clear -Hs.
    induction Hs as [|x t Hx Ht IH]; cbn; [repeat constructor|]. destruct (x =? DOT); [constructor; [constructor|done]|].
    pose proof (split_on_nonempty DOT t). destruct (split_on DOT t); [done|]. inversion IH; subst. constructor; [by constructor|done]. }
  by apply Forall_and.
Qed.

(** C34: the data of a query survives the trip through resolvers that change the case
    of the name's letters: whatever case the bytes after the header come in, the
    server reads back the transaction id and exactly the bytes the client encoded. *)
Theorem query_roundtrip txn data zone edns hdr body body' :
  is_u16 txn -> bytes_ok data -> name_ok zone -> length hdr = HEADER_LEN ->
  build_query txn data zone edns = Ok (hdr ++ body) -> Forall2 same_ci body body' ->
  parse_query (hdr ++ body') zone = Ok (mk_query txn data).
Proof.
  intros Ht Hd Hz Hh Hb Hci. rewrite <- (parse_query_ci hdr body body' zone Hh Hci). by eapply parse_build_query.
Qed.

(** the answer built for any request carries the downlink bytes back, under the
    request's transaction id, however the bytes are cut into TXT strings. *)
Theorem answer_roundtrip request downlink edns m :
  bytes_ok (take 2 request) -> is_u16 (Z.of_nat (length (txt_rdata downlink))) ->
  build_answer request downlink edns = Ok m ->
  parse_answer m = Ok (mk_answer (from_be_bytes (take 2 request)) downlink).
Proof. apply parse_build_answer. Qed.

(** ** Witnesses *)

Definition w_zone : Name := mk_name [lit "t"; lit "example"; lit "com"].
Definition w_query : bytes := match build_query 513 (lit "up data") w_zone 1232 with Ok q => q | Err _ => [] end.
Definition w_body : bytes := drop HEADER_LEN w_query.
(** The resolver upper-cases the letters of the name. *)
Definition w_mangled : bytes := (fun b => if (97 <=? b) && (b <=? 122) then b - 32 else b) <$> w_body.

Lemma query_roundtrip_witness : parse_query (take HEADER_LEN w_query ++ w_mangled) w_zone = Ok (mk_query 513 (lit "up data")).
Proof.
  apply (query_roundtrip 513 (lit "up data") w_zone 1232 (take HEADER_LEN w_query) w_body w_mangled).
  - decided.
  - decided.
  - repeat (constructor; [split; [decided|vm_compute; lia]|]). constructor.
  - vm_compute. reflexivity.
  - vm_compute. reflexivity.
  - vm_compute. repeat constructor.
Defined.

Lemma answer_roundtrip_witness :
  match build_answer w_query (replicate 300 7) 1232 with
  | Ok m => parse_answer m = Ok (mk_answer 513 (replicate 300 7))
  | Err _ => False
  end.
Proof.
  destruct (build_answer w_query (replicate 300 7) 1232) as [m|] eqn:E.
  - refine (answer_roundtrip w_query (replicate 300 7) 1232 m _ _ E); decided.
  - vm_compute in E. discriminate E.
Defined.
End dns.
