(* ===== verification/TunnelMtu.v ===== *)
(** [dns-tunnel-core/src/mtu.rs]: how many bytes fit in a query name and in a TXT
    answer, and the proof that the two bounds are exact for the messages that
    [dns.rs] builds. *)

From S2P Require Import Prelude RustStr Digits TunnelCrypto TunnelDns.

Module mtu.

Definition FORM_LEN : nat := 1.

Definition max_base32_chars (budget : nat) : nat :=
  let full := (budget / 64)%nat in
  let rem := (budget mod 64)%nat in
  (full * 63 + (rem - 1))%nat.

Definition base32_capacity_bytes (chars : nat) : nat := (chars * 5 / 8)%nat.

Definition max_uplink_wire_bytes (zone_wire_len : nat) : nat :=
  let budget := (dns.MAX_NAME_LEN - zone_wire_len)%nat in
  base32_capacity_bytes (max_base32_chars budget).

Definition wire_overhead : nat := (FORM_LEN + crypto.CONN_ID_LEN + crypto.NONCE_LEN + crypto.TAG_LEN)%nat.

Definition max_uplink_payload (zone_wire_len header_len : nat) : nat :=
  (max_uplink_wire_bytes zone_wire_len - (wire_overhead + header_len))%nat.

Definition answer_envelope_overhead (question_wire_len : nat) : nat :=
  (12 + question_wire_len + 2 + 10 + 11)%nat.

(** [usize::div_ceil]. *)
Definition div_ceil (a b : nat) : nat := ((a + b - 1) / b)%nat.

Definition max_downlink_wire_bytes (edns_udp question_wire_len : nat) : nat :=
  let raw := (edns_udp - answer_envelope_overhead question_wire_len)%nat in
  (raw - div_ceil raw 256)%nat.

Definition max_downlink_payload (edns_udp question_wire_len header_len : nat) : nat :=
  (max_downlink_wire_bytes edns_udp question_wire_len - (wire_overhead + header_len))%nat.

(** ** The uplink bound is exact *)

Lemma labels_len_count ls : dns.labels_len ls = (length ls + length (concat ls))%nat.
Proof.
  induction ls as [|l ls IH]; [done|].
  change (dns.labels_len (l :: ls)) with (1 + length l + dns.labels_len ls)%nat.
  cbn [concat]. rewrite length_app, IH. cbn [length]. lia.
Qed.

Lemma data_labels_len data : bytes_ok data ->
  dns.labels_len (dns.data_labels data) =
    (length (dns.b32_encode data) + (length (dns.b32_encode data) + 62) / 63)%nat.
Proof.
  intros. rewrite labels_len_count, dns.data_labels_concat. unfold dns.data_labels.
  destruct (Nat.eqb_spec (length (dns.b32_encode data)) 0) as [->|]; [done|].
  rewrite chunks_count by (unfold dns.MAX_LABEL_LEN; lia). unfold dns.MAX_LABEL_LEN.
  replace (length (dns.b32_encode data) + 63 - 1)%nat with (length (dns.b32_encode data) + 62)%nat by lia. lia.
Qed.

Lemma max_base32_chars_spec e budget : (e + (e + 62) / 63 <= budget <-> e <= max_base32_chars budget)%nat.
Proof. unfold max_base32_chars. lia. Qed.

Lemma base32_capacity_spec n chars : ((8 * n + 4) / 5 <= chars <-> n <= base32_capacity_bytes chars)%nat.
Proof. unfold base32_capacity_bytes. lia. Qed.

Lemma data_labels_fit data zone : bytes_ok data -> (dns.wire_len zone <= dns.MAX_NAME_LEN)%nat ->
  (dns.labels_len (dns.data_labels data) + dns.wire_len zone <= dns.MAX_NAME_LEN <->
   length data <= max_uplink_wire_bytes (dns.wire_len zone))%nat.
Proof.
  intros Hd Hz. unfold max_uplink_wire_bytes.
  rewrite <- base32_capacity_spec, <- dns.length_b32_encode, <- max_base32_chars_spec, <- data_labels_len by done. lia.
Qed.

Lemma build_query_fits txn data zone edns : bytes_ok data -> (dns.wire_len zone <= dns.MAX_NAME_LEN)%nat ->
  (length data <= max_uplink_wire_bytes (dns.wire_len zone))%nat ->
  exists m, dns.build_query txn data zone edns = Ok m.
Proof.
  intros Hd Hz Hl. apply (data_labels_fit data zone Hd Hz) in Hl. unfold dns.build_query. fold (dns.data_labels data).
  rewrite (proj2 (Nat.ltb_ge _ _)) by done. eauto.
Qed.

Lemma build_query_too_long txn data zone edns : bytes_ok data -> (dns.wire_len zone <= dns.MAX_NAME_LEN)%nat ->
  (max_uplink_wire_bytes (dns.wire_len zone) < length data)%nat ->
  dns.build_query txn data zone edns = Err dns.NameTooLong.
Proof.
  intros Hd Hz Hl. unfold dns.build_query. fold (dns.data_labels data).
  rewrite (proj2 (Nat.ltb_lt _ _)); [done|]. apply Nat.nle_gt. rewrite data_labels_fit by done. lia.
Qed.

(** C35: the uplink bound is exact. *)
Theorem max_uplink_exact txn data zone edns :
  bytes_ok data -> (dns.wire_len zone <= dns.MAX_NAME_LEN)%nat ->
  dns.build_query txn data zone edns = Err dns.NameTooLong <->
  (max_uplink_wire_bytes (dns.wire_len zone) < length data)%nat.
Proof.
  intros Hd Hz. split; [|by apply build_query_too_long]. intros H. apply Nat.nle_gt. intros Hl.
  destruct (build_query_fits txn data zone edns Hd Hz Hl) as [m Hm]. congruence.
Qed.

(** ** The downlink bound is exact *)

Lemma length_txt_rdata d : length (dns.txt_rdata d) = Nat.max 1 (length d + div_ceil (length d) 255).
Proof.
  unfold dns.txt_rdata, div_ceil. destruct (Nat.eqb_spec (length d) 0) as [->|]; [done|].
  enough (forall cs : list bytes, length (concat ((fun c => [wrap8 (Z.of_nat (length c))] ++ c) <$> cs))
          = (length cs + length (concat cs))%nat) as H0.
  { rewrite H0, chunks_count, chunks_concat by (unfold dns.MAX_CHAR_STRING; lia). unfold dns.MAX_CHAR_STRING. lia. }
  induction cs as [|c cs IH]; [done|]. cbn [fmap list_fmap concat]. rewrite !length_app. cbn [length].
  change (list_fmap _ _ _ cs) with ((fun c => [wrap8 (Z.of_nat (length c))] ++ c) <$> cs). rewrite IH. lia.
Qed.

Lemma length_build_answer request d edns m qend :
  dns.question_end request = Ok qend -> dns.build_answer request d edns = Ok m ->
  length m = (answer_envelope_overhead (qend - dns.HEADER_LEN) + length (dns.txt_rdata d))%nat.
Proof.
  intros Hq. unfold dns.build_answer. rewrite Hq. intros H. apply Ok_inj in H as <-.
  apply dns.question_end_local in Hq as (hdr & s & t & rest & -> & Hh & Ht & -> & _).
  unfold dns.question, dns.answer_header, dns.opt_rr, answer_envelope_overhead. rewrite <- Hh, drop_app_length.
  autorewrite with spark_len. cbn [length]. lia.
Qed.

Lemma downlink_raw n raw : (1 <= raw)%nat ->
  (Nat.max 1 (n + div_ceil n 255) <= raw <-> n <= raw - div_ceil raw 256)%nat.
Proof. unfold div_ceil. lia. Qed.

(** the downlink bound is exact. *)
Theorem max_downlink_exact request qend d edns m :
  dns.question_end request = Ok qend -> dns.build_answer request d (Z.of_nat edns) = Ok m ->
  (answer_envelope_overhead (qend - dns.HEADER_LEN) < edns)%nat ->
  (length m <= edns)%nat <-> (length d <= max_downlink_wire_bytes edns (qend - dns.HEADER_LEN))%nat.
Proof.
  intros Hq Hm Hov. rewrite (length_build_answer _ _ _ _ _ Hq Hm), length_txt_rdata.
  unfold max_downlink_wire_bytes. rewrite <- downlink_raw by lia. lia.
Qed.

Definition demo_zone : dns.Name := dns.mk_name [lit "t"; lit "example"; lit "com"].
Definition demo_query : bytes := match dns.build_query 7 (lit "up") demo_zone 1232 with Ok q => q | Err _ => [] end.

Lemma max_uplink_exact_witness : dns.build_query 7 (replicate 200 65) demo_zone 1232 = Err dns.NameTooLong.
Proof.
  apply (max_uplink_exact 7 (replicate 200 65) demo_zone 1232); [decided|vm_compute; lia|vm_compute; lia].
Defined.

Lemma max_downlink_exact_witness :
  (length (lit "down") <= max_downlink_wire_bytes 512 ((length demo_query - 11) - dns.HEADER_LEN))%nat.
Proof.
  destruct (dns.build_answer demo_query (lit "down") (Z.of_nat 512)) as [m|] eqn:E.
  - apply (max_downlink_exact demo_query (length demo_query - 11) (lit "down") 512 m); [vm_compute; reflexivity|exact E|vm_compute; lia|].
    apply (f_equal (fun r => match r with Ok x => x | Err _ => [] end)) in E. rewrite <- E. vm_compute. lia.
  - exfalso. revert E. vm_compute. discriminate.
Defined.
End mtu.
