(* ===== verification/TunnelAddr.v ===== *)
(** [dns-tunnel-core/src/addr.rs]: the SOCKS5-style target of a stream. *)

From S2P Require Import Prelude RustStr.

Module addr.

Definition ATYP_IPV4 : Z := 0x01.
Definition ATYP_DOMAIN : Z := 0x03.
Definition ATYP_IPV6 : Z := 0x04.
Definition MAX_DOMAIN_LEN : nat := 255.

(** [std::net::SocketAddr]: the octets of the address, and for IPv6 the flow
    information and scope id that the wire form has no room for. *)
Inductive SocketAddr :=
| V4 (ip : bytes) (port : Z)
| V6 (ip : bytes) (port flowinfo scope_id : Z).

Inductive Target :=
| Ip (sa : SocketAddr)
| Domain (host : bytes) (p : Z).

Definition port (t : Target) : Z :=
  match t with
  | Ip (V4 _ p) | Ip (V6 _ p _ _) => p
  | Domain _ p => p
  end.

Inductive AddrError :=
| EmptyDomain
| DomainTooLong (n : nat)
| UnknownAtyp (b : Z)
| Truncated (got need : nat)
| InvalidUtf8.

Definition encode (t : Target) : result AddrError bytes :=
  let? v :=
    match t with
    | Ip (V4 ip _) => Ok (ATYP_IPV4 :: ip)
    | Ip (V6 ip _ _ _) => Ok (ATYP_IPV6 :: ip)
    | Domain host _ =>
        if (length host =? 0)%nat then Err EmptyDomain
        else if (MAX_DOMAIN_LEN <? length host)%nat then Err (DomainTooLong (length host))
        else Ok (ATYP_DOMAIN :: wrap8 (Z.of_nat (length host)) :: host)
    end in
  Ok (v ++ to_be_bytes 2 (port t)).

Definition port_at (b : bytes) (off : nat) : result AddrError Z :=
  let? raw := ok_or (slice_get b off (off + 2)) (Truncated (length b) (off + 2)) in
  Ok (from_be_bytes raw).

Definition parse (b : bytes) : result AddrError Target :=
  let? atyp := ok_or (b !! 0%nat) (Truncated 0 1) in
  let need n := Truncated (length b) n in
  if atyp =? ATYP_IPV4 then
    let? ip := ok_or (slice_get b 1 5) (need 7%nat) in
    let? p := port_at b 5 in Ok (Ip (V4 ip p))
  else if atyp =? ATYP_IPV6 then
    let? ip := ok_or (slice_get b 1 17) (need 19%nat) in
    let? p := port_at b 17 in Ok (Ip (V6 ip p 0 0))
  else if atyp =? ATYP_DOMAIN then
    let? len := ok_or (b !! 1%nat) (need 2%nat) in
    let len := Z.to_nat len in
    if (len =? 0)%nat then Err EmptyDomain else
    let fin := (2 + len)%nat in
    let? name := ok_or (slice_get b 2 fin) (need (fin + 2)%nat) in
    if negb (utf8_valid name) then Err InvalidUtf8 else
    let? p := port_at b fin in Ok (Domain name p)
  else Err (UnknownAtyp atyp).

(** The values the Rust types can hold. *)
Definition target_ok (t : Target) : Prop :=
  is_u16 (port t) /\
  match t with
  | Ip (V4 ip _) => bytes_ok ip /\ length ip = 4%nat
  | Ip (V6 ip _ f s) => bytes_ok ip /\ length ip = 16%nat
  | Domain host _ => bytes_ok host /\ utf8_valid host = true
  end.

(** What the wire form keeps: everything but an IPv6 flow and scope. *)
Definition erase (t : Target) : Target :=
  match t with Ip (V6 ip p _ _) => Ip (V6 ip p 0 0) | _ => t end.

Lemma slice_get_short {A} (l : list A) i j : slice_get l i j = None -> (i <= j -> length l < j)%nat.
Proof. unfold slice_get. destruct (Nat.leb_spec i j), (Nat.leb_spec j (length l)); cbn; intros; try done; lia. Qed.

Lemma port_at_app pre p rest : is_u16 p ->
  port_at (pre ++ to_be_bytes 2 p ++ rest) (length pre) = Ok p.
Proof.
  intros. unfold port_at. rewrite <- (length_to_be_bytes 2 p) at 2. rewrite slice_get_app. cbn [ok_or].
  by rewrite from_to_be_bytes_small.
Qed.

Lemma port_at_ok b off p : bytes_ok b -> port_at b off = Ok p ->
  exists pre rest, b = pre ++ to_be_bytes 2 p ++ rest /\ length pre = off /\ is_u16 p.
Proof.
  intros Hb. unfold port_at. destruct (slice_get b off (off + 2)) as [s|] eqn:E; [|done]. intros [= <-].
  apply slice_get_Some in E as (pre & post & -> & Hpre & Hl). assert (length s = 2%nat) as Hs by lia.
  inv_Forall. exists pre, post. rewrite <- Hs, to_from_be_bytes by done. split_and!; try done;
    [apply from_be_bytes_bound in H0; rewrite Hs in H0; cbn in H0; unfold fits; lia..].
Qed.

(** Reading a field followed by the port, behind the bytes [pre]. *)
Lemma field_port_app pre f p rest b i j : is_u16 p ->
  b = pre ++ f ++ to_be_bytes 2 p ++ rest -> i = length pre -> j = (length pre + length f)%nat ->
  slice_get b i j = Some f /\ port_at b j = Ok p.
Proof.
  intros Hp -> -> ->. split; [apply slice_get_app|]. rewrite app_assoc, <- length_app. by apply port_at_app.
Qed.

Lemma field_port_ok pre f p b i j : bytes_ok b ->
  slice_get b i j = Some f -> port_at b j = Ok p -> take i b = pre ->
  is_u16 p /\ bytes_ok f /\ j = (i + length f)%nat /\ exists rest, b = (pre ++ f ++ to_be_bytes 2 p) ++ rest.
Proof.
  intros Hb Hf Hp <-. apply slice_get_Some in Hf as (pre & post & -> & <- & ->).
  rewrite take_app_length. inv_Forall.
  destruct (port_at_ok _ _ _ (Forall_app_2 _ _ _ H (Forall_app_2 _ _ _ H0 Hb)) Hp) as (pre' & rest & E & Hl & Hu).
  split_and!; [done..|]. exists rest. rewrite app_assoc in E. apply app_inj_1 in E as [<- ->]; [|len].
  by rewrite <- !app_assoc.
Qed.

Lemma parse_encode t b rest : target_ok t -> encode t = Ok b -> parse (b ++ rest) = Ok (erase t).
Proof.
  intros [Hp Ht]. destruct t as [[ip p|ip p f s]|host p]; cbn [port] in Hp; unfold encode; cbn [port].
  - intros H; apply Ok_inj in H as <-. destruct Ht as [_ Hl]. unfold parse. cbn [app lookup list_lookup ok_or].
    change (ATYP_IPV4 =? ATYP_IPV4) with true. cbn iota. rewrite <- app_assoc.
    destruct (field_port_app [ATYP_IPV4] ip p rest (ATYP_IPV4 :: ip ++ to_be_bytes 2 p ++ rest) 1 5 Hp) as [-> Ep]; [done|done|by rewrite Hl|].
    cbn [ok_or]. by rewrite Ep.
  - intros H; apply Ok_inj in H as <-. destruct Ht as [_ Hl]. unfold parse. cbn [app lookup list_lookup ok_or].
    change (ATYP_IPV6 =? ATYP_IPV4) with false. change (ATYP_IPV6 =? ATYP_IPV6) with true. cbn iota. rewrite <- app_assoc.
    destruct (field_port_app [ATYP_IPV6] ip p rest (ATYP_IPV6 :: ip ++ to_be_bytes 2 p ++ rest) 1 17 Hp) as [-> Ep]; [done|done|by rewrite Hl|].
    cbn [ok_or]. by rewrite Ep.
  - destruct Ht as [Hb Hu]. destruct (Nat.eqb_spec (length host) 0) as [|Hn]; [done|].
    destruct (Nat.ltb_spec MAX_DOMAIN_LEN (length host)) as [|Hl]; [done|]. unfold MAX_DOMAIN_LEN in Hl.
    intros H; apply Ok_inj in H as <-. rewrite wrap_small by (unfold fits; lia). unfold parse. cbn [app lookup list_lookup ok_or].
    change (ATYP_DOMAIN =? ATYP_IPV4) with false. change (ATYP_DOMAIN =? ATYP_IPV6) with false.
    change (ATYP_DOMAIN =? ATYP_DOMAIN) with true. cbn iota. rewrite Nat2Z.id, <- app_assoc.
    rewrite (proj2 (Nat.eqb_neq _ _) Hn).
    destruct (field_port_app [ATYP_DOMAIN; Z.of_nat (length host)] host p rest
      (ATYP_DOMAIN :: Z.of_nat (length host) :: host ++ to_be_bytes 2 p ++ rest) 2 (2 + length host)%nat Hp) as [-> Ep];
      [done..|]. cbn [ok_or]. rewrite Hu. cbn [negb]. by rewrite Ep.
Qed.

Lemma parse_ok b t : bytes_ok b -> parse b = Ok t ->
  target_ok t /\ erase t = t /\ exists e rest, encode t = Ok e /\ b = e ++ rest.
Proof.
  intros Hb. unfold parse. destruct b as [|a b]; [done|]. cbn [lookup list_lookup ok_or].
  destruct (Z.eqb_spec a ATYP_IPV4) as [->|]; [|destruct (Z.eqb_spec a ATYP_IPV6) as [->|];
    [|destruct (Z.eqb_spec a ATYP_DOMAIN) as [->|]; [|done]]].
  - destruct (slice_get _ 1 5) as [ip|] eqn:Ei; [|done]. cbn [ok_or].
    destruct (port_at _ 5) as [p|] eqn:Ep; [|done]. intros [= <-].
    destruct (field_port_ok [ATYP_IPV4] ip p _ _ _ Hb Ei Ep) as (Hp & Hi & Hl & rest & ->); [done|].
    unfold target_ok; cbn [port]; split_and!; try (done || lia). by exists (ATYP_IPV4 :: ip ++ to_be_bytes 2 p), rest.
  - destruct (slice_get _ 1 17) as [ip|] eqn:Ei; [|done]. cbn [ok_or].
    destruct (port_at _ 17) as [p|] eqn:Ep; [|done]. intros [= <-].
    destruct (field_port_ok [ATYP_IPV6] ip p _ _ _ Hb Ei Ep) as (Hp & Hi & Hl & rest & ->); [done|].
    unfold target_ok; cbn [port]; split_and!; try (done || lia). by exists (ATYP_IPV6 :: ip ++ to_be_bytes 2 p), rest.
  - destruct b as [|l b]; [done|]. cbn [lookup list_lookup ok_or].
    destruct (Nat.eqb_spec (Z.to_nat l) 0) as [|Hn]; [done|].
    destruct (slice_get _ 2 _) as [host|] eqn:Ei; [|done]. cbn [ok_or].
    destruct (utf8_valid host) eqn:Hu; [|done]. cbn [negb].
    destruct (port_at _ _) as [p|] eqn:Ep; [|done]. intros [= <-].
    destruct (field_port_ok [ATYP_DOMAIN; l] host p _ _ _ Hb Ei Ep) as (Hp & Hi & Hl & rest & E); [done|].
    rewrite E in *. inv_Forall. assert (l = Z.of_nat (length host)) as -> by (unfold fits in *; lia).
    unfold target_ok; cbn [port]; split_and!; try done. exists (([ATYP_DOMAIN; Z.of_nat (length host)] ++ host) ++ to_be_bytes 2 p), rest.
    unfold encode. cbn [port]. rewrite (proj2 (Nat.eqb_neq _ _)) by lia.
    rewrite (proj2 (Nat.ltb_ge _ _)) by (unfold MAX_DOMAIN_LEN, fits in *; lia).
    rewrite wrap_small by done. split; [done|]. by rewrite <- !app_assoc.
Qed.

(** parsing accepts exactly the encodings. *)
Theorem parse_iff_encode b t : bytes_ok b ->
  parse b = Ok t <->
  target_ok t /\ erase t = t /\ exists e rest, encode t = Ok e /\ b = e ++ rest.
Proof.
  intros Hb. split; [by apply parse_ok|]. intros (Ht & He & e & rest & Hen & ->).
  rewrite <- He. by apply parse_encode.
Qed.

Lemma parse_iff_encode_witness : parse ([3; 2] ++ lit "ab" ++ [1; 187] ++ lit "rest") = Ok (Domain (lit "ab") 443).
Proof.
  apply (parse_iff_encode ([3; 2] ++ lit "ab" ++ [1; 187] ++ lit "rest")); [decided|].
  split; [split; [decided|split; [decided|reflexivity]]|]. split; [reflexivity|].
  exists ([3; 2] ++ lit "ab" ++ [1; 187]), (lit "rest"). split; reflexivity.
Defined.

(** a truncated target is reported with the true length, which falls short of
    the length the form requires. *)
Theorem parse_truncated b got need : parse b = Err (Truncated got need) ->
  got = length b /\ (got < need)%nat.
Proof.
  unfold parse, port_at. pose proof (slice_get_short b) as Hs.
  destruct (b !! 0%nat) as [a|] eqn:E0; cbn [ok_or]; [|apply lookup_ge_None in E0; intros [= <- <-]; lia].
  repeat match goal with
  | |- context [slice_get b ?i ?j] => destruct (slice_get b i j) eqn:?; cbn [ok_or]
  | |- context [if ?c then _ else _] => destruct c; try done
  | |- context [ok_or (b !! 1%nat) _] => destruct (b !! 1%nat) eqn:E1; cbn [ok_or]
  end; intros [= <- <-]; split; try done;
    repeat match goal with
    | H : slice_get b _ _ = None |- _ => apply Hs in H; [|lia]
    | H : b !! 1%nat = None |- _ => apply lookup_ge_None in H
    end; lia.
Qed.

Lemma parse_truncated_witness : length [3; 5; 97] = 3%nat /\ (3 < 9)%nat.
Proof. apply (parse_truncated [3; 5; 97] 3 9). reflexivity. Defined.
End addr.
