(* ===== verification/TunnelCompress.v ===== *)
(** [dns-tunnel-core/src/compress.rs]: the optional LZ4 payload compression.  The
    [lz4_flex] crate is an interface, with what its documentation promises as laws. *)

From S2P Require Import Prelude.

Module compress.

Definition ALGO_NONE : Z := 0.
Definition ALGO_LZ4 : Z := 1.
Definition DEFAULT_MIN_SIZE : nat := 96.
Definition MAX_DECOMPRESSED : Z := Z.shiftl 1 20.

Inductive CompressError := Lz4 | TooLarge (n : Z) | UnknownAlgo (algo : Z).

Class Lz4Flex := {
  compress_prepend_size : bytes -> bytes;
  decompress_size_prepended : bytes -> option bytes;
}.

(** [u32::from_le_bytes]. *)
Definition from_le_bytes (l : bytes) : Z := from_be_bytes (reverse l).

Class Lz4Laws (L : Lz4Flex) := {
  lz4_roundtrip p : is_u32 (Z.of_nat (length p)) ->
    decompress_size_prepended (compress_prepend_size p) = Some p;
  lz4_prefix p : is_u32 (Z.of_nat (length p)) ->
    take 4 (compress_prepend_size p) = reverse (to_be_bytes 4 (Z.of_nat (length p)));
  lz4_bound d p : decompress_size_prepended d = Some p -> Z.of_nat (length p) <= from_le_bytes (take 4 d);
}.

Section Compress.
Context {L : Lz4Flex}.

Definition maybe_compress (payload : bytes) (min_size : nat) : option bytes :=
  if (length payload <? min_size)%nat then None else
  let compressed := compress_prepend_size payload in
  if (length compressed <? length payload)%nat then Some compressed else None.

Definition decompress (algo : Z) (data : bytes) : result CompressError bytes :=
  if algo =? ALGO_NONE then Ok data
  else if algo =? ALGO_LZ4 then
    let? prefix := ok_or (slice_get data 0 4) Lz4 in
    let claimed := from_le_bytes prefix in
    if MAX_DECOMPRESSED <? claimed then Err (TooLarge claimed)
    else ok_or (decompress_size_prepended data) Lz4
  else Err (UnknownAlgo algo).
End Compress.

Section Laws.
Context {L : Lz4Flex} {LL : Lz4Laws L}.

(** what the sender compressed, the receiver recovers, unless the payload is
    over the cap, which it refuses; and compression always pays. *)
Theorem compress_roundtrip p min_size c :
  is_u32 (Z.of_nat (length p)) -> maybe_compress p min_size = Some c ->
  (length c < length p)%nat /\ (min_size <= length p)%nat /\
  decompress ALGO_LZ4 c =
    if MAX_DECOMPRESSED <? Z.of_nat (length p) then Err (TooLarge (Z.of_nat (length p))) else Ok p.
Proof.
  intros Hp. unfold maybe_compress.
  destruct (Nat.ltb_spec (length p) min_size); [done|].
  destruct (Nat.ltb_spec (length (compress_prepend_size p)) (length p)) as [Hlt|]; [|done]. intros [= <-].
  split_and!; [done..|]. unfold decompress.
  pose proof (lz4_prefix p Hp) as Hpre. pose proof (f_equal length Hpre) as Hl.
  rewrite length_take, length_reverse, length_to_be_bytes in Hl.
  rewrite slice_get_0, (proj2 (Nat.leb_le 4 _)) by lia. cbn [Z.eqb ALGO_LZ4 ALGO_NONE Pos.eqb ok_or].
  rewrite Hpre. unfold from_le_bytes. rewrite reverse_involutive, from_to_be_bytes_small by done.
  case_match; [done|]. by rewrite lz4_roundtrip.
Qed.

(** no input makes the decompressor produce more than the cap. *)
Theorem decompress_bounded data p : decompress ALGO_LZ4 data = Ok p -> Z.of_nat (length p) <= MAX_DECOMPRESSED.
Proof.
  unfold decompress. cbn [Z.eqb ALGO_LZ4 ALGO_NONE Pos.eqb]. rewrite slice_get_0.
  destruct (4 <=? length data)%nat; [|done]. cbn [ok_or].
  destruct (Z.ltb_spec MAX_DECOMPRESSED (from_le_bytes (take 4 data))); [done|].
  destruct (decompress_size_prepended data) eqn:E; [|done]. intros [= <-].
  apply lz4_bound in E. lia.
Qed.
End Laws.

(** ** An instance of the interface, to evaluate: runs of zeros shrink to the prefix. *)

Definition zero_run (p : bytes) : bool := forallb (Z.eqb 0) p.
Definition toy_compress (p : bytes) : bytes :=
  reverse (to_be_bytes 4 (Z.of_nat (length p))) ++ if zero_run p then [] else 1 :: p.
Definition toy_decompress (d : bytes) : option bytes :=
  let n := from_le_bytes (take 4 d) in
  match drop 4 d with
  | [] => if n <? 0 then None else Some (replicate (Z.to_nat n) 0)
  | b :: p => if (b =? 1) && (Z.of_nat (length p) =? n) then Some p else None
  end.
#[export] Instance toy_lz4 : Lz4Flex := {| compress_prepend_size := toy_compress; decompress_size_prepended := toy_decompress |}.

Lemma zero_run_replicate p : zero_run p = true -> replicate (length p) 0 = p.
Proof.
  induction p as [|b p IH]; [done|]. cbn [zero_run forallb]. intros [E%Z.eqb_eq H]%andb_prop. cbn. by rewrite <- E, (IH H).
Qed.

Lemma toy_prefix p : take 4 (toy_compress p) = reverse (to_be_bytes 4 (Z.of_nat (length p))).
Proof. apply take_app_length'. by rewrite length_reverse, length_to_be_bytes. Qed.

#[export] Instance toy_lz4_laws : Lz4Laws toy_lz4.
Proof.
  constructor; cbn [toy_lz4 compress_prepend_size decompress_size_prepended].
  - intros p Hp. unfold toy_decompress. rewrite toy_prefix. unfold from_le_bytes. rewrite reverse_involutive, from_to_be_bytes_small by done.
    unfold toy_compress. rewrite drop_app_length' by by rewrite length_reverse, length_to_be_bytes.
    destruct (zero_run p) eqn:E.
    + destruct (Z.ltb_spec (Z.of_nat (length p)) 0); [lia|]. by rewrite Nat2Z.id, zero_run_replicate.
    + by rewrite Z.eqb_refl, (Z.eqb_refl (Z.of_nat _)).
  - intros p _. apply toy_prefix.
  - intros d p. unfold toy_decompress. destruct (drop 4 d) as [|b q].
    + destruct (Z.ltb_spec (from_le_bytes (take 4 d)) 0); [done|]. intros H1. apply (inj Some) in H1 as <-.
      rewrite length_replicate. lia.
    + destruct (b =? 1); [|done]. destruct (Z.eqb_spec (Z.of_nat (length q)) (from_le_bytes (take 4 d))); [|done].
      cbn. intros H1. apply (inj Some) in H1 as <-. lia.
Qed.

Lemma compress_roundtrip_witness : decompress ALGO_LZ4 (toy_compress (replicate 100 0)) = Ok (replicate 100 0).
Proof.
  destruct (compress_roundtrip (replicate 100 0) DEFAULT_MIN_SIZE (toy_compress (replicate 100 0))) as (_ & _ & H);
    [decided|vm_compute; reflexivity|exact H].
Defined.

Lemma decompress_bounded_witness : Z.of_nat (length (replicate 100 0)) <= MAX_DECOMPRESSED.
Proof. apply (decompress_bounded (toy_compress (replicate 100 0))). vm_compute. reflexivity. Defined.
End compress.
