(* ===== verification/TunnelArq.v ===== *)
(** [dns-tunnel-core/src/arq.rs]: one reliable stream, a state machine over a
    virtual clock. *)

From S2P Require Import Prelude BTree F64 TunnelCrypto TunnelFrame.

Module arq.
Import frame.

(** ** Serial numbers *)

(** [(a.wrapping_sub(b) as i32) < 0]. *)
Definition seq_lt (a b : Z) : bool := 2 ^ 31 <=? wrap32 (a - b).

(** ** State *)

Inductive State := Open | FinSent | FinRcvd | Closed | Reset.

#[export] Instance State_eq_dec : EqDecision State.
Proof. solve_decision. Defined.

Record Config := mk_config {
  max_segment : nat;
  send_window : Z;
  recv_window : Z;
  initial_rto_ms : Z;
  min_rto_ms : Z;
  max_rto_ms : Z;
}.
#[export] Instance Config_eta : Settable Config :=
  fun c => mk_config (max_segment c) (send_window c) (recv_window c) (initial_rto_ms c) (min_rto_ms c) (max_rto_ms c).

Definition default_config : Config := mk_config 128 64 256 1000 200 30000.

Record Sent := mk_sent { s_data : bytes; sent_at : Z; retx : Z; is_fin : bool }.
#[export] Instance Sent_eta : Settable Sent :=
  fun s => mk_sent (s_data s) (sent_at s) (retx s) (is_fin s).

Record Stream := mk_stream {
  id : Z;
  cfg : Config;
  state : State;
  snd_una : Z;
  snd_nxt : Z;
  outbox : bytes;
  inflight : list (Z * Sent);
  fast_retx : list Z;
  closing : bool;
  fin_seq : option Z;
  local_fin_acked : bool;
  rst_pending : bool;
  rcv_nxt : Z;
  reorder : list (Z * bytes);
  delivered : bytes;
  remote_fin_seq : option Z;
  remote_fin_recvd : bool;
  ack_pending : bool;
  nack_pending : option Z;
  srtt_ms : option f64.t;
  rttvar_ms : f64.t;
  rto_ms : Z;
}.
#[export] Instance Stream_eta : Settable Stream :=
  fun s => mk_stream (id s) (cfg s) (state s) (snd_una s) (snd_nxt s) (outbox s) (inflight s)
    (fast_retx s) (closing s) (fin_seq s) (local_fin_acked s) (rst_pending s) (rcv_nxt s)
    (reorder s) (delivered s) (remote_fin_seq s) (remote_fin_recvd s) (ack_pending s)
    (nack_pending s) (srtt_ms s) (rttvar_ms s) (rto_ms s).

Definition new (sid : Z) (c : Config) (initial_seq : Z) : Stream := {|
  id := sid; cfg := c; state := Open;
  snd_una := initial_seq; snd_nxt := initial_seq; outbox := []; inflight := bt_empty;
  fast_retx := []; closing := false; fin_seq := None; local_fin_acked := false;
  rst_pending := false; rcv_nxt := initial_seq; reorder := bt_empty; delivered := [];
  remote_fin_seq := None; remote_fin_recvd := false; ack_pending := false;
  nack_pending := None; srtt_ms := None; rttvar_ms := f64.of_int 0;
  rto_ms := initial_rto_ms c |}.

(** ** Accessors and local operations *)

Definition set_max_segment (n : nat) (s : Stream) : Stream := s <| cfg := (cfg s) <| max_segment := Nat.max n 1 |> |>.
Definition remote_finished (s : Stream) : bool := remote_fin_recvd s.
Definition is_closed (s : Stream) : bool := match state s with Closed | Reset => true | _ => false end.
Definition write (data : bytes) (s : Stream) : Stream := s <| outbox := outbox s ++ data |>.
Definition close (s : Stream) : Stream := s <| closing := true |>.

Definition reset (s : Stream) : Stream :=
  s <| state := Reset |> <| rst_pending := true |> <| inflight := [] |> <| outbox := [] |>
    <| reorder := [] |> <| fast_retx := [] |>.

(** [read] drains the delivery buffer. *)
Definition read (s : Stream) : bytes * Stream := (delivered s, s <| delivered := [] |>).
Definition readable (s : Stream) : nat := length (delivered s).

Definition inflight_count (s : Stream) : Z := wrap32 (snd_nxt s - snd_una s).

Definition opt_min (a : option Z) (b : Z) : option Z :=
  match a with Some x => Some (Z.min x b) | None => Some b end.
Definition deadline (s : Stream) (e : Sent) : Z := wrap64 (sent_at e + rto_ms s).
Definition next_deadline (s : Stream) : option Z :=
  fold_left opt_min (deadline s <$> bt_values (inflight s)) None.

Definition update_state (s : Stream) : Stream :=
  if decide (state s = Reset) then s else
  let local_fin_sent := is_some (fin_seq s) in
  let local_done := local_fin_sent && local_fin_acked s in
  s <| state :=
    match local_done, remote_fin_recvd s, local_fin_sent with
    | true, true, _ => Closed
    | _, true, _ => FinRcvd
    | _, false, true => FinSent
    | _, _, _ => Open
    end |>.

(** ** Receiving *)

(** The loop of [advance_recv].  A [continue] removes an entry of [reorder], so that
    more rounds than [reorder] has entries always end in the [break]
    ([advance_loop_fuel]). *)
Fixpoint advance_loop (fuel : nat) (s : Stream) : Stream :=
  match fuel with
  | O => s
  | S fuel' =>
      match bt_get (rcv_nxt s) (reorder s) with
      | Some next =>
          advance_loop fuel'
            (s <| reorder := bt_remove (rcv_nxt s) (reorder s) |>
               <| delivered := delivered s ++ next |>
               <| rcv_nxt := wrap32 (rcv_nxt s + 1) |>)
      | None =>
          if bool_decide (remote_fin_seq s = Some (rcv_nxt s)) && negb (remote_fin_recvd s) then
            update_state (s <| rcv_nxt := wrap32 (rcv_nxt s + 1) |> <| remote_fin_recvd := true |>)
          else s
      end
  end.

Definition advance_recv (s : Stream) : Stream :=
  let s := advance_loop (S (length (reorder s))) s in
  s <| nack_pending := match reorder s with [] => None | _ => Some (rcv_nxt s) end |>.

Definition on_data (sq : Z) (p : bytes) (s : Stream) : Stream :=
  let s := s <| ack_pending := true |> in
  if seq_lt sq (rcv_nxt s) then s
  else if negb (seq_lt sq (wrap32 (rcv_nxt s + recv_window (cfg s)))) then s
  else if sq =? rcv_nxt s then
    advance_recv (s <| delivered := delivered s ++ p |> <| rcv_nxt := wrap32 (rcv_nxt s + 1) |>)
  else
    s <| reorder := bt_or_insert sq p (reorder s) |> <| nack_pending := Some (rcv_nxt s) |>.

Definition on_fin (sq : Z) (s : Stream) : Stream :=
  let s := s <| ack_pending := true |> in
  let s := if is_some (remote_fin_seq s) then s else s <| remote_fin_seq := Some sq |> in
  advance_recv s.

Definition update_rto (r : f64.t) (s : Stream) : Stream :=
  let s :=
    match srtt_ms s with
    | None => s <| srtt_ms := Some r |> <| rttvar_ms := f64.div r (f64.of_int 2) |>
    | Some srtt =>
        s <| rttvar_ms := f64.add (f64.mul (f64.of_dyadic 3 (-2)) (rttvar_ms s))
                                  (f64.mul (f64.of_dyadic 1 (-2)) (f64.abs (f64.sub srtt r))) |>
          <| srtt_ms := Some (f64.add (f64.mul (f64.of_dyadic 7 (-3)) srtt) (f64.mul (f64.of_dyadic 1 (-3)) r)) |>
    end in
  let srtt := match srtt_ms s with Some x => x | None => r end in
  let rto := f64.to_uint 64 (f64.max (f64.add srtt (f64.mul (f64.of_int 4) (rttvar_ms s))) (f64.of_int 1)) in
  s <| rto_ms := Z.min (Z.max rto (min_rto_ms (cfg s))) (max_rto_ms (cfg s)) |>.

(** The loop of [on_ack] over the acknowledged segments: drop each, keep the last RTT sample. *)
Definition ack_one (now : Z) (acc : option Z * list (Z * Sent)) (sq : Z) : option Z * list (Z * Sent) :=
  let '(rtt, m) := acc in
  match bt_get sq m with
  | Some e =>
      (if (retx e =? 0) && negb (is_fin e) then Some (sat_sub now (sent_at e)) else rtt, bt_remove sq m)
  | None => (rtt, m)
  end.

Definition on_ack (ack now : Z) (s : Stream) : Stream :=
  let acked := filter (fun q => seq_lt q ack = true) (bt_keys (inflight s)) in
  let '(newest_rtt, m) := fold_left (ack_one now) acked (None, inflight s) in
  let s := s <| inflight := m |> in
  let s := if seq_lt (snd_una s) ack then s <| snd_una := ack |> else s in
  let s := match fin_seq s with
           | Some fs => if seq_lt fs ack then s <| local_fin_acked := true |> else s
           | None => s
           end in
  let s := match newest_rtt with Some r => update_rto (f64.of_int r) s | None => s end in
  update_state s.

Definition on_nack (sq : Z) (s : Stream) : Stream :=
  if bt_mem sq (inflight s) && negb (bool_decide (sq ∈ fast_retx s))
  then s <| fast_retx := fast_retx s ++ [sq] |> else s.

Definition on_rst (s : Stream) : Stream :=
  s <| state := Reset |> <| inflight := [] |> <| outbox := [] |> <| reorder := [] |> <| fast_retx := [] |>.

Definition on_frame (f : Frame) (now : Z) (s : Stream) : Stream :=
  match kind f with
  | Data => match seq f with Some q => on_data q (payload f) s | None => s end
  | Ack => match seq f with Some a => on_ack a now s | None => s end
  | Nack => match seq f with Some q => on_nack q s | None => s end
  | Fin => match seq f with Some q => on_fin q s | None => s end
  | Rst => on_rst s
  | KeepAlive => s <| ack_pending := true |>
  | Syn | SynAck | MtuProbe | MtuProbeResp | SetMtu => s
  end.

(** ** Sending *)

Definition seg_frame (s : Stream) (sq : Z) (p : bytes) (fin : bool) : Frame :=
  mk_frame (if fin then Fin else Data) (Some (id s)) (Some sq) None None p.
Definition ack_frame (s : Stream) : Frame := mk_frame Ack (Some (id s)) (Some (rcv_nxt s)) None None [].
Definition nack_frame (s : Stream) (sq : Z) : Frame := mk_frame Nack (Some (id s)) (Some sq) None None [].
Definition rst_frame (s : Stream) : Frame := mk_frame Rst (Some (id s)) None None None [].

(** Mark a segment as retransmitted at [now]. *)
Definition touch (now : Z) (e : Sent) : Sent := e <| sent_at := now |> <| retx := wrap32 (retx e + 1) |>.

(** [while let Some(seq) = fast_retx.pop_front()]: the first queued segment still in flight. *)
Fixpoint pop_fast (q : list Z) (m : list (Z * Sent)) : option (Z * Sent) * list Z :=
  match q with
  | [] => (None, [])
  | sq :: q' => match bt_get sq m with Some e => (Some (sq, e), q') | None => pop_fast q' m end
  end.

(** [u64::saturating_mul]. *)
Definition sat_mul64 (a b : Z) : Z := Z.min (a * b) (2 ^ 64 - 1).

(** Cut a new segment, or the FIN, at [snd_nxt]. *)
Definition push_segment (now : Z) (data : bytes) (fin : bool) (s : Stream) : Stream :=
  s <| inflight := bt_insert (snd_nxt s) (mk_sent data now 0 fin) (inflight s) |>
    <| snd_nxt := wrap32 (snd_nxt s + 1) |>.

Definition poll_ack (s : Stream) : option Frame * Stream :=
  if ack_pending s then (Some (ack_frame s), s <| ack_pending := false |>) else (None, s).

(** Steps 3 to 6: a NACK, new data, the FIN, a standalone ACK. *)
Definition poll_new (now : Z) (s : Stream) : option Frame * Stream :=
  match nack_pending s with
  | Some sq => let s := s <| nack_pending := None |> in (Some (nack_frame s sq), s)
  | None =>
      if (inflight_count s <? send_window (cfg s)) && negb (length (outbox s) =? 0)%nat then
        let n := Nat.min (length (outbox s)) (max_segment (cfg s)) in
        let data := take n (outbox s) in
        let sq := snd_nxt s in
        let s := push_segment now data false (s <| outbox := drop n (outbox s) |>) in
        (Some (seg_frame s sq data false), s)
      else if closing s && negb (is_some (fin_seq s)) && (length (outbox s) =? 0)%nat
              && (inflight_count s <? send_window (cfg s)) then
        let sq := snd_nxt s in
        let s := update_state (push_segment now [] true s <| fin_seq := Some sq |>) in
        (Some (seg_frame s sq [] true), s)
      else poll_ack s
  end.

Definition poll_transmit (now : Z) (s : Stream) : option Frame * Stream :=
  if rst_pending s then let s := s <| rst_pending := false |> in (Some (rst_frame s), s)
  else if decide (state s = Reset) then (None, s)
  else if decide (state s = Closed) then poll_ack s
  else
    let '(hit, q) := pop_fast (fast_retx s) (inflight s) in
    let s := s <| fast_retx := q |> in
    match hit with
    | Some (sq, e) =>
        let s := s <| inflight := bt_alter (touch now) sq (inflight s) |> in
        (Some (seg_frame s sq (s_data e) (is_fin e)), s)
    | None =>
        match bt_find (fun _ e => deadline s e <=? now) (inflight s) with
        | Some (sq, e) =>
            let s := s <| inflight := bt_alter (touch now) sq (inflight s) |> in
            let s := s <| rto_ms := Z.min (sat_mul64 (rto_ms s) 2) (max_rto_ms (cfg s)) |> in
            (Some (seg_frame s sq (s_data e) (is_fin e)), s)
        | None => poll_new now s
        end
    end.

End arq.
