(* ===== verification/ArqPoll.v ===== *)
(** Facts on the operations of one ARQ stream: serial numbers, the receive loop,
    the effect of an acknowledgement, and the outcomes of [poll_transmit]. *)

From S2P Require Import Prelude BTree F64 TunnelCrypto TunnelFrame TunnelArq.

Module arq_facts.
Import frame arq.

(** ** Serial numbers *)

(** The sequence number of the [i]-th segment of a stream that starts at [init]. *)
Definition at_seq (init : Z) (i : nat) : Z := wrap32 (init + Z.of_nat i).

Lemma wrap32_diff a b : wrap32 (wrap32 a - wrap32 b) = wrap32 (a - b).
Proof. unfold wrap. symmetry. apply Zminus_mod. Qed.

(** Serial-number comparison agrees with the order of the indices as long as they
    are less than 2^31 apart. *)
Lemma seq_lt_spec init i j : Z.abs (Z.of_nat i - Z.of_nat j) < 2 ^ 31 ->
  seq_lt (at_seq init i) (at_seq init j) = true <-> (i < j)%nat.
Proof.
  intros H. unfold seq_lt, at_seq. rewrite wrap32_diff.
  replace (init + Z.of_nat i - (init + Z.of_nat j)) with (Z.of_nat i - Z.of_nat j) by lia.
  rewrite Z.leb_le. unfold wrap. change (2 ^ 31) with 2147483648 in *. change (2 ^ 32) with 4294967296.
  destruct (decide (i < j)%nat).
  - rewrite <- (Z.mod_add _ 1) by lia. rewrite Z.mod_small by lia. lia.
  - rewrite Z.mod_small by lia. lia.
Qed.

Lemma seq_lt_false init i j : Z.abs (Z.of_nat i - Z.of_nat j) < 2 ^ 31 ->
  seq_lt (at_seq init i) (at_seq init j) = false <-> (j <= i)%nat.
Proof. intros H. rewrite <- not_true_iff_false, seq_lt_spec by done. lia. Qed.

Lemma at_seq_inj init i j : Z.abs (Z.of_nat i - Z.of_nat j) < 2 ^ 32 ->
  at_seq init i = at_seq init j -> i = j.
Proof.
  unfold at_seq. intros H E. pose proof (wrap32_diff (init + Z.of_nat i) (init + Z.of_nat j)) as Hd.
  rewrite E, Z.sub_diag in Hd. unfold wrap in Hd. change (2 ^ 32) with 4294967296 in *. lia.
Qed.

Lemma at_seq_succ init i : wrap32 (at_seq init i + 1) = at_seq init (S i).
Proof. unfold at_seq. rewrite wrap_add_l. f_equal. lia. Qed.

Lemma at_seq_0 init : is_u32 init -> at_seq init 0 = init.
Proof. intros. unfold at_seq. rewrite Z.add_0_r. by apply wrap_small. Qed.

(** ** [advance_recv]: the loop always ends by its [break] *)

Lemma advance_loop_fuel f1 : forall f2 s, (length (reorder s) < f1)%nat -> (length (reorder s) < f2)%nat ->
  advance_loop f1 s = advance_loop f2 s.
Proof.
  induction f1 as [|f1 IH]; intros f2 s H1 H2; [lia|]. destruct f2 as [|f2]; [lia|]. cbn [advance_loop].
  destruct (bt_get (rcv_nxt s) (reorder s)) as [p|] eqn:E; [|done].
  apply length_bt_remove_lt in E. apply IH; cbn; lia.
Qed.

Lemma update_state_fields s :
  update_state s = s <| state := state (update_state s) |>.
Proof. unfold update_state. case_decide; by destruct s. Qed.

Lemma update_state_reset s : state (update_state s) = Reset <-> state s = Reset.
Proof. unfold update_state. case_decide; [done|]. cbn. split; [|done]. repeat case_match; done. Qed.

Lemma update_state_closed s : state s <> Reset -> state (update_state s) = Closed ->
  local_fin_acked s = true /\ remote_fin_recvd s = true.
Proof.
  unfold update_state. case_decide; [done|]. cbn. intros _.
  destruct (is_some (fin_seq s)), (local_fin_acked s), (remote_fin_recvd s); done.
Qed.

(** ** Acknowledgements *)

Lemma ack_fold now ks : forall rtt m rtt' m',
  fold_left (ack_one now) ks (rtt, m) = (rtt', m') ->
  (bt_sorted m -> bt_sorted m') /\
  forall q, bt_get q m' = if decide (q ∈ ks) then None else bt_get q m.
Proof.
  induction ks as [|k ks IH]; intros rtt m rtt' m'; cbn [fold_left].
  { intros [= <- <-]. split; [done|]. intros q. case_decide as H; [inversion H|done]. }
  intros H. assert (exists r, ack_one now (rtt, m) k = (r, bt_remove k m)) as [r Hr].
  { cbn. destruct (bt_get k m) eqn:E; [eauto|]. exists rtt. f_equal. symmetry. by apply bt_remove_None. }
  rewrite Hr in H. apply IH in H as [Hs Hg]. split; [intros; apply Hs; by apply bt_sorted_remove|].
  intros q. rewrite Hg. destruct (decide (q = k)) as [->|Hne].
  - rewrite bt_get_remove. rewrite (decide_True (P := k ∈ k :: ks)) by left. by case_decide.
  - rewrite bt_get_remove_ne by done.
    destruct (decide (q ∈ ks)) as [H1|H1], (decide (q ∈ k :: ks)) as [H2|H2]; try done.
    + by destruct H2; right.
    + by apply elem_of_cons in H2 as [|].
Qed.

(** What an ACK does to the send side: the segments before [ack] leave the window. *)
Lemma on_ack_inflight ack now s :
  bt_sorted (inflight s) ->
  bt_sorted (inflight (on_ack ack now s)) /\
  forall q, bt_get q (inflight (on_ack ack now s)) = if seq_lt q ack then None else bt_get q (inflight s).
Proof.
  intros Hs. unfold on_ack.
  destruct (fold_left (ack_one now) _ _) as [rtt m] eqn:E. apply ack_fold in E as [Hsm Hg].
  match goal with |- context [update_state ?x] => assert (inflight (update_state x) = m) as -> end.
  { rewrite update_state_fields. cbn. unfold update_rto. repeat case_match; cbn; done. }
  split; [by apply Hsm|]. intros q. rewrite Hg. destruct (seq_lt q ack) eqn:El.
  - case_decide as Hin; [done|]. destruct (bt_get q (inflight s)) eqn:Eq; [|done]. exfalso. apply Hin.
    apply list_elem_of_filter. split; [done|]. apply bt_get_In in Eq. apply list_elem_of_fmap. by exists (q, s0).
  - rewrite decide_False; [done|]. rewrite list_elem_of_filter. intros [? _]. congruence.
Qed.

Lemma update_rto_fields r s :
  exists a b c, update_rto r s = s <| srtt_ms := a |> <| rttvar_ms := b |> <| rto_ms := c |>.
Proof. unfold update_rto. destruct (srtt_ms s); do 3 eexists; reflexivity. Qed.

(** The fields an ACK can change. *)
Lemma on_ack_fields ack now s : exists m a b c st,
  on_ack ack now s = s <| inflight := m |>
    <| snd_una := if seq_lt (snd_una s) ack then ack else snd_una s |>
    <| local_fin_acked := match fin_seq s with Some fs => seq_lt fs ack || local_fin_acked s | None => local_fin_acked s end |>
    <| srtt_ms := a |> <| rttvar_ms := b |> <| rto_ms := c |> <| state := st |> /\
  (st = Reset <-> state s = Reset) /\
  (st = Closed -> match fin_seq s with Some fs => seq_lt fs ack || local_fin_acked s | None => local_fin_acked s end = true /\
     remote_fin_recvd s = true).
Proof.
  unfold on_ack. destruct (fold_left _ _ _) as [rtt m].
  match goal with |- context [update_state ?x] => set (t := x) end.
  assert (t = s <| inflight := inflight t |> <| snd_una := if seq_lt (snd_una s) ack then ack else snd_una s |>
    <| local_fin_acked := match fin_seq s with Some fs => seq_lt fs ack || local_fin_acked s | None => local_fin_acked s end |>
    <| srtt_ms := srtt_ms t |> <| rttvar_ms := rttvar_ms t |> <| rto_ms := rto_ms t |>) as E.
  { subst t. destruct s as [? ? ? una ? ? ? ? ? fin acked]. cbn.
    destruct (seq_lt una ack), fin as [fs|]; cbn; try (destruct (seq_lt fs ack); cbn);
      (destruct rtt as [x|]; [match goal with |- context [update_rto ?r ?y] =>
        destruct (update_rto_fields r y) as (? & ? & ? & ->) end|]; cbn); reflexivity. }
  exists (inflight t), (srtt_ms t), (rttvar_ms t), (rto_ms t), (state (update_state t)).
  split; [etrans; [apply update_state_fields|exact (f_equal (fun u => u <| state := state (update_state t) |>) E)]|].
  assert (state t = state s) as Est by by rewrite E. split; [by rewrite update_state_reset, Est|]. intros Hc.
  destruct (decide (state t = Reset)) as [Hr|Hr]; [apply update_state_reset in Hr; congruence|].
  apply update_state_closed in Hc; [|done]. rewrite E in Hc. exact Hc.
Qed.

(** ** The outcomes of [poll_transmit] *)

Inductive polled (now : Z) (s : Stream) : option Frame * Stream -> Prop :=
| polled_none q : polled now s (None, s <| fast_retx := q |>)
| polled_rst : rst_pending s = true -> polled now s (Some (rst_frame s), s <| rst_pending := false |>)
| polled_retx q sq e rto : bt_get sq (inflight s) = Some e -> state s <> Reset ->
    polled now s (Some (seg_frame s sq (s_data e) (is_fin e)),
      s <| fast_retx := q |> <| inflight := bt_alter (touch now) sq (inflight s) |> <| rto_ms := rto |>)
| polled_nack q sq : nack_pending s = Some sq ->
    polled now s (Some (nack_frame s sq), s <| fast_retx := q |> <| nack_pending := None |>)
| polled_data q n : state s <> Reset -> inflight_count s < send_window (cfg s) ->
    n = Nat.min (length (outbox s)) (max_segment (cfg s)) -> outbox s <> [] ->
    polled now s (Some (seg_frame s (snd_nxt s) (take n (outbox s)) false),
      push_segment now (take n (outbox s)) false (s <| fast_retx := q |> <| outbox := drop n (outbox s) |>))
| polled_fin q : state s <> Reset -> inflight_count s < send_window (cfg s) ->
    closing s = true -> fin_seq s = None -> outbox s = [] ->
    polled now s (Some (seg_frame s (snd_nxt s) [] true),
      update_state (push_segment now [] true (s <| fast_retx := q |>) <| fin_seq := Some (snd_nxt s) |>))
| polled_ack q : polled now s (Some (ack_frame s), s <| fast_retx := q |> <| ack_pending := false |>).

Lemma fast_retx_same s : s = s <| fast_retx := fast_retx s |>.
Proof. by destruct s. Qed.
Lemma rto_same s : s = s <| rto_ms := rto_ms s |>.
Proof. by destruct s. Qed.

Lemma pop_fast_Some q m sq e q' : pop_fast q m = (Some (sq, e), q') -> bt_get sq m = Some e.
Proof.
  induction q as [|x q IH]; cbn [pop_fast]; [done|].
  destruct (bt_get x m) eqn:E; [|done]. by intros [= <- <- <-].
Qed.

Lemma poll_new_spec now s q : state s <> Reset -> polled now s (poll_new now (s <| fast_retx := q |>)).
Proof.
  intros Hs. unfold poll_new. change (nack_pending (s <| fast_retx := q |>)) with (nack_pending s).
  destruct (nack_pending s) as [sq|] eqn:En; [by apply (polled_nack now s q sq)|].
  change (inflight_count (s <| fast_retx := q |>)) with (inflight_count s).
  change (cfg (s <| fast_retx := q |>)) with (cfg s). change (outbox (s <| fast_retx := q |>)) with (outbox s).
  destruct (Z.ltb_spec (inflight_count s) (send_window (cfg s))) as [Hw|]; cbn [andb].
  2:{ rewrite andb_false_r. unfold poll_ack. case_match; [apply (polled_ack now s q)|apply (polled_none now s q)]. }
  destruct (Nat.eqb_spec (length (outbox s)) 0) as [Ho|Ho]; cbn [negb]; cycle 1.
  { apply (polled_data now s q (Nat.min (length (outbox s)) (max_segment (cfg s)))); try done. by destruct (outbox s). }
  rewrite !andb_true_r. destruct (closing (s <| fast_retx := q |>) && negb (is_some (fin_seq (s <| fast_retx := q |>)))) eqn:Ec.
  - apply andb_true_iff in Ec as [Hc Hf]. apply length_zero_iff_nil in Ho. cbn in Hf.
    assert (fin_seq s = None) by (by destruct (fin_seq s)).
    replace (seg_frame (update_state _) _ [] true) with (seg_frame s (snd_nxt s) [] true)
      by (rewrite update_state_fields; done).
    by apply (polled_fin now s q).
  - unfold poll_ack. case_match; [apply (polled_ack now s q)|apply (polled_none now s q)].
Qed.

Lemma poll_transmit_spec now s : bt_sorted (inflight s) -> polled now s (poll_transmit now s).
Proof.
  intros Hsort. unfold poll_transmit. destruct (rst_pending s) eqn:Er; [exact (polled_rst now s Er)|].
  destruct (decide (state s = Reset)); [rewrite (fast_retx_same s) at 2; apply polled_none|].
  destruct (decide (state s = Closed)).
  { unfold poll_ack. case_match; rewrite (fast_retx_same s) at 2; [apply (polled_ack now s (fast_retx s))|apply polled_none]. }
  destruct (pop_fast (fast_retx s) (inflight s)) as [[[sq e]|] q] eqn:Ep.
  - apply pop_fast_Some in Ep. rewrite (rto_same (_ <| inflight := _ |>)).
    by apply (polled_retx now s q sq e (rto_ms s)).
  - destruct (bt_find _ _) as [[sq e]|] eqn:Ef; [|by apply poll_new_spec].
    apply bt_find_Some in Ef as [Hin _]. apply bt_In_get in Hin; [|done].
    by apply (polled_retx now s q sq e (Z.min (sat_mul64 (rto_ms s) 2) (max_rto_ms (cfg s)))).
Qed.
End arq_facts.
