(* ===== verification/ArqLocal.v ===== *)
(** Invariants of one ARQ stream under arbitrary operations and arbitrary incoming
    frames: the retransmission timer stays in its bounds and is honoured, and a
    reset stream stays silent. *)

From S2P Require Import Prelude BTree F64 TunnelCrypto TunnelFrame TunnelArq ArqPoll.

Module arq_local.
Import frame arq arq_facts.

(** Any call on a stream; the frame may come from an adversary. *)
Inductive call := CWrite (d : bytes) | CClose | CReset | CRead | CSetMax (n : nat) | CPoll (now : Z) | CFrame (f : Frame) (now : Z).

(** The stream after the call, and the frame the call returned. *)
Definition exec (c : call) (s : Stream) : option Frame * Stream :=
  match c with
  | CWrite d => (None, write d s)
  | CClose => (None, close s)
  | CReset => (None, reset s)
  | CRead => (None, (read s).2)
  | CSetMax n => (None, set_max_segment n s)
  | CPoll now => poll_transmit now s
  | CFrame f now => (None, on_frame f now s)
  end.

Fixpoint execs (cs : list call) (s : Stream) : list Frame * Stream :=
  match cs with
  | [] => ([], s)
  | c :: cs' => let '(o, s) := exec c s in let '(fs, s) := execs cs' s in (option_list o ++ fs, s)
  end.

(** ** The timer bounds *)

Definition cfg_ok (c : Config) : Prop := min_rto_ms c <= initial_rto_ms c <= max_rto_ms c /\ 0 <= min_rto_ms c /\ max_rto_ms c < 2 ^ 64.

(** The timer is within the bounds [lo] and [hi] that the configuration set. *)
Section Timer.
Context (lo hi : Z) (Hlh : 0 <= lo <= hi) (Hhi : hi < 2 ^ 64).

Record timer_ok (s : Stream) : Prop := {
  ti_min : min_rto_ms (cfg s) = lo;
  ti_max : max_rto_ms (cfg s) = hi;
  ti_rto : lo <= rto_ms s <= hi;
}.

(** The timer fields alone decide the invariant. *)
Lemma timer_ext s s' : cfg s' = cfg s -> rto_ms s' = rto_ms s -> timer_ok s -> timer_ok s'.
Proof. intros E1 E2 [H1 H2 H3]. constructor; by rewrite ?E1, ?E2. Qed.

Lemma timer_update_state s : timer_ok s -> timer_ok (update_state s).
Proof. apply timer_ext; by rewrite update_state_fields. Qed.

Lemma timer_advance n : forall s, timer_ok s -> timer_ok (advance_loop n s).
Proof.
  induction n as [|n IH]; intros s H; cbn [advance_loop]; [done|].
  case_match; [apply IH|case_match; [apply timer_update_state|done]]; by eapply timer_ext; [..|exact H].
Qed.

Lemma timer_advance_recv s : timer_ok s -> timer_ok (advance_recv s).
Proof. intros H. eapply timer_ext; [..|apply (timer_advance (S (length (reorder s))) s H)]; done. Qed.

Lemma timer_clamp s z : timer_ok s -> timer_ok (s <| rto_ms := Z.min (Z.max z (min_rto_ms (cfg s))) (max_rto_ms (cfg s)) |>).
Proof. intros [H1 H2 H3]. constructor; cbn; [done..|]. rewrite H1, H2. lia. Qed.

Lemma timer_update_rto r s : timer_ok s -> timer_ok (update_rto r s).
Proof. intros H. unfold update_rto. apply timer_clamp. case_match; by eapply timer_ext; [..|exact H]. Qed.

Lemma timer_on_ack ack now s : timer_ok s -> timer_ok (on_ack ack now s).
Proof.
  intros H. unfold on_ack. destruct (fold_left _ _ _) as [rtt m]. apply timer_update_state.
  assert (forall t, timer_ok t -> timer_ok (match rtt with Some r => update_rto (f64.of_int r) t | None => t end)) as Hu
    by (intros; case_match; [by apply timer_update_rto|done]).
  apply Hu. repeat case_match; by eapply timer_ext; [..|exact H].
Qed.

Lemma timer_on_frame f now s : timer_ok s -> timer_ok (on_frame f now s).
Proof.
  intros H. unfold on_frame, on_data, on_fin, on_nack, on_rst.
  repeat case_match; try done; try apply timer_on_ack; try apply timer_advance_recv;
    try done; by eapply timer_ext; [..|exact H].
Qed.

Lemma timer_backoff s : timer_ok s -> timer_ok (s <| rto_ms := Z.min (sat_mul64 (rto_ms s) 2) (max_rto_ms (cfg s)) |>).
Proof. intros [H1 H2 H3]. constructor; cbn; [done..|]. rewrite H2. unfold sat_mul64. lia. Qed.

Lemma timer_poll now s : timer_ok s -> timer_ok (poll_transmit now s).2.
Proof.
  intros H. unfold poll_transmit, poll_new, poll_ack.
  repeat case_match; cbn [snd]; try apply timer_update_state;
    first [by eapply timer_ext; [..|exact H] | apply timer_backoff; by eapply timer_ext; [..|exact H]].
Qed.

Lemma timer_exec c s : timer_ok s -> timer_ok (exec c s).2.
Proof.
  intros H. destruct c; cbn [exec snd]; try (by eapply timer_ext; [..|exact H]);
    [|by apply timer_poll|by apply timer_on_frame]. destruct H as [H1 H2 H3]. by constructor.
Qed.

Lemma timer_execs cs : forall s, timer_ok s -> timer_ok (execs cs s).2.
Proof.
  induction cs as [|c cs IH]; intros s H; cbn [execs]; [done|]. apply (timer_exec c) in H.
  destruct (exec c s) as [o s1]. cbn [snd] in H. apply IH in H. by destruct (execs cs s1).
Qed.

End Timer.

(** whatever is called and whatever frames arrive, the retransmission timeout
    stays between its configured floor and ceiling. *)
Theorem rto_bounded sid c init cs : cfg_ok c ->
  min_rto_ms c <= rto_ms (execs cs (arq.new sid c init)).2 <= max_rto_ms c.
Proof.
  intros Hc. unfold cfg_ok in Hc. destruct (timer_execs (min_rto_ms c) (max_rto_ms c)
    ltac:(lia) ltac:(lia) cs (arq.new sid c init)) as [_ _ H]; [constructor; [done..|apply Hc]|done].
Qed.

(** A stream driven by a hostile peer: losses, a bogus ACK, a NACK, a reset. *)
Definition hostile : list call :=
  [CWrite (lit "abc"); CPoll 5; CPoll 2000; CPoll 9000; CFrame (mk_frame Ack (Some 1) (Some 77) None None []) 9001;
   CFrame (mk_frame Nack (Some 1) (Some 0) None None []) 9002; CPoll 9003; CReset; CWrite (lit "d"); CPoll 9004; CPoll 9005].

Lemma rto_bounded_witness : 200 <= rto_ms (execs hostile (arq.new 1 default_config 0)).2 <= 30000.
Proof. apply (rto_bounded 1 default_config 0 hostile). vm_compute. done. Defined.

(** ** Reset is final *)

Lemma reset_poll now s : state s = Reset ->
  state (poll_transmit now s).2 = Reset /\
  (poll_transmit now s).1 = (if rst_pending s then Some (rst_frame s) else None) /\
  rst_pending (poll_transmit now s).2 = false.
Proof.
  intros H. unfold poll_transmit. destruct (rst_pending s) eqn:E; [by split_and!|].
  rewrite decide_True by done. by split_and!.
Qed.

Lemma reset_update_state s : state s = Reset -> update_state s = s.
Proof. intros H. unfold update_state. by rewrite decide_True. Qed.

(** What stays with a reset stream: the state and the pending RST. *)
Definition reset_view (s : Stream) := (state s, rst_pending s, id s).

Lemma update_state_view s : state s = Reset -> reset_view (update_state s) = reset_view s.
Proof. intros. by rewrite reset_update_state. Qed.

Lemma advance_loop_view n : forall s, state s = Reset -> reset_view (advance_loop n s) = reset_view s.
Proof.
  induction n as [|n IH]; intros s H; cbn [advance_loop]; [done|].
  case_match; [by rewrite IH|]. case_match; [by rewrite update_state_view|done].
Qed.

Lemma advance_recv_view s : state s = Reset -> reset_view (advance_recv s) = reset_view s.
Proof. exact (advance_loop_view (S (length (reorder s))) s). Qed.

Lemma on_ack_view ack now s : state s = Reset -> reset_view (on_ack ack now s) = reset_view s.
Proof.
  intros H. unfold on_ack. destruct (fold_left _ _ _) as [rtt m].
  match goal with |- context [update_state ?x] => assert (reset_view x = reset_view s) as E; [|revert E; generalize x] end.
  { unfold update_rto. repeat case_match; done. }
  intros t E. rewrite update_state_view; [done|]. unfold reset_view in E. by injection E as -> _ _.
Qed.

Lemma on_frame_view f now s : state s = Reset -> reset_view (on_frame f now s) = reset_view s.
Proof.
  intros H. unfold on_frame, on_data, on_fin, on_nack, on_rst.
  repeat case_match; try done; try (by rewrite on_ack_view); try (by rewrite advance_recv_view).
  unfold reset_view. cbn. by rewrite H.
Qed.

Lemma exec_reset c s : state s = Reset -> rst_pending s = false -> c <> CReset ->
  (exec c s).1 = None /\ state (exec c s).2 = Reset /\ rst_pending (exec c s).2 = false.
Proof.
  intros H Hr Hc. destruct c as [d| | | |n|now|f now]; cbn [exec fst snd]; try done.
  - destruct (reset_poll now s H) as (? & -> & ?). by rewrite Hr.
  - pose proof (on_frame_view f now s H) as E. unfold reset_view in E. injection E as -> -> _. by rewrite Hr.
Qed.

Lemma execs_reset cs : forall s, state s = Reset -> rst_pending s = false -> CReset ∉ cs ->
  (execs cs s).1 = [] /\ state (execs cs s).2 = Reset.
Proof.
  induction cs as [|c cs IH]; intros s H Hr Hn; cbn [execs]; [done|].
  apply not_elem_of_cons in Hn as [Hc Hn].
  destruct (exec_reset c s H Hr) as (E1 & E2 & E3); [congruence|].
  destruct (exec c s) as [o s1]. cbn [fst snd] in *. subst o. specialize (IH s1 E2 E3 Hn).
  destruct (execs cs s1) as [fs s2]. by cbn in *.
Qed.

(** a locally reset stream emits exactly one frame, the RST, and then nothing,
    whatever is written, read or received afterwards. *)
Theorem reset_is_final s now cs : CReset ∉ cs ->
  let '(fs, s') := execs (CReset :: CPoll now :: cs) s in
  fs = [rst_frame s] /\ state s' = Reset.
Proof.
  intros Hn. cbn [execs exec]. destruct (reset_poll now (reset s) eq_refl) as (E1 & E2 & E3).
  destruct (poll_transmit now (reset s)) as [o s1]. cbn [fst snd] in *. subst o.
  destruct (execs_reset cs s1 E1 E3 Hn) as [Ef Es]. destruct (execs cs s1) as [fs s2]. cbn [fst snd] in *. by subst fs.
Qed.

Lemma reset_is_final_witness :
  let '(fs, s') := execs (CReset :: CPoll 9 :: take 7 hostile) (arq.new 1 default_config 0) in
  fs = [rst_frame (arq.new 1 default_config 0)] /\ state s' = Reset.
Proof.
  apply (reset_is_final (arq.new 1 default_config 0) 9 (take 7 hostile)).
  unfold hostile. cbn [take]. rewrite !not_elem_of_cons. split_and!; try done. apply not_elem_of_nil.
Defined.

(** ** The timer is honoured *)

Lemma opt_min_acc l : forall x, exists y, fold_left opt_min l (Some x) = Some y /\ (y = x \/ y ∈ l) /\ y <= x /\ Forall (fun z => y <= z) l.
Proof.
  induction l as [|z l IH]; intros x; cbn [fold_left opt_min].
  - exists x. split_and!; [done|by left|lia|constructor].
  - destruct (IH (Z.min x z)) as (y & -> & Hy & Hle & Hall). exists y. split_and!; [done| |lia|constructor; [lia|done]].
    destruct Hy as [Hy|Hy]; [|right; by right]. destruct (Z.min_spec x z) as [[_ E]|[_ E]]; rewrite E in Hy; [by left|right; subst y; left].
Qed.

(** The deadline is the earliest of the segments' expiry times. *)
Lemma next_deadline_spec s d : next_deadline s = Some d ->
  (exists q e, (q, e) ∈ inflight s /\ d = deadline s e) /\ Forall (fun p => d <= deadline s p.2) (inflight s).
Proof.
  unfold next_deadline, bt_values. destruct (inflight s) as [|[q e] m]; [done|]. cbn [fmap list_fmap fold_left opt_min snd].
  destruct (opt_min_acc (deadline s <$> m.*2) (deadline s e)) as (y & E & Hy & Hle & Hall).
  intros H. rewrite E in H. injection H as <-. split.
  - destruct Hy as [->|Hy]; [exists q, e; split; [left|done]|].
    apply list_elem_of_fmap in Hy as (e' & -> & He). apply list_elem_of_fmap in He as ([q' e2] & -> & He).
    exists q', e2. split; [by right|done].
  - constructor; [done|]. apply Forall_elem. intros p Hp. apply (proj1 (Forall_elem _ _) Hall).
    apply list_elem_of_fmap. exists p.2. split; [done|]. apply list_elem_of_fmap. by exists p.
Qed.

(** at the time [next_deadline] announces, [poll_transmit] has a frame to send,
    and before it, it retransmits nothing on a timeout: a segment in flight goes
    out again only if the peer asked for it. *)
Theorem deadline_honoured s d now : state s <> Reset -> state s <> Closed -> next_deadline s = Some d ->
  (d <= now -> is_Some (poll_transmit now s).1) /\
  (now < d -> rst_pending s = false -> pop_fast (fast_retx s) (inflight s) = (None, []) ->
     poll_transmit now s = poll_new now (s <| fast_retx := [] |>)).
Proof.
  intros Hr Hc Hd. apply next_deadline_spec in Hd as [(q & e & Hin & ->) Hall]. unfold poll_transmit. rewrite !decide_False by done.
  split.
  - intros Hn. destruct (rst_pending s); [by eexists|]. destruct (pop_fast _ _) as [[[q' e']|] q'']; [by eexists|].
    destruct (bt_find _ _) as [[q3 e3]|] eqn:Ef; [by eexists|]. apply bt_find_None in Ef.
    apply (proj1 (Forall_elem _ _) Ef) in Hin. cbn [fst snd] in Hin.
    change (deadline (s <| fast_retx := q'' |>) e) with (deadline s e) in Hin. lia.
  - intros Hn -> ->. destruct (bt_find _ _) as [[q3 e3]|] eqn:Ef; [|done]. apply bt_find_Some in Ef as [Hin3 Hd].
    apply (proj1 (Forall_elem _ _) Hall) in Hin3. cbn [fst snd] in Hin3.
    change (deadline (s <| fast_retx := [] |>) e3) with (deadline s e3) in Hd. lia.
Qed.

Lemma deadline_honoured_witness :
  let s := (execs (take 2 hostile) (arq.new 1 default_config 0)).2 in
  is_Some (poll_transmit 1005 s).1 /\ poll_transmit 1004 s = poll_new 1004 (s <| fast_retx := [] |>).
Proof.
  set (s := (execs (take 2 hostile) (arq.new 1 default_config 0)).2).
  assert (next_deadline s = Some 1005) as Hd by (vm_compute; reflexivity).
  split; [apply (deadline_honoured s 1005 1005)|apply (deadline_honoured s 1005 1004)]; try done; try lia; by vm_compute.
Defined.
End arq_local.
