(* ===== verification/ArqTypes.v ===== *)
(** The values of an ARQ stream stay in the ranges of their Rust types, and the
    frames it emits are encodable and no larger than the segment size allows. *)

From S2P Require Import Prelude BTree F64 TunnelCrypto TunnelFrame TunnelArq ArqPoll ArqLocal.

Module arq_types.
Import frame arq arq_facts arq_local.

Section Typed.
(** An upper bound on every segment size configured during the stream's life. *)
Context (B : nat).

Definition seg_ok (d : bytes) : Prop := bytes_ok d /\ (length d <= B)%nat.

Record typed (s : Stream) : Prop := {
  ty_id : is_u16 (id s);
  ty_max : (max_segment (cfg s) <= B)%nat;
  ty_nxt : is_u32 (snd_nxt s);
  ty_rcv : is_u32 (rcv_nxt s);
  ty_outbox : bytes_ok (outbox s);
  ty_sorted : bt_sorted (inflight s);
  ty_inflight : Forall (fun p => is_u32 p.1 /\ seg_ok (s_data p.2)) (inflight s);
  ty_reorder : Forall (fun p => bytes_ok p.2) (reorder s);
  ty_delivered : bytes_ok (delivered s);
  ty_nack : opt_ok is_u32 (nack_pending s);
}.

(** The frames a stream emits: encodable, with a payload that fits. *)
Definition emit_ok (f : Frame) : Prop := frame_ok f /\ (length (payload f) <= B)%nat.

Definition call_ok (c : call) : Prop :=
  match c with
  | CWrite d => bytes_ok d
  | CSetMax n => (1 <= B /\ n <= B)%nat
  | CFrame f _ => frame_ok f
  | _ => True
  end.

(** What the invariant looks at. *)
Definition type_view (s : Stream) :=
  (id s, max_segment (cfg s), snd_nxt s, rcv_nxt s, outbox s, inflight s, reorder s, delivered s, nack_pending s).

Lemma typed_ext s s' : type_view s' = type_view s -> typed s -> typed s'.
Proof.
  unfold type_view. intros [= E1 E2 E3 E4 E5 E6 E7 E8 E9] [H1 H2 H3 H4 H5 H6 H7 H8 H9 H10].
  constructor; by rewrite ?E1, ?E2, ?E3, ?E4, ?E5, ?E6, ?E7, ?E8, ?E9.
Qed.

Lemma wrap32_fits z : is_u32 (wrap32 z).
Proof. by apply wrap_fits. Qed.

Lemma typed_update_state s : typed s -> typed (update_state s).
Proof. apply typed_ext. by rewrite update_state_fields. Qed.

Lemma typed_advance n : forall s, typed s -> typed (advance_loop n s).
Proof.
  induction n as [|n IH]; intros s H; cbn [advance_loop]; [done|].
  destruct (bt_get (rcv_nxt s) (reorder s)) as [p|] eqn:E.
  - apply IH. destruct H as [H1 H2 H3 H4 H5 H6 H7 H8 H9 H10]. constructor; cbn; try done; [apply wrap32_fits|by apply bt_remove_Forall|].
    apply Forall_app_2; [done|]. apply bt_get_In in E. by apply (proj1 (Forall_elem _ _) H8) in E.
  - case_match; [|done]. apply typed_update_state. destruct H. constructor; try done. apply wrap32_fits.
Qed.

Lemma typed_advance_recv s : typed s -> typed (advance_recv s).
Proof.
  intros H. apply (typed_advance (S (length (reorder s)))) in H. unfold advance_recv.
  destruct H. constructor; try done. cbn. by case_match.
Qed.

Lemma typed_on_data q p s : bytes_ok p -> typed s -> typed (on_data q p s).
Proof.
  intros Hp H. unfold on_data. assert (typed (s <| ack_pending := true |>)) as H' by by refine (typed_ext _ _ _ H).
  repeat case_match; try done.
  - apply typed_advance_recv. destruct H. constructor; cbn; try done; [apply wrap32_fits|by apply Forall_app_2].
  - destruct H. constructor; cbn; try done. unfold bt_or_insert. case_match; [done|]. by apply bt_insert_Forall.
Qed.

Lemma typed_on_fin q s : typed s -> typed (on_fin q s).
Proof. intros H. unfold on_fin. apply typed_advance_recv. case_match; by refine (typed_ext _ _ _ H). Qed.

Lemma typed_on_ack ack now s : typed s -> typed (on_ack ack now s).
Proof.
  intros H. destruct (on_ack_inflight ack now s (ty_sorted _ H)) as [Hs Hg].
  destruct (on_ack_fields ack now s) as (m & ? & ? & ? & ? & E & _). rewrite E in *.
  change (bt_sorted m) in Hs. change (forall q, bt_get q m = if seq_lt q ack then None else bt_get q (inflight s)) in Hg.
  destruct H. constructor; try done. apply Forall_elem. intros [q e] Hin. change ((q, e) ∈ m) in Hin.
  apply bt_In_get in Hin; [|done]. rewrite Hg in Hin. destruct (seq_lt q ack); [done|].
  apply bt_get_In in Hin. by apply (proj1 (Forall_elem _ _) ty_inflight0).
Qed.

Lemma typed_on_frame f now s : frame_ok f -> typed s -> typed (on_frame f now s).
Proof.
  intros Hf H. pose proof (ok_payload _ Hf). unfold on_frame. destruct (kind f); try done;
    try (destruct (seq f); [|done]); try (by apply typed_on_data); try (by apply typed_on_ack); try (by apply typed_on_fin).
  - unfold on_nack. case_match; [by refine (typed_ext _ _ _ H)|done].
  - destruct H. constructor; cbn; try done; constructor.
  - by refine (typed_ext _ _ _ H).
Qed.

Lemma seg_frame_ok s q d fin : typed s -> is_u32 q -> seg_ok d -> emit_ok (seg_frame s q d fin).
Proof. intros H Hq [Hd Hl]. destruct H. split; [by constructor|done]. Qed.

Lemma typed_push now d fin s t : typed s -> seg_ok d -> 
  type_view t = (id s, max_segment (cfg s), snd_nxt s, rcv_nxt s, outbox t, inflight s, reorder s, delivered s, nack_pending s) ->
  bytes_ok (outbox t) -> typed (push_segment now d fin t).
Proof.
  unfold type_view. intros H Hd [= E1 E2 E3 E4 E6 E7 E8 E9] Ho. destruct H.
  constructor; cbn; rewrite ?E1, ?E2, ?E3, ?E4, ?E6, ?E7, ?E8, ?E9; try done; [apply wrap32_fits|by apply bt_sorted_insert|].
  by apply bt_insert_Forall.
Qed.

Lemma typed_poll now s : typed s -> typed (poll_transmit now s).2 /\ Forall emit_ok (option_list (poll_transmit now s).1).
Proof.
  intros H. pose proof H as [H1 H2 H3 H4 H5 H6 H7 H8 H9 H10].
  destruct (poll_transmit_spec now s H6) as [q|Hrst|q sq' e rto Hg Hnr|q sq' Hn|q n Hnr Hw ->|q Hnr Hw Hc Hf Ho|q];
    cbn [fst snd option_list].
  - split; [by refine (typed_ext _ _ _ H)|constructor].
  - split; [by refine (typed_ext _ _ _ H)|]. apply Forall_singleton; split; [by constructor|cbn; lia].
  - apply bt_get_In in Hg. pose proof (proj1 (Forall_elem _ _) H7 _ Hg) as [Hq Hd]. split; [|by apply Forall_singleton, seg_frame_ok].
    constructor; cbn; try done; [by apply bt_sorted_alter|]. by apply bt_alter_Forall.
  - split; [destruct H; by constructor|]. rewrite Hn in H10. apply Forall_singleton; split; [by constructor|cbn; lia].
  - set (n := Nat.min _ _). assert (seg_ok (take n (outbox s))) as Hd by (split; [by apply Forall_take|subst n; len]).
    split; [|by apply Forall_singleton, seg_frame_ok]. apply (typed_push _ _ _ s); [done|done|done|]. cbn. by apply Forall_drop.
  - split; [|apply Forall_singleton, seg_frame_ok; try done; split; [constructor|cbn; lia]]. apply typed_update_state.
    assert (typed (push_segment now [] true (s <| fast_retx := q |>))) as Ht.
    { apply (typed_push _ _ _ s); try done. split; [constructor|cbn; lia]. }
    by refine (typed_ext _ _ _ Ht).
  - split; [by refine (typed_ext _ _ _ H)|]. apply Forall_singleton; split; [by constructor|cbn; lia].
Qed.

Lemma typed_exec c s : call_ok c -> typed s -> typed (exec c s).2 /\ Forall emit_ok (option_list (exec c s).1).
Proof.
  intros Hc H. destruct c as [d| | | |n|now|f now]; cbn [exec fst snd option_list]; [..|by apply typed_poll|];
    (split; [|constructor]); try (by refine (typed_ext _ _ _ H)); destruct H.
  - constructor; cbn; try done. by apply Forall_app_2.
  - constructor; cbn; try done; constructor.
  - constructor; cbn; try done; constructor.
  - constructor; cbn; try done. cbn in Hc. lia.
  - by apply typed_on_frame.
Qed.

Lemma typed_execs cs : forall s, Forall call_ok cs -> typed s -> typed (execs cs s).2 /\ Forall emit_ok (execs cs s).1.
Proof.
  induction cs as [|c cs IH]; intros s Hcs H; cbn [execs]; [done|]. apply Forall_cons_iff in Hcs as [Hc Hcs].
  destruct (typed_exec c s Hc H) as [H1 H2]. destruct (exec c s) as [o s1]. cbn [fst snd] in *.
  destruct (IH s1 Hcs H1) as [H3 H4]. destruct (execs cs s1) as [fs s2]. split; [done|]. by apply Forall_app_2.
Qed.

Lemma typed_new sid c init : is_u16 sid -> is_u32 init -> (max_segment c <= B)%nat -> typed (arq.new sid c init).
Proof. intros. constructor; cbn; try done; constructor. Qed.
End Typed.

(** C36: through any sequence of calls and any well-formed incoming frames, a stream
    emits only frames that the frame codec can encode, each with a payload no larger
    than the largest segment size configured, and delivers only bytes. *)
Theorem emitted_frames_ok B sid c init cs :
  is_u16 sid -> is_u32 init -> (max_segment c <= B)%nat -> Forall (call_ok B) cs ->
  let '(fs, s) := execs cs (arq.new sid c init) in
  Forall (fun f => frame.decode (frame.encode f) = Ok f /\ (length (payload f) <= B)%nat) fs /\ bytes_ok (delivered s).
Proof.
  intros Hs Hi Hm Hcs. destruct (typed_execs B cs (arq.new sid c init) Hcs (typed_new B sid c init Hs Hi Hm)) as [Ht Hf].
  destruct (execs cs (arq.new sid c init)) as [fs s]. split; [|apply (ty_delivered _ _ Ht)].
  eapply Forall_impl; [|exact Hf]. intros f [Hok Hl]. split; [by apply decode_encode|done].
Qed.

Lemma emitted_frames_ok_witness :
  let '(fs, s) := execs hostile (arq.new 1 default_config 0) in
  Forall (fun f => frame.decode (frame.encode f) = Ok f /\ (length (payload f) <= 128)%nat) fs /\ bytes_ok (delivered s).
Proof.
  apply (emitted_frames_ok 128 1 default_config 0 hostile); [done|done|vm_compute; lia|].
  unfold hostile. repeat (constructor; [cbn; try done; try (by repeat constructor)|]); try constructor.
Defined.
End arq_types.
