(* ===== verification/ArqSafety.v ===== *)
(** Two ARQ streams over a network that loses, duplicates, delays and reorders
    frames at will: what was read is always a prefix of what was written, an
    end-of-stream is seen only after every byte before it, and the sender keeps
    every segment the receiver has not consumed. *)

From S2P Require Import Prelude BTree F64 TunnelCrypto TunnelFrame TunnelArq ArqPoll.
From stdpp Require Import relations.
#[local] Open Scope Z_scope.

Module arq_system.
Import frame arq arq_facts.

(** ** The system *)

(** One side: its stream, the bytes given to [write] and returned by [read] so far,
    how many bytes had been written at the first [close], and every frame emitted. *)
Record endpoint := mk_ep {
  ep_stream : Stream;
  ep_written : bytes;
  ep_read : bytes;
  ep_closed_at : option nat;
  ep_sent : list Frame;
}.

Definition ep_new (sid : Z) (c : Config) (init : Z) : endpoint := mk_ep (arq.new sid c init) [] [] None [].

(** The operations of one side.  The network hands over any frame the peer has ever
    emitted, any number of times and in any order; the session layer hands over
    keep-alives. *)
Inductive ep_step (peer : list Frame) (e : endpoint) : endpoint -> Prop :=
| do_write data :
    ep_step peer e (mk_ep (write data (ep_stream e)) (ep_written e ++ data) (ep_read e) (ep_closed_at e) (ep_sent e))
| do_close :
    ep_step peer e (mk_ep (close (ep_stream e)) (ep_written e) (ep_read e)
      (Some (default (length (ep_written e)) (ep_closed_at e))) (ep_sent e))
| do_reset :
    ep_step peer e (mk_ep (reset (ep_stream e)) (ep_written e) (ep_read e) (ep_closed_at e) (ep_sent e))
| do_read :
    ep_step peer e (mk_ep (read (ep_stream e)).2 (ep_written e) (ep_read e ++ (read (ep_stream e)).1)
      (ep_closed_at e) (ep_sent e))
| do_set_max n :
    ep_step peer e (mk_ep (set_max_segment n (ep_stream e)) (ep_written e) (ep_read e) (ep_closed_at e) (ep_sent e))
| do_poll now :
    ep_step peer e (mk_ep (poll_transmit now (ep_stream e)).2 (ep_written e) (ep_read e) (ep_closed_at e)
      (ep_sent e ++ option_list (poll_transmit now (ep_stream e)).1))
| do_recv f now :
    f ∈ peer \/ kind f = KeepAlive ->
    ep_step peer e (mk_ep (on_frame f now (ep_stream e)) (ep_written e) (ep_read e) (ep_closed_at e) (ep_sent e)).

Definition system := (endpoint * endpoint)%type.

Inductive step : system -> system -> Prop :=
| step_left a b a' : ep_step (ep_sent b) a a' -> step (a, b) (a', b)
| step_right a b b' : ep_step (ep_sent a) b b' -> step (a, b) (a, b').

Definition start (sid : Z) (ca cb : Config) (init : Z) : system := (ep_new sid ca init, ep_new sid cb init).

(** Fewer than 2^31 frames emitted by a side: beyond that a frame delayed since the
    start could be taken for a fresh one, as in any serial-number protocol. *)
Definition few_frames (e : endpoint) : Prop := Z.of_nat (length (ep_sent e)) < 2 ^ 31.

(** ** The invariant of one direction, over the log of the segments cut so far *)

Abbreviation segment := (bytes * bool)%type.
Definition log_bytes (L : list segment) : bytes := concat L.*1.

Section Direction.
Context (init : Z).
Abbreviation sq := (at_seq init).

(** The sender has cut the segments [L]; its peer has consumed the first [m]. *)
Record snd_ok (L : list segment) (m : nat) (w : bytes) (cl : option nat) (s : Stream) : Prop := {
  so_log : exists lost, w = log_bytes L ++ lost ++ outbox s /\ (state s <> Reset -> lost = []);
  so_nxt : snd_nxt s = sq (length L);
  so_closing : (closing s = true -> is_Some cl) /\ forall n, cl = Some n -> (n <= length w)%nat;
  so_fin i d : L !! i = Some (d, true) ->
    d = [] /\ fin_seq s = Some (sq i) /\ exists n, cl = Some n /\ (n <= length (log_bytes (take i L)))%nat;
  so_fin_seq q : fin_seq s = Some q -> exists i, L !! i = Some ([], true) /\ q = sq i;
  so_sorted : bt_sorted (inflight s);
  so_una : exists u, (u <= m)%nat /\ (m <= length L)%nat /\ snd_una s = sq u /\
    (Z.of_nat (length L - u) <= Z.max 0 (send_window (cfg s))) /\
    (forall q e, bt_get q (inflight s) = Some e ->
       exists i, (u <= i)%nat /\ L !! i = Some (s_data e, is_fin e) /\ q = sq i) /\
    (state s <> Reset -> forall i, (u <= i < length L)%nat -> is_Some (bt_get (sq i) (inflight s)));
  so_acked : local_fin_acked s = true -> exists i, L !! i = Some ([], true) /\ (i < m)%nat;
  so_closed : state s = Closed -> local_fin_acked s = true /\ remote_fin_recvd s = true;
}.

(** The receiver has consumed the first [m] segments of [L]. *)
Record rcv_ok (L : list segment) (m : nat) (rd : bytes) (s : Stream) : Prop := {
  ro_m : (m <= length L)%nat;
  ro_nxt : rcv_nxt s = sq m;
  ro_bytes : rd ++ delivered s = log_bytes (take m L);
  ro_reorder q p : bt_get q (reorder s) = Some p -> exists i, L !! i = Some (p, false) /\ q = sq i;
  ro_fin q : remote_fin_seq s = Some q -> exists i, L !! i = Some ([], true) /\ q = sq i;
  ro_finished : remote_fin_recvd s = true -> exists i, L !! i = Some ([], true) /\ (i < m)%nat;
}.

(** The frames emitted by a side that cut [L] and consumed [m] segments of its peer. *)
Definition frame_in (L : list segment) (m : nat) (f : Frame) : Prop :=
  match kind f with
  | Data => exists i, L !! i = Some (payload f, false) /\ seq f = Some (sq i)
  | Fin => exists i, L !! i = Some ([], true) /\ seq f = Some (sq i)
  | Ack => exists i, (i <= m)%nat /\ seq f = Some (sq i)
  | _ => True
  end.

(** *** Logs *)

Lemma log_bytes_app L L' : log_bytes (L ++ L') = log_bytes L ++ log_bytes L'.
Proof. unfold log_bytes. by rewrite fmap_app, concat_app. Qed.

Lemma log_bytes_take_S L i p b : L !! i = Some (p, b) -> log_bytes (take (S i) L) = log_bytes (take i L) ++ p.
Proof.
  intros H. rewrite (take_S_r _ _ _ H), log_bytes_app. unfold log_bytes at 2. cbn. by rewrite app_nil_r.
Qed.

Lemma log_bytes_take_le L i j : (i <= j)%nat -> (length (log_bytes (take i L)) <= length (log_bytes (take j L)))%nat.
Proof.
  intros H. rewrite <- (take_drop i (take j L)), take_take, Nat.min_l, log_bytes_app by done. len.
Qed.

Lemma frame_in_mono L L' m m' f : (m <= m')%nat -> frame_in L m f -> frame_in (L ++ L') m' f.
Proof.
  unfold frame_in. intros Hm. destruct (kind f); intros; try done; destruct H as (i & H & ->).
  - exists i. by rewrite (lookup_app_l_Some _ _ _ _ H).
  - exists i. split; [lia|done].
  - exists i. by rewrite (lookup_app_l_Some _ _ _ _ H).
Qed.

Lemma rcv_ok_mono L L' m rd s : rcv_ok L m rd s -> rcv_ok (L ++ L') m rd s.
Proof.
  assert (forall i x, L !! i = Some x -> (L ++ L') !! i = Some x) as Hl by (intros; by apply lookup_app_l_Some).
  intros [Hm Hn Hb Hr Hf Hfi]. constructor; [len|done|by rewrite take_app_le| | |].
  - intros q p H. apply Hr in H as (i & H & ->). eauto.
  - intros q H. apply Hf in H as (i & H & ->). eauto.
  - intros H. apply Hfi in H as (i & H & ?). eauto.
Qed.

Lemma snd_ok_mono L m m' w cl s : (m <= m' <= length L)%nat -> snd_ok L m w cl s -> snd_ok L m' w cl s.
Proof.
  intros Hm [H1 H2 H3 H4 H5 H6 (u & Hu & _ & H7) H8 H9]. constructor; try done.
  - exists u. split_and!; [lia|lia|apply H7..].
  - intros H. destruct (H8 H) as (i & ? & ?). exists i. split; [done|lia].
Qed.

(** *** What each half of the invariant looks at *)

Definition send_view (s : Stream) :=
  (outbox s, snd_nxt s, closing s, fin_seq s, inflight s, snd_una s, local_fin_acked s, send_window (cfg s)).
Definition rcv_view (s : Stream) :=
  (rcv_nxt s, reorder s, delivered s, remote_fin_seq s, remote_fin_recvd s).
Definition closed_ok (s : Stream) : Prop :=
  state s = Closed -> local_fin_acked s = true /\ remote_fin_recvd s = true.

Lemma snd_ok_ext L m w cl s s' :
  send_view s' = send_view s -> (state s' <> Reset -> state s <> Reset) -> closed_ok s' ->
  snd_ok L m w cl s -> snd_ok L m w cl s'.
Proof.
  unfold send_view. intros [= E1 E2 E3 E4 E5 E6 E7 E8] Hst Hcl [H1 H2 H3 H4 H5 H6 (u & Hu) H8 H9].
  constructor; rewrite ?E1, ?E2, ?E3, ?E4, ?E5, ?E6, ?E7, ?E8; try done.
  - destruct H1 as (lost & ? & ?). exists lost. auto.
  - exists u. split_and!; try apply Hu. intros. apply Hu; auto.
  - intros. rewrite <- E7. by apply Hcl.
Qed.

Lemma rcv_ok_ext L m rd s s' : rcv_view s' = rcv_view s -> rcv_ok L m rd s -> rcv_ok L m rd s'.
Proof.
  unfold rcv_view. intros [= E1 E2 E3 E4 E5] [H1 H2 H3 H4 H5 H6].
  constructor; rewrite ?E1, ?E2, ?E3, ?E4, ?E5; done.
Qed.

Lemma update_state_ok s : closed_ok s -> closed_ok (update_state s).
Proof.
  intros H Hc. destruct (decide (state s = Reset)) as [E|E].
  - apply update_state_reset in E. congruence.
  - rewrite update_state_fields. cbn. by apply update_state_closed.
Qed.

Lemma update_state_send s : send_view (update_state s) = send_view s.
Proof. rewrite update_state_fields. done. Qed.
Lemma update_state_rcv s : rcv_view (update_state s) = rcv_view s.
Proof. rewrite update_state_fields. done. Qed.

(** *** The receive side: consuming segments *)

Context (L : list segment) (HL : Z.of_nat (length L) < 2 ^ 31).

Lemma sq_inj i j : (i <= length L)%nat -> (j <= length L)%nat -> sq i = sq j -> i = j.
Proof. intros. eapply at_seq_inj; [|done]. change (2 ^ 31) with 2147483648 in HL. change (2 ^ 32) with 4294967296. lia. Qed.

Lemma sq_lt i j : (i <= length L)%nat -> (j <= length L)%nat -> seq_lt (sq i) (sq j) = true <-> (i < j)%nat.
Proof. intros. apply seq_lt_spec. lia. Qed.

(** Consuming the segment the receiver waits for. *)
Lemma rcv_ok_deliver m rd s p s' :
  rcv_ok L m rd s -> L !! m = Some (p, false) ->
  rcv_nxt s' = wrap32 (rcv_nxt s + 1) -> delivered s' = delivered s ++ p ->
  (forall q x, bt_get q (reorder s') = Some x -> bt_get q (reorder s) = Some x) ->
  remote_fin_seq s' = remote_fin_seq s -> remote_fin_recvd s' = remote_fin_recvd s ->
  rcv_ok L (S m) rd s'.
Proof.
  intros [H1 H2 H3 H4 H5 H6] Hl E1 E2 E3 E4 E5. constructor.
  - apply lookup_lt_Some in Hl. lia.
  - by rewrite E1, H2, at_seq_succ.
  - by rewrite E2, (log_bytes_take_S _ _ _ _ Hl), <- H3, app_assoc.
  - intros q x Hq. apply H4. auto.
  - by rewrite E4.
  - rewrite E5. intros H. destruct (H6 H) as (i & ? & ?). exists i. split; [done|lia].
Qed.

Lemma rcv_ok_advance fuel : forall m rd s, rcv_ok L m rd s ->
  exists m', (m <= m')%nat /\ rcv_ok L m' rd (advance_loop fuel s).
Proof.
  induction fuel as [|fuel IH]; intros m rd s H; cbn [advance_loop]; [by exists m|].
  pose proof H as [H1 H2 H3 H4 H5 H6].
  destruct (bt_get (rcv_nxt s) (reorder s)) as [p|] eqn:E.
  - destruct (H4 _ _ E) as (i & Hi & Hq). rewrite H2 in Hq.
    apply sq_inj in Hq as <-; [|lia|apply lookup_lt_Some in Hi; lia].
    edestruct (IH (S m) rd) as (m' & ? & Hok); [|exists m'; split; [|exact Hok]; lia].
    eapply rcv_ok_deliver; try done. intros q x. cbn.
    destruct (decide (rcv_nxt s = q)) as [->|]; [by rewrite bt_get_remove|by rewrite bt_get_remove_ne].
  - case_match eqn:Ef; [|by exists m]. apply andb_true_iff in Ef as [Ef _]. apply bool_decide_eq_true in Ef.
    destruct (H5 _ Ef) as (i & Hi & Hq). rewrite H2 in Hq.
    apply sq_inj in Hq as <-; [|lia|apply lookup_lt_Some in Hi; lia].
    exists (S m). split; [lia|]. eapply rcv_ok_ext; [apply update_state_rcv|]. constructor; cbn; try done.
    + apply lookup_lt_Some in Hi. lia.
    + by rewrite H2, at_seq_succ.
    + by rewrite (log_bytes_take_S _ _ _ _ Hi), app_nil_r.
    + intros _. exists m. split; [done|lia].
Qed.

Lemma rcv_ok_advance_recv m rd s : rcv_ok L m rd s ->
  exists m', (m <= m')%nat /\ rcv_ok L m' rd (advance_recv s).
Proof.
  intros H. destruct (rcv_ok_advance (S (length (reorder s))) m rd s H) as (m' & ? & H'). exists m'. split; [done|].
  by refine (rcv_ok_ext _ _ _ _ _ _ H').
Qed.

Lemma rcv_ok_on_data m rd s q p i : rcv_ok L m rd s -> L !! i = Some (p, false) -> q = sq i ->
  exists m', (m <= m')%nat /\ rcv_ok L m' rd (on_data q p s).
Proof.
  intros H Hi ->. unfold on_data. cbn [rcv_nxt cfg reorder update_field].
  assert (rcv_ok L m rd (s <| ack_pending := true |>)) as H' by by refine (rcv_ok_ext _ _ _ _ _ _ H).
  repeat case_match; try (exists m; done).
  - pose proof (ro_nxt _ _ _ _ H) as Hn. apply Z.eqb_eq in H2. cbn in H2. rewrite Hn in H2.
    pose proof (ro_m _ _ _ _ H). apply sq_inj in H2 as ->; [|apply lookup_lt_Some in Hi; lia|lia].
    edestruct (rcv_ok_advance_recv (S m)) as (m' & ? & ?); [|exists m'; split; [lia|done]].
    by eapply rcv_ok_deliver.
  - exists m. split; [done|]. destruct H. constructor; try done. cbn. intros q p'. unfold bt_or_insert.
    case_match; [by apply ro_reorder0|]. destruct (decide (sq i = q)) as [<-|].
    + rewrite bt_get_insert. intros [= <-]. eauto.
    + rewrite bt_get_insert_ne by done. by apply ro_reorder0.
Qed.

Lemma rcv_ok_on_fin m rd s q i : rcv_ok L m rd s -> L !! i = Some ([], true) -> q = sq i ->
  exists m', (m <= m')%nat /\ rcv_ok L m' rd (on_fin q s).
Proof.
  intros H Hi ->. unfold on_fin. apply rcv_ok_advance_recv. destruct H. cbn.
  destruct (remote_fin_seq s) as [z|] eqn:E; cbn; constructor; cbn; try done.
  - rewrite E. done.
  - intros q' H. injection H as <-. eauto.
Qed.

(** *** Operations that leave the send side alone *)

Record quiet (s s' : Stream) : Prop := {
  qu_view : send_view s' = send_view s;
  qu_reset : state s' = Reset <-> state s = Reset;
  qu_closed : closed_ok s -> closed_ok s';
}.

Lemma quiet_refl s : quiet s s.
Proof. by constructor. Qed.
Lemma quiet_trans s1 s2 s3 : quiet s1 s2 -> quiet s2 s3 -> quiet s1 s3.
Proof. intros [A1 A2 A3] [B1 B2 B3]. constructor; [congruence|tauto|auto]. Qed.

Lemma snd_ok_quiet m w cl s s' : quiet s s' -> snd_ok L m w cl s -> snd_ok L m w cl s'.
Proof.
  intros [Hv Hr Hc] H. eapply snd_ok_ext; [exact Hv|tauto| |exact H]. exact (Hc (so_closed _ _ _ _ _ H)).
Qed.

Lemma quiet_advance_loop fuel : forall s, quiet s (advance_loop fuel s).
Proof.
  induction fuel as [|fuel IH]; intros s; cbn [advance_loop]; [apply quiet_refl|].
  destruct (bt_get (rcv_nxt s) (reorder s)) as [p|].
  - eapply quiet_trans; [|apply IH]. by constructor.
  - case_match; [|apply quiet_refl]. constructor; [by rewrite update_state_send|by rewrite update_state_reset|].
    intros Hc. apply update_state_ok. intros E. split; [apply (Hc E)|done].
Qed.

Lemma quiet_advance_recv s : quiet s (advance_recv s).
Proof. eapply quiet_trans; [apply quiet_advance_loop|]. by constructor. Qed.

Lemma quiet_on_data q p s : quiet s (on_data q p s).
Proof.
  unfold on_data. repeat case_match; try by constructor.
  eapply quiet_trans; [|apply quiet_advance_recv]. by constructor.
Qed.

Lemma quiet_on_fin q s : quiet s (on_fin q s).
Proof.
  unfold on_fin. eapply quiet_trans; [|apply quiet_advance_recv]. by case_match; constructor.
Qed.

(** *** Acknowledgements *)

Lemma on_ack_views ack now s :
  rcv_view (on_ack ack now s) = rcv_view s /\
  (state (on_ack ack now s) = Reset <-> state s = Reset) /\
  send_view (on_ack ack now s) =
    (outbox s, snd_nxt s, closing s, fin_seq s, inflight (on_ack ack now s),
     if seq_lt (snd_una s) ack then ack else snd_una s,
     match fin_seq s with Some fs => seq_lt fs ack || local_fin_acked s | None => local_fin_acked s end,
     send_window (cfg s)) /\
  (closed_ok s -> closed_ok (on_ack ack now s)).
Proof.
  destruct (on_ack_fields ack now s) as (m & a & b & c & st & E & Hr & Hc). rewrite E.
  split_and!; [reflexivity|exact Hr|unfold send_view; cbn; reflexivity|]. intros _. exact Hc.
Qed.

Lemma snd_ok_on_ack m w cl s i now : snd_ok L m w cl s -> (i <= m)%nat -> snd_ok L m w cl (on_ack (sq i) now s).
Proof.
  intros H Hi. pose proof H as [H1 H2 H3 H4 H5 H6 (u & Hu & Hm & Hun & Hw & Hin & Hall) H8 H9].
  destruct (on_ack_views (sq i) now s) as (_ & Hr & Hv & Hc).
  destruct (on_ack_inflight (sq i) now s H6) as [Hs Hg].
  set (s' := on_ack (sq i) now s) in *. clearbody s'. injection Hv as E1 E2 E3 E4 E5 E6 E7.
  constructor; rewrite ?E1, ?E2, ?E3, ?E4, ?E5, ?E6, ?E7; try done.
  - destruct H1 as (lost & ? & ?). exists lost. split; [done|]. rewrite Hr. auto.
  - exists (Nat.max u i). split_and!; [lia|done| |lia|..].
    + rewrite Hun. destruct (seq_lt (sq u) (sq i)) eqn:El.
      * apply sq_lt in El; [|lia..]. by rewrite Nat.max_r by lia.
      * rewrite Nat.max_l; [done|]. apply seq_lt_false in El; [done|lia].
    + intros q e. rewrite Hg. destruct (seq_lt q (sq i)) eqn:El; [done|]. intros Hq.
      destruct (Hin _ _ Hq) as (j & Huj & Hj & ->). exists j. split; [|done].
      apply seq_lt_false in El; [lia|]. apply lookup_lt_Some in Hj. lia.
    + rewrite Hr. intros Hnr j Hj. rewrite Hg.
      rewrite (proj2 (seq_lt_false init j i ltac:(lia))) by lia. apply Hall; [done|lia].
  - intros Ha. destruct (fin_seq s) as [fs|] eqn:Ef; [|auto]. apply orb_true_iff in Ha as [Ha|Ha]; [|auto].
    destruct (H5 _ eq_refl) as (j & Hj & ->). exists j. split; [done|].
    apply lookup_lt_Some in Hj as ?. apply sq_lt in Ha; lia.
  - intros E. rewrite <- E6. by apply Hc.
Qed.

(** *** A reset drops the send buffers *)

Lemma snd_ok_clear m w cl s s' :
  snd_ok L m w cl s -> state s' = Reset -> inflight s' = [] -> outbox s' = [] ->
  (snd_nxt s', closing s', fin_seq s', snd_una s', local_fin_acked s', send_window (cfg s')) =
  (snd_nxt s, closing s, fin_seq s, snd_una s, local_fin_acked s, send_window (cfg s)) ->
  snd_ok L m w cl s'.
Proof.
  intros [(lost & -> & _) H2 H3 H4 H5 H6 (u & Hu & Hm & Hun & Hw & Hin & Hall) H8 H9] Hst Ei Eo [= E1 E2 E3 E4 E5 E6].
  constructor; rewrite ?Ei, ?Eo, ?E1, ?E2, ?E3, ?E4, ?E5, ?E6; try done; [..|congruence].
  - exists (lost ++ outbox s). by rewrite app_nil_r.
  - constructor.
  - exists u. split_and!; try done.
Qed.

Lemma rcv_ok_clear m rd s s' :
  rcv_ok L m rd s -> reorder s' = [] ->
  (rcv_nxt s', delivered s', remote_fin_seq s', remote_fin_recvd s') =
  (rcv_nxt s, delivered s, remote_fin_seq s, remote_fin_recvd s) ->
  rcv_ok L m rd s'.
Proof.
  intros [H1 H2 H3 H4 H5 H6] Er [= E1 E2 E3 E4]. constructor; rewrite ?Er, ?E1, ?E2, ?E3, ?E4; done.
Qed.

(** *** Emitting frames *)

Lemma snd_ok_touch m w cl s s' q e now :
  snd_ok L m w cl s -> bt_get q (inflight s) = Some e ->
  inflight s' = bt_alter (touch now) q (inflight s) ->
  (outbox s', snd_nxt s', closing s', fin_seq s', snd_una s', local_fin_acked s', remote_fin_recvd s', send_window (cfg s'), state s') =
  (outbox s, snd_nxt s, closing s, fin_seq s, snd_una s, local_fin_acked s, remote_fin_recvd s, send_window (cfg s), state s) ->
  snd_ok L m w cl s'.
Proof.
  intros [H1 H2 H3 H4 H5 H6 (u & Hu & Hm & Hun & Hw & Hin & Hall) H8 H9] Hq Ei [= E1 E2 E3 E4 E5 E6 E7 E8 E9].
  constructor; rewrite ?E1, ?E2, ?E3, ?E4, ?E5, ?E6, ?E7, ?E8, ?E9; try done.
  - rewrite Ei. by apply bt_sorted_alter.
  - exists u. split_and!; try done.
    + intros q' e'. rewrite Ei. destruct (decide (q = q')) as [<-|].
      * rewrite bt_get_alter, Hq. intros [= <-]. apply (Hin _ _ Hq).
      * rewrite bt_get_alter_ne by done. apply Hin.
    + intros Hnr i Hi. rewrite Ei. destruct (decide (q = sq i)) as [->|].
      * rewrite bt_get_alter. by apply fmap_is_Some, Hall.
      * rewrite bt_get_alter_ne by done. by apply Hall.
Qed.

Lemma lookup_snoc_Some {A} (l : list A) x i y : (l ++ [x]) !! i = Some y <-> l !! i = Some y \/ i = length l /\ y = x.
Proof.
  rewrite lookup_app_Some, list_lookup_singleton_Some. split; intros [?|[? ?]]; auto.
  - right. destruct H0 as [? ->]. split; [lia|done].
  - right. subst. split; [lia|]. by rewrite Nat.sub_diag.
Qed.

Lemma snd_ok_push m w cl s s' d fin now :
  snd_ok L m w cl s -> state s <> Reset -> inflight_count s < send_window (cfg s) ->
  (snd_nxt s', inflight s', snd_una s', closing s', local_fin_acked s', send_window (cfg s')) =
  (wrap32 (snd_nxt s + 1), bt_insert (snd_nxt s) (mk_sent d now 0 fin) (inflight s), snd_una s, closing s, local_fin_acked s, send_window (cfg s)) ->
  outbox s = d ++ outbox s' -> (state s' <> Reset -> state s <> Reset) -> closed_ok s' ->
  (if fin then d = [] /\ fin_seq s = None /\ fin_seq s' = Some (snd_nxt s) /\ closing s = true /\ outbox s = []
   else fin_seq s' = fin_seq s) ->
  snd_ok (L ++ [(d, fin)]) m w cl s'.
Proof.
  intros [(lost & H1 & Hlost) H2 H3 H4 H5 H6 (u & Hu & Hm & Hun & Hw & Hin & Hall) H8 H9] Hnr Hcnt
    [= E1 E2 E3 E4 E5 E6] Eo Hst Hcl Hfin.
  assert (inflight_count s = Z.of_nat (length L - u)) as Hc.
  { unfold inflight_count. rewrite H2, Hun. unfold at_seq. rewrite wrap32_diff. rewrite wrap_small; [lia|].
    unfold fits. change (2 ^ 31) with 2147483648 in HL. change (2 ^ 32) with 4294967296. lia. }
  rewrite (Hlost Hnr), app_nil_l in H1.
  assert (forall i, (i < length L)%nat -> snd_nxt s <> sq i) as Hfresh.
  { intros i Hi E. rewrite H2 in E. apply sq_inj in E; lia. }
  constructor; rewrite ?E1, ?E2, ?E3, ?E4, ?E5, ?E6.
  - exists []. split; [|done]. rewrite H1, Eo, log_bytes_app, <- app_assoc. unfold log_bytes at 3. cbn. by rewrite app_nil_r.
  - rewrite H2, at_seq_succ. f_equal. len.
  - done.
  - intros i d'. rewrite lookup_snoc_Some. intros [Hi|[-> [= -> <-]]].
    + destruct (H4 _ _ Hi) as (-> & Hf & n & ? & ?). split; [done|]. destruct fin; [destruct Hfin as (_ & ? & _); congruence|].
      rewrite Hfin. split; [done|]. exists n. split; [done|]. rewrite take_app_le; [done|]. apply lookup_lt_Some in Hi. lia.
    + destruct Hfin as (-> & Hf & -> & Hclo & Ho). split; [done|]. rewrite <- H2. split; [done|].
      destruct H3 as [Hcs Hn]. destruct (Hcs Hclo) as [n ?]. specialize (Hn n ltac:(done)). exists n. split; [done|]. rewrite take_app_length. by rewrite H1, Ho, app_nil_r in Hn.
  - intros q Hq. destruct fin.
    + destruct Hfin as (-> & Hf & Ef & _). rewrite Ef in Hq. injection Hq as <-. exists (length L). split; [|by rewrite <- H2].
      apply lookup_snoc_Some. auto.
    + rewrite Hfin in Hq. destruct (H5 _ Hq) as (i & ? & ?). exists i. split; [|done]. apply lookup_snoc_Some. auto.
  - by apply bt_sorted_insert.
  - exists u. split_and!; [done|len|done|rewrite length_app; cbn [length]; lia|..].
    + intros q e. destruct (decide (snd_nxt s = q)) as [<-|].
      * rewrite bt_get_insert. intros [= <-]. cbn. exists (length L). split_and!; [lia| |done]. apply lookup_snoc_Some. auto.
      * rewrite bt_get_insert_ne by done. intros Hq. destruct (Hin _ _ Hq) as (i & ? & ? & ?). exists i.
        split_and!; [done| |done]. apply lookup_snoc_Some. auto.
    + intros _ i Hi. rewrite length_app in Hi. cbn [length] in Hi. destruct (decide (i = length L)) as [->|].
      * rewrite <- H2, bt_get_insert. eauto.
      * rewrite bt_get_insert_ne by (apply Hfresh; lia). apply Hall; [done|lia].
  - intros Ha. destruct (H8 Ha) as (i & ? & ?). exists i. split; [|done]. apply lookup_snoc_Some. auto.
  - rewrite <- E5. exact Hcl.
Qed.

Lemma poll_ok Lp m mp w cl rd s now :
  snd_ok L m w cl s -> rcv_ok Lp mp rd s ->
  let r := poll_transmit now s in
  exists L2, snd_ok (L ++ L2) m w cl r.2 /\ rcv_ok Lp mp rd r.2 /\
    Forall (frame_in (L ++ L2) mp) (option_list r.1) /\ (length L2 <= length (option_list r.1))%nat.
Proof.
  intros Hs Hr. cbv zeta. pose proof (so_closed _ _ _ _ _ Hs) as Hcl.
  destruct (poll_transmit_spec now s (so_sorted _ _ _ _ _ Hs))
    as [q|Hrst|q sq' e rto Hg Hnr|q sq' Hn|q n Hnr Hw ->|q Hnr Hw Hc Hf Ho|q]; cbn [fst snd option_list].
  - exists []. rewrite app_nil_r. split_and!; [by eapply snd_ok_ext; [..|exact Hs]|by eapply rcv_ok_ext; [..|exact Hr]|constructor|done].
  - exists []. rewrite app_nil_r. split_and!; [by eapply snd_ok_ext; [..|exact Hs]|by eapply rcv_ok_ext; [..|exact Hr]|by repeat constructor|cbn; lia].
  - exists []. rewrite app_nil_r. split_and!; [by eapply snd_ok_touch|by eapply rcv_ok_ext; [..|exact Hr]| |cbn; lia].
    apply Forall_singleton. destruct (so_una _ _ _ _ _ Hs) as (u & _ & _ & _ & _ & Hin & _).
    destruct (Hin _ _ Hg) as (i & _ & Hi & ->). unfold frame_in, seg_frame. destruct (is_fin e); cbn; exists i; [|done].
    by destruct (so_fin _ _ _ _ _ Hs _ _ Hi) as (E & _ & _); rewrite E in Hi.
  - exists []. rewrite app_nil_r. split_and!; [by eapply snd_ok_ext; [..|exact Hs]|by eapply rcv_ok_ext; [..|exact Hr]|by repeat constructor|cbn; lia].
  - set (n := Nat.min _ _). exists [(take n (outbox s), false)]. split_and!; [|by eapply rcv_ok_ext; [..|exact Hr]| |done].
    + eapply (snd_ok_push m w cl s); try done. cbn. by rewrite take_drop.
    + apply Forall_singleton. exists (length L). split; [by apply lookup_snoc_Some; auto|]. cbn. by rewrite (so_nxt _ _ _ _ _ Hs).
  - exists [([], true)]. split_and!; [| | |done].
    + eapply (snd_ok_push m w cl s _ [] true now); try done; try (rewrite update_state_fields; done).
      by apply update_state_ok.
    + eapply rcv_ok_ext; [|exact Hr]. by rewrite update_state_rcv.
    + apply Forall_singleton. exists (length L). split; [by apply lookup_snoc_Some; auto|]. cbn. by rewrite (so_nxt _ _ _ _ _ Hs).
  - exists []. rewrite app_nil_r. split_and!; [by eapply snd_ok_ext; [..|exact Hs]|by eapply rcv_ok_ext; [..|exact Hr]| |cbn; lia].
    apply Forall_singleton. exists mp. split; [done|]. cbn. by rewrite (ro_nxt _ _ _ _ Hr).
Qed.
End Direction.

(** ** One endpoint, then the system *)

Record half (init : Z) (L : list segment) (m : nat) (Lp : list segment) (mp : nat) (e : endpoint) : Prop := {
  ha_snd : snd_ok init L m (ep_written e) (ep_closed_at e) (ep_stream e);
  ha_rcv : rcv_ok init Lp mp (ep_read e) (ep_stream e);
  ha_sent : Forall (frame_in init L mp) (ep_sent e);
  ha_few : (length L <= length (ep_sent e))%nat;
}.

Section Endpoint.
Context (init : Z) (L Lp : list segment) (m mp : nat) (peer : list Frame).
Context (HL : Z.of_nat (length L) < 2 ^ 31) (HLp : Z.of_nat (length Lp) < 2 ^ 31).
Context (Hpeer : Forall (frame_in init Lp m) peer).

Lemma sent_mono mp' fs : (mp <= mp')%nat -> Forall (frame_in init L mp) fs -> Forall (frame_in init L mp') fs.
Proof.
  intros Hm H. rewrite Forall_elem in H |- *. intros f Hf. rewrite <- (app_nil_r L). by eapply frame_in_mono; [|apply H].
Qed.

(** A frame of the peer, or a keep-alive. *)
Lemma recv_ok f now w cl rd s :
  f ∈ peer \/ kind f = KeepAlive -> snd_ok init L m w cl s -> rcv_ok init Lp mp rd s ->
  exists mp', (mp <= mp')%nat /\ snd_ok init L m w cl (on_frame f now s) /\ rcv_ok init Lp mp' rd (on_frame f now s).
Proof.
  intros Hf Hs Hr. assert (kind f = KeepAlive \/ frame_in init Lp m f) as Hk.
  { destruct Hf; [right|by left]. by apply (proj1 (Forall_elem _ _) Hpeer). }
  assert (forall s', quiet s s' -> rcv_view s' = rcv_view s ->
    exists mp', (mp <= mp')%nat /\ snd_ok init L m w cl s' /\ rcv_ok init Lp mp' rd s') as Hquiet.
  { intros s' Hq Hv. exists mp. split_and!; [done|by eapply snd_ok_quiet|by eapply rcv_ok_ext]. }
  pose proof (so_closed _ _ _ _ _ _ Hs) as Hcl.
  unfold on_frame. unfold frame_in in Hk. destruct (kind f) eqn:E; destruct Hk as [Hk|Hk]; try done;
    try (apply Hquiet; by constructor).
  - destruct Hk as (i & Hi & ->). destruct (rcv_ok_on_data init Lp HLp mp rd s _ _ i Hr Hi eq_refl) as (mp' & ? & ?).
    exists mp'. split_and!; [done| |done]. eapply snd_ok_quiet; [apply quiet_on_data|done].
  - destruct Hk as (i & Hi & ->). exists mp. split_and!; [done|by apply snd_ok_on_ack|].
    eapply rcv_ok_ext; [|exact Hr]. apply on_ack_views.
  - unfold on_nack. repeat case_match; apply Hquiet; by constructor.
  - destruct Hk as (i & Hi & ->). destruct (rcv_ok_on_fin init Lp HLp mp rd s _ i Hr Hi eq_refl) as (mp' & ? & ?).
    exists mp'. split_and!; [done| |done]. eapply snd_ok_quiet; [apply quiet_on_fin|done].
  - exists mp. split_and!; [done|by eapply snd_ok_clear|by eapply rcv_ok_clear].
Qed.

Lemma half_step e e' : half init L m Lp mp e -> ep_step peer e e' ->
  exists L2 mp', (mp <= mp')%nat /\ half init (L ++ L2) m Lp mp' e'.
Proof.
  intros [Hs Hr Hf Hfew] [data| | | |n|now|f now Hf0].
  - exists [], mp. rewrite app_nil_r. split; [done|]. constructor; cbn; try done; [|by eapply rcv_ok_ext; [|exact Hr]].
    destruct Hs as [(lost & -> & Hlost) H2 H3 H4 H5 H6 H7 H8 H9]. constructor; try done.
    + exists lost. split; [|done]. cbn. by rewrite <- !app_assoc.
    + split; [apply H3|]. intros k Hk. apply H3 in Hk. len.
  - exists [], mp. rewrite app_nil_r. split; [done|]. constructor; cbn; try done; [|by eapply rcv_ok_ext; [|exact Hr]].
    destruct Hs as [H1 H2 [H3 H3'] H4 H5 H6 H7 H8 H9]. constructor; try done.
    + split; [eauto|]. intros k [= <-]. destruct (ep_closed_at e) as [k|]; cbn; [by apply H3'|done].
    + intros i d Hi. destruct (H4 i d Hi) as (-> & ? & k & -> & ?). split_and!; [done..|]. exists k. done.
  - exists [], mp. rewrite app_nil_r. split; [done|]. constructor; cbn; try done; [by eapply snd_ok_clear|by eapply rcv_ok_clear].
  - exists [], mp. rewrite app_nil_r. split; [done|]. pose proof (so_closed _ _ _ _ _ _ Hs). constructor; cbn; try done.
    { by eapply snd_ok_ext; [..|exact Hs]. }
    destruct Hr as [H1 H2 H3 H4 H5 H6]. constructor; cbn; try done. by rewrite app_nil_r.
  - exists [], mp. rewrite app_nil_r. split; [done|]. pose proof (so_closed _ _ _ _ _ _ Hs). constructor; cbn; try done.
    { by eapply snd_ok_ext; [..|exact Hs]. } by eapply rcv_ok_ext; [|exact Hr].
  - destruct (poll_ok init L HL Lp m mp _ _ _ _ now Hs Hr) as (L2 & Hs' & Hr' & Hf' & Hlen).
    exists L2, mp. split; [done|]. constructor; cbn; try done; [|len].
    apply Forall_app. split; [|done]. rewrite Forall_elem in Hf |- *. intros f Hin. eapply frame_in_mono; [done|by apply Hf].
  - destruct (recv_ok f now _ _ _ _ Hf0 Hs Hr) as (mp' & ? & ? & ?). exists [], mp'. rewrite app_nil_r.
    split; [done|]. constructor; cbn; try done. by apply (sent_mono mp').
Qed.

(** The peer's moves do not disturb this side. *)
Lemma half_peer_mono L2 m' e : half init L m Lp mp e -> (m <= m' <= length L)%nat ->
  half init L m' (Lp ++ L2) mp e.
Proof.
  intros [Hs Hr Hf Hfew] Hm. constructor; [by eapply snd_ok_mono|by apply rcv_ok_mono|done|done].
Qed.
End Endpoint.

Definition sys_ok (init : Z) (s : system) : Prop :=
  exists La Lb ma mb, half init La mb Lb ma s.1 /\ half init Lb ma La mb s.2.

Lemma half_start init sid c : is_u32 init -> half init [] 0 [] 0 (ep_new sid c init).
Proof.
  intros Hi. pose proof (at_seq_0 init Hi) as E0. constructor; [..|constructor|done]; constructor; cbn; try done.
  - by exists [].
  - constructor.
  - exists 0%nat. split_and!; try done; lia.
Qed.

Lemma ep_step_sent peer e e' : ep_step peer e e' -> (length (ep_sent e) <= length (ep_sent e'))%nat.
Proof. intros []; cbn; len. Qed.

Lemma step_few s s' : step s s' -> few_frames s'.1 -> few_frames s'.2 -> few_frames s.1 /\ few_frames s.2.
Proof. unfold few_frames. intros [a b a' H|a b b' H]; apply ep_step_sent in H; cbn; lia. Qed.

Lemma step_ok init s s' : sys_ok init s -> few_frames s.1 -> few_frames s.2 -> step s s' -> sys_ok init s'.
Proof.
  unfold few_frames. intros (La & Lb & ma & mb & Ha & Hb) Fa Fb Hst.
  pose proof (ha_few _ _ _ _ _ _ Ha). pose proof (ha_few _ _ _ _ _ _ Hb).
  destruct Hst as [a b a' Hst|a b b' Hst]; cbn [fst snd] in *.
  - destruct (half_step init La Lb mb ma (ep_sent b)) with (e := a) (e' := a') as (L2 & ma' & Hm & Ha'); try done; try lia.
    { apply (ha_sent _ _ _ _ _ _ Hb). }
    exists (La ++ L2), Lb, ma', mb. split; [done|]. apply (half_peer_mono init Lb La ma mb); [done|].
    split; [done|]. apply (ro_m _ _ _ _ _ (ha_rcv _ _ _ _ _ _ Ha')).
  - destruct (half_step init Lb La ma mb (ep_sent a)) with (e := b) (e' := b') as (L2 & mb' & Hm & Hb'); try done; try lia.
    { apply (ha_sent _ _ _ _ _ _ Ha). }
    exists La, (Lb ++ L2), ma, mb'. split; [|done]. apply (half_peer_mono init La Lb mb ma); [done|].
    split; [done|]. apply (ro_m _ _ _ _ _ (ha_rcv _ _ _ _ _ _ Hb')).
Qed.

Lemma reachable_ok init sid ca cb s : is_u32 init -> rtc step (start sid ca cb init) s ->
  few_frames s.1 -> few_frames s.2 -> sys_ok init s.
Proof.
  intros Hi Hr. revert s Hr.
  refine (rtc_ind_r (fun s => few_frames s.1 -> few_frames s.2 -> sys_ok init s) _ _ _).
  - exists [], [], 0%nat, 0%nat. split; by apply half_start.
  - intros s s' Hr Hst IH Fa Fb. destruct (step_few _ _ Hst Fa Fb). eapply step_ok; eauto.
Qed.

(** ** Consequences for one direction *)

Definition received (e : endpoint) : bytes := ep_read e ++ delivered (ep_stream e).

Section Consequences.
Context (init : Z) (L Lp : list segment) (m mp : nat) (a b : endpoint).
Context (Ha : half init L m Lp mp a) (Hb : half init Lp mp L m b) (HL : Z.of_nat (length L) < 2 ^ 31).

Lemma received_log : received b = log_bytes (take m L).
Proof. apply (ro_bytes _ _ _ _ _ (ha_rcv _ _ _ _ _ _ Hb)). Qed.

Lemma received_prefix : received b `prefix_of` ep_written a.
Proof.
  rewrite received_log. destruct (so_log _ _ _ _ _ _ (ha_snd _ _ _ _ _ _ Ha)) as (lost & -> & _).
  exists (log_bytes (drop m L) ++ lost ++ outbox (ep_stream a)).
  by rewrite (app_assoc (log_bytes (take m L))), <- log_bytes_app, take_drop.
Qed.

Lemma fin_complete i : L !! i = Some ([], true) -> (i < m)%nat ->
  exists n, ep_closed_at a = Some n /\ take n (ep_written a) `prefix_of` received b.
Proof.
  intros Hi Hm. destruct (so_fin _ _ _ _ _ _ (ha_snd _ _ _ _ _ _ Ha) _ _ Hi) as (_ & _ & n & Hn & Hlen).
  exists n. split; [done|]. destruct received_prefix as [k ->].
  pose proof (log_bytes_take_le L i m ltac:(lia)). rewrite <- received_log in H.
  rewrite take_app_le by lia. apply prefix_take.
Qed.

Lemma eof_complete : remote_finished (ep_stream b) = true ->
  exists n, ep_closed_at a = Some n /\ take n (ep_written a) `prefix_of` received b.
Proof.
  intros H. destruct (ro_finished _ _ _ _ _ (ha_rcv _ _ _ _ _ _ Hb) H) as (i & ? & ?). by eapply fin_complete.
Qed.

Lemma acked_complete : local_fin_acked (ep_stream a) = true ->
  exists n, ep_closed_at a = Some n /\ take n (ep_written a) `prefix_of` received b.
Proof.
  intros H. destruct (so_acked _ _ _ _ _ _ (ha_snd _ _ _ _ _ _ Ha) H) as (i & ? & ?). by eapply fin_complete.
Qed.

(** What the receiver has not consumed is still held by the sender, in order. *)
Lemma unconsumed_held : state (ep_stream a) <> Reset ->
  exists segs, ep_written a = received b ++ concat segs ++ outbox (ep_stream a) /\
    forall j d, segs !! j = Some d -> exists e,
      bt_get (wrap32 (rcv_nxt (ep_stream b) + Z.of_nat j)) (inflight (ep_stream a)) = Some e /\ s_data e = d.
Proof.
  intros Hst. exists (drop m L).*1. rewrite received_log.
  destruct (so_log _ _ _ _ _ _ (ha_snd _ _ _ _ _ _ Ha)) as (lost & -> & Hlost). rewrite (Hlost Hst).
  split.
  { change (concat (drop m L).*1) with (log_bytes (drop m L)).
    by rewrite (app_assoc (log_bytes (take m L))), <- log_bytes_app, take_drop. }
  destruct (so_una _ _ _ _ _ _ (ha_snd _ _ _ _ _ _ Ha)) as (u & Hu & Hm & _ & _ & Hin & Hall).
  intros j d. rewrite list_lookup_fmap, lookup_drop. destruct (L !! (m + j)%nat) as [[d' f]|] eqn:E; [|done].
  intros [= <-]. apply lookup_lt_Some in E as Hlt. destruct (Hall Hst (m + j)%nat ltac:(lia)) as [e He]. exists e.
  rewrite (ro_nxt _ _ _ _ _ (ha_rcv _ _ _ _ _ _ Hb)). unfold at_seq at 1. rewrite wrap_add_l.
  replace (init + Z.of_nat m + Z.of_nat j) with (init + Z.of_nat (m + j)) by lia. split; [done|].
  destruct (Hin _ _ He) as (i & _ & Hi & Hq). apply lookup_lt_Some in Hi as ?.
  apply (sq_inj init L HL) in Hq; [|lia..]. subst i. rewrite E in Hi. by injection Hi.
Qed.

(** The window bounds the number of unacknowledged segments. *)
Lemma window_bound : Z.of_nat (length (inflight (ep_stream a))) <= Z.max 0 (send_window (cfg (ep_stream a))).
Proof.
  destruct Ha as [Hs _ _ _]. destruct (so_una _ _ _ _ _ _ Hs) as (u & _ & _ & _ & Hw & Hin & _).
  enough (length (bt_keys (inflight (ep_stream a))) <= length (at_seq init <$> List.seq u (length L - u)))%nat as Hle.
  { unfold bt_keys in Hle. rewrite !length_fmap, length_seq in Hle. lia. }
  apply NoDup_incl_length; [by apply NoDup_ListNoDup, bt_sorted_NoDup, (so_sorted _ _ _ _ _ _ Hs)|].
  intros q Hq. apply list_elem_of_In in Hq. apply list_elem_of_In. apply list_elem_of_fmap in Hq as ([q' e] & -> & Hq).
  apply bt_In_get in Hq; [|apply (so_sorted _ _ _ _ _ _ Hs)]. destruct (Hin _ _ Hq) as (i & ? & Hi & E). cbn in *.
  apply lookup_lt_Some in Hi. apply list_elem_of_fmap. exists i. split; [done|]. apply elem_of_seq. lia.
Qed.
End Consequences.

(** ** Executable schedules *)

Inductive op := OWrite (d : bytes) | OClose | OReset | ORead | OSetMax (n : nat) | OPoll (now : Z) | ORecv (k : nat) (now : Z).

Definition apply_op (peer : list Frame) (o : op) (e : endpoint) : endpoint :=
  let s := ep_stream e in
  let upd s' := mk_ep s' (ep_written e) (ep_read e) (ep_closed_at e) (ep_sent e) in
  match o with
  | OWrite d => mk_ep (write d s) (ep_written e ++ d) (ep_read e) (ep_closed_at e) (ep_sent e)
  | OClose => mk_ep (close s) (ep_written e) (ep_read e) (Some (default (length (ep_written e)) (ep_closed_at e))) (ep_sent e)
  | OReset => upd (reset s)
  | ORead => mk_ep (read s).2 (ep_written e) (ep_read e ++ (read s).1) (ep_closed_at e) (ep_sent e)
  | OSetMax n => upd (set_max_segment n s)
  | OPoll now => mk_ep (poll_transmit now s).2 (ep_written e) (ep_read e) (ep_closed_at e)
                   (ep_sent e ++ option_list (poll_transmit now s).1)
  | ORecv k now => match peer !! k with Some f => upd (on_frame f now s) | None => e end
  end.

(** [true] moves the left side. *)
Definition run_op (sy : system) (o : bool * op) : system :=
  if o.1 then (apply_op (ep_sent sy.2) o.2 sy.1, sy.2) else (sy.1, apply_op (ep_sent sy.1) o.2 sy.2).
Definition run (ops : list (bool * op)) (sy : system) : system := fold_left run_op ops sy.

Lemma apply_op_step peer o e : apply_op peer o e = e \/ ep_step peer e (apply_op peer o e).
Proof.
  destruct o as [d| | | |n|now|k now]; cbn; try (right; constructor).
  destruct (peer !! k) as [f|] eqn:E; [right|by left]. constructor. left. by eapply list_elem_of_lookup_2.
Qed.

Lemma run_reachable ops sy : rtc step sy (run ops sy).
Proof.
  revert sy. induction ops as [|[[] o] ops IH]; intros [a b]; cbn [run fold_left]; [done|..];
    (etrans; [|apply IH]); unfold run_op; cbn [fst snd];
    [destruct (apply_op_step (ep_sent b) o a) as [->|H]|destruct (apply_op_step (ep_sent a) o b) as [->|H]];
    try done; apply rtc_once; by constructor.
Qed.

(** Both sides write and close; the FIN of the left side overtakes its data. *)
Definition demo : list (bool * op) :=
  [(true, OWrite (lit "hello")); (true, OSetMax 3); (true, OClose); (false, OWrite (lit "ok")); (false, OClose);
   (true, OPoll 1); (true, OPoll 2); (true, OPoll 3); (false, ORecv 2 4); (false, ORecv 1 5); (false, ORecv 0 6); (false, ORecv 0 7);
   (false, ORead); (false, OPoll 8); (false, OPoll 9); (false, OPoll 10);
   (true, ORecv 0 11); (true, ORecv 1 12); (true, ORecv 2 13); (true, OPoll 14); (false, ORecv 3 15)].
Definition demo_start : system := start 7 default_config default_config (2 ^ 32 - 1).
Definition demo_end : system := run (take 21 demo) demo_start.

Lemma demo_reach n : rtc step demo_start ((run (take n demo) demo_start).1, (run (take n demo) demo_start).2).
Proof. rewrite <- surjective_pairing. apply run_reachable. Qed.

Example demo_closed :
  state (ep_stream demo_end.1) = Closed /\ state (ep_stream demo_end.2) = Closed /\
  received demo_end.2 = lit "hello" /\ received demo_end.1 = lit "ok".
Proof. vm_compute. done. Qed.

(** ** The theorems *)

Section Reachable.
Context (init sid : Z) (ca cb : Config) (a b : endpoint).
Context (Hinit : is_u32 init) (Hreach : rtc step (start sid ca cb init) (a, b)).
Context (Fa : few_frames a) (Fb : few_frames b).

Lemma reachable_halves : exists La Lb ma mb, half init La mb Lb ma a /\ half init Lb ma La mb b /\
  Z.of_nat (length La) < 2 ^ 31 /\ Z.of_nat (length Lb) < 2 ^ 31.
Proof.
  destruct (reachable_ok init sid ca cb (a, b) Hinit Hreach Fa Fb) as (La & Lb & ma & mb & Ha & Hb).
  exists La, Lb, ma, mb. cbn in *. split_and!; [done..| |];
    [pose proof (ha_few _ _ _ _ _ _ Ha)|pose proof (ha_few _ _ _ _ _ _ Hb)]; unfold few_frames in *; lia.
Qed.

(** C1: over a network that drops, duplicates and reorders frames at will, the
    bytes a peer has received are at every moment a prefix of the bytes written
    at the other side, in both directions. *)
Theorem delivery_prefix : received b `prefix_of` ep_written a /\ received a `prefix_of` ep_written b.
Proof. destruct reachable_halves as (La & Lb & ma & mb & Ha & Hb & _). split; by eapply received_prefix. Qed.

(** C18: when a side sees the end of the stream, the other side has called [close]
    and every byte written before that call has been received. *)
Theorem eof_after_all_bytes : remote_finished (ep_stream b) = true ->
  exists n, ep_closed_at a = Some n /\ take n (ep_written a) `prefix_of` received b.
Proof. destruct reachable_halves as (La & Lb & ma & mb & Ha & Hb & _). by eapply eof_complete. Qed.

(** a side reaches [Closed] only after both directions completed: each peer
    called [close] and all bytes written before it arrived at the other. *)
Theorem closed_means_delivered : state (ep_stream a) = Closed ->
  (exists n, ep_closed_at a = Some n /\ take n (ep_written a) `prefix_of` received b) /\
  (exists n, ep_closed_at b = Some n /\ take n (ep_written b) `prefix_of` received a).
Proof.
  destruct reachable_halves as (La & Lb & ma & mb & Ha & Hb & _). intros Hc.
  destruct (so_closed _ _ _ _ _ _ (ha_snd _ _ _ _ _ _ Ha) Hc) as [H1 H2].
  split; [by eapply acked_complete|by eapply eof_complete].
Qed.

(** nothing is forgotten: unless the stream was reset, what was written splits
    into what the peer received, the segments still held for retransmission under
    the consecutive sequence numbers the peer waits for, and the unsent bytes. *)
Theorem unreceived_is_held : state (ep_stream a) <> Reset ->
  exists segs, ep_written a = received b ++ concat segs ++ outbox (ep_stream a) /\
    forall j d, segs !! j = Some d -> exists e,
      bt_get (wrap32 (rcv_nxt (ep_stream b) + Z.of_nat j)) (inflight (ep_stream a)) = Some e /\ s_data e = d.
Proof. destruct reachable_halves as (La & Lb & ma & mb & Ha & Hb & ? & _). by eapply unconsumed_held. Qed.

(** no side ever has more unacknowledged segments than its send window. *)
Theorem inflight_within_window :
  Z.of_nat (length (inflight (ep_stream a))) <= Z.max 0 (send_window (cfg (ep_stream a))).
Proof. destruct reachable_halves as (La & Lb & ma & mb & Ha & _). by eapply window_bound. Qed.
End Reachable.

Lemma delivery_prefix_witness :
  received demo_end.2 `prefix_of` ep_written demo_end.1 /\ received demo_end.1 `prefix_of` ep_written demo_end.2.
Proof.
  apply (delivery_prefix (2 ^ 32 - 1) 7 default_config default_config demo_end.1 demo_end.2);
    [by vm_compute|exact (demo_reach 21)|by vm_compute|by vm_compute].
Defined.

Lemma eof_after_all_bytes_witness :
  exists n, ep_closed_at demo_end.1 = Some n /\ take n (ep_written demo_end.1) `prefix_of` received demo_end.2.
Proof.
  apply (eof_after_all_bytes (2 ^ 32 - 1) 7 default_config default_config demo_end.1 demo_end.2);
    [by vm_compute|exact (demo_reach 21)|by vm_compute|by vm_compute|by vm_compute].
Defined.

Lemma closed_means_delivered_witness :
  (exists n, ep_closed_at demo_end.1 = Some n /\ take n (ep_written demo_end.1) `prefix_of` received demo_end.2) /\
  (exists n, ep_closed_at demo_end.2 = Some n /\ take n (ep_written demo_end.2) `prefix_of` received demo_end.1).
Proof.
  apply (closed_means_delivered (2 ^ 32 - 1) 7 default_config default_config demo_end.1 demo_end.2);
    [by vm_compute|exact (demo_reach 21)|by vm_compute|by vm_compute|by vm_compute].
Defined.

(** A state of the same run where two segments are in flight and one was received. *)
Definition demo_mid : system := run (take 11 demo) demo_start.

Lemma unreceived_is_held_witness :
  exists segs, ep_written demo_mid.1 = received demo_mid.2 ++ concat segs ++ outbox (ep_stream demo_mid.1) /\
    forall j d, segs !! j = Some d -> exists e,
      bt_get (wrap32 (rcv_nxt (ep_stream demo_mid.2) + Z.of_nat j)) (inflight (ep_stream demo_mid.1)) = Some e /\ s_data e = d.
Proof.
  apply (unreceived_is_held (2 ^ 32 - 1) 7 default_config default_config demo_mid.1 demo_mid.2);
    [by vm_compute|exact (demo_reach 11)|by vm_compute|by vm_compute|by vm_compute].
Defined.

Lemma inflight_within_window_witness :
  Z.of_nat (length (inflight (ep_stream demo_mid.1))) <= Z.max 0 (send_window (cfg (ep_stream demo_mid.1))).
Proof.
  apply (inflight_within_window (2 ^ 32 - 1) 7 default_config default_config demo_mid.1 demo_mid.2);
    [by vm_compute|exact (demo_reach 11)|by vm_compute|by vm_compute].
Defined.
End arq_system.
