(* ===== verification/ArqLiveness.v ===== *)
(** Liveness of the ARQ layer: retransmission reaches every unacknowledged segment
    within a bounded number of polls, and receiving the segment it waits for moves
    the receiver on. *)

From S2P Require Import Prelude BTree F64 TunnelCrypto TunnelFrame TunnelArq ArqPoll ArqSafety.
From stdpp Require Import relations.
#[local] Open Scope Z_scope.

Module arq_live.
Import frame arq arq_facts arq_system.

(** [n] polls at the same time, with the frames they return. *)
Fixpoint polls (now : Z) (n : nat) (s : Stream) : list Frame * Stream :=
  match n with
  | O => ([], s)
  | S n' =>
      let '(o, s) := poll_transmit now s in
      let '(fs, s) := polls now n' s in (option_list o ++ fs, s)
  end.

(** The entries not (re)transmitted at [now]. *)
Definition stale (now : Z) (m : list (Z * Sent)) : list (Z * Sent) := filter (fun p => sent_at p.2 <> now) m.

(** A clock late enough: every entry has waited for the longest RTO, or was just sent. *)
Record late (now : Z) (s : Stream) : Prop := {
  la_state : state s <> Reset /\ state s <> Closed;
  la_rst : rst_pending s = false;
  la_sorted : bt_sorted (inflight s);
  la_rto : 1 <= rto_ms s <= max_rto_ms (cfg s);
  la_clock : 0 <= now /\ now + max_rto_ms (cfg s) < 2 ^ 64;
  la_entries q e : bt_get q (inflight s) = Some e -> sent_at e = now \/ 0 <= sent_at e /\ sent_at e + max_rto_ms (cfg s) <= now;
}.

Lemma deadline_due now s q e : late now s -> bt_get q (inflight s) = Some e ->
  (deadline s e <=? now) = negb (bool_decide (sent_at e = now)).
Proof.
  intros [_ _ _ Hr Hc He] Hg. unfold deadline. destruct (He _ _ Hg) as [E|[? E]].
  - rewrite bool_decide_true by done. rewrite wrap_small by (unfold fits; lia). cbn. lia.
  - rewrite bool_decide_false by lia. rewrite wrap_small by (unfold fits; lia). cbn. lia.
Qed.

(** Marking an entry as sent removes it from the stale ones. *)
Lemma stale_alter now m q e : bt_sorted m -> bt_get q m = Some e ->
  (length (stale now (bt_alter (touch now) q m)) + (if decide (sent_at e = now) then 0 else 1) = length (stale now m))%nat.
Proof.
  unfold bt_alter. intros Hs Hg. rewrite Hg. revert Hs Hg. unfold stale.
  induction m as [|[k v] m IH]; cbn [bt_get bt_insert]; [done|]. intros Hs. inversion_clear Hs as [|? ? Hs' Hlt].
  destruct (kcmp q k) eqn:E.
  - intros [= ->]. rewrite !filter_cons. cbn. rewrite (decide_False (P := now <> now)) by auto.
    destruct (decide (sent_at e = now)); [by rewrite decide_False by auto|]. rewrite decide_True by done. cbn. lia.
  - intros Hg. apply bt_get_In in Hg. apply (proj1 (Forall_elem _ _) Hlt) in Hg. cbn [fst] in Hg.
    rewrite kcmp_antisym, E in Hg. done.
  - intros Hg. specialize (IH Hs' Hg). rewrite !(filter_cons _ (k, v)). destruct (decide (sent_at (k, v).2 <> now)); cbn [length]; lia.
Qed.

Lemma stale_nil now m : (forall p, p ∈ m -> sent_at p.2 = now) -> stale now m = [].
Proof.
  intros H. unfold stale. induction m as [|p m IH]; [done|]. rewrite filter_cons, decide_False.
  - apply IH. intros. apply H. by right.
  - intros Hn. apply Hn, H. left.
Qed.

(** What a round of retransmissions leaves unchanged. *)
Record same_data (s s' : Stream) : Prop := {
  sd_id : id s' = id s;
  sd_outbox : outbox s' = outbox s;
  sd_inflight q : match bt_get q (inflight s), bt_get q (inflight s') with
                  | Some e, Some e' => s_data e' = s_data e /\ is_fin e' = is_fin e
                  | None, None => True
                  | _, _ => False
                  end;
}.

Lemma same_data_refl s : same_data s s.
Proof. constructor; try done. intros q. by destruct (bt_get q (inflight s)). Qed.

Lemma same_data_trans s1 s2 s3 : same_data s1 s2 -> same_data s2 s3 -> same_data s1 s3.
Proof.
  intros [A1 A2 A3] [B1 B2 B3]. constructor; [congruence..|]. intros q. specialize (A3 q). specialize (B3 q).
  repeat case_match; try done. destruct A3, B3. split; congruence.
Qed.

Lemma pop_fast_shorter q m x q' : pop_fast q m = (Some x, q') -> (length q' < length q)%nat.
Proof.
  induction q as [|k q IH]; cbn [pop_fast]; [done|]. destruct (bt_get k m); [intros [= <- <-]; cbn; lia|].
  intros H. apply IH in H. cbn. lia.
Qed.

Lemma pop_fast_None q m q' : pop_fast q m = (None, q') -> q' = [].
Proof. induction q as [|k q IH]; cbn [pop_fast]; [by intros [= <-]|]. by destruct (bt_get k m). Qed.

(** All that a retransmission does not touch. *)
Definition others (s : Stream) :=
  (rcv_view s, ack_pending s, nack_pending s, cfg s, outbox s, fin_seq s, (closing s, state s, snd_nxt s, snd_una s, local_fin_acked s, rst_pending s)).

(** One poll of the round. *)
Lemma poll_late now s : late now s ->
  (exists q e s', poll_transmit now s = (Some (seg_frame s q (s_data e) (is_fin e)), s') /\
     bt_get q (inflight s) = Some e /\ late now s' /\ same_data s s' /\ others s' = others s /\
     inflight s' = bt_alter (touch now) q (inflight s) /\
     (length (fast_retx s') + length (stale now (inflight s')) < length (fast_retx s) + length (stale now (inflight s)))%nat) \/
  stale now (inflight s) = [] /\ poll_transmit now s = poll_new now (s <| fast_retx := [] |>).
Proof.
  intros Hl. pose proof Hl as [[Hr Hc] Hrst Hs Hrto Hclk He].
  assert (forall q e q' rto, bt_get q (inflight s) = Some e -> 1 <= rto <= max_rto_ms (cfg s) ->
    let s' := s <| fast_retx := q' |> <| inflight := bt_alter (touch now) q (inflight s) |> <| rto_ms := rto |> in
    late now s' /\ same_data s s') as Hstep.
  { intros q e q' rto Hg Hrto'. split.
    - constructor; cbn; try done; [by apply bt_sorted_alter|]. intros q2 e2. destruct (decide (q = q2)) as [<-|].
      + rewrite bt_get_alter, Hg. intros [= <-]. by left.
      + rewrite bt_get_alter_ne by done. apply He.
    - constructor; cbn; try done. intros q2. destruct (decide (q = q2)) as [<-|].
      + by rewrite bt_get_alter, Hg.
      + rewrite bt_get_alter_ne by done. by case_match. }
  unfold poll_transmit. rewrite Hrst, !decide_False by done.
  destruct (pop_fast (fast_retx s) (inflight s)) as [[[q e]|] q'] eqn:Ep.
  - left. apply pop_fast_Some in Ep as Hg. apply pop_fast_shorter in Ep. exists q, e. eexists. split; [reflexivity|].
    destruct (Hstep q e q' (rto_ms s) Hg Hrto) as [H1 H2]. split_and!; [done|exact H1|exact H2|done|done|].
    enough (length q' + length (stale now (bt_alter (touch now) q (inflight s)))
      < length (fast_retx s) + length (stale now (inflight s)))%nat by done.
    pose proof (stale_alter now _ _ _ Hs Hg) as Hst. destruct (decide (sent_at e = now)); lia.
  - apply pop_fast_None in Ep as ->.
    destruct (bt_find _ _) as [[q e]|] eqn:Ef.
    + left. apply bt_find_Some in Ef as [Hin Hd]. apply bt_In_get in Hin as Hg; [|done].
      exists q, e. eexists. split; [reflexivity|].
      destruct (Hstep q e [] (Z.min (sat_mul64 (rto_ms s) 2) (max_rto_ms (cfg s))) Hg) as [H1 H2].
      { unfold sat_mul64. lia. }
      split_and!; [done|exact H1|exact H2|done|done|].
      enough (length (stale now (bt_alter (touch now) q (inflight s)))
        < length (fast_retx s) + length (stale now (inflight s)))%nat by done. cbn [fst snd] in Hd.
      change (deadline (s <| fast_retx := [] |>) e) with (deadline s e) in Hd.
      rewrite (deadline_due now s q e Hl Hg) in Hd. apply negb_true_iff, bool_decide_eq_false in Hd.
      pose proof (stale_alter now _ _ _ Hs Hg) as Hst. rewrite decide_False in Hst by done. lia.
    + right. split; [|done]. apply bt_find_None in Ef. apply stale_nil. rewrite Forall_elem in Ef. intros [q e] Hin.
      apply bt_In_get in Hin as Hg; [|done]. specialize (Ef _ Hin). cbn [fst snd] in Ef.
      change (deadline (s <| fast_retx := [] |>) e) with (deadline s e) in Ef.
      rewrite (deadline_due now s q e Hl Hg) in Ef. by apply negb_false_iff, bool_decide_eq_true in Ef.
Qed.

(** A round: at most one poll per queued and per stale entry emits all of them. *)
Lemma retransmit_round now k : forall s, late now s ->
  (length (fast_retx s) + length (stale now (inflight s)) <= k)%nat ->
  exists n fs s', (n <= k)%nat /\ polls now n s = (fs, s') /\ length fs = n /\ same_data s s' /\ late now s' /\ others s' = others s /\
    forall q e, bt_get q (inflight s) = Some e -> sent_at e <> now -> seg_frame s q (s_data e) (is_fin e) ∈ fs.
Proof.
  induction k as [|k IH]; intros s Hl Hk.
  - exists 0%nat, [], s. split_and!; try done; [apply same_data_refl|]. intros q e Hg Hne.
    assert ((q, e) ∈ stale now (inflight s)) as Hin by (apply list_elem_of_filter; split; [done|by apply bt_get_In]).
    destruct (stale now (inflight s)); [inversion Hin|cbn in Hk; lia].
  - destruct (poll_late now s Hl) as [(q & e & s1 & Hp & Hg & Hl1 & Hsd & Ho & Hin1 & Hlt)|[Hnil _]].
    + destruct (IH s1 Hl1 ltac:(lia)) as (n & fs & s' & Hn & Hps & Hlen & Hsd' & Hl' & Ho' & Hall).
      exists (S n), (seg_frame s q (s_data e) (is_fin e) :: fs), s'. cbn [polls]. rewrite Hp, Hps.
      split_and!; [lia|done|cbn; lia|by eapply same_data_trans|done|congruence|].
      intros q2 e2 Hg2 Hne. destruct (decide (q = q2)) as [<-|Hq].
      * rewrite Hg in Hg2. injection Hg2 as <-. left.
      * right. unfold seg_frame. rewrite <- (sd_id _ _ Hsd). apply Hall; [|done].
        rewrite Hin1, bt_get_alter_ne by done. done.
    + exists 0%nat, [], s. split_and!; try done; [lia|apply same_data_refl|]. intros q e Hg Hne.
      assert ((q, e) ∈ stale now (inflight s)) as Hin by (apply list_elem_of_filter; split; [done|by apply bt_get_In]).
      rewrite Hnil in Hin. inversion Hin.
Qed.

(** ** Receiving the missing segment makes progress *)

Section Progress.
Context (init : Z) (L : list segment) (HL : Z.of_nat (length L) < 2 ^ 31).

(** The frame of segment [i] of the log. *)
Definition carries (i : nat) (f : Frame) : Prop :=
  seq f = Some (at_seq init i) /\
  (kind f = Data /\ L !! i = Some (payload f, false) \/ kind f = Fin /\ L !! i = Some ([], true)).

(** A log has at most one FIN. *)
Context (Hfin : forall i j, L !! i = Some ([], true) -> L !! j = Some ([], true) -> i = j).

Lemma advance_recv_fin m rd s :
  rcv_ok init L m rd s -> L !! m = Some ([], true) -> remote_fin_seq s = Some (at_seq init m) -> remote_fin_recvd s = false ->
  rcv_ok init L (S m) rd (advance_recv s).
Proof.
  intros [H1 H2 H3 H4 H5 H6] Hm Hq Hr. unfold advance_recv. cbn [advance_loop].
  assert (bt_get (rcv_nxt s) (reorder s) = None) as ->.
  { destruct (bt_get (rcv_nxt s) (reorder s)) as [p|] eqn:E; [|done]. destruct (H4 _ _ E) as (i & Hi & Es).
    rewrite H2 in Es. apply lookup_lt_Some in Hi as ?. apply (sq_inj init L HL) in Es; [|lia..]. congruence. }
  rewrite Hq, H2, bool_decide_true by done. rewrite Hr. cbn [andb negb].
  match goal with |- context [update_state ?x] => apply (rcv_ok_ext init _ _ _ x); [exact (update_state_rcv x)|] end.
  constructor; cbn; try done.
  - apply lookup_lt_Some in Hm. lia.
  - by rewrite at_seq_succ.
  - by rewrite (log_bytes_take_S _ _ _ _ Hm), app_nil_r.
  - intros _. exists m. split; [done|lia].
Qed.

Lemma rcv_progress m rd s f now :
  rcv_ok init L m rd s -> 1 <= recv_window (cfg s) < 2 ^ 31 -> carries m f ->
  exists m', (m < m')%nat /\ rcv_ok init L m' rd (on_frame f now s).
Proof.
  intros Hok Hw [Hq Hk]. pose proof (ro_m _ _ _ _ _ Hok) as Hm. pose proof (ro_nxt _ _ _ _ _ Hok) as Hn.
  unfold on_frame. destruct Hk as [[-> Hl]|[-> Hl]]; rewrite Hq.
  - unfold on_data. cbv zeta.
    assert (seq_lt (at_seq init m) (rcv_nxt (s <| ack_pending := true |>)) = false) as ->.
    { cbn. rewrite Hn. apply seq_lt_false; lia. }
    assert (seq_lt (at_seq init m) (wrap32 (rcv_nxt (s <| ack_pending := true |>) + recv_window (cfg (s <| ack_pending := true |>)))) = true) as ->.
    { cbn. rewrite Hn. unfold at_seq at 2. rewrite wrap_add_l.
      replace (init + Z.of_nat m + recv_window (cfg s)) with (init + Z.of_nat (m + Z.to_nat (recv_window (cfg s)))) by lia.
      apply seq_lt_spec; lia. }
    assert ((at_seq init m =? rcv_nxt (s <| ack_pending := true |>)) = true) as -> by (cbn; rewrite Hn; apply Z.eqb_refl).
    cbn [negb].
    edestruct (rcv_ok_advance_recv init L HL (S m) rd) as (m' & ? & ?); [|exists m'; split; [|done]; lia].
    by eapply rcv_ok_deliver.
  - exists (S m). split; [lia|]. unfold on_fin.
    assert (remote_fin_recvd s = false) as Hr.
    { destruct (remote_fin_recvd s) eqn:E; [|done]. destruct (ro_finished _ _ _ _ _ Hok E) as (i & Hi & ?).
      rewrite (Hfin _ _ Hi Hl) in *. lia. }
    assert (forall q, remote_fin_seq s = Some q -> q = at_seq init m) as Hrf.
    { intros q E. destruct (ro_fin _ _ _ _ _ Hok _ E) as (i & Hi & ->). by rewrite (Hfin _ _ Hi Hl). }
    apply advance_recv_fin; try done; cbn; destruct (remote_fin_seq s) as [q|] eqn:E; cbn; try done.
    + by eapply rcv_ok_ext; [|exact Hok].
    + destruct Hok. constructor; try done. cbn. intros q [= <-]. eauto.
    + rewrite E. by rewrite (Hrf q).
Qed.
End Progress.

(** ** Schedules of the system *)

Definition ep_polls (now : Z) (n : nat) (e : endpoint) : endpoint :=
  mk_ep (polls now n (ep_stream e)).2 (ep_written e) (ep_read e) (ep_closed_at e)
    (ep_sent e ++ (polls now n (ep_stream e)).1).

Lemma update_state_cfg s : cfg (update_state s) = cfg s.
Proof. by rewrite update_state_fields. Qed.

Lemma advance_loop_cfg n : forall s, cfg (advance_loop n s) = cfg s.
Proof.
  induction n as [|n IH]; intros s; cbn [advance_loop]; [done|].
  case_match; [by rewrite IH|]. case_match; [by rewrite update_state_cfg|done].
Qed.

Lemma advance_recv_cfg s : cfg (advance_recv s) = cfg s.
Proof. exact (advance_loop_cfg (S (length (reorder s))) s). Qed.

Lemma log_fin_unique init L m w cl s : Z.of_nat (length L) < 2 ^ 31 -> snd_ok init L m w cl s ->
  forall i j, L !! i = Some ([], true) -> L !! j = Some ([], true) -> i = j.
Proof.
  intros HL Hs i j Hi Hj. destruct (so_fin _ _ _ _ _ _ Hs _ _ Hi) as (_ & Ei & _).
  destruct (so_fin _ _ _ _ _ _ Hs _ _ Hj) as (_ & Ej & _). rewrite Ei in Ej. injection Ej as E.
  apply lookup_lt_Some in Hi, Hj. apply (sq_inj init L HL) in E; lia.
Qed.

(** ** The theorems *)

Lemma stale_length now m : (length (stale now m) <= length m)%nat.
Proof. apply length_filter. Qed.

(** no starvation of retransmission: at a time when every RTO has expired, at
    most one poll per queued NACK and per unacknowledged segment puts each
    unacknowledged segment back on the wire, unchanged. *)
Theorem unacked_retransmitted now s : late now s ->
  exists n fs s', (n <= length (fast_retx s) + length (inflight s))%nat /\ polls now n s = (fs, s') /\ same_data s s' /\
    forall q e, bt_get q (inflight s) = Some e -> sent_at e <> now -> seg_frame s q (s_data e) (is_fin e) ∈ fs.
Proof.
  intros Hl. destruct (retransmit_round now _ s Hl (Nat.le_refl _)) as (n & fs & s' & Hn & Hp & _ & Hsd & _ & _ & Hall).
  exists n, fs, s'. pose proof (stale_length now (inflight s)). split_and!; [lia|done..].
Qed.

(** The left side has sent three frames, the network lost the first two. *)
Definition lossy : system := run (take 9 demo) demo_start.

Lemma lossy_late : late 100000 (ep_stream lossy.1) /\
  forall q e, bt_get q (inflight (ep_stream lossy.1)) = Some e -> sent_at e <> 100000.
Proof.
  assert (Forall (fun p => 0 <= sent_at p.2 /\ sent_at p.2 + 30000 <= 100000) (inflight (ep_stream lossy.1))) as H
    by (vm_compute; repeat (constructor; [done|]); constructor).
  assert (forall q e, bt_get q (inflight (ep_stream lossy.1)) = Some e -> 0 <= sent_at e /\ sent_at e + 30000 <= 100000) as Hg.
  { intros q e Hg. apply bt_get_In in Hg. by apply (proj1 (Forall_elem _ _) H) in Hg. }
  split; [|intros q e He; apply Hg in He; lia].
  constructor; [vm_compute; done|done|vm_compute; repeat constructor|by vm_compute|by vm_compute|].
  intros q e He. right. exact (Hg q e He).
Qed.

Lemma unacked_retransmitted_witness :
  exists n fs s', (n <= length (fast_retx (ep_stream lossy.1)) + length (inflight (ep_stream lossy.1)))%nat /\
    polls 100000 n (ep_stream lossy.1) = (fs, s') /\ same_data (ep_stream lossy.1) s' /\
    forall q e, bt_get q (inflight (ep_stream lossy.1)) = Some e -> sent_at e <> 100000 ->
      seg_frame (ep_stream lossy.1) q (s_data e) (is_fin e) ∈ fs.
Proof. apply (unacked_retransmitted 100000 (ep_stream lossy.1)). apply lossy_late. Defined.

End arq_live.
