(* ===== verification/ArqDelivery.v ===== *)
(** Complete delivery over the ARQ layer: from every reachable state in which neither side
    is reset, polls and deliveries exist after which the receiver has every byte written. *)

From S2P Require Import Prelude BTree F64 TunnelCrypto TunnelFrame TunnelArq ArqPoll ArqSafety ArqLiveness.
From stdpp Require Import relations.
#[local] Open Scope Z_scope.

Module arq_delivery.
Import frame arq arq_facts arq_system arq_live.
#[local] Arguments stale : simpl never.

(** ** Timers *)

(** A configuration whose windows, segments and timeouts are not empty; the default is one. *)
Definition config_ok (c : Config) : Prop :=
  (1 <= max_segment c)%nat /\ 1 <= send_window c /\ 1 <= recv_window c < 2 ^ 31 /\
  1 <= min_rto_ms c <= max_rto_ms c /\ 1 <= initial_rto_ms c <= max_rto_ms c.

Record timers_ok (s : Stream) : Prop := {
  tm_config : config_ok (cfg s);
  tm_rto : 1 <= rto_ms s <= max_rto_ms (cfg s);
  tm_rst : rst_pending s = true -> state s = Reset;
}.

(** The longest timeout of every segment in flight has passed. *)
Definition expired (now : Z) (s : Stream) : Prop :=
  0 <= now /\ now + max_rto_ms (cfg s) < 2 ^ 64 /\
  forall q e, bt_get q (inflight s) = Some e -> 0 <= sent_at e /\ sent_at e + max_rto_ms (cfg s) <= now.

Lemma update_state_timers s : timers_ok s -> timers_ok (update_state s).
Proof. intros [H1 H2 H3]. rewrite update_state_fields. constructor; cbn; try done. intros H. by apply update_state_reset, H3. Qed.

Lemma on_ack_rto ack now s : config_ok (cfg s) -> 1 <= rto_ms s <= max_rto_ms (cfg s) ->
  cfg (on_ack ack now s) = cfg s /\ 1 <= rto_ms (on_ack ack now s) <= max_rto_ms (cfg s) /\ fast_retx (on_ack ack now s) = fast_retx s /\
  rst_pending (on_ack ack now s) = rst_pending s /\ nack_pending (on_ack ack now s) = nack_pending s.
Proof.
  intros (_ & _ & _ & Hc & _) Hr. unfold on_ack. destruct (fold_left _ _ _) as [rtt m].
  match goal with |- context [update_state ?x] => rewrite (update_state_fields x) end. cbn.
  destruct (seq_lt _ _), (fin_seq _) as [fs|]; cbn; try destruct (seq_lt fs ack); cbn; (destruct rtt; cbn; [|done]);
    unfold update_rto; cbn; destruct (srtt_ms s); cbn; split_and!; try done; lia.
Qed.

Lemma advance_recv_timers s : timers_ok s -> timers_ok (advance_recv s).
Proof.
  intros H. unfold advance_recv. enough (timers_ok (advance_loop (S (length (reorder s))) s)) as H' by by destruct H'.
  generalize (S (length (reorder s))) as k. intros k. revert s H.
  induction k as [|k IH]; intros s H; cbn [advance_loop]; [done|]. case_match; [apply IH; by destruct H|]. case_match; [|done]. apply update_state_timers. by destruct H.
Qed.

Lemma on_frame_timers f now s : timers_ok s -> timers_ok (on_frame f now s).
Proof.
  intros H. pose proof H as [H1 H2 H3]. unfold on_frame. destruct (kind f); try done; try (destruct (seq f); [|done]).
  - unfold on_data. repeat case_match; try done. by apply advance_recv_timers.
  - destruct (on_ack_rto z now s H1 H2) as (E1 & E2 & _ & E3 & _).
    constructor; rewrite ?E1; try done. rewrite E3. intros Hr. apply on_ack_views. by apply H3.
  - unfold on_nack. by case_match.
  - unfold on_fin. apply advance_recv_timers. by case_match.
Qed.

(** Closes a goal on a state that differs in other fields only. *)
Ltac same_timers := constructor; cbn; [assumption..|first [assumption|intros; congruence]].

Lemma poll_timers now s : timers_ok s -> timers_ok (poll_transmit now s).2.
Proof.
  intros H. pose proof H as [H1 H2 H3]. unfold poll_transmit. destruct (rst_pending s) eqn:Er; [same_timers|]. case_decide; [done|].
  case_decide; [unfold poll_ack; case_match; [same_timers|done]|].
  destruct (pop_fast _ _) as [[[q e]|] fr]; [same_timers|]. destruct (bt_find _ _) as [[q e]|].
  - constructor; cbn; try done; [|congruence]. unfold sat_mul64. destruct H1 as (_ & _ & _ & ? & _). lia.
  - unfold poll_new. cbn. destruct (nack_pending s); [same_timers|]. case_match; [same_timers|].
    case_match; [apply update_state_timers; same_timers|]. unfold poll_ack. case_match; same_timers.
Qed.

Lemma reachable_timers init sid ca cb a b : config_ok ca -> config_ok cb -> rtc step (start sid ca cb init) (a, b) ->
  timers_ok (ep_stream a) /\ timers_ok (ep_stream b).
Proof.
  intros Ha Hb Hr. change (timers_ok (ep_stream (a, b).1) /\ timers_ok (ep_stream (a, b).2)). revert Hr. generalize (a, b).
  assert (forall peer e e', ep_step peer e e' -> timers_ok (ep_stream e) -> timers_ok (ep_stream e')) as Hstep.
  { intros peer e e' Hst Hok. destruct Hst; cbn [ep_stream]; try (by apply poll_timers); try (by apply on_frame_timers);
      destruct Hok as [H1 H2 H3]; try same_timers; constructor; cbn; try done. destruct H1. split; [cbn; lia|done]. }
  refine (rtc_ind_r (fun s => timers_ok (ep_stream s.1) /\ timers_ok (ep_stream s.2)) _ _ _).
  - split; constructor; cbn; try done; [apply Ha|apply Hb].
  - intros s s' _ [x y x' Hs|x y y' Hs] [IH1 IH2]; cbn in *; split; eauto.
Qed.
(** ** Streams whose timers have expired *)

Record timed (now : Z) (s : Stream) : Prop := {
  td_reset : state s <> Reset;
  td_timers : timers_ok s;
  td_sorted : bt_sorted (inflight s);
  td_clock : 0 <= now /\ now + max_rto_ms (cfg s) < 2 ^ 64;
  td_entries q e : bt_get q (inflight s) = Some e -> sent_at e = now \/ 0 <= sent_at e /\ sent_at e + max_rto_ms (cfg s) <= now;
}.

Lemma timed_rst now s : timed now s -> rst_pending s = false.
Proof. intros [Hr [_ _ Ht] _ _ _]. destruct (rst_pending s); [|done]. by destruct Hr; apply Ht. Qed.

Lemma timed_late now s : timed now s -> state s <> Closed -> late now s.
Proof. intros H Hc. pose proof (timed_rst _ _ H). destruct H as [? [] ? ? ?]. by constructor. Qed.

Lemma timed_ext now s s' : cfg s' = cfg s -> (state s' = Reset <-> state s = Reset) -> inflight s' = inflight s -> timers_ok s' ->
  timed now s -> timed now s'.
Proof. intros E1 E2 E3 Ht [H1 H2 H3 H4 H5]. constructor; rewrite ?E1, ?E3; [tauto|done..]. Qed.

Lemma poll_timed now s : timed now s -> timed now (poll_transmit now s).2.
Proof.
  intros H. pose proof (poll_timers now s (td_timers _ _ H)) as Ht. pose proof H as [H1 H2 H3 H4 H5]. revert Ht.
  assert (forall d fin t, inflight t = inflight s -> snd_nxt t = snd_nxt s -> forall q e,
    bt_get q (inflight (push_segment now d fin t)) = Some e -> sent_at e = now \/ 0 <= sent_at e /\ sent_at e + max_rto_ms (cfg s) <= now) as Hpush.
  { intros d fin t E1 E2 q e. cbn. rewrite E1, E2. destruct (decide (snd_nxt s = q)) as [<-|]; [rewrite bt_get_insert; intros [= <-]; by left|].
    rewrite bt_get_insert_ne by done. apply H5. }
  destruct (poll_transmit_spec now s H3) as [q|Hrst|q k e rto Hg Hnr|q k Hn|q n Hnr Hw -> Ho|q Hnr Hw Hc Hf Ho|q]; cbn [fst snd]; intros Ht;
    try (by apply (timed_ext now s)).
  - constructor; try done; cbn; [by apply bt_sorted_alter|]. intros q' e'. destruct (decide (k = q')) as [<-|].
    + rewrite bt_get_alter, Hg. intros [= <-]. by left.
    + rewrite bt_get_alter_ne by done. apply H5.
  - constructor; try done; [by apply bt_sorted_insert|by apply Hpush].
  - constructor; try done; rewrite ?update_state_reset; try done; rewrite update_state_fields;
      [by apply bt_sorted_insert|exact H4|refine (Hpush [] true _ _ _); [|reflexivity..]; reflexivity].
Qed.

(** Everything but a reset keeps the clock condition. *)
Lemma frame_timed f t now s : kind f <> Rst -> timed now s -> timed now (on_frame f t s).
Proof.
  intros Hk H. pose proof (on_frame_timers f t s (td_timers _ _ H)) as Ht. revert Ht. pose proof H as [H1 H2 H3 H4 H5].
  unfold on_frame. destruct (kind f); try done; try (destruct (seq f) as [x|]; [|done]); intros Ht; try (by apply (timed_ext now s)).
  - destruct (quiet_on_data x (payload f) s) as [Hv Hr _]. injection Hv. intros. apply (timed_ext now s); try done.
    unfold on_data. repeat case_match; try done. by rewrite advance_recv_cfg.
  - destruct (on_ack_inflight x t s H3) as [Hs Hg]. destruct (on_ack_views x t s) as (_ & Hr & _).
    destruct H2 as [Hc Hrto _]. destruct (on_ack_rto x t s Hc Hrto) as (E & _).
    constructor; rewrite ?E; try done; [tauto|]. intros q e. rewrite Hg. case_match; [done|]. apply H5.
  - unfold on_nack in *. case_match; by apply (timed_ext now s).
  - assert (cfg (on_fin x s) = cfg s) by (unfold on_fin; etrans; [apply advance_recv_cfg|]; by case_match).
    destruct (quiet_on_fin x s) as [Hv Hr _]. injection Hv. intros. by apply (timed_ext now s).
Qed.
(** ** Polls make progress *)

(** An upper bound on the segments still to be cut. *)
Definition pend (s : Stream) : nat := length (outbox s) + if is_some (fin_seq s) then 0 else 1.

(** What a run of polls at [now] can still emit before an acknowledgement. *)
Definition weight (now : Z) (s : Stream) : nat :=
  length (fast_retx s) + length (stale now (inflight s)) + (if is_some (nack_pending s) then 1 else 0) + pend s.

Lemma poll_views now s : bt_sorted (inflight s) ->
  rcv_view (poll_transmit now s).2 = rcv_view s /\ id (poll_transmit now s).2 = id s.
Proof.
  intros H. destruct (poll_transmit_spec now s H); cbn [fst snd]; try done. by rewrite update_state_rcv, update_state_fields.
Qed.

(** A poll cuts a segment, which uses up some of [pend], or leaves [snd_nxt] alone. *)
Lemma poll_pend now s : bt_sorted (inflight s) -> (1 <= max_segment (cfg s))%nat ->
  let s' := (poll_transmit now s).2 in
  snd_nxt s' = snd_nxt s /\ pend s' = pend s \/ snd_nxt s' = wrap32 (snd_nxt s + 1) /\ (pend s' < pend s)%nat.
Proof.
  intros H Hm. cbv zeta. destruct (poll_transmit_spec now s H) as [q|Hrst|q k e rto Hg Hnr|q k Hn|q n Hnr Hw -> Ho|q Hnr Hw Hc Hf Ho|q];
    cbn [fst snd]; try (by left); right.
  - split; [done|]. unfold pend. cbn. rewrite length_drop. destruct (outbox s); [done|]. cbn [length] in *. lia.
  - rewrite update_state_fields. split; [done|]. unfold pend. cbn. rewrite Hf. cbn. lia.
Qed.

Lemma stale_insert now q e m : sent_at e = now -> (length (stale now (bt_insert q e m)) <= length (stale now m))%nat.
Proof.
  intros He. unfold stale. induction m as [|[k v] m IH]; cbn [bt_insert].
  - rewrite filter_cons, decide_False by (cbn; auto). done.
  - destruct (kcmp q k); rewrite !filter_cons; cbn [snd]; repeat case_decide; cbn [length]; try done; lia.
Qed.

Lemma poll_new_weight now s : (1 <= max_segment (cfg s))%nat -> ack_pending s = true ->
  (poll_new now s).1 = Some (ack_frame s) \/
  (weight now (poll_new now s).2 < weight now s)%nat /\ ack_pending (poll_new now s).2 = true.
Proof.
  intros Hm Ha. unfold poll_new. destruct (nack_pending s) as [x|] eqn:En.
  { right. split; [|done]. unfold weight, pend. cbn. rewrite En. cbn. lia. }
  assert (forall d fin t, inflight t = inflight s -> (length (stale now (inflight (push_segment now d fin t))) <= length (stale now (inflight s)))%nat) as Hst.
  { intros d fin t E. cbn. rewrite E. by apply stale_insert. }
  destruct (_ && negb _) eqn:E1.
  { right. apply andb_true_iff in E1 as [_ Ho]. split; [|exact Ha]. unfold weight, pend. cbn [snd].
    match goal with |- context [push_segment now ?d false ?t] => specialize (Hst d false t eq_refl) end. cbn in *.
    rewrite length_drop. lia. }
  destruct (_ && (_ <? _)) eqn:E2; [|left; unfold poll_ack; by rewrite Ha].
  right. apply andb_true_iff in E2 as [[[_ Hf]%andb_true_iff _]%andb_true_iff _]. rewrite update_state_fields.
  split; [|done]. unfold weight, pend. cbn [snd].
  match goal with |- context [push_segment now ?d true ?t] => specialize (Hst d true t eq_refl) end. cbn in *. rewrite En in *.
  destruct (fin_seq s); [done|]. cbn in *. lia.
Qed.

(** While an acknowledgement is due, each poll at [now] has less to do, or returns it. *)
Lemma poll_weight now s : timed now s -> ack_pending s = true ->
  (poll_transmit now s).1 = Some (ack_frame s) \/
  (weight now (poll_transmit now s).2 < weight now s)%nat /\ ack_pending (poll_transmit now s).2 = true.
Proof.
  intros Ht Ha. pose proof (timed_rst _ _ Ht) as Hrst. pose proof (td_reset _ _ Ht) as Hr.
  destruct (decide (state s = Closed)) as [Hc|Hc].
  { left. unfold poll_transmit. rewrite Hrst, decide_False, decide_True by done. unfold poll_ack. by rewrite Ha. }
  destruct (poll_late now s (timed_late _ _ Ht Hc)) as [(q & e & s' & Hp & _ & _ & _ & Ho & _ & Hlt)|[Hst Hp]].
  - right. rewrite Hp. cbn [snd]. injection Ho. intros. split; [|congruence]. unfold weight, pend. 
    replace (outbox s') with (outbox s) by done. replace (fin_seq s') with (fin_seq s) by done.
    replace (nack_pending s') with (nack_pending s) by done. lia.
  - rewrite Hp. destruct (poll_new_weight now (s <| fast_retx := [] |>)) as [E|[E1 E2]]; [|done|by left|right].
    { apply (tm_config _ (td_timers _ _ Ht)). }
    split; [|done]. eapply Nat.lt_le_trans; [exact E1|]. unfold weight, pend. cbn. lia.
Qed.
(** ** One side of a run whose old frames are lost *)

(** The network has lost every frame this side has sent so far. *)
Definition lose (e : endpoint) : endpoint := mk_ep (ep_stream e) (ep_written e) (ep_read e) (ep_closed_at e) [].

Definition do_poll_at (now : Z) (e : endpoint) : endpoint :=
  mk_ep (poll_transmit now (ep_stream e)).2 (ep_written e) (ep_read e) (ep_closed_at e)
    (ep_sent e ++ option_list (poll_transmit now (ep_stream e)).1).
Definition do_recv_at (f : Frame) (now : Z) (e : endpoint) : endpoint :=
  mk_ep (on_frame f now (ep_stream e)) (ep_written e) (ep_read e) (ep_closed_at e) (ep_sent e).

Lemma advance_recv_id s : id (advance_recv s) = id s.
Proof.
  change (id (advance_loop (S (length (reorder s))) s) = id s). generalize (S (length (reorder s))) as k. intros k. revert s.
  induction k as [|k IH]; intros s; cbn [advance_loop]; [done|]. case_match; [by rewrite IH|].
  case_match; [by rewrite update_state_fields|done].
Qed.

(** A frame other than a reset leaves the bytes to send alone. *)
Lemma frame_keeps f t s : kind f <> Rst -> bt_sorted (inflight s) ->
  id (on_frame f t s) = id s /\ outbox (on_frame f t s) = outbox s /\ fin_seq (on_frame f t s) = fin_seq s /\
  forall q x, bt_get q (inflight (on_frame f t s)) = Some x -> bt_get q (inflight s) = Some x.
Proof.
  intros Hk Hs. unfold on_frame. destruct (kind f); try done; try (destruct (seq f) as [y|]; [|done]); try done.
  - assert (id (on_data y (payload f) s) = id s) by (unfold on_data; repeat case_match; try done; by rewrite advance_recv_id).
    pose proof (quiet_on_data y (payload f) s) as [Hv _ _]. set (s' := on_data y _ s) in *. clearbody s'. injection Hv as -> _ _ -> -> _ _ _. done.
  - destruct (on_ack_inflight y t s Hs) as [_ Hg]. destruct (on_ack_views y t s) as (_ & _ & [= -> _ _ -> _ _ _] & _).
    split_and!; try done; [by destruct (on_ack_fields y t s) as (? & ? & ? & ? & ? & -> & _)|]. intros q x. rewrite Hg. by case_match.
  - unfold on_nack. by case_match.
  - assert (id (on_fin y s) = id s) by (unfold on_fin; etrans; [apply advance_recv_id|]; by case_match).
    pose proof (quiet_on_fin y s) as [Hv _ _]. set (s' := on_fin y s) in *. clearbody s'. injection Hv as -> _ _ -> -> _ _ _. done.
Qed.

Section Fine.
Context (init now : Z).

(** The invariant of one side during the recovery: it has cut the segments [L], of which the
    peer has consumed [m], and every segment (re)sent since its start is on the wire. *)
Record fine (L : list segment) (m : nat) (Lp : list segment) (mp : nat) (e : endpoint) : Prop := {
  fi_snd : snd_ok init L m (ep_written e) (ep_closed_at e) (ep_stream e);
  fi_rcv : rcv_ok init Lp mp (ep_read e) (ep_stream e);
  fi_sent : Forall (frame_in init L mp) (ep_sent e);
  fi_room : Z.of_nat (length L + pend (ep_stream e)) < 2 ^ 31;
  fi_timed : timed now (ep_stream e);
  fi_wire q x : bt_get q (inflight (ep_stream e)) = Some x -> sent_at x = now ->
    seg_frame (ep_stream e) q (s_data x) (is_fin x) ∈ ep_sent e;
}.

Lemma fine_HL L m Lp mp e : fine L m Lp mp e -> Z.of_nat (length L) < 2 ^ 31.
Proof. intros H. pose proof (fi_room _ _ _ _ _ H). lia. Qed.

Lemma fine_peer L m Lp mp e L2 m' : (m <= m' <= length L)%nat -> fine L m Lp mp e -> fine L m' (Lp ++ L2) mp e.
Proof. intros Hm [H1 H2 H3 H4 H5 H6]. constructor; try done; [by eapply snd_ok_mono|by apply rcv_ok_mono]. Qed.

Lemma fine_more L m Lp mp e m' : (m <= m' <= length L)%nat -> fine L m Lp mp e -> fine L m' Lp mp e.
Proof. intros Hm H. rewrite <- (app_nil_r Lp). by apply (fine_peer L m). Qed.

Lemma fine_m L m Lp mp e : fine L m Lp mp e -> (m <= length L)%nat /\ (mp <= length Lp)%nat.
Proof.
  intros H. destruct (so_una _ _ _ _ _ _ (fi_snd _ _ _ _ _ H)) as (u & _ & ? & _).
  split; [done|]. apply (ro_m _ _ _ _ _ (fi_rcv _ _ _ _ _ H)).
Qed.

(** A segment resent or cut by a poll is in the frame it returns. *)
Lemma poll_wire s q x : timed now s -> bt_get q (inflight (poll_transmit now s).2) = Some x -> sent_at x = now ->
  seg_frame s q (s_data x) (is_fin x) ∈ option_list (poll_transmit now s).1 \/
  bt_get q (inflight s) = Some x.
Proof.
  intros Ht. destruct (poll_transmit_spec now s (td_sorted _ _ Ht)) as [q'|Hrst|q' k e rto Hg Hnr|q' k Hn|q' n Hnr Hw -> Ho|q' Hnr Hw Hc Hf Ho|q'];
    cbn [fst snd option_list]; try (intros; by right).
  - cbn. destruct (decide (k = q)) as [<-|]; [|rewrite bt_get_alter_ne by done; auto].
    rewrite bt_get_alter, Hg. intros [= <-] _. left. left.
  - cbn. destruct (decide (snd_nxt s = q)) as [<-|]; [|rewrite bt_get_insert_ne by done; auto].
    rewrite bt_get_insert. intros [= <-] _. left. left.
  - rewrite update_state_fields. cbn. destruct (decide (snd_nxt s = q)) as [<-|]; [|rewrite bt_get_insert_ne by done; auto].
    rewrite bt_get_insert. intros [= <-] _. left. left.
Qed.

Lemma fine_poll L m Lp mp e : fine L m Lp mp e ->
  exists L2, fine (L ++ L2) m Lp mp (do_poll_at now e) /\ (length L2 + pend (ep_stream (do_poll_at now e)) <= pend (ep_stream e))%nat.
Proof.
  intros H. pose proof (fine_HL _ _ _ _ _ H) as HL. pose proof H as [H1 H2 H3 H4 H5 H6].
  destruct (poll_ok init L HL Lp m mp _ _ _ _ now H1 H2) as (L2 & Hs & Hr & Hf & Hl).
  destruct (poll_views now (ep_stream e) (td_sorted _ _ H5)) as [_ Hid].
  assert (length L2 + pend (poll_transmit now (ep_stream e)).2 <= pend (ep_stream e))%nat as Hp.
  { assert (length L2 <= 1)%nat by (destruct (poll_transmit now (ep_stream e)) as [[f|] ?]; cbn in Hl; lia).
    pose proof (so_nxt _ _ _ _ _ _ H1) as E1. pose proof (so_nxt _ _ _ _ _ _ Hs) as E2.
    destruct (poll_pend now (ep_stream e)) as [[E3 E4]|[E3 E4]]; [apply (td_sorted _ _ H5)|apply (tm_config _ (td_timers _ _ H5))| |lia].
    rewrite E3, E1, length_app in E2. apply at_seq_inj in E2; [lia|]. change (2 ^ 32) with 4294967296. lia. }
  exists L2. split; [|done]. constructor; cbn; try done.
  - apply Forall_app. split; [|done]. rewrite Forall_elem in H3 |- *. intros f Hin. by eapply frame_in_mono; [|apply H3].
  - rewrite length_app. lia.
  - by apply poll_timed.
  - intros q x Hg Hx. apply elem_of_app. unfold seg_frame. rewrite Hid.
    destruct (poll_wire (ep_stream e) q x H5 Hg Hx) as [?|Hg']; [by right|left]. by apply H6.
Qed.

Lemma fine_recv L m Lp mp peer e f : Forall (frame_in init Lp m) peer -> Z.of_nat (length Lp) < 2 ^ 31 ->
  f ∈ peer \/ kind f = KeepAlive -> kind f <> Rst -> fine L m Lp mp e ->
  exists mp', (mp <= mp')%nat /\ fine L m Lp mp' (do_recv_at f now e) /\ outbox (ep_stream (do_recv_at f now e)) = outbox (ep_stream e).
Proof.
  intros Hpeer HLp Hf Hk H. pose proof (fine_HL _ _ _ _ _ H) as HL. pose proof H as [H1 H2 H3 H4 H5 H6].
  destruct (recv_ok init L Lp m mp peer HL HLp Hpeer f now _ _ _ _ Hf H1 H2) as (mp' & Hle & Hs & Hr).
  destruct (frame_keeps f now (ep_stream e) Hk (td_sorted _ _ H5)) as (E1 & E2 & E3 & E4).
  exists mp'. split_and!; [done| |done]. constructor; cbn; try done.
  - by apply (sent_mono init L mp).
  - unfold pend in *. by rewrite E2, E3.
  - by apply frame_timed.
  - intros q x Hg Hx. unfold seg_frame. rewrite E1. apply H6; auto.
Qed.
Lemma ep_polls_S n e : ep_polls now (S n) e = ep_polls now n (do_poll_at now e).
Proof.
  unfold ep_polls, do_poll_at. cbn [polls ep_stream ep_written ep_read ep_closed_at ep_sent].
  destruct (poll_transmit now (ep_stream e)) as [o s1]. cbn [fst snd]. destruct (polls now n s1) as [fs s2]. cbn [fst snd]. by rewrite app_assoc.
Qed.
Lemma ep_polls_0 e : ep_polls now 0 e = e.
Proof. unfold ep_polls. cbn. rewrite app_nil_r. by destruct e. Qed.

Lemma ep_polls_steps n : forall peer e, rtc (ep_step peer) e (ep_polls now n e).
Proof.
  induction n as [|n IH]; intros peer e; [by rewrite ep_polls_0|]. rewrite ep_polls_S. eapply rtc_l; [apply (do_poll peer e now)|]. apply IH.
Qed.
Lemma left_steps a a' b : rtc (ep_step (ep_sent b)) a a' -> rtc step (a, b) (a', b).
Proof. induction 1; [done|]. eapply rtc_l; [by apply step_left|done]. Qed.
Lemma right_steps a b b' : rtc (ep_step (ep_sent a)) b b' -> rtc step (a, b) (a, b').
Proof. induction 1; [done|]. eapply rtc_l; [by apply step_right|done]. Qed.

Lemma fine_polls n : forall L m Lp mp e, fine L m Lp mp e -> exists L2, fine (L ++ L2) m Lp mp (ep_polls now n e).
Proof.
  induction n as [|n IH]; intros L m Lp mp e H; [exists []; by rewrite app_nil_r, ep_polls_0|].
  destruct (fine_poll _ _ _ _ _ H) as (L2 & H' & _). destruct (IH _ _ _ _ _ H') as (L3 & H''). exists (L2 ++ L3).
  by rewrite app_assoc, ep_polls_S.
Qed.

(** *** Every unacknowledged segment is put on the wire again *)

Lemma resend L m Lp mp e : fine L m Lp mp e -> state (ep_stream e) <> Closed ->
  exists n, let e' := ep_polls now n e in fine L m Lp mp e' /\ outbox (ep_stream e') = outbox (ep_stream e) /\
    forall q x, bt_get q (inflight (ep_stream e')) = Some x -> seg_frame (ep_stream e') q (s_data x) (is_fin x) ∈ ep_sent e'.
Proof.
  intros H Hc. destruct (retransmit_round now _ _ (timed_late _ _ (fi_timed _ _ _ _ _ H) Hc) (Nat.le_refl _))
    as (n & fs & s' & _ & Hp & _ & Hsd & _ & Ho & Hall).
  exists n. destruct (fine_polls n _ _ _ _ _ H) as (L2 & H').
  assert (L2 = []) as ->.
  { pose proof (so_nxt _ _ _ _ _ _ (fi_snd _ _ _ _ _ H)) as E1. pose proof (so_nxt _ _ _ _ _ _ (fi_snd _ _ _ _ _ H')) as E2.
    pose proof (fine_HL _ _ _ _ _ H'). unfold ep_polls in E2. rewrite Hp in E2. cbn in E2.
    assert (snd_nxt s' = snd_nxt (ep_stream e)) as En by by injection Ho. rewrite En, E1 in E2. rewrite length_app in *. apply at_seq_inj in E2; [by destruct L2; [|cbn in *; lia]|].
    change (2 ^ 32) with 4294967296. change (2 ^ 31) with 2147483648 in *. lia. }
  rewrite app_nil_r in H'. cbv zeta. split; [done|]. unfold ep_polls. rewrite Hp. cbn. split; [apply (sd_outbox _ _ Hsd)|].
  intros q x Hg. pose proof (sd_inflight _ _ Hsd q) as Hq. rewrite Hg in Hq. destruct (bt_get q (inflight (ep_stream e))) as [y|] eqn:Ey; [|done].
  destruct Hq as [-> ->]. unfold seg_frame. rewrite (sd_id _ _ Hsd). apply elem_of_app.
  destruct (decide (sent_at y = now)); [left; by apply (fi_wire _ _ _ _ _ H)|right; by apply Hall].
Qed.

(** *** The receiver consumes the frames of all segments it has not consumed *)

Lemma wire_carries L m Lp mp e i : fine L m Lp mp e -> (m <= i < length L)%nat ->
  (forall q x, bt_get q (inflight (ep_stream e)) = Some x -> seg_frame (ep_stream e) q (s_data x) (is_fin x) ∈ ep_sent e) ->
  exists f, f ∈ ep_sent e /\ carries init L i f.
Proof.
  intros H Hi Hw. pose proof (fi_snd _ _ _ _ _ H) as Hs. pose proof (fine_HL _ _ _ _ _ H) as HL.
  destruct (so_una _ _ _ _ _ _ Hs) as (u & Hu & Hm & _ & _ & Hin & Hheld).
  destruct (Hheld (td_reset _ _ (fi_timed _ _ _ _ _ H)) i ltac:(lia)) as [x Hg].
  destruct (Hin _ _ Hg) as (j & _ & Hj & E). apply lookup_lt_Some in Hj as ?. apply (sq_inj init L HL) in E; [|lia..]. subst j.
  eexists. split; [by apply Hw|]. split; [done|]. destruct (is_fin x) eqn:Ef; [right|by left]. split; [done|].
  by destruct (so_fin _ _ _ _ _ _ Hs _ _ Hj) as (Ed & _); rewrite Ed in Hj.
Qed.

Lemma carries_kind L i f : carries init L i f -> kind f <> Rst.
Proof. intros [_ [[-> _]|[-> _]]]; done. Qed.

Lemma deliver k : forall La Lb ma mb a b, fine La mb Lb ma a -> fine Lb ma La mb b -> (length La - mb <= k)%nat ->
  (forall q x, bt_get q (inflight (ep_stream a)) = Some x -> seg_frame (ep_stream a) q (s_data x) (is_fin x) ∈ ep_sent a) ->
  exists b', rtc step (a, b) (a, b') /\ ep_read b' = ep_read b /\ fine La (length La) Lb ma a /\ fine Lb ma La (length La) b'.
Proof.
  induction k as [|k IH]; intros La Lb ma mb a b Ha Hb Hk Hw; destruct (fine_m _ _ _ _ _ Ha) as [Hm _];
    (destruct (decide (mb = length La)) as [<-|Hne]; [by exists b|]); [lia|].
  pose proof (fine_HL _ _ _ _ _ Ha) as HLa. destruct (wire_carries _ _ _ _ _ mb Ha ltac:(lia) Hw) as (f & Hin & Hc).
  destruct (fine_recv Lb ma La mb (ep_sent a) b f) as (mb' & Hle & Hb' & _);
    [apply (fi_sent _ _ _ _ _ Ha)|done|by left|by eapply carries_kind|done|].
  destruct (rcv_progress init La HLa (log_fin_unique _ _ _ _ _ _ HLa (fi_snd _ _ _ _ _ Ha)) mb _ _ f now (fi_rcv _ _ _ _ _ Hb)) as (m2 & Hlt & Hok); [|done|].
  { apply (tm_config _ (td_timers _ _ (fi_timed _ _ _ _ _ Hb))). }
  pose proof (ro_nxt _ _ _ _ _ Hok) as E1. pose proof (ro_nxt _ _ _ _ _ (fi_rcv _ _ _ _ _ Hb')) as E2. cbn in E2.
  pose proof (ro_m _ _ _ _ _ Hok). pose proof (fine_m _ _ _ _ _ Hb') as [_ ?].
  rewrite E1 in E2. apply (sq_inj init La HLa) in E2; [|done..]. subst m2.
  destruct (IH La Lb ma mb' a _ (fine_more La mb Lb ma a mb' ltac:(lia) Ha) Hb' ltac:(lia) Hw) as (b' & Hr & Hrd & H1 & H2).
  exists b'. split_and!; try done. eapply rtc_l; [|exact Hr]. apply step_right. constructor. by left.
Qed.
(** *** The receiver acknowledges them *)

Lemma poll_until_ack k : forall Lb ma La mb b, fine Lb ma La mb b -> ack_pending (ep_stream b) = true -> (weight now (ep_stream b) < k)%nat ->
  exists n Lb2, let b' := ep_polls now n b in fine (Lb ++ Lb2) ma La mb b' /\
    exists f, f ∈ ep_sent b' /\ kind f = Ack /\ seq f = Some (at_seq init mb).
Proof.
  induction k as [|k IH]; intros Lb ma La mb b Hb Ha Hk; [lia|]. destruct (fine_poll _ _ _ _ _ Hb) as (L2 & Hb' & _).
  destruct (poll_weight now _ (fi_timed _ _ _ _ _ Hb) Ha) as [Hf|[Hlt Ha']].
  - exists 1%nat, L2. cbv zeta. rewrite ep_polls_S, ep_polls_0. split; [done|]. exists (ack_frame (ep_stream b)).
    unfold do_poll_at. cbn. rewrite Hf. split_and!; [apply elem_of_app; right; left|done|]. by rewrite (ro_nxt _ _ _ _ _ (fi_rcv _ _ _ _ _ Hb)).
  - destruct (IH _ _ _ _ _ Hb' Ha') as (n & L3 & H1 & H2); [cbn; lia|]. exists (S n), (L2 ++ L3). cbv zeta. by rewrite ep_polls_S, app_assoc.
Qed.

(** An acknowledgement of the whole log empties the window. *)
Lemma ack_empties L m Lp mp e t : fine L m Lp mp e ->
  let s' := on_ack (at_seq init (length L)) t (ep_stream e) in (forall q, bt_get q (inflight s') = None) /\ inflight_count s' = 0.
Proof.
  intros H. cbv zeta. pose proof (fine_HL _ _ _ _ _ H) as HL. pose proof (fi_snd _ _ _ _ _ H) as Hs.
  destruct (so_una _ _ _ _ _ _ Hs) as (u & Hu & Hm & Eu & _ & Hin & _).
  destruct (on_ack_inflight (at_seq init (length L)) t _ (so_sorted _ _ _ _ _ _ Hs)) as [_ Hg].
  destruct (on_ack_views (at_seq init (length L)) t (ep_stream e)) as (_ & _ & Hv & _). split.
  - intros q. rewrite Hg. destruct (bt_get q (inflight (ep_stream e))) as [x|] eqn:E; [|destruct (seq_lt q _); reflexivity].
    destruct (Hin _ _ E) as (i & _ & Hi & ->). apply lookup_lt_Some in Hi. by rewrite (proj2 (sq_lt init L HL i (length L) ltac:(lia) ltac:(lia))).
  - unfold inflight_count. set (s' := on_ack _ _ _) in *. clearbody s'. injection Hv as _ -> _ _ -> _ _. rewrite (so_nxt _ _ _ _ _ _ Hs), Eu.
    destruct (seq_lt (at_seq init u) (at_seq init (length L))) eqn:E; [by rewrite Z.sub_diag|].
    apply seq_lt_false in E; [|lia]. replace u with (length L) by lia. by rewrite Z.sub_diag.
Qed.

Definition keep_alive : Frame := mk_frame KeepAlive None None None None [].

Lemma acknowledge La Lb ma a b : fine La (length La) Lb ma a -> fine Lb ma La (length La) b ->
  exists a' b' Lb' ma', rtc step (a, b) (a', b') /\ fine La (length La) Lb' ma' a' /\ fine Lb' ma' La (length La) b' /\
    ep_written a' = ep_written a /\ ep_closed_at a' = ep_closed_at a /\ ep_read b' = ep_read b /\
    outbox (ep_stream a') = outbox (ep_stream a) /\ (forall q, bt_get q (inflight (ep_stream a')) = None) /\ inflight_count (ep_stream a') = 0.
Proof.
  intros Ha Hb. pose proof (fine_HL _ _ _ _ _ Ha) as HLa.
  destruct (fine_recv Lb ma La (length La) (ep_sent a) b keep_alive) as (mb & Hle & Hb1 & _); [apply (fi_sent _ _ _ _ _ Ha)|done|by right|done..|].
  replace mb with (length La) in Hb1 by (destruct (fine_m _ _ _ _ _ Hb1); lia). clear mb Hle.
  destruct (poll_until_ack _ _ _ _ _ _ Hb1 eq_refl (Nat.lt_succ_diag_r _)) as (n & Lb2 & Hb2 & f & Hf & Hk & Hq).
  set (b2 := ep_polls now n _) in *.
  assert (fine La (length La) (Lb ++ Lb2) ma a) as Ha1 by (apply (fine_peer La (length La)); [lia|done]).
  destruct (fine_recv La (length La) (Lb ++ Lb2) ma (ep_sent b2) a f) as (ma' & Hle & Ha2 & Ho);
    [apply (fi_sent _ _ _ _ _ Hb2)|by eapply fine_HL|by left|congruence|done|].
  exists (do_recv_at f now a), b2, (Lb ++ Lb2), ma'. split_and!; try done.
  - etrans; [apply (right_steps a b b2); eapply rtc_l; [|apply ep_polls_steps]; apply (do_recv _ _ keep_alive now); by right|].
    apply rtc_once, step_left, do_recv. by left.
  - apply (fine_more _ ma); [|done]. destruct (fine_m _ _ _ _ _ Ha2). lia.
  - cbn. unfold on_frame. rewrite Hk, Hq. by apply (ack_empties _ _ _ _ _ now Ha1).
  - cbn. unfold on_frame. rewrite Hk, Hq. by apply (ack_empties _ _ _ _ _ now Ha1).
Qed.

(** *** The sender cuts the next segment *)

Lemma cut_once L m Lp mp e : fine L m Lp mp e -> state (ep_stream e) <> Closed -> outbox (ep_stream e) <> [] ->
  (forall q, bt_get q (inflight (ep_stream e)) = None) -> inflight_count (ep_stream e) = 0 ->
  exists n L2, fine (L ++ L2) m Lp mp (ep_polls now n e) /\ (length (outbox (ep_stream (ep_polls now n e))) < length (outbox (ep_stream e)))%nat.
Proof.
  assert (forall L e, fine L m Lp mp e -> state (ep_stream e) <> Closed -> (forall q, bt_get q (inflight (ep_stream e)) = None) ->
    poll_transmit now (ep_stream e) = poll_new now ((ep_stream e) <| fast_retx := [] |>)) as Hnew.
  { intros L0 e0 H Hc Hi. destruct (poll_late now _ (timed_late _ _ (fi_timed _ _ _ _ _ H) Hc)) as [(q & x & ? & _ & Hg & _)|[_ ?]]; [|done].
    by rewrite Hi in Hg. }
  assert (forall L e, fine L m Lp mp e -> state (ep_stream e) <> Closed -> outbox (ep_stream e) <> [] ->
    (forall q, bt_get q (inflight (ep_stream e)) = None) -> inflight_count (ep_stream e) = 0 -> nack_pending (ep_stream e) = None ->
    (length (outbox (ep_stream (do_poll_at now e))) < length (outbox (ep_stream e)))%nat) as Hcut.
  { intros L0 e0 H Hc Ho Hi Hcnt Hn. cbn. rewrite (Hnew _ _ H Hc Hi). unfold poll_new. cbn. rewrite Hn. cbn.
    pose proof (tm_config _ (td_timers _ _ (fi_timed _ _ _ _ _ H))) as (? & ? & _).
    change (inflight_count _) with (inflight_count (ep_stream e0)). rewrite Hcnt. destruct (Z.ltb_spec 0 (send_window (cfg (ep_stream e0)))); [|lia].
    assert (length (outbox (ep_stream e0)) <> 0%nat) as Hz by by destruct (outbox (ep_stream e0)).
    destruct (Nat.eqb_spec (length (outbox (ep_stream e0))) 0); [done|]. cbn. rewrite length_drop. lia. }
  intros H Hc Ho Hi Hcnt. destruct (fine_poll _ _ _ _ _ H) as (L2 & H1 & _). destruct (nack_pending (ep_stream e)) as [x|] eqn:En.
  - destruct (fine_poll _ _ _ _ _ H1) as (L3 & H2 & _). exists 2%nat, (L2 ++ L3). rewrite !ep_polls_S, ep_polls_0, app_assoc. split; [done|].
    assert (ep_stream (do_poll_at now e) = (ep_stream e) <| fast_retx := [] |> <| nack_pending := None |>) as E.
    { unfold do_poll_at. cbn [ep_stream]. rewrite (Hnew _ _ H Hc Hi). unfold poll_new. cbn. by rewrite En. }
    replace (outbox (ep_stream e)) with (outbox (ep_stream (do_poll_at now e))) by by rewrite E. apply (Hcut _ _ H1); by rewrite E.
  - exists 1%nat, L2. rewrite ep_polls_S, ep_polls_0. split; [done|]. by apply (Hcut _ _ H).
Qed.

(** *** Repeating the round until nothing is left to send *)

(** Nothing was written after [close]: a FIN then follows every byte. *)
Definition close_last (e : endpoint) : Prop := forall n, ep_closed_at e = Some n -> n = length (ep_written e).

Lemma closed_empty L m Lp mp e : fine L m Lp mp e -> close_last e -> state (ep_stream e) = Closed ->
  log_bytes (take m L) = ep_written e.
Proof.
  intros H Hl Hc. pose proof (fi_snd _ _ _ _ _ H) as Hs. destruct (so_closed _ _ _ _ _ _ Hs Hc) as [Hf _].
  destruct (so_acked _ _ _ _ _ _ Hs Hf) as (i & Hi & Hm). destruct (so_fin _ _ _ _ _ _ Hs _ _ Hi) as (_ & _ & n & Hn & Hle).
  apply Hl in Hn. pose proof (log_bytes_take_le L i m ltac:(lia)). destruct (so_log _ _ _ _ _ _ Hs) as (lost & Hw & Hlost).
  rewrite (Hlost (td_reset _ _ (fi_timed _ _ _ _ _ H))), app_nil_l in Hw. rewrite <- (take_drop m L), log_bytes_app, <- app_assoc in Hw.
  rewrite Hw. rewrite Hw, !length_app in Hn. replace (log_bytes (drop m L) ++ outbox (ep_stream e)) with (@nil Z); [by rewrite app_nil_r|].
  symmetry. apply length_zero_iff_nil. rewrite length_app. lia.
Qed.

Lemma round La Lb ma mb a b : fine La mb Lb ma a -> fine Lb ma La mb b -> close_last a ->
  exists a' b', rtc step (a, b) (a', b') /\ ep_written a' = ep_written a /\ ep_closed_at a' = ep_closed_at a /\ ep_read b' = ep_read b /\
    (received b' = ep_written a \/
     (exists La' Lb' ma' mb', fine La' mb' Lb' ma' a' /\ fine Lb' ma' La' mb' b') /\ (length (outbox (ep_stream a')) < length (outbox (ep_stream a)))%nat).
Proof.
  intros Ha Hb Hl. destruct (decide (state (ep_stream a) = Closed)) as [Hc|Hc].
  { exists a, b. split_and!; try done. left. unfold received. rewrite (ro_bytes _ _ _ _ _ (fi_rcv _ _ _ _ _ Hb)). by eapply closed_empty. }
  destruct (resend _ _ _ _ _ Ha Hc) as (n & Ha1 & Ho & Hw). set (a1 := ep_polls now n a) in *.
  destruct (deliver (length La) _ _ _ _ _ _ Ha1 Hb ltac:(lia) Hw) as (b1 & Hr & Hrd & Ha2 & Hb2).
  assert (rtc step (a, b) (a1, b1)) as Hr1 by (etrans; [apply left_steps, ep_polls_steps|exact Hr]).
  destruct (decide (outbox (ep_stream a) = [])) as [En|En].
  { exists a1, b1. split_and!; try done. left. unfold received. rewrite (ro_bytes _ _ _ _ _ (fi_rcv _ _ _ _ _ Hb2)), firstn_all.
    destruct (so_log _ _ _ _ _ _ (fi_snd _ _ _ _ _ Ha)) as (lost & -> & Hlost).
    by rewrite (Hlost (td_reset _ _ (fi_timed _ _ _ _ _ Ha))), En, !app_nil_r. }
  destruct (acknowledge _ _ _ _ _ Ha2 Hb2) as (a2 & b2 & Lb' & ma' & Hr2 & Ha3 & Hb3 & E1 & E2 & E3 & E4 & E5 & E6).
  assert (state (ep_stream a2) <> Closed) as Hc2.
  { intros Hc2. pose proof (closed_empty _ _ _ _ _ Ha3 ltac:(unfold close_last; by rewrite E1, E2) Hc2) as Hall. rewrite firstn_all in Hall.
    destruct (so_log _ _ _ _ _ _ (fi_snd _ _ _ _ _ Ha3)) as (lost & Hw' & _). apply (f_equal length) in Hw'. rewrite Hall, !length_app, E4, Ho in Hw'.
    apply En, length_zero_iff_nil. lia. }
  destruct (cut_once _ _ _ _ _ Ha3 Hc2) as (n2 & L2 & Ha4 & Hlt); [congruence|done|done|].
  exists (ep_polls now n2 a2), b2. split_and!; [|exact E1|exact E2|by rewrite E3|].
  - etrans; [exact Hr1|]. etrans; [exact Hr2|]. apply left_steps, ep_polls_steps.
  - right. split; [|rewrite E4, Ho in Hlt; exact Hlt]. exists (La ++ L2), Lb', ma', (length La). split; [done|].
    apply (fine_peer Lb' ma' La (length La) b2 L2 ma'); [|done]. pose proof (fine_m _ _ _ _ _ Hb3) as [? _]. lia.
Qed.

Lemma recovery k : forall La Lb ma mb a b, fine La mb Lb ma a -> fine Lb ma La mb b -> close_last a -> (length (outbox (ep_stream a)) < k)%nat ->
  exists a' b', rtc step (a, b) (a', b') /\ ep_written a' = ep_written a /\ ep_read b' = ep_read b /\ received b' = ep_written a.
Proof.
  induction k as [|k IH]; intros La Lb ma mb a b Ha Hb Hl Hk; [lia|].
  destruct (round _ _ _ _ _ _ Ha Hb Hl) as (a1 & b1 & Hr & E1 & E2 & E3 & [Hd|[(La' & Lb' & ma' & mb' & Ha' & Hb') Hlt]]); [by exists a1, b1|].
  destruct (IH _ _ _ _ _ _ Ha' Hb') as (a' & b' & Hr' & E4 & E5 & E6); [unfold close_last; by rewrite E1, E2|lia|].
  exists a', b'. split_and!; [by etrans|congruence..].
Qed.
End Fine.

(** ** The theorem *)

(** Room for the segments still to be cut: fewer than 2^31 frames in all. *)
Definition room (e : endpoint) : Prop := Z.of_nat (length (ep_sent e) + length (outbox (ep_stream e)) + 1) < 2 ^ 31.

Lemma fine_start init now L m Lp mp e : half init L m Lp mp e -> timers_ok (ep_stream e) -> state (ep_stream e) <> Reset ->
  expired now (ep_stream e) -> room e -> fine init now L m Lp mp (lose e).
Proof.
  intros [H1 H2 _ H4] Ht Hs (Hn & Hmax & He) Hroom. constructor; cbn; try done; [unfold pend, room in *; case_match; lia| |].
  - constructor; try done; [apply (so_sorted _ _ _ _ _ _ H1)|]. intros q e' Hg. right. by apply (He q).
  - intros q x Hg Hx. destruct (He _ _ Hg). destruct Ht as [_ ? _]. lia.
Qed.


(** Five bytes written, three of them cut and sent once. *)
Definition half_cut : system := run [(true, OWrite (lit "hello")); (true, OSetMax 3); (true, OClose); (true, OPoll 1)] demo_start.

End arq_delivery.
