(* ===== verification/SessionBase.v ===== *)
(** The effects of the session layer: a state that is threaded through a function
    whose early returns keep the changes made so far, and the round-robin poll that
    client and server share. *)

From S2P Require Import Prelude BTree.

(** ** State with early return *)

(** A method of [&mut self] that returns an [Option]: the [?] operator leaves the
    function with [None] and does not undo the changes to the state. *)
Definition St (S A : Type) : Type := S -> option A * S.

Section State.
Context {S : Type}.

Definition ret {A} (a : A) : St S A := fun s => (Some a, s).
Definition early {A} : St S A := fun s => (None, s).
Definition bind {A B} (m : St S A) (k : A -> St S B) : St S B :=
  fun s => match m s with (Some a, s') => k a s' | (None, s') => (None, s') end.
Definition get_st : St S S := fun s => (Some s, s).
Definition modify (f : S -> S) : St S unit := fun s => (Some tt, f s).
(** [o?]. *)
Definition lift {A} (o : option A) : St S A := fun s => (o, s).
(** [if let Some(x) = m()]: the result as a value instead of an early return. *)
Definition try_ {A} (m : St S A) : St S (option A) := fun s => let '(o, s') := m s in (Some o, s').
End State.

Notation "'let*' x := m 'in' k" := (bind m (fun x => k))
  (at level 10, x pattern, m at level 150, k at level 200, only parsing) : spark_scope.

(** ** Round robin *)

(** [ids.iter().position(|&id| id > last).unwrap_or(0)]. *)
Fixpoint position_gt (last : Z) (ids : list Z) : option nat :=
  match ids with
  | [] => None
  | x :: ids' => if last <? x then Some 0%nat else S <$> position_gt last ids'
  end.

(** The ids in the order of the loop: [ids[(start + k) % n]] for [k] in [0..n]. *)
Definition rr_order (last : Z) (ids : list Z) : list Z :=
  let start := default 0%nat (position_gt last ids) in drop start ids ++ take start ids.

Section RoundRobin.
Context {St F : Type} (ready : St -> bool) (poll : St -> option F * St).

(** The loop: skip the streams that are not ready, stop at the first that has a frame. *)
Fixpoint rr_poll (ids : list Z) (m : list (Z * St)) : option (Z * F) * list (Z * St) :=
  match ids with
  | [] => (None, m)
  | x :: ids' =>
      match bt_get x m with
      | Some st =>
          if ready st then
            let '(o, st') := poll st in
            let m' := bt_insert x st' m in
            match o with
            | Some f => (Some (x, f), m')
            | None => rr_poll ids' m'
            end
          else rr_poll ids' m
      | None => rr_poll ids' m
      end
  end.

(** One call: the frame polled, the new cursor, the streams. *)
Definition rr_next (last : Z) (m : list (Z * St)) : option F * Z * list (Z * St) :=
  match rr_poll (rr_order last (bt_keys m)) m with
  | (Some (x, f), m') => (Some f, x, m')
  | (None, m') => (None, last, m')
  end.
End RoundRobin.
