(* ===== verification/RoundRobin.v ===== *)
(** The round-robin poll of the session layer serves every stream: one that has a
    frame to send gets its turn within as many calls as there are streams. *)

From S2P Require Import Prelude BTree SessionBase.

Module round_robin.

Definition ascending (ids : list Z) : Prop := StronglySorted Z.lt ids.

Lemma position_gt_app y p q : ascending (p ++ y :: q) ->
  position_gt y (p ++ y :: q) = if decide (q = []) then None else Some (S (length p)).
Proof.
  induction p as [|z p IH]; cbn [app position_gt]; intros Hs; inversion_clear Hs as [|? ? Hs' Hlt].
  - rewrite Z.ltb_irrefl. destruct q as [|w q]; [done|]. cbn [position_gt]. inv_Forall.
    by rewrite (proj2 (Z.ltb_lt y w)).
  - rewrite (IH Hs'). inv_Forall. rewrite (proj2 (Z.ltb_ge y z)) by lia. by case_decide.
Qed.

(** After [y] was served, the next call starts right behind it. *)
Lemma rr_order_served y p q : ascending (p ++ y :: q) -> rr_order y (p ++ y :: q) = q ++ p ++ [y].
Proof.
  intros Hs. unfold rr_order. rewrite position_gt_app by done. case_decide as Hq; cbn [default].
  - subst q. rewrite drop_0, take_0, app_nil_r. done.
  - cbn. change (p ++ y :: q) with (p ++ [y] ++ q). rewrite app_assoc.
    replace (S (length p)) with (length (p ++ [y])) by len. by rewrite drop_app_length, take_app_length.
Qed.

(** The order of any call is a rotation of the ids. *)
Lemma rr_order_rotation last ids : exists a b, ids = a ++ b /\ rr_order last ids = b ++ a.
Proof.
  unfold rr_order. set (k := default _ _). exists (take k ids), (drop k ids). by rewrite take_drop.
Qed.

(** Serving [y] rotates the order to what followed [y]. *)
Lemma rr_order_next last ids y l1 l2 : ascending ids -> rr_order last ids = l1 ++ y :: l2 ->
  rr_order y ids = l2 ++ l1 ++ [y].
Proof.
  intros Hs E. destruct (rr_order_rotation last ids) as (a & b & -> & E2). rewrite E in E2.
  assert ((exists k, b = l1 ++ y :: k /\ l2 = k ++ a) \/ (exists k, a = k ++ y :: l2 /\ l1 = b ++ k)) as [(k & -> & ->)|(k & -> & ->)].
  { symmetry in E2. apply app_eq_app in E2 as (k & [[-> Ea]|[-> ->]]); [|right; by exists k].
    destruct k as [|z k]; cbn in Ea.
    - right. exists []. by rewrite !app_nil_r.
    - left. injection Ea as <- ->. by exists k. }
  - rewrite (app_assoc a) in *. rewrite rr_order_served by done. by rewrite <- !app_assoc.
  - rewrite <- app_assoc in *. cbn [app] in *. rewrite rr_order_served by done. by rewrite <- !app_assoc.
Qed.

Section Fair.
Context {St F : Type} (ready : St -> bool) (poll : St -> option F * St).

(** Stream [x] may send and has something to send. *)
Definition wants (x : Z) (m : list (Z * St)) : Prop :=
  exists st, bt_get x m = Some st /\ ready st = true /\ is_Some (poll st).1.

Lemma keys_ascending (m : list (Z * St)) : bt_sorted m -> ascending (bt_keys m).
Proof.
  unfold bt_sorted, ascending, bt_keys. induction 1 as [|[k v] m Hs IH Hlt]; cbn; constructor; [done|].
  apply Forall_fmap. eapply Forall_impl; [|exact Hlt]. intros [k' v'] H. cbn in *. by apply Z.compare_lt_iff.
Qed.

(** A pass over [pre ++ x :: post] serves one of [pre], or [x] itself; it leaves the
    ids and, until it is served, the stream [x] alone. *)
Lemma rr_poll_serves x post : forall pre m, bt_sorted m -> x ∉ pre -> wants x m ->
  exists y f m', rr_poll ready poll (pre ++ x :: post) m = (Some (y, f), m') /\ bt_sorted m' /\ bt_keys m' = bt_keys m /\
    (y = x \/ (exists l1 l2, pre = l1 ++ y :: l2) /\ wants x m').
Proof.
  induction pre as [|z pre IH]; intros m Hs Hx Hw; cbn [app rr_poll].
  - destruct Hw as (st & Hg & Hr & [f Hp]). rewrite Hg, Hr. destruct (poll st) as [o st']. cbn in Hp. subst o.
    exists x, f, (bt_insert x st' m). split_and!; [done|by apply bt_sorted_insert|by eapply bt_keys_insert_mem|by left].
  - apply not_elem_of_cons in Hx as [Hzx Hx].
    assert (forall m', bt_sorted m' -> bt_keys m' = bt_keys m -> wants x m' ->
      exists y f m2, rr_poll ready poll (pre ++ x :: post) m' = (Some (y, f), m2) /\ bt_sorted m2 /\ bt_keys m2 = bt_keys m /\
        (y = x \/ (exists l1 l2, z :: pre = l1 ++ y :: l2) /\ wants x m2)) as Hcont.
    { intros m' Hs' Hk Hw'. destruct (IH m' Hs' Hx Hw') as (y & f & m2 & -> & ? & ? & H). exists y, f, m2.
      split_and!; [done..|congruence|]. destruct H as [->|[(l1 & l2 & ->) ?]]; [by left|right].
      split; [|done]. by exists (z :: l1), l2. }
    destruct (bt_get z m) as [st|] eqn:Hz; [|by apply Hcont]. destruct (ready st); [|by apply Hcont].
    destruct (poll st) as [o st'].
    assert (wants x (bt_insert z st' m)) as Hw'.
    { destruct Hw as (sx & Hg & ?). exists sx. by rewrite bt_get_insert_ne by done. }
    destruct o as [f|].
    + exists z, f, (bt_insert z st' m). split_and!; [done|by apply bt_sorted_insert|by eapply bt_keys_insert_mem|].
      right. split; [|done]. by exists [], pre.
    + apply Hcont; [by apply bt_sorted_insert|by eapply bt_keys_insert_mem|done].
Qed.

(** [n] calls, with the ids served. *)
Fixpoint calls (n : nat) (last : Z) (m : list (Z * St)) : list Z :=
  match n with
  | O => []
  | S n' =>
      match rr_next ready poll last m with
      | (Some _, y, m') => y :: calls n' y m'
      | (None, y, m') => calls n' y m'
      end
  end.

Lemma order_NoDup last (m : list (Z * St)) : bt_sorted m -> NoDup (rr_order last (bt_keys m)).
Proof.
  intros Hs. destruct (rr_order_rotation last (bt_keys m)) as (a & b & E & ->).
  rewrite Permutation_app_comm, <- E. by apply bt_sorted_NoDup.
Qed.

Lemma calls_reach x d : forall last m pre post,
  bt_sorted m -> wants x m -> rr_order last (bt_keys m) = pre ++ x :: post -> (length pre < d)%nat ->
  x ∈ calls d last m.
Proof.
  induction d as [|d IH]; intros last m pre post Hs Hw Ho Hd; [lia|]. cbn [calls].
  assert (x ∉ pre) as Hx.
  { pose proof (order_NoDup last m Hs) as Hn. rewrite Ho in Hn. apply list.NoDup_app in Hn as (_ & Hn & _).
    intros Hin. apply (Hn x Hin). left. }
  destruct (rr_poll_serves x post pre m Hs Hx Hw) as (y & f & m' & Hp & Hs' & Hk & H).
  unfold rr_next. rewrite Ho, Hp. destruct H as [->|[(l1 & l2 & ->) Hw']]; [left|right].
  rewrite <- app_assoc in Ho. cbn [app] in Ho.
  apply (IH y m' l2 (post ++ l1 ++ [y]) Hs' Hw'); [|len].
  rewrite Hk, (rr_order_next last _ y l1 (l2 ++ x :: post)); [by rewrite <- app_assoc|by apply keys_ascending|done].
Qed.

(** the round-robin poll is fair: a stream that may send and has a frame to send
    is served within as many calls as the session has streams. *)
Theorem round_robin_fair x last m : bt_sorted m -> wants x m -> x ∈ calls (length m) last m.
Proof.
  intros Hs Hw. assert (x ∈ rr_order last (bt_keys m)) as Hin.
  { destruct (rr_order_rotation last (bt_keys m)) as (a & b & E & ->). rewrite elem_of_app.
    destruct Hw as (st & Hg & _). apply bt_get_In in Hg. assert (x ∈ bt_keys m) as Hk by (apply list_elem_of_fmap; by exists (x, st)).
    rewrite E, elem_of_app in Hk. tauto. }
  apply list_elem_of_split in Hin as (pre & post & Ho). eapply calls_reach; [done..|].
  apply (f_equal length) in Ho. destruct (rr_order_rotation last (bt_keys m)) as (a & b & E & Er). rewrite Er in Ho.
  apply (f_equal length) in E. unfold bt_keys in E. rewrite length_fmap in E. rewrite !length_app in *. cbn in Ho. lia.
Qed.
End Fair.

(** Three streams with frames to send, the cursor behind the second. *)
Lemma round_robin_fair_witness :
  7 ∈ calls (fun _ => true) (fun s : nat => (Some tt, S s)) 3 4 [(1, 0%nat); (4, 0%nat); (7, 0%nat)].
Proof.
  apply (round_robin_fair (fun _ => true) (fun s : nat => (Some tt, S s)) 7 4 [(1, 0%nat); (4, 0%nat); (7, 0%nat)]).
  - repeat constructor.
  - exists 0%nat. done.
Defined.
End round_robin.
