(* ===== verification/TunnelSession.v ===== *)
(** [dns-tunnel-core/src/session.rs]: the client session, the server and its sessions. *)

From S2P Require Import Prelude BTree RustStr Digits F64 TunnelCrypto TunnelFrame TunnelDns TunnelMtu TunnelArq SessionBase.

Module session.
Import crypto.
Import (hints) frame arq.

Definition PRIMARY_STREAM_ID : Z := 1.
Definition SIG_CONTEXT : bytes := lit "spark-dns-tunnel v1 synack".
Definition FRAME_HEADER_MAX : nat := 16.
Definition MAX_PROBE_PAYLOAD : Z := 4096.

Definition uplink_segment (zone : dns.Name) : nat :=
  Nat.max (mtu.max_uplink_payload (dns.wire_len zone) FRAME_HEADER_MAX) 1.

Definition WORST_QUESTION : nat := 259.
Definition downlink_segment (edns_udp : Z) : nat :=
  Nat.max (mtu.max_downlink_payload (Z.to_nat edns_udp) WORST_QUESTION FRAME_HEADER_MAX) 1.

Definition transcript (client_eph server_eph conn_id : bytes) : bytes := client_eph ++ server_eph ++ conn_id.
Definition signed_msg (t : bytes) : bytes := SIG_CONTEXT ++ t.

Record Config := mk_config {
  cipher : Cipher;
  arq_cfg : arq.Config;
  edns_udp : Z;
  max_query_inflight : nat;
  query_timeout_ms : Z;
}.

Definition default_config : Config := {|
  cipher := ChaCha20Poly1305;
  arq_cfg := arq.default_config <| arq.send_window := 256 |> <| arq.recv_window := 1024 |>;
  edns_udp := 1232;
  max_query_inflight := 64;
  query_timeout_ms := 3000 |}.

Inductive SessionError := CryptoErr (e : CryptoError) | DnsErr (e : dns.DnsError).

(** [read_u16]: the first two bytes, if there. *)
Definition read_u16 (b : bytes) : option Z := let! s := slice_get b 0 2 in Some (from_be_bytes s).

Inductive AnswerOutcome := Consumed | ProbeResp (target : Z).

Section WithRing.
Context {R : Ring}.

(** ** The client *)

Record Outstanding := mk_out { o_txn : Z; o_deadline : Z }.

Record ClientStream := mk_cs {
  c_stream : arq.Stream;
  c_target : bytes;
  open_acked : bool;
  last_open_ms : option Z;
}.
#[export] Instance ClientStream_eta : Settable ClientStream :=
  fun s => mk_cs (c_stream s) (c_target s) (open_acked s) (last_open_ms s).

Record ClientSession := mk_client {
  c_cfg : Config;
  c_zone : dns.Name;
  c_conn_id : bytes;
  server_pub : bytes;
  client_eph : option Ephemeral;
  client_eph_pub : bytes;
  c_up : option Aead;
  c_down : option Aead;
  up_arq_cfg : arq.Config;
  c_streams : list (Z * ClientStream);
  next_stream_id : Z;
  c_rr_last : Z;
  handshake_acked : bool;
  txn : Z;
  outstanding : list Outstanding;
}.
#[export] Instance ClientSession_eta : Settable ClientSession :=
  fun c => mk_client (c_cfg c) (c_zone c) (c_conn_id c) (server_pub c) (client_eph c) (client_eph_pub c)
    (c_up c) (c_down c) (up_arq_cfg c) (c_streams c) (next_stream_id c) (c_rr_last c)
    (handshake_acked c) (txn c) (outstanding c).

Definition new_client_stream (sid : Z) (c : arq.Config) (target : bytes) : ClientStream :=
  mk_cs (arq.new sid c 0) target false None.

(** [ClientSession::new]: the name, the random ConnectionID, the ephemeral key. *)
Definition client_new (server_pub : bytes) (zone target : bytes) (cfg : Config) (r : Rand)
    : result SessionError ClientSession * Rand :=
  match dns.parse zone with
  | Err e => (Err (DnsErr e), r)
  | Ok zone =>
      let '(id, r) := random_conn_id r in
      match id with
      | Err e => (Err (CryptoErr e), r)
      | Ok id =>
          let '(eph, r) := generate r in
          match eph with
          | Err e => (Err (CryptoErr e), r)
          | Ok eph =>
              let up_cfg := (arq_cfg cfg) <| arq.max_segment := uplink_segment zone |> in
              (Ok {| c_cfg := cfg; c_zone := zone; c_conn_id := id; server_pub := server_pub;
                     client_eph := Some eph; client_eph_pub := eph_public eph;
                     c_up := None; c_down := None; up_arq_cfg := up_cfg;
                     c_streams := bt_insert PRIMARY_STREAM_ID (new_client_stream PRIMARY_STREAM_ID up_cfg target) [];
                     next_stream_id := PRIMARY_STREAM_ID + 1; c_rr_last := 0;
                     handshake_acked := false; txn := 0; outstanding := [] |}, r)
          end
      end
  end.

(** The search for a free StreamID.  An id is skipped when it is 0, the primary id
    or in use, so that one round more than there are such ids always finds one
    ([find_sid_fresh]). *)
Fixpoint find_sid (fuel : nat) (m : list (Z * ClientStream)) (sid : Z) : option Z :=
  match fuel with
  | O => None
  | S fuel' =>
      if (sid =? 0) || (sid =? PRIMARY_STREAM_ID) || bt_mem sid m then find_sid fuel' m (wrap16 (sid + 1))
      else Some sid
  end.

Definition open_stream (target : bytes) (c : ClientSession) : option (Z * ClientSession) :=
  let! sid := find_sid (length (c_streams c) + 3) (c_streams c) (next_stream_id c) in
  Some (sid, c <| next_stream_id := wrap16 (sid + 1) |>
               <| c_streams := bt_insert sid (new_client_stream sid (up_arq_cfg c) target) (c_streams c) |>).

Definition on_c_stream (f : arq.Stream -> arq.Stream) (s : ClientStream) : ClientStream := s <| c_stream := f (c_stream s) |>.
Definition with_stream (sid : Z) (f : arq.Stream -> arq.Stream) (c : ClientSession) : ClientSession :=
  c <| c_streams := bt_alter (on_c_stream f) sid (c_streams c) |>.

Definition write_stream (sid : Z) (data : bytes) (c : ClientSession) : ClientSession := with_stream sid (arq.write data) c.
Definition read_stream (sid : Z) (c : ClientSession) : bytes * ClientSession :=
  match bt_get sid (c_streams c) with
  | Some s => ((arq.read (c_stream s)).1, with_stream sid (fun s => (arq.read s).2) c)
  | None => ([], c)
  end.
Definition close_stream (sid : Z) (c : ClientSession) : ClientSession := with_stream sid arq.close c.
Definition is_stream_closed (sid : Z) (c : ClientSession) : bool :=
  match bt_get sid (c_streams c) with Some s => arq.is_closed (c_stream s) | None => true end.
Definition stream_remote_finished (sid : Z) (c : ClientSession) : bool :=
  match bt_get sid (c_streams c) with Some s => arq.remote_finished (c_stream s) | None => false end.
Definition stream_ids (c : ClientSession) : list Z := bt_keys (c_streams c).

Definition reap_closed (c : ClientSession) : list Z * ClientSession :=
  let closed := (filter (fun p => arq.is_closed (c_stream p.2) = true) (c_streams c)).*1 in
  (closed, c <| c_streams := fold_left (fun m id => bt_remove id m) closed (c_streams c) |>).

(** The single-stream conveniences. *)
Definition write (data : bytes) (c : ClientSession) : ClientSession := write_stream PRIMARY_STREAM_ID data c.
Definition read (c : ClientSession) : bytes * ClientSession := read_stream PRIMARY_STREAM_ID c.
Definition close (c : ClientSession) : ClientSession := close_stream PRIMARY_STREAM_ID c.
Definition is_closed (c : ClientSession) : bool := is_stream_closed PRIMARY_STREAM_ID c.
Definition remote_finished (c : ClientSession) : bool := stream_remote_finished PRIMARY_STREAM_ID c.
Definition is_established (c : ClientSession) : bool := handshake_acked c.
Definition stream_open (sid : Z) (c : ClientSession) : bool :=
  match bt_get sid (c_streams c) with Some s => open_acked s | None => false end.

Definition any_stream_alive (c : ClientSession) : bool :=
  existsb (fun s => negb (arq.is_closed (c_stream s))) (bt_values (c_streams c)).

(** *** The uplink *)

Abbreviation CM := (St (ClientSession * Rand)).
Definition client : CM ClientSession := let* s := get_st in ret s.1.
Definition mod_client (f : ClientSession -> ClientSession) : CM unit := modify (fun s => (f s.1, s.2)).
(** [crypto::random_nonce().ok()?]. *)
Definition draw_nonce {S} : St (S * Rand) bytes :=
  fun s => let '(x, r) := random_nonce s.2 in (ok x, (s.1, r)).

Definition next_txn : CM Z :=
  let* _ := mod_client (fun c => c <| txn := wrap16 (txn c + 1) |>) in
  let* c := client in ret (txn c).

Definition syn_frame (sid : Z) (target : bytes) : frame.Frame :=
  (frame.new frame.Syn) <| frame.stream_id := Some sid |> <| frame.payload := target |>.

Definition open_due (now open_rto : Z) (s : ClientStream) : bool :=
  negb (open_acked s) && match last_open_ms s with None => true | Some t => open_rto <=? sat_sub now t end.

Definition next_open_syn (now : Z) : CM (Z * bytes) :=
  let* c := client in
  let* up := lift (c_up c) in
  let open_rto := arq.initial_rto_ms (up_arq_cfg c) in
  let* (sid, s) := lift (bt_find (fun _ s => open_due now open_rto s) (c_streams c)) in
  let target := c_target s in
  let* nonce := draw_nonce in
  let* wire := lift (ok (frame.seal_short up (c_conn_id c) nonce (syn_frame sid target))) in
  let* _ := mod_client (fun c => c <| c_streams := bt_alter (fun s => s <| last_open_ms := Some now |>) sid (c_streams c) |>) in
  ret (sid, wire).

Definition poll_c_stream (now : Z) (s : ClientStream) : option frame.Frame * ClientStream :=
  let '(o, st) := arq.poll_transmit now (c_stream s) in (o, s <| c_stream := st |>).

Definition next_stream_frame (now : Z) : CM (option frame.Frame) :=
  let* c := client in
  let '(o, last, m) := rr_next open_acked (poll_c_stream now) (c_rr_last c) (c_streams c) in
  let* _ := mod_client (fun c => c <| c_rr_last := last |> <| c_streams := m |>) in
  ret o.

(** Seal a frame under the uplink key. *)
Definition seal_up (f : frame.Frame) : CM bytes :=
  let* c := client in
  let* up := lift (c_up c) in
  let* nonce := draw_nonce in
  lift (ok (frame.seal_short up (c_conn_id c) nonce f)).

(** The packet of the next query, with the StreamID it belongs to. *)
Definition next_wire (now : Z) : CM (option Z * bytes) :=
  let* c := client in
  if negb (handshake_acked c) then
    if negb (length (outstanding c) =? 0)%nat then early
    else ret (None, frame.build_syn (c_conn_id c) (client_eph_pub c))
  else
    let* o := try_ (next_open_syn now) in
    match o with
    | Some (sid, w) => ret (Some sid, w)
    | None =>
        let* f := next_stream_frame now in
        match f with
        | Some f => let* w := seal_up f in ret (frame.stream_id f, w)
        | None =>
            let* c := client in
            if any_stream_alive c then let* w := seal_up (frame.new frame.KeepAlive) in ret (None, w)
            else early
        end
    end.

Definition poll_query_tagged (now : Z) : CM (option Z * bytes) :=
  let* _ := mod_client (fun c => c <| outstanding := filter (fun o => now < o_deadline o) (outstanding c) |>) in
  let* c := client in
  if (max_query_inflight (c_cfg c) <=? length (outstanding c))%nat then early else
  let* (stream, wire) := next_wire now in
  let* t := next_txn in
  let* c := client in
  let* query := lift (ok (dns.build_query t wire (c_zone c) (edns_udp (c_cfg c)))) in
  let* _ := mod_client (fun c => c <| outstanding :=
    outstanding c ++ [mk_out t (wrap64 (now + query_timeout_ms (c_cfg c)))] |>) in
  ret (stream, query).

Definition poll_query (now : Z) : CM bytes := let* (_, q) := poll_query_tagged now in ret q.

(** A control query with a two-byte payload. *)
Definition control_frame (k : frame.Kind) (v : Z) : frame.Frame :=
  (frame.new k) <| frame.payload := to_be_bytes 2 v |>.
Definition build_control (k : frame.Kind) (v : Z) : CM bytes :=
  let* wire := seal_up (control_frame k v) in
  let* t := next_txn in
  let* c := client in
  lift (ok (dns.build_query t wire (c_zone c) (edns_udp (c_cfg c)))).
Definition build_mtu_probe (target : Z) : CM bytes := build_control frame.MtuProbe target.
Definition build_set_mtu (size : Z) : CM bytes := build_control frame.SetMtu size.

Definition set_uplink_segment (size : nat) (c : ClientSession) : ClientSession :=
  c <| up_arq_cfg := (up_arq_cfg c) <| arq.max_segment := Nat.max size 1 |> |>
    <| c_streams := prod_map id (on_c_stream (arq.set_max_segment size)) <$> c_streams c |>.

Definition client_next_deadline (c : ClientSession) : option Z :=
  fold_left arq.opt_min (omap (fun s => arq.next_deadline (c_stream s)) (bt_values (c_streams c))) None.

(** *** Answers *)

(** [Vec::swap_remove]. *)
Definition swap_remove {A} (i : nat) (l : list A) : list A :=
  match l !! (length l - 1)%nat with
  | Some x => take (length l - 1) (<[i := x]> l)
  | None => l
  end.

Definition finish_handshake (server_eph sig : bytes) (c : ClientSession) : ClientSession :=
  let t := transcript (client_eph_pub c) server_eph (c_conn_id c) in
  match verify_server_sig (server_pub c) (signed_msg t) sig with
  | Err _ => c
  | Ok _ =>
      match client_eph c with
      | None => c
      | Some eph =>
          let c := c <| client_eph := None |> in
          match agree eph server_eph with
          | Err _ => c
          | Ok ee =>
              let keys := derive_session_keys_ecdh ee t in
              match aead_new (cipher (c_cfg c)) (up keys), aead_new (cipher (c_cfg c)) (down keys) with
              | Ok u, Ok d => c <| c_up := Some u |> <| c_down := Some d |> <| handshake_acked := true |>
              | _, _ => c
              end
          end
      end
  end.

(** A frame that arrived under the downlink key. *)
Definition on_down_frame (f : frame.Frame) (now : Z) (c : ClientSession) : AnswerOutcome * ClientSession :=
  match frame.kind f with
  | frame.MtuProbeResp => (ProbeResp (default 0 (read_u16 (frame.payload f))), c)
  | frame.SynAck =>
      (Consumed, match frame.stream_id f with
                 | Some sid => c <| c_streams := bt_alter (fun s => s <| open_acked := true |>) sid (c_streams c) |>
                 | None => c
                 end)
  | _ =>
      (Consumed, match frame.stream_id f with Some sid => with_stream sid (arq.on_frame f now) c | None => c end)
  end.

Definition free_slot (t : Z) (c : ClientSession) : ClientSession :=
  match list_find (fun o => o_txn o = t) (outstanding c) with
  | Some (pos, _) => c <| outstanding := swap_remove pos (outstanding c) |>
  | None => c
  end.

Definition on_answer (answer : bytes) (now : Z) (c : ClientSession) : AnswerOutcome * ClientSession :=
  match dns.parse_answer answer with
  | Err _ => (Consumed, c)
  | Ok parsed =>
      let c := free_slot (dns.a_txn_id parsed) c in
      if (length (dns.a_data parsed) =? 0)%nat then (Consumed, c) else
      match frame.parse_packet (dns.a_data parsed) with
      | Err _ => (Consumed, c)
      | Ok packet =>
          if negb (handshake_acked c) then
            match packet with
            | frame.PSynAck _ server_eph sig => (Consumed, finish_handshake server_eph sig c)
            | _ => (Consumed, c)
            end
          else
            match packet with
            | frame.PData _ nonce ciphertext =>
                match c_down c with
                | None => (Consumed, c)
                | Some down =>
                    match frame.open_frame down nonce ciphertext with
                    | Ok f => on_down_frame f now c
                    | Err _ => (Consumed, c)
                    end
                end
            | _ => (Consumed, c)
            end
      end
  end.

(** ** The server *)

Record ServerStream := mk_ss { s_stream : arq.Stream; s_target : bytes; dialed : bool }.
#[export] Instance ServerStream_eta : Settable ServerStream := fun s => mk_ss (s_stream s) (s_target s) (dialed s).

Record ServerSession := mk_sess {
  ss_up : Aead;
  ss_down : Aead;
  synack : bytes;
  streams : list (Z * ServerStream);
  rr_last : Z;
  last_seen : Z;
}.
#[export] Instance ServerSession_eta : Settable ServerSession :=
  fun s => mk_sess (ss_up s) (ss_down s) (synack s) (streams s) (rr_last s) (last_seen s).

Definition poll_s_stream (now : Z) (s : ServerStream) : option frame.Frame * ServerStream :=
  let '(o, st) := arq.poll_transmit now (s_stream s) in (o, s <| s_stream := st |>).

Definition poll_downlink (now : Z) (s : ServerSession) : option frame.Frame * ServerSession :=
  let '(o, last, m) := rr_next (fun _ => true) (poll_s_stream now) (rr_last s) (streams s) in
  (o, s <| rr_last := last |> <| streams := m |>).

Record Server := mk_server {
  static_key : ServerStatic;
  zone : dns.Name;
  cfg : Config;
  sessions : list (bytes * ServerSession);
}.
#[export] Instance Server_eta : Settable Server := fun s => mk_server (static_key s) (zone s) (cfg s) (sessions s).

Definition server_new (pkcs8 zone : bytes) (cfg : Config) : result SessionError Server :=
  match from_pkcs8 pkcs8 with
  | Err e => Err (CryptoErr e)
  | Ok k => match dns.parse zone with Err e => Err (DnsErr e) | Ok z => Ok (mk_server k z cfg []) end
  end.

Definition server_public_key (s : Server) : bytes := public_key (static_key s).

(** [sessions.get_mut(id)] and [.and_then(|s| s.streams.get_mut(&sid))], followed by an update. *)
Definition with_session (id : bytes) (f : ServerSession -> ServerSession) (s : Server) : Server :=
  s <| sessions := bt_alter f id (sessions s) |>.
Definition on_s_stream (f : arq.Stream -> arq.Stream) (st : ServerStream) : ServerStream := st <| s_stream := f (s_stream st) |>.
Definition with_s_stream (sid : Z) (f : arq.Stream -> arq.Stream) (s : ServerSession) : ServerSession :=
  s <| streams := bt_alter (on_s_stream f) sid (streams s) |>.
Definition server_stream (id : bytes) (sid : Z) (s : Server) : option ServerStream :=
  let! sess := bt_get id (sessions s) in bt_get sid (streams sess).

Definition open_targets (id : bytes) (s : Server) : list (Z * bytes) * Server :=
  match bt_get id (sessions s) with
  | Some sess =>
      ((fun p => (p.1, s_target p.2)) <$> filter (fun p => dialed p.2 = false) (streams sess),
       with_session id (fun sess => sess <| streams := prod_map Datatypes.id (fun st => st <| dialed := true |>) <$> streams sess |>) s)
  | None => ([], s)
  end.

Definition deliver_to_client (id : bytes) (sid : Z) (data : bytes) (s : Server) : Server :=
  with_session id (with_s_stream sid (arq.write data)) s.
Definition take_from_client (id : bytes) (sid : Z) (s : Server) : bytes * Server :=
  match server_stream id sid s with
  | Some st => ((arq.read (s_stream st)).1, with_session id (with_s_stream sid (fun st => (arq.read st).2)) s)
  | None => ([], s)
  end.
Definition readable_from_client (id : bytes) (sid : Z) (s : Server) : nat :=
  match server_stream id sid s with Some st => arq.readable (s_stream st) | None => 0%nat end.
Definition server_close_stream (id : bytes) (sid : Z) (s : Server) : Server :=
  with_session id (with_s_stream sid arq.close) s.
Definition server_remote_finished (id : bytes) (sid : Z) (s : Server) : bool :=
  match server_stream id sid s with Some st => arq.remote_finished (s_stream st) | None => false end.
Definition has_session (id : bytes) (s : Server) : bool := bt_mem id (sessions s).
Definition session_ids (s : Server) : list bytes := bt_keys (sessions s).
Definition streams_of (id : bytes) (s : Server) : list Z :=
  match bt_get id (sessions s) with Some sess => bt_keys (streams sess) | None => [] end.
Definition remove_session (id : bytes) (s : Server) : Server := s <| sessions := bt_remove id (sessions s) |>.

Definition sweep_idle (now idle_ms : Z) (s : Server) : list bytes * Server :=
  let stale := (filter (fun p => idle_ms <= sat_sub now (last_seen p.2)) (sessions s)).*1 in
  (stale, s <| sessions := fold_left (fun m id => bt_remove id m) stale (sessions s) |>).

Definition new_server_stream (c : Config) (sid : Z) (target : bytes) : ServerStream :=
  mk_ss (arq.new sid ((arq_cfg c) <| arq.max_segment := downlink_segment (edns_udp c) |>) 0) target false.

(** *** Queries *)

Abbreviation SM := (St (Server * Rand)).
Definition server : SM Server := let* s := get_st in ret s.1.
Definition mod_server (f : Server -> Server) : SM unit := modify (fun s => (f s.1, s.2)).
(** [Ephemeral::generate().ok()?]. *)
Definition draw_ephemeral : SM Ephemeral := fun s => let '(x, r) := generate s.2 in (ok x, (s.1, r)).

Definition answer (query downlink : bytes) : SM bytes :=
  let* s := server in lift (ok (dns.build_answer query downlink (edns_udp (cfg s)))).
Definition nodata (query : bytes) : SM bytes :=
  let* s := server in lift (ok (dns.build_nodata query (zone s) (edns_udp (cfg s)))).

Definition handle_syn (query id client_eph : bytes) (now : Z) : SM bytes :=
  let* s := server in
  match bt_get id (sessions s) with
  | Some sess => answer query (synack sess)
  | None =>
      let* server_eph := draw_ephemeral in
      let se_pub := eph_public server_eph in
      let* ee := lift (ok (agree server_eph client_eph)) in
      let t := transcript client_eph se_pub id in
      let sig := sign (static_key s) (signed_msg t) in
      let keys := derive_session_keys_ecdh ee t in
      let* u := lift (ok (aead_new (cipher (cfg s)) (up keys))) in
      let* d := lift (ok (aead_new (cipher (cfg s)) (down keys))) in
      let sa := frame.build_synack id se_pub sig in
      let* _ := mod_server (fun s => s <| sessions :=
        bt_insert id (mk_sess u d sa [] 0 now) (sessions s) |>) in
      answer query sa
  end.

(** Seal a frame of session [id] under its downlink key and answer with it. *)
Definition answer_frame (query id : bytes) (f : frame.Frame) : SM bytes :=
  let* s := server in
  let* sess := lift (bt_get id (sessions s)) in
  let* nonce := draw_nonce in
  let* out := lift (ok (frame.seal_short (ss_down sess) id nonce f)) in
  answer query out.

Definition probe_response (payload : bytes) : frame.Frame :=
  let target := match read_u16 payload with Some t => Z.min (Z.max t 2) MAX_PROBE_PAYLOAD | None => 2 end in
  (frame.new frame.MtuProbeResp) <| frame.payload := to_be_bytes 2 target ++ replicate (Z.to_nat target - 2) 0 |>.

Definition synack_frame (sid : Z) : frame.Frame := (frame.new frame.SynAck) <| frame.stream_id := Some sid |>.

(** The answer with the next downlink frame of the session, if any. *)
Definition answer_downlink (query id : bytes) (now : Z) : SM bytes :=
  let* s := server in
  let* sess := lift (bt_get id (sessions s)) in
  let '(o, sess') := poll_downlink now sess in
  let* _ := mod_server (with_session id (fun _ => sess')) in
  let* downlink :=
    match o with
    | Some f => let* nonce := draw_nonce in lift (ok (frame.seal_short (ss_down sess') id nonce f))
    | None => ret []
    end in
  answer query downlink.

(** Open the stream [sid], unless it exists already. *)
Definition open_server_stream (id : bytes) (sid : Z) (target : bytes) (s : Server) : Server :=
  if bool_decide (sid ∈ streams_of id s) then s
  else with_session id (fun sess => sess <| streams := bt_insert sid (new_server_stream (cfg s) sid target) (streams sess) |>) s.

Definition resize_streams (size : nat) (sess : ServerSession) : ServerSession :=
  sess <| streams := prod_map Datatypes.id (on_s_stream (arq.set_max_segment size)) <$> streams sess |>.

(** The effect of an uplink frame: [Some] answer at once, or none yet. *)
Definition handle_frame (query id : bytes) (f : frame.Frame) (now : Z) : SM (option (SM bytes)) :=
  match frame.kind f with
  | frame.MtuProbe => ret (Some (answer_frame query id (probe_response (frame.payload f))))
  | frame.SetMtu =>
      let* _ := mod_server (fun s => match read_u16 (frame.payload f) with
        | Some sz => with_session id (resize_streams (Z.to_nat sz)) s
        | None => s
        end) in ret None
  | frame.Syn =>
      match frame.stream_id f with
      | Some sid =>
          let* _ := mod_server (open_server_stream id sid (frame.payload f)) in
          ret (Some (answer_frame query id (synack_frame sid)))
      | None => ret None
      end
  | frame.KeepAlive => ret None
  | _ =>
      let* _ := mod_server (fun s => match frame.stream_id f with
        | Some sid => with_session id (with_s_stream sid (arq.on_frame f now)) s
        | None => s
        end) in ret None
  end.

Definition handle_data (query id nonce ciphertext : bytes) (now : Z) : SM bytes :=
  let* s := server in
  if negb (has_session id s) then nodata query else
  let* sess := lift (bt_get id (sessions s)) in
  let* _ := mod_server (with_session id (fun sess => sess <| last_seen := now |>)) in
  let* reply :=
    match ok (frame.open_frame (ss_up sess) nonce ciphertext) with
    | Some f => handle_frame query id f now
    | None => ret None
    end in
  match reply with
  | Some m => m
  | None => answer_downlink query id now
  end.

Definition on_query (query : bytes) (now : Z) : SM bytes :=
  let* s := server in
  match dns.parse_query query (zone s) with
  | Err dns.WrongZone => early
  | Err _ => nodata query
  | Ok parsed =>
      match frame.parse_packet (dns.q_data parsed) with
      | Ok (frame.PSyn id eph) => handle_syn query id eph now
      | Ok (frame.PData id nonce ct) => handle_data query id nonce ct now
      | _ => nodata query
      end
  end.

Definition server_downlink_segment (id : bytes) (s : Server) : option nat :=
  let! sess := bt_get id (sessions s) in
  let! (_, st) := head (streams sess) in
  Some (arq.max_segment (arq.cfg (s_stream st))).
End WithRing.
End session.
