(* ===== verification/SessionProps.v ===== *)
(** Properties of the session layer: the handshake, the carriage of frames, the
    query budget, stream opening and its bookkeeping. *)

From S2P Require Import Prelude BTree RustStr Digits F64 TunnelCrypto RingModel TunnelFrame TunnelDns TunnelMtu TunnelArq SessionBase TunnelSession.

Module session_props.
Import crypto session.
Import (hints) frame arq.

(** ** A complete exchange, executed *)

Section Demo.
Import ring_model.

Definition demo_zone : bytes := lit "t.example.com".
Definition demo_key : bytes := lit "0123456789abcdef0123456789abcdef".
Definition demo_server : option Server := ok (server_new demo_key demo_zone default_config).

(** One round trip: the client polls, the server answers, the client takes the answer. *)
Definition round (now : Z) (st : (ClientSession * Rand) * (Server * Rand)) : (ClientSession * Rand) * (Server * Rand) :=
  let '(c, s) := st in
  match poll_query now c with
  | (Some q, c) =>
      match on_query q now s with
      | (Some a, s) => (((on_answer a now c.1).2, c.2), s)
      | (None, s) => (c, s)
      end
  | (None, c) => (c, s)
  end.

Definition demo_state : option ((ClientSession * Rand) * (Server * Rand)) :=
  let! s := demo_server in
  let! c := ok (client_new demo_key demo_zone (lit "target") default_config 5).1 in
  Some ((write_stream 1 (lit "GET /") c, 9), (s, 100)).

Example demo_delivers :
  (let! st := demo_state in
   let '(c, s) := round 4 (round 3 (round 2 (round 1 st))) in
   Some (handshake_acked c.1, (take_from_client (c_conn_id c.1) 1 s.1).1, (open_targets (c_conn_id c.1) s.1).1))
  = Some (true, lit "GET /", [(1, lit "target")]).
Proof. vm_compute. reflexivity. Qed.
End Demo.

(** ** The handshake *)

(** Step through the state-passing code. *)
Ltac exec_st :=
  cbv beta iota zeta delta [bind ret early get_st modify lift try_ client server mod_client mod_server answer nodata fst snd ok ok_or].

Section Handshake.
Context {R : Ring} {RL : RingLaws R}.

(** A client that has not completed its handshake, with its ephemeral key. *)
Record client_fresh (c : ClientSession) (eph : Ephemeral) : Prop := {
  cf_acked : handshake_acked c = false;
  cf_eph : client_eph c = Some eph;
  cf_pub : client_eph_pub c = eph_public eph;
  cf_key : compute_public_key (private eph) = Some (eph_public eph);
  cf_id : length (c_conn_id c) = CONN_ID_LEN /\ bytes_ok (c_conn_id c);
  cf_zone : dns.name_ok (c_zone c);
}.

(** The bytes of a packet in a query, through resolvers that may change the case of the name. *)
Record carried (q : bytes) (z : dns.Name) (edns t : Z) (data q' : bytes) : Prop := {
  ca_built : dns.build_query t data z edns = Ok q;
  ca_ci : exists hdr body body', length hdr = dns.HEADER_LEN /\ q = hdr ++ body /\ q' = hdr ++ body' /\
    Forall2 dns.same_ci body body';
}.

Lemma carried_parse q z edns t data q' : is_u16 t -> bytes_ok data -> dns.name_ok z ->
  carried q z edns t data q' -> dns.parse_query q' z = Ok (dns.mk_query t data).
Proof.
  intros Ht Hd Hz [Hb (hdr & body & body' & Hh & -> & -> & Hci)].
  rewrite <- (dns.parse_query_ci hdr body body' z Hh Hci). by eapply dns.parse_build_query.
Qed.

Lemma carried_take2 q z edns t data q' : is_u16 t -> carried q z edns t data q' -> take 2 q' = to_be_bytes 2 t.
Proof.
  intros Ht [Hb (hdr & body & body' & Hh & -> & -> & Hci)]. apply dns.build_query_inv in Hb as [_ E].
  assert (take 2 (hdr ++ body) = to_be_bytes 2 t) as H by (rewrite E; by apply take_app_length').
  rewrite take_app_le in H |- * by (rewrite Hh; unfold dns.HEADER_LEN; lia). done.
Qed.

Lemma length_txt_small d : (length d <= 1000)%nat -> is_u16 (Z.of_nat (length (dns.txt_rdata d))).
Proof. intros. rewrite mtu.length_txt_rdata. unfold mtu.div_ceil, fits. lia. Qed.

(** What the answer to a carried query brings back. *)
Lemma answer_parse q z edns t data q' d e a : is_u16 t -> carried q z edns t data q' ->
  is_u16 (Z.of_nat (length (dns.txt_rdata d))) -> dns.build_answer q' d e = Ok a ->
  dns.parse_answer a = Ok (dns.mk_answer t d).
Proof.
  intros Ht Hc Hd Ha. pose proof (carried_take2 _ _ _ _ _ _ Ht Hc) as E.
  rewrite (dns.parse_build_answer q' d e a) by (done || rewrite E; apply to_be_bytes_ok).
  by rewrite E, from_to_be_bytes_small.
Qed.

(** The first query of a client is the cleartext Syn. *)
Lemma poll_query_syn now c eph r q c' :
  client_fresh c eph -> poll_query now (c, r) = (Some q, c') ->
  dns.build_query (wrap16 (txn c + 1)) (frame.build_syn (c_conn_id c) (client_eph_pub c)) (c_zone c) (edns_udp (c_cfg c)) = Ok q /\
  c' = (c <| txn := wrap16 (txn c + 1) |>
          <| outstanding := [mk_out (wrap16 (txn c + 1)) (wrap64 (now + query_timeout_ms (c_cfg c)))] |>, r).
Proof.
  intros [Hn He Hp Hk Hid Hz]. unfold poll_query, poll_query_tagged. exec_st.
  set (c0 := c <| outstanding := filter (fun o => now < o_deadline o) (outstanding c) |>).
  destruct (_ <=? _)%nat; [done|]. unfold next_wire. exec_st.
  change (handshake_acked c0) with (handshake_acked c). rewrite Hn. cbn [negb].
  destruct (Nat.eqb_spec (length (outstanding c0)) 0) as [E0|]; [|done]. cbn [negb]. unfold next_txn. exec_st.
  change (txn c0) with (txn c). change (c_zone (c0 <| txn := _ |>)) with (c_zone c).
  change (c_cfg (c0 <| txn := _ |>)) with (c_cfg c). change (c_conn_id c0) with (c_conn_id c).
  change (client_eph_pub c0) with (client_eph_pub c).
  destruct (dns.build_query _ _ _ _) as [q0|]; [|done]. intros [= <- <-]. split; [done|].
  apply length_zero_iff_nil in E0. f_equal. unfold c0 in *. cbn in E0 |- *. by rewrite E0.
Qed.

(** The cleartext handshake packets, parsed back. *)
Lemma parse_syn id eph : length id = CONN_ID_LEN -> length eph = X25519_PUB_LEN ->
  frame.parse_packet (frame.build_syn id eph) = Ok (frame.PSyn id eph).
Proof.
  intros. rewrite <- (app_nil_r (frame.build_syn id eph)).
  by apply (frame.parse_packet_build (frame.PSyn id eph)).
Qed.

Lemma parse_synack id eph sg : length id = CONN_ID_LEN -> length eph = X25519_PUB_LEN -> length sg = ED25519_SIG_LEN ->
  frame.parse_packet (frame.build_synack id eph sg) = Ok (frame.PSynAck id eph sg).
Proof.
  intros. rewrite <- (app_nil_r (frame.build_synack id eph sg)).
  by apply (frame.parse_packet_build (frame.PSynAck id eph sg)).
Qed.

Lemma generate_public r e r' : generate r = (Ok e, r') -> compute_public_key (private e) = Some (eph_public e).
Proof.
  unfold generate. destruct (rand_ephemeral r) as [[k|] r2]; [|done].
  destruct (compute_public_key k) as [pk|] eqn:E; [|done]. by intros [= <- <-].
Qed.

Lemma on_query_syn q' t id eph now s r :
  dns.parse_query q' (zone s) = Ok (dns.mk_query t (frame.build_syn id eph)) ->
  length id = CONN_ID_LEN -> length eph = X25519_PUB_LEN ->
  on_query q' now (s, r) = handle_syn q' id eph now (s, r).
Proof.
  intros Hp Hid He. unfold on_query. exec_st. rewrite Hp. cbn [dns.q_data]. by rewrite parse_syn.
Qed.

(** A new session: both keys come from the agreement and the transcript, the SynAck is signed. *)
Lemma handle_syn_new q' id eph now s r a s1 :
  bt_get id (sessions s) = None -> handle_syn q' id eph now (s, r) = (Some a, s1) ->
  exists se ee u d,
    let t := transcript eph (eph_public se) id in
    let sa := frame.build_synack id (eph_public se) (sign (static_key s) (signed_msg t)) in
    compute_public_key (private se) = Some (eph_public se) /\ agree se eph = Ok ee /\
    aead_new (cipher (cfg s)) (up (derive_session_keys_ecdh ee t)) = Ok u /\
    aead_new (cipher (cfg s)) (down (derive_session_keys_ecdh ee t)) = Ok d /\
    dns.build_answer q' sa (edns_udp (cfg s)) = Ok a /\
    sessions s1.1 = bt_insert id (mk_sess u d sa [] 0 now) (sessions s).
Proof.
  intros Hn. unfold handle_syn, draw_ephemeral. exec_st. rewrite Hn.
  destruct (generate r) as [[se|] r'] eqn:Hg; [|done]. apply generate_public in Hg.
  destruct (agree se eph) as [ee|] eqn:Ha; [|done].
  destruct (aead_new _ (up _)) as [u|] eqn:Hu; [|done]. destruct (aead_new _ (down _)) as [d|] eqn:Hd; [|done].
  change (cfg (s <| sessions := _ |>)) with (cfg s).
  destruct (dns.build_answer _ _ _) as [a'|] eqn:Hb; [|done]. intros [= <- <-].
  exists se, ee, u, d. by split_and!.
Qed.

Lemma finish_handshake_ok c eph se ee u d sg t :
  client_fresh c eph -> t = transcript (eph_public eph) se (c_conn_id c) ->
  ed25519_verify (server_pub c) (signed_msg t) sg = true -> agree eph se = Ok ee ->
  aead_new (cipher (c_cfg c)) (up (derive_session_keys_ecdh ee t)) = Ok u ->
  aead_new (cipher (c_cfg c)) (down (derive_session_keys_ecdh ee t)) = Ok d ->
  finish_handshake se sg c = c <| client_eph := None |> <| c_up := Some u |> <| c_down := Some d |> <| handshake_acked := true |>.
Proof.
  intros [Hn He Hp Hk Hid Hz] -> Hv Ha Hu Hd. unfold finish_handshake. rewrite Hp. unfold verify_server_sig. rewrite Hv, He.
  cbv zeta. rewrite Ha. change (c_cfg (c <| client_eph := None |>)) with (c_cfg c). by rewrite Hu, Hd.
Qed.

Lemma handshake_completes now1 now2 now3 c eph r q c1 s rs q' a s1 :
  client_fresh c eph -> poll_query now1 (c, r) = (Some q, c1) ->
  zone s = c_zone c -> public_key (static_key s) = server_pub c -> cipher (cfg s) = cipher (c_cfg c) ->
  bt_get (c_conn_id c) (sessions s) = None ->
  (exists hdr body body', length hdr = dns.HEADER_LEN /\ q = hdr ++ body /\ q' = hdr ++ body' /\ Forall2 dns.same_ci body body') ->
  on_query q' now2 (s, rs) = (Some a, s1) ->
  exists c2 sess, on_answer a now3 c1.1 = (Consumed, c2) /\ handshake_acked c2 = true /\
    bt_get (c_conn_id c) (sessions s1.1) = Some sess /\ c_up c2 = Some (ss_up sess) /\ c_down c2 = Some (ss_down sess) /\
    outstanding c2 = [].
Proof.
  intros Hf Hq Hz Hpk Hci Hns Hmangle Ha. apply (poll_query_syn _ _ _ _ _ _ Hf) in Hq as [Hb ->].
  pose proof Hf as [Hn He Hp Hk [Hid Hidb] Hzn]. set (t := wrap16 (txn c + 1)) in *.
  assert (is_u16 t) as Ht by by apply wrap_fits.
  assert (carried q (c_zone c) (edns_udp (c_cfg c)) t (frame.build_syn (c_conn_id c) (client_eph_pub c)) q') as Hc by by constructor.
  pose proof (public_length _ _ Hk) as Hel. pose proof (public_bytes _ _ Hk) as Heb.
  assert (bytes_ok (frame.build_syn (c_conn_id c) (client_eph_pub c))) as Hsb.
  { rewrite Hp. unfold frame.build_syn. repeat apply Forall_app_2; [by repeat constructor|done..]. }
  rewrite (on_query_syn q' t (c_conn_id c) (client_eph_pub c)) in Ha; [|rewrite Hz; by apply (carried_parse _ _ _ _ _ _ Ht Hsb Hzn Hc)|done|by rewrite Hp].
  apply handle_syn_new in Ha as (se & ee & u & d & Hse & Hag & Hu & Hd & Hba & Hs1); [|done].
  pose proof (public_length _ _ Hse) as Hsl. set (tr := transcript (client_eph_pub c) (eph_public se) (c_conn_id c)) in *.
  set (sg := sign (static_key s) (signed_msg tr)) in *.
  assert (length sg = ED25519_SIG_LEN) as Hsgl by apply sign_length.
  assert (length (frame.build_synack (c_conn_id c) (eph_public se) sg) = 105)%nat as Hsal
    by (unfold frame.build_synack; rewrite !length_app, Hid, Hsl, Hsgl; done).
  pose proof (answer_parse _ _ _ _ _ _ _ _ _ Ht Hc (length_txt_small _ ltac:(rewrite Hsal; lia)) Hba) as Hpa.
  eexists _, (mk_sess u d _ [] 0 now2). rewrite Hs1, bt_get_insert. unfold on_answer. rewrite Hpa. cbn [dns.a_txn_id dns.a_data fst].
  rewrite Hsal. cbn [Nat.eqb]. rewrite parse_synack by done. 
  assert (free_slot t (c <| txn := t |> <| outstanding := [mk_out t (wrap64 (now1 + query_timeout_ms (c_cfg c)))] |>)
    = c <| txn := t |> <| outstanding := [] |>) as ->.
  { unfold free_slot. cbn [outstanding update_field list_find]. cbn. rewrite decide_True by done. done. }
  change (handshake_acked (c <| txn := t |> <| outstanding := [] |>)) with (handshake_acked c). rewrite Hn. cbn [negb].
  rewrite (finish_handshake_ok (c <| txn := t |> <| outstanding := [] |>) eph (eph_public se) ee u d sg tr);
    [by split_and!|by constructor|by unfold tr; rewrite Hp| | |..];
    try (change (c_cfg (c <| txn := t |> <| outstanding := [] |>)) with (c_cfg c); by rewrite <- Hci).
  - unfold sg, sign. cbn. rewrite <- Hpk. apply verify_sign.
  - unfold agree in *. rewrite <- (agree_sym (private se) (private eph) (eph_public se) (eph_public eph)) by done. by rewrite <- Hp.
Qed.

(** A new client is ready for the handshake. *)
Lemma client_new_fresh pub z target cf r0 c r : bytes_ok z -> client_new pub z target cf r0 = (Ok c, r) ->
  exists eph, client_fresh c eph.
Proof.
  intros Hz. unfold client_new. destruct (dns.parse z) as [n|] eqn:En; [|done].
  destruct (random_conn_id r0) as [[id|] r1] eqn:Ei; [|done]. destruct (generate r1) as [[e|] r2] eqn:Eg; [|done].
  intros [= <- _]. exists e. unfold random_conn_id, random in Ei. unfold generate in Eg.
  destruct (rand_fill _ _) as [[x|] r3] eqn:Ef; [|done]. injection Ei as <- _.
  destruct (rand_ephemeral r1) as [[ek|] r4]; [|done]. destruct (compute_public_key ek) eqn:Ek; [|done]. injection Eg as <- _.
  constructor; cbn; try done; [|by eapply dns.parse_name_ok]. split; [by eapply fill_length|by eapply fill_bytes].
Qed.

(** C3: the handshake completes and agrees: if the server answers the client's first
    query, which may have been case-mangled on the way, the client that receives the
    answer is established, holds exactly the two keys of the session the server
    created, and has its query slot back. *)
Theorem handshake_agreement now1 now2 now3 c eph r q c1 s rs q' a s1 :
  client_fresh c eph -> poll_query now1 (c, r) = (Some q, c1) ->
  zone s = c_zone c -> public_key (static_key s) = server_pub c -> cipher (cfg s) = cipher (c_cfg c) ->
  bt_get (c_conn_id c) (sessions s) = None ->
  (exists hdr body body', length hdr = dns.HEADER_LEN /\ q = hdr ++ body /\ q' = hdr ++ body' /\ Forall2 dns.same_ci body body') ->
  on_query q' now2 (s, rs) = (Some a, s1) ->
  exists c2 sess, on_answer a now3 c1.1 = (Consumed, c2) /\ handshake_acked c2 = true /\
    bt_get (c_conn_id c) (sessions s1.1) = Some sess /\ c_up c2 = Some (ss_up sess) /\ c_down c2 = Some (ss_down sess) /\
    outstanding c2 = [].
Proof. apply handshake_completes. Qed.

(** a repeated Syn of a live session changes nothing at the server, not even the
    random generator, and is answered with the SynAck of the first time. *)
Theorem syn_replay_idempotent q' t id eph now s r sess :
  dns.parse_query q' (zone s) = Ok (dns.mk_query t (frame.build_syn id eph)) ->
  length id = CONN_ID_LEN -> length eph = X25519_PUB_LEN -> bt_get id (sessions s) = Some sess ->
  on_query q' now (s, r) = (ok (dns.build_answer q' (synack sess) (edns_udp (cfg s))), (s, r)).
Proof.
  intros Hp Hid He Hs. rewrite (on_query_syn _ _ _ _ _ _ _ Hp Hid He). unfold handle_syn. exec_st. by rewrite Hs.
Qed.

Lemma free_slot_fields t c :
  free_slot t c = c <| outstanding := outstanding (free_slot t c) |>.
Proof. unfold free_slot. case_match; [by case_match|by destruct c]. Qed.

(** What a SynAck is on the wire. *)
Lemma synack_bytes b id se sg : frame.parse_packet b = Ok (frame.PSynAck id se sg) ->
  exists more, b = frame.build_synack id se sg ++ more /\ length id = CONN_ID_LEN /\ length se = X25519_PUB_LEN /\ length sg = ED25519_SIG_LEN.
Proof.
  unfold frame.parse_packet. rewrite cur_at_nil. destruct (frame.c_u8 _) as [[fm c1]|] eqn:E1; [|done]. unfold frame.c_u8 in E1.
  destruct (cur_int_at_inv frame.Truncated 1 [] b _ eq_refl) as [[E ?]|(s & r1 & -> & Hs & E)]; rewrite E in E1; [done|]. injection E1 as <- <-.
  destruct s as [|x [|]]; try done. assert (from_be_bytes [x] = x) as -> by (cbn; lia).
  destruct (frame.c_take _ _) as [[i c2]|] eqn:E2; [|done]. apply frame.c_take_ok in E2 as (r2 & -> & -> & Hid).
  destruct (Z.eqb_spec x frame.FORM_SYN) as [->|]; [by destruct (frame.c_take _ _) as [[? ?]|]|].
  destruct (Z.eqb_spec x frame.FORM_SYNACK) as [->|].
  - destruct (frame.c_take _ _) as [[e c3]|] eqn:E3; [|done]. apply frame.c_take_ok in E3 as (r3 & -> & -> & He).
    destruct (frame.c_take ED25519_SIG_LEN _) as [[g c4]|] eqn:E4; [|done]. apply frame.c_take_ok in E4 as (r4 & -> & -> & Hg).
    intros [= <- <- <-]. exists r4. unfold frame.build_synack. by rewrite <- !app_assoc.
  - destruct (_ =? _); [|done]. destruct (frame.c_take _ _) as [[? ?]|]; [|done]. by destruct (_ <? _)%nat.
Qed.

(** C4: no client is established without the server's signature: whatever answer
    arrives, the handshake completes only if the data of that answer is a SynAck, and the
    signature the SynAck carries verifies, under the server's public key, over this
    client's ephemeral key, the ephemeral key the SynAck carries and the ConnectionID; the
    keys installed are those of the agreement with exactly that server key. *)
Theorem established_only_if_signed a now c out c' :
  on_answer a now c = (out, c') -> handshake_acked c = false -> handshake_acked c' = true ->
  exists p id se sg more eph ee,
    let t := transcript (client_eph_pub c) se (c_conn_id c) in
    dns.parse_answer a = Ok p /\ dns.a_data p = frame.build_synack id se sg ++ more /\
    length id = CONN_ID_LEN /\ length se = X25519_PUB_LEN /\ length sg = ED25519_SIG_LEN /\
    ed25519_verify (server_pub c) (signed_msg t) sg = true /\
    client_eph c = Some eph /\ agree_ephemeral (private eph) se = Some ee /\
    c_up c' = new_key (cipher (c_cfg c)) (up (derive_session_keys_ecdh ee t)) /\
    c_down c' = new_key (cipher (c_cfg c)) (down (derive_session_keys_ecdh ee t)).
Proof.
  unfold on_answer. destruct (dns.parse_answer a) as [p|]; [|intros [= <- <-]; congruence].
  rewrite (free_slot_fields (dns.a_txn_id p) c). set (o := outstanding _). cbv zeta.
  change (handshake_acked (c <| outstanding := o |>)) with (handshake_acked c).
  intros H Hn Hd. rewrite Hn in H. cbn [negb] in H. revert H.
  assert (handshake_acked (c <| outstanding := o |>) = true -> False) as Hcon by (intros E; cbn in E; congruence).
  destruct (_ =? _)%nat; [intros [= <- <-]; by destruct Hcon|].
  destruct (frame.parse_packet _) as [[| id se sg|]|] eqn:Hpk; try (intros [= <- <-]; by destruct Hcon).
  apply synack_bytes in Hpk as (more & Hmore & Hli & Hls & Hlg).
  intros [= _ <-]. revert Hd. unfold finish_handshake, verify_server_sig, agree, aead_new.
  change (server_pub (c <| outstanding := o |>)) with (server_pub c).
  change (client_eph_pub (c <| outstanding := o |>)) with (client_eph_pub c).
  change (c_conn_id (c <| outstanding := o |>)) with (c_conn_id c). cbv zeta.
  destruct (ed25519_verify _ _ _) eqn:Hv; [|by intros ?%Hcon].
  change (client_eph (c <| outstanding := o |>)) with (client_eph c).
  destruct (client_eph c) as [eph|] eqn:He; [|by intros ?%Hcon].
  destruct (agree_ephemeral (private eph) se) as [ee|] eqn:Ha; cbn [ok_or]; [|by intros ?%Hcon].
  change (c_cfg (c <| outstanding := o |> <| client_eph := None |>)) with (c_cfg c).
  destruct (new_key _ (up _)) as [u|] eqn:Eu; [|by intros ?%Hcon].
  destruct (new_key _ (down _)) as [d|] eqn:Ed; cbn [ok_or]; [|by intros ?%Hcon].
  intros _. exists p, id, se, sg, more, eph, ee. cbv zeta. rewrite Eu, Ed. by split_and!.
Qed.

(** ** Carrying frames *)

(** The kinds that belong to a stream rather than to the session. *)
Definition stream_kind (k : frame.Kind) : bool :=
  match k with frame.Data | frame.Ack | frame.Nack | frame.Fin | frame.Rst => true | _ => false end.

Lemma sealed_bytes key id nonce f wire : bytes_ok id -> bytes_ok nonce -> frame.seal_short key id nonce f = Ok wire -> bytes_ok wire.
Proof.
  intros Hid Hn Hs. apply frame.seal_short_inv in Hs as (ct & Hct & -> & _). cbn [frame.packet_bytes].
  apply Forall_app_2; [by repeat constructor|]. repeat apply Forall_app_2; [done..|]. by eapply seal_bytes.
Qed.

(** an uplink frame sealed by the client reaches the addressed stream of the
    server's session unchanged, whatever case the resolvers gave the name, and the
    query is answered with the session's next downlink frame. *)
Theorem uplink_frame_applied key id nonce f wire t q z edns q' now s r sess sid :
  frame.frame_ok f -> length id = CONN_ID_LEN -> bytes_ok id -> length nonce = NONCE_LEN -> bytes_ok nonce ->
  is_u16 t -> dns.name_ok z -> frame.seal_short key id nonce f = Ok wire -> carried q z edns t wire q' ->
  zone s = z -> bt_get id (sessions s) = Some sess -> ss_up sess = key ->
  stream_kind (frame.kind f) = true -> frame.stream_id f = Some sid ->
  on_query q' now (s, r) =
    answer_downlink q' id now
      (with_session id (with_s_stream sid (arq.on_frame f now)) (with_session id (fun x => x <| last_seen := now |>) s), r).
Proof.
  intros Hf Hid Hidb Hn Hnb Ht Hzn Hs Hc Hz Hg Hk Hsk Hsid.
  pose proof (sealed_bytes _ _ _ _ _ Hidb Hnb Hs) as Hwb.
  destruct (frame.seal_short_open _ _ _ _ _ Hf Hid Hn Hs) as (ct & Hpp & Ho).
  unfold on_query. exec_st. rewrite Hz, (carried_parse _ _ _ _ _ _ Ht Hwb Hzn Hc). cbn [dns.q_data]. rewrite Hpp.
  unfold handle_data, has_session, bt_mem. exec_st. rewrite Hg. cbn [negb]. rewrite Hk, Ho. cbn [ok].
  unfold handle_frame. rewrite Hsid. destruct (frame.kind f); try done; reflexivity.
Qed.

(** a downlink frame sealed by the server reaches the client's dispatch
    unchanged, and the answered query's slot is freed. *)
Theorem downlink_frame_applied key id nonce f wire t q z edns q' data a e now c :
  frame.frame_ok f -> length id = CONN_ID_LEN -> length nonce = NONCE_LEN ->
  is_u16 t -> carried q z edns t data q' -> frame.seal_short key id nonce f = Ok wire ->
  is_u16 (Z.of_nat (length (dns.txt_rdata wire))) -> dns.build_answer q' wire e = Ok a ->
  handshake_acked c = true -> c_down c = Some key ->
  on_answer a now c = on_down_frame f now (free_slot t c).
Proof.
  intros Hf Hid Hn Ht Hc Hs Hl Ha Hh Hd. destruct (frame.seal_short_open _ _ _ _ _ Hf Hid Hn Hs) as (ct & Hpp & Ho).
  unfold on_answer. rewrite (answer_parse _ _ _ _ _ _ _ _ _ Ht Hc Hl Ha). cbn [dns.a_txn_id dns.a_data].
  assert ((length wire =? 0)%nat = false) as ->.
  { apply Nat.eqb_neq. apply frame.seal_short_inv in Hs as (ct' & _ & -> & _). cbn [frame.packet_bytes]. rewrite length_app. cbn. lia. }
  rewrite Hpp, (free_slot_fields t c). cbv zeta. set (o := outstanding _).
  change (handshake_acked (c <| outstanding := o |>)) with (handshake_acked c). rewrite Hh. cbn [negb].
  change (c_down (c <| outstanding := o |>)) with (c_down c). by rewrite Hd, Ho.
Qed.

(** ** Segments always fit their carrier *)

(** a frame whose payload respects the uplink segment size computed for the zone
    can always be sealed and packed into a query name, for every zone that leaves
    room for one payload byte. *)
Theorem uplink_segment_fits key id nonce f t z edns :
  frame.frame_ok f -> length id = CONN_ID_LEN -> bytes_ok id -> length nonce = NONCE_LEN -> bytes_ok nonce ->
  (dns.wire_len z <= dns.MAX_NAME_LEN)%nat ->
  (mtu.wire_overhead + FRAME_HEADER_MAX + 1 <= mtu.max_uplink_wire_bytes (dns.wire_len z))%nat ->
  (length (frame.payload f) <= uplink_segment z)%nat ->
  exists wire q, frame.seal_short key id nonce f = Ok wire /\ dns.build_query t wire z edns = Ok q.
Proof.
  intros Hf Hid Hidb Hn Hnb Hz Hroom Hl. pose proof (frame.length_encode f) as He.
  assert (mtu.max_uplink_wire_bytes (dns.wire_len z) <= 160)%nat as Hub.
  { unfold mtu.max_uplink_wire_bytes, mtu.base32_capacity_bytes, mtu.max_base32_chars, dns.MAX_NAME_LEN. lia. }
  unfold uplink_segment, mtu.max_uplink_payload, FRAME_HEADER_MAX in *.
  destruct (frame.seal_short_ok key id nonce f Hf Hid Hidb Hn Hnb ltac:(lia)) as (wire & Hs & Hwb & Hwl).
  destruct (mtu.build_query_fits t wire z edns Hwb Hz) as [q Hq]; [|by exists wire, q].
  rewrite Hwl. unfold mtu.wire_overhead, mtu.FORM_LEN in *. lia.
Qed.

(** an answer that carries a frame whose payload respects the downlink segment
    size never exceeds the EDNS0 size the configuration advertises. *)
Theorem downlink_segment_fits key id nonce f wire q qend edns a :
  frame.frame_ok f -> length id = CONN_ID_LEN -> length nonce = NONCE_LEN ->
  frame.seal_short key id nonce f = Ok wire -> dns.question_end q = Ok qend ->
  (qend - dns.HEADER_LEN <= WORST_QUESTION)%nat -> 0 <= edns ->
  (mtu.wire_overhead + FRAME_HEADER_MAX + 1 <= mtu.max_downlink_wire_bytes (Z.to_nat edns) WORST_QUESTION)%nat ->
  (length (frame.payload f) <= downlink_segment edns)%nat ->
  dns.build_answer q wire edns = Ok a -> Z.of_nat (length a) <= edns.
Proof.
  intros Hf Hid Hn Hs Hq Hqe He Hroom Hl Ha. pose proof (frame.length_encode f) as Hel.
  rewrite (mtu.length_build_answer _ _ _ _ _ Hq Ha), mtu.length_txt_rdata.
  apply frame.seal_short_inv in Hs as (ct & _ & -> & Hct). cbn [frame.packet_bytes].
  rewrite !length_app, Hid, Hn, Hct. cbn [length].
  unfold downlink_segment, mtu.max_downlink_payload, mtu.wire_overhead, mtu.FORM_LEN, FRAME_HEADER_MAX in *.
  set (n := (1 + (CONN_ID_LEN + (NONCE_LEN + (length (frame.encode f) + TAG_LEN))))%nat).
  assert (n <= mtu.max_downlink_wire_bytes (Z.to_nat edns) WORST_QUESTION)%nat as Hle by (subst n; lia).
  clearbody n. unfold mtu.max_downlink_wire_bytes in *.
  set (raw := (Z.to_nat edns - mtu.answer_envelope_overhead WORST_QUESTION)%nat) in *.
  assert (1 <= raw)%nat as Hr by lia. apply (mtu.downlink_raw n raw Hr) in Hle.
  unfold mtu.answer_envelope_overhead in *. subst raw. lia.
Qed.

(** ** The query budget *)

Abbreviation CM := (St (ClientSession * Rand)).

(** Code that leaves the outstanding queries and the configuration alone. *)
Definition keeps {A} (m : CM A) : Prop :=
  forall st, outstanding (m st).2.1 = outstanding st.1 /\ c_cfg (m st).2.1 = c_cfg st.1.

Lemma keeps_bind {A B} (m : CM A) (k : A -> CM B) : keeps m -> (forall a, keeps (k a)) -> keeps (bind m k).
Proof.
  intros Hm Hk st. unfold bind. destruct (Hm st) as [E1 E2]. destruct (m st) as [[a|] st']; [|done].
  cbn [fst snd] in *. destruct (Hk a st') as [E3 E4]. by rewrite E3, E4.
Qed.
Lemma keeps_ret {A} (a : A) : keeps (ret a). Proof. done. Qed.
Lemma keeps_lift {A} (o : option A) : keeps (lift o). Proof. done. Qed.
Lemma keeps_early {A} : keeps (@early _ A). Proof. done. Qed.
Lemma keeps_client : keeps client. Proof. done. Qed.
Lemma keeps_nonce : keeps draw_nonce.
Proof. intros [c r]. unfold draw_nonce. cbn. by destruct (random_nonce r). Qed.
Lemma keeps_try {A} (m : CM A) : keeps m -> keeps (try_ m).
Proof. intros Hm st. unfold try_. destruct (Hm st). by destruct (m st). Qed.
Lemma keeps_mod f : (forall c, outstanding (f c) = outstanding c /\ c_cfg (f c) = c_cfg c) -> keeps (mod_client f).
Proof. intros H [c r]. apply H. Qed.
#[local] Hint Resolve keeps_ret keeps_lift keeps_early keeps_client keeps_nonce keeps_try : core.

Ltac keeps_tac := repeat (apply keeps_bind; [auto|intros]); auto.

Lemma keeps_seal_up f : keeps (seal_up f).
Proof. unfold seal_up. keeps_tac. Qed.
Lemma keeps_next_txn : keeps next_txn.
Proof. unfold next_txn. apply keeps_bind; [by apply keeps_mod|intros; keeps_tac]. Qed.
Lemma keeps_next_open_syn now : keeps (next_open_syn now).
Proof. unfold next_open_syn. do 3 (apply keeps_bind; [auto|intros]). case_match. do 2 (apply keeps_bind; [auto|intros]).
  apply keeps_bind; [by apply keeps_mod|auto]. Qed.
Lemma keeps_next_stream_frame now : keeps (next_stream_frame now).
Proof.
  unfold next_stream_frame. apply keeps_bind; [auto|intros c]. destruct (rr_next _ _ _ _) as [[o last] m].
  apply keeps_bind; [by apply keeps_mod|auto].
Qed.

Lemma keeps_next_wire now : keeps (next_wire now).
Proof.
  unfold next_wire. apply keeps_bind; [auto|intros c]. case_match; [case_match; auto|].
  apply keeps_bind; [apply keeps_try, keeps_next_open_syn|intros [[sid w]|]; [auto|]].
  apply keeps_bind; [apply keeps_next_stream_frame|intros [f|]].
  - apply keeps_bind; [apply keeps_seal_up|auto].
  - apply keeps_bind; [auto|intros c']. case_match; [|auto]. apply keeps_bind; [apply keeps_seal_up|auto].
Qed.

Definition within_budget (c : ClientSession) : Prop := (length (outstanding c) <= max_query_inflight (c_cfg c))%nat.

Lemma budget_same c c' : outstanding c' = outstanding c -> c_cfg c' = c_cfg c -> within_budget c -> within_budget c'.
Proof. unfold within_budget. by intros -> ->. Qed.

Lemma poll_budget now st : within_budget st.1 -> within_budget (poll_query_tagged now st).2.1.
Proof.
  destruct st as [c r]. cbn [fst]. intros Hb. unfold poll_query_tagged.
  set (c0 := c <| outstanding := filter (fun o => now < o_deadline o) (outstanding c) |>).
  assert (within_budget c0) as Hb0.
  { unfold within_budget in *. pose proof (length_filter (fun o => now < o_deadline o) (outstanding c)). cbn. lia. }
  change (bind (mod_client ?f) ?k (c, r)) with (k tt (c0, r)). cbv beta.
  change (bind client ?k (c0, r)) with (k c0 (c0, r)). cbv beta.
  destruct (Nat.leb_spec (max_query_inflight (c_cfg c0)) (length (outstanding c0))) as [|Hlt]; [done|].
  unfold bind at 1. destruct (keeps_next_wire now (c0, r)) as [E1 E2].
  destruct (next_wire now (c0, r)) as [[[stream wire]|] [c1 r1]]; cbn [fst snd] in *; [|by eapply budget_same].
  unfold bind at 1. destruct (keeps_next_txn (c1, r1)) as [E3 E4].
  destruct (next_txn (c1, r1)) as [[t|] [c2 r2]]; cbn [fst snd] in *; rewrite E1 in E3; rewrite E2 in E4;
    [|by eapply budget_same].
  exec_st. destruct (dns.build_query _ _ _ _); [|by eapply budget_same].
  unfold within_budget. cbn. rewrite length_app, E3, E4. cbn [length]. lia.
Qed.

Lemma length_swap_remove {A} i (l : list A) : (length (swap_remove i l) <= length l)%nat.
Proof. unfold swap_remove. case_match; [|done]. rewrite length_take, length_insert. lia. Qed.

Lemma on_down_frame_fields f now c : outstanding (on_down_frame f now c).2 = outstanding c /\ c_cfg (on_down_frame f now c).2 = c_cfg c.
Proof. unfold on_down_frame. destruct (frame.kind f), (frame.stream_id f); done. Qed.

Lemma finish_handshake_fields se sg c : outstanding (finish_handshake se sg c) = outstanding c /\ c_cfg (finish_handshake se sg c) = c_cfg c.
Proof. unfold finish_handshake. repeat case_match; done. Qed.

Lemma answer_budget a now c : within_budget c -> within_budget (on_answer a now c).2.
Proof.
  unfold within_budget, on_answer. intros Hb. destruct (dns.parse_answer a) as [p|]; [|done].
  set (c0 := free_slot (dns.a_txn_id p) c).
  assert (length (outstanding c0) <= length (outstanding c) /\ c_cfg c0 = c_cfg c)%nat as [H1 H2].
  { unfold c0, free_slot. case_match; [case_match|done]. split; [apply length_swap_remove|done]. }
  clearbody c0. cbv zeta. rewrite <- H2 in Hb.
  repeat case_match; cbn [snd]; try lia.
  - destruct (finish_handshake_fields server_eph sig c0) as [-> ->]. lia.
  - destruct (on_down_frame_fields a2 now c0) as [-> ->]. lia.
Qed.

(** Every public call of the client. *)
Inductive client_call :=
| KPoll (now : Z) | KAnswer (a : bytes) (now : Z) | KOpen (target : bytes) | KWrite (sid : Z) (d : bytes) | KRead (sid : Z)
| KClose (sid : Z) | KReap | KSegment (n : nat) | KProbe (v : Z) | KSetMtu (v : Z).

Definition client_exec (k : client_call) (st : ClientSession * Rand) : ClientSession * Rand :=
  let '(c, r) := st in
  match k with
  | KPoll now => (poll_query_tagged now st).2
  | KAnswer a now => ((on_answer a now c).2, r)
  | KOpen target => match open_stream target c with Some (_, c) => (c, r) | None => (c, r) end
  | KWrite sid d => (write_stream sid d c, r)
  | KRead sid => ((read_stream sid c).2, r)
  | KClose sid => (close_stream sid c, r)
  | KReap => ((reap_closed c).2, r)
  | KSegment n => (set_uplink_segment n c, r)
  | KProbe v => (build_mtu_probe v st).2
  | KSetMtu v => (build_set_mtu v st).2
  end.

Lemma keeps_control k v : keeps (build_control k v).
Proof.
  unfold build_control. apply keeps_bind; [apply keeps_seal_up|intros w]. apply keeps_bind; [apply keeps_next_txn|intros t].
  apply keeps_bind; [auto|intros; auto].
Qed.

Lemma client_exec_budget k st : within_budget st.1 -> within_budget (client_exec k st).1.
Proof.
  destruct st as [c r]. cbn [fst]. intros Hb. destruct k as [now|a now|target|sid d|sid|sid| |n|v|v]; cbn [client_exec fst].
  - by apply (poll_budget now (c, r)).
  - by apply answer_budget.
  - unfold open_stream. destruct (find_sid _ _ _); done.
  - done.
  - unfold read_stream. by case_match.
  - done.
  - done.
  - done.
  - destruct (keeps_control frame.MtuProbe v (c, r)) as [E1 E2]. by eapply budget_same.
  - destruct (keeps_control frame.SetMtu v (c, r)) as [E1 E2]. by eapply budget_same.
Qed.

(** the client never has more DNS queries outstanding than its budget, through
    any sequence of its calls and any answers from the network. *)
Theorem query_budget pub z target cf r0 c r ks :
  client_new pub z target cf r0 = (Ok c, r) ->
  (length (outstanding (fold_left (fun st k => client_exec k st) ks (c, r)).1) <=
   max_query_inflight (c_cfg (fold_left (fun st k => client_exec k st) ks (c, r)).1))%nat.
Proof.
  intros Hn. assert (within_budget c) as Hb.
  { unfold client_new in Hn. destruct (dns.parse z); [|done]. destruct (random_conn_id r0) as [[id|] r1]; [|done].
    destruct (generate r1) as [[e|] r2]; [|done]. injection Hn as <- _. unfold within_budget. cbn. lia. }
  clear Hn. revert c r Hb. induction ks as [|k ks IH]; intros c r Hb; cbn [fold_left]; [exact Hb|].
  apply (client_exec_budget k (c, r)) in Hb. destruct (client_exec k (c, r)) as [c' r']. by apply IH.
Qed.

(** ** StreamIDs *)

Lemma find_sid_Some n m : forall sid x, is_u16 sid -> find_sid n m sid = Some x ->
  is_u16 x /\ x <> 0 /\ x <> PRIMARY_STREAM_ID /\ bt_get x m = None.
Proof.
  induction n as [|n IH]; intros sid x Hs; cbn [find_sid]; [done|].
  destruct (sid =? 0) eqn:E0; cbn [orb]; [apply IH; by apply wrap_fits|].
  destruct (sid =? PRIMARY_STREAM_ID) eqn:E1; cbn [orb]; [apply IH; by apply wrap_fits|].
  destruct (bt_mem sid m) eqn:E2; [apply IH; by apply wrap_fits|]. intros [= <-].
  split_and!; [done|lia|lia|]. unfold bt_mem in E2. by destruct (bt_get sid m).
Qed.

Lemma find_sid_None n m : forall sid, is_u16 sid -> find_sid n m sid = None ->
  forall j, (j < n)%nat -> wrap16 (sid + Z.of_nat j) ∈ 0 :: PRIMARY_STREAM_ID :: bt_keys m.
Proof.
  induction n as [|n IH]; intros sid Hs H j Hj; [lia|]. cbn [find_sid] in H.
  assert (sid ∈ 0 :: PRIMARY_STREAM_ID :: bt_keys m /\ find_sid n m (wrap16 (sid + 1)) = None) as [Hin Hn].
  { destruct (Z.eqb_spec sid 0) as [->|]; cbn [orb] in H; [split; [left|done]|].
    destruct (Z.eqb_spec sid PRIMARY_STREAM_ID) as [->|]; cbn [orb] in H; [split; [right; left|done]|].
    destruct (bt_mem sid m) eqn:E; [|done]. split; [|done]. right; right. unfold bt_mem in E.
    destruct (bt_get sid m) as [v|] eqn:Eg; [|done]. apply bt_get_In in Eg. apply list_elem_of_fmap. by exists (sid, v). }
  destruct j as [|j]; [by rewrite Z.add_0_r, wrap_small|].
  specialize (IH _ (wrap_fits 16 (sid + 1) ltac:(lia)) Hn j ltac:(lia)). rewrite wrap_add_l in IH.
  by replace (sid + Z.of_nat (S j)) with (sid + 1 + Z.of_nat j) by lia.
Qed.

(** The search always finds an id while there is one to find. *)
Lemma find_sid_fresh m sid : is_u16 sid -> Z.of_nat (length m) + 3 <= 2 ^ 16 ->
  exists x, find_sid (length m + 3) m sid = Some x.
Proof.
  intros Hs Hm. destruct (find_sid (length m + 3) m sid) as [x|] eqn:E; [by exists x|exfalso].
  pose proof (find_sid_None _ _ _ Hs E) as Hall.
  enough (length ((fun j => wrap16 (sid + Z.of_nat j)%Z) <$> seq 0 (length m + 3)) <= length (0%Z :: PRIMARY_STREAM_ID :: bt_keys m))%nat as Hle.
  { rewrite length_fmap, length_seq in Hle. cbn [length] in Hle. unfold bt_keys in Hle. rewrite length_fmap in Hle. lia. }
  apply NoDup_incl_length.
  - apply NoDup_ListNoDup, NoDup_fmap_2_strong; [|apply NoDup_seq]. intros i j Hi Hj. apply elem_of_seq in Hi, Hj.
    unfold wrap, fits in *. change (2 ^ 16) with 65536 in *. lia.
  - intros x Hx. apply list_elem_of_In in Hx. apply list_elem_of_In. apply list_elem_of_fmap in Hx as (j & -> & Hj).
    apply elem_of_seq in Hj. apply Hall. lia.
Qed.

(** opening a stream yields a StreamID that is not 0, not the primary one and not
    in use, as long as the 16-bit space has one left; the other streams are untouched. *)
Theorem open_stream_fresh target c :
  is_u16 (next_stream_id c) -> Z.of_nat (length (c_streams c)) + 3 <= 2 ^ 16 ->
  exists sid c', open_stream target c = Some (sid, c') /\ is_u16 sid /\ sid <> 0 /\ sid <> PRIMARY_STREAM_ID /\
    bt_get sid (c_streams c) = None /\
    bt_get sid (c_streams c') = Some (new_client_stream sid (up_arq_cfg c) target) /\
    forall x, x <> sid -> bt_get x (c_streams c') = bt_get x (c_streams c).
Proof.
  intros Hn Hm. destruct (find_sid_fresh (c_streams c) _ Hn Hm) as [sid Hf]. unfold open_stream. rewrite Hf.
  destruct (find_sid_Some _ _ _ _ Hn Hf) as (H1 & H2 & H3 & H4). eexists sid, _. split; [reflexivity|]. cbn.
  split_and!; try done; [apply bt_get_insert|]. intros x Hx. by rewrite bt_get_insert_ne.
Qed.
End Handshake.

(** ** Witnesses: one exchange, step by step *)

Section Witnesses.
Import ring_model.

Definition nil_client : ClientSession :=
  mk_client default_config (dns.mk_name []) [] [] None [] None None (arq_cfg default_config) [] 0 0 false 0 [].
Definition demo_s0 : Server := Eval vm_compute in
  default (mk_server (mk_static demo_key) (dns.mk_name []) default_config []) demo_server.
Definition demo_c0 : ClientSession := Eval vm_compute in
  default nil_client (ok (client_new demo_key demo_zone (lit "target") default_config 5).1).
Definition demo_syn : option bytes * (ClientSession * Rand) := Eval vm_compute in poll_query 1 (demo_c0, 9).
Definition demo_synack : option bytes * (Server * Rand) := Eval vm_compute in on_query (default [] demo_syn.1) 2 (demo_s0, 100).
Definition demo_up : AnswerOutcome * ClientSession := Eval vm_compute in on_answer (default [] demo_synack.1) 3 demo_syn.2.1.

Definition demo_sess : ServerSession := Eval vm_compute in
  default (mk_sess [] [] [] [] 0 0) (bt_get (c_conn_id demo_c0) (sessions demo_synack.2.1)).

Lemma demo_sess_eq : bt_get (c_conn_id demo_c0) (sessions demo_synack.2.1) = Some demo_sess.
Proof. reflexivity. Qed.
Lemma demo_s0_new : server_new demo_key demo_zone default_config = Ok demo_s0.
Proof. reflexivity. Qed.
Lemma demo_c0_new : client_new demo_key demo_zone (lit "target") default_config 5 = (Ok demo_c0, 7).
Proof. reflexivity. Qed.
Lemma demo_syn_eq : poll_query 1 (demo_c0, 9) = demo_syn.
Proof. reflexivity. Qed.
Lemma demo_synack_eq : on_query (default [] demo_syn.1) 2 (demo_s0, 100) = demo_synack.
Proof. reflexivity. Qed.
Lemma demo_up_eq : on_answer (default [] demo_synack.1) 3 demo_syn.2.1 = demo_up.
Proof. reflexivity. Qed.
Lemma same_ci_refl l : Forall2 dns.same_ci l l.
Proof. induction l; constructor; [reflexivity|done]. Qed.
Lemma unmangled q : (dns.HEADER_LEN <= length q)%nat -> exists hdr body body', length hdr = dns.HEADER_LEN /\ q = hdr ++ body /\ q = hdr ++ body' /\
  Forall2 dns.same_ci body body'.
Proof.
  intros H. exists (take dns.HEADER_LEN q), (drop dns.HEADER_LEN q), (drop dns.HEADER_LEN q). rewrite take_drop.
  split_and!; [rewrite length_take; lia|done..|apply same_ci_refl].
Qed.

Lemma handshake_agreement_witness : exists c2 sess, on_answer (default [] demo_synack.1) 3 demo_syn.2.1 = (Consumed, c2) /\
  handshake_acked c2 = true /\ bt_get (c_conn_id demo_c0) (sessions demo_synack.2.1) = Some sess /\
  c_up c2 = Some (ss_up sess) /\ c_down c2 = Some (ss_down sess) /\ outstanding c2 = [].
Proof.
  destruct (client_new_fresh (R:=toy_ring) demo_key demo_zone (lit "target") default_config 5 demo_c0 7 ltac:(decided) demo_c0_new) as [eph Hf].
  apply (handshake_agreement (R:=toy_ring) 1 2 3 demo_c0 eph 9 (default [] demo_syn.1) demo_syn.2 demo_s0 100 (default [] demo_syn.1)
    (default [] demo_synack.1) demo_synack.2 Hf); try reflexivity.
  apply unmangled. vm_compute. lia.
Defined.

Lemma syn_replay_idempotent_witness :
  on_query (default [] demo_syn.1) 9 demo_synack.2 = (Some (default [] demo_synack.1), demo_synack.2).
Proof.
  pose proof (syn_replay_idempotent (R:=toy_ring) (default [] demo_syn.1) 1 (c_conn_id demo_c0) (client_eph_pub demo_c0) 9 demo_synack.2.1 demo_synack.2.2 demo_sess
    eq_refl eq_refl eq_refl demo_sess_eq) as H.
  rewrite <- (surjective_pairing demo_synack.2) in H. rewrite H. reflexivity.
Defined.

Lemma established_only_if_signed_witness : exists p id se sg more,
  dns.parse_answer (default [] demo_synack.1) = Ok p /\ dns.a_data p = frame.build_synack id se sg ++ more /\
  ed25519_verify demo_key (signed_msg (transcript (client_eph_pub demo_c0) se (c_conn_id demo_c0))) sg = true.
Proof.
  destruct (established_only_if_signed (R:=toy_ring) (default [] demo_synack.1) 3 demo_syn.2.1 demo_up.1 demo_up.2 eq_refl eq_refl eq_refl)
    as (p & id & se & sg & more & eph & ee & H1 & H2 & _ & _ & _ & H3 & _). exists p, id, se, sg, more. split; [exact H1|]. split; [exact H2|exact H3].
Defined.

Lemma query_budget_witness :
  (length (outstanding (fold_left (fun st k => client_exec k st) [KPoll 1; KPoll 2; KOpen (lit "b"); KPoll 5000] (demo_c0, 7%Z)).1) <=
   max_query_inflight (c_cfg (fold_left (fun st k => client_exec k st) [KPoll 1; KPoll 2; KOpen (lit "b"); KPoll 5000] (demo_c0, 7%Z)).1))%nat.
Proof. exact (query_budget (R:=toy_ring) demo_key demo_zone (lit "target") default_config 5 demo_c0 7 _ demo_c0_new). Defined.

Lemma open_stream_fresh_witness : exists sid c', open_stream (lit "b") demo_c0 = Some (sid, c') /\ sid <> PRIMARY_STREAM_ID.
Proof.
  destruct (open_stream_fresh (R:=toy_ring) (lit "b") demo_c0) as (sid & c' & H1 & _ & _ & H2 & _); [decided|vm_compute; discriminate|].
  exists sid, c'. split; [exact H1|exact H2].
Defined.
(** A data frame of the primary stream, sealed and packed by hand. *)
Definition demo_frame : frame.Frame := frame.mk_frame frame.Data (Some 1) (Some 0) None None (lit "hello").
Lemma demo_frame_ok : frame.frame_ok demo_frame.
Proof. constructor; cbn; try exact I; decided. Qed.
Definition demo_nonce : bytes := replicate 12 3.
Definition demo_upkey : Aead := ss_up demo_sess.
Definition demo_downkey : Aead := ss_down demo_sess.
Definition demo_wire (key : Aead) : bytes := default [] (ok (frame.seal_short key (c_conn_id demo_c0) demo_nonce demo_frame)).
Definition demo_packed (data : bytes) : bytes := default [] (ok (dns.build_query 77 data (c_zone demo_c0) 1232)).

Lemma demo_carried data : dns.build_query 77 data (c_zone demo_c0) 1232 = Ok (demo_packed data) ->
  (dns.HEADER_LEN <= length (demo_packed data))%nat -> carried (demo_packed data) (c_zone demo_c0) 1232 77 data (demo_packed data).
Proof. intros H1 H2. constructor; [exact H1|by apply unmangled]. Qed.

Lemma demo_zone_ok : dns.name_ok (c_zone demo_c0).
Proof. repeat (constructor; [split; [decided|vm_compute; lia]|]). constructor. Qed.

Lemma uplink_frame_applied_witness : on_query (demo_packed (demo_wire demo_upkey)) 20 demo_synack.2 =
  answer_downlink (demo_packed (demo_wire demo_upkey)) (c_conn_id demo_c0) 20
    (with_session (c_conn_id demo_c0) (with_s_stream 1 (arq.on_frame demo_frame 20))
      (with_session (c_conn_id demo_c0) (fun x => x <| last_seen := 20 |>) demo_synack.2.1), demo_synack.2.2).
Proof.
  apply (uplink_frame_applied (R:=toy_ring) demo_upkey (c_conn_id demo_c0) demo_nonce demo_frame (demo_wire demo_upkey) 77
    (demo_packed (demo_wire demo_upkey)) (c_zone demo_c0) 1232 (demo_packed (demo_wire demo_upkey)) 20 demo_synack.2.1 demo_synack.2.2 demo_sess 1
    demo_frame_ok); try reflexivity; try decided; try exact demo_zone_ok.
  apply demo_carried; [reflexivity|vm_compute; lia].
Defined.

Lemma downlink_frame_applied_witness :
  match dns.build_answer (demo_packed (lit "up")) (demo_wire demo_downkey) 1232 with
  | Ok a => on_answer a 20 demo_up.2 = on_down_frame demo_frame 20 (free_slot 77 demo_up.2)
  | Err _ => False
  end.
Proof.
  destruct (dns.build_answer _ _ _) as [a|] eqn:E; [|vm_compute in E; discriminate E].
  apply (downlink_frame_applied (R:=toy_ring) demo_downkey (c_conn_id demo_c0) demo_nonce demo_frame (demo_wire demo_downkey) 77
    (demo_packed (lit "up")) (c_zone demo_c0) 1232 (demo_packed (lit "up")) (lit "up") a 1232 20 demo_up.2 demo_frame_ok);
    try reflexivity; try decided; [|exact E].
  apply demo_carried; [reflexivity|vm_compute; lia].
Defined.

Lemma uplink_segment_fits_witness : exists wire q,
  frame.seal_short demo_upkey (c_conn_id demo_c0) demo_nonce demo_frame = Ok wire /\ dns.build_query 77 wire (c_zone demo_c0) 1232 = Ok q.
Proof.
  apply (uplink_segment_fits (R:=toy_ring) demo_upkey (c_conn_id demo_c0) demo_nonce demo_frame 77 (c_zone demo_c0) 1232 demo_frame_ok);
    try reflexivity; try decided.
Defined.

Lemma downlink_segment_fits_witness :
  match dns.build_answer (demo_packed (lit "up")) (demo_wire demo_downkey) 1232 with
  | Ok a => Z.of_nat (length a) <= 1232
  | Err _ => False
  end.
Proof.
  destruct (dns.build_answer _ _ _) as [a|] eqn:E; [|vm_compute in E; discriminate E].
  apply (downlink_segment_fits (R:=toy_ring) demo_downkey (c_conn_id demo_c0) demo_nonce demo_frame (demo_wire demo_downkey)
    (demo_packed (lit "up")) (length (demo_packed (lit "up")) - 11) 1232 a demo_frame_ok); try reflexivity; try decided; exact E.
Defined.
End Witnesses.
End session_props.
