(* ===== verification/SessionServer.v ===== *)
(** The server's bookkeeping of sessions and streams: the maps stay well formed, a
    stream's target is handed out once, idle sessions are the ones swept. *)

From S2P Require Import Prelude BTree RustStr Digits F64 TunnelCrypto RingModel TunnelFrame TunnelDns TunnelMtu TunnelArq SessionBase TunnelSession SessionProps.

Module session_server.
Import crypto session session_props.
Import (hints) frame arq.

Section Server.
Context {R : Ring} {RL : RingLaws R}.

Abbreviation SM := (St (Server * Rand)).

(** The representation invariant: both levels of maps are ascending. *)
Definition server_sorted (s : Server) : Prop :=
  bt_sorted (sessions s) /\ forall id x, bt_get id (sessions s) = Some x -> bt_sorted (streams x).

(** What every call keeps: the invariant; and a stream whose target was handed out
    stays, and stays handed out. *)
Definition dial_mono (s s' : Server) : Prop :=
  (server_sorted s -> server_sorted s') /\ forall id sid st, server_stream id sid s = Some st -> dialed st = true ->
    exists st', server_stream id sid s' = Some st' /\ dialed st' = true.

#[export] Instance dial_mono_preorder : PreOrder dial_mono.
Proof.
  split; [intros s; split; eauto|]. intros s1 s2 s3 [Hs1 H1] [Hs2 H2]. split; [tauto|].
  intros id sid st Hg Hd. destruct (H1 _ _ _ Hg Hd) as (st' & Hg' & Hd'). eauto.
Qed.
Lemma dial_mono_refl s : dial_mono s s.
Proof. reflexivity. Qed.
Lemma dial_mono_trans s1 s2 s3 : dial_mono s1 s2 -> dial_mono s2 s3 -> dial_mono s1 s3.
Proof. apply transitivity. Qed.

(** Updates of one session that keep its order and its dialed streams. *)
Definition sess_mono (x x' : ServerSession) : Prop :=
  (bt_sorted (streams x) -> bt_sorted (streams x')) /\ forall sid st, bt_get sid (streams x) = Some st -> dialed st = true ->
    exists st', bt_get sid (streams x') = Some st' /\ dialed st' = true.

(** Replacing the sessions' map entry by entry. *)
Lemma sessions_mono s s' : (bt_sorted (sessions s) -> bt_sorted (sessions s')) ->
  (forall id x', bt_get id (sessions s') = Some x' -> bt_sorted (streams x') \/
     exists x, bt_get id (sessions s) = Some x /\ sess_mono x x') ->
  (forall id x, bt_get id (sessions s) = Some x -> is_Some (bt_get id (sessions s'))) ->
  (forall id x x', bt_get id (sessions s) = Some x -> bt_get id (sessions s') = Some x' -> sess_mono x x') ->
  dial_mono s s'.
Proof.
  intros Hk Hs Hd Hm. split.
  - intros [H1 H2]. split; [auto|]. intros id x' Hx'. destruct (Hs _ _ Hx') as [|(x & Hx & Hxx & _)]; eauto.
  - intros id sid st Hg Hdl. unfold server_stream in *. destruct (bt_get id (sessions s)) as [x|] eqn:Hx; [|done].
    destruct (Hd _ _ Hx) as [x' Hx']. rewrite Hx'. destruct (Hm _ _ _ Hx Hx') as [_ Hm']. by eapply Hm'.
Qed.

Lemma with_session_mono' id f s : (forall x, bt_get id (sessions s) = Some x -> sess_mono x (f x)) ->
  dial_mono s (with_session id f s).
Proof.
  intros Hf. apply sessions_mono; unfold with_session; cbn; [auto using bt_sorted_alter| | |]; intros id' x.
  - intros Hx. destruct (decide (id = id')) as [<-|Hne].
    + rewrite bt_get_alter in Hx. destruct (bt_get id (sessions s)) as [y|]; [|done]. apply (inj Some) in Hx as <-. right. eauto.
    + rewrite bt_get_alter_ne in Hx by done. right. exists x. split; [done|]. split; eauto.
  - intros Hx. destruct (decide (id = id')) as [<-|Hne]; [rewrite bt_get_alter, Hx|rewrite bt_get_alter_ne, Hx by done]; by eexists.
  - intros x' Hx. destruct (decide (id = id')) as [<-|Hne].
    + rewrite bt_get_alter, Hx. intros Hx'. apply (inj Some) in Hx' as <-. auto.
    + rewrite bt_get_alter_ne, Hx by done. intros [= <-]. split; eauto.
Qed.
Lemma with_session_mono id f s : (forall x, sess_mono x (f x)) -> dial_mono s (with_session id f s).
Proof. intros. by apply with_session_mono'. Qed.

Lemma bt_get_map {V W} (g : V -> W) k (m : list (Z * V)) : bt_get k (prod_map Datatypes.id g <$> m) = g <$> bt_get k m.
Proof. induction m as [|[k' v] m IH]; [done|]. cbn. cbn in IH. destruct (k ?= k'); [done|exact IH..]. Qed.
Lemma bt_sorted_map {V W} (g : V -> W) (m : list (Z * V)) : bt_sorted m -> bt_sorted (prod_map Datatypes.id g <$> m).
Proof.
  unfold bt_sorted. induction 1 as [|[k v] m Hs IH Hlt]; cbn; constructor; [done|].
  apply Forall_fmap. eapply Forall_impl; [|exact Hlt]. done.
Qed.

Lemma sess_mono_stream sid f x : sess_mono x (with_s_stream sid f x).
Proof.
  split; [apply bt_sorted_alter|]. intros sid' st Hg Hd. cbn. destruct (decide (sid = sid')) as [<-|].
  - rewrite bt_get_alter, Hg. cbn. by eexists.
  - rewrite bt_get_alter_ne by done. eauto.
Qed.
Lemma sess_mono_resize n x : sess_mono x (resize_streams n x).
Proof. split; [apply bt_sorted_map|]. intros sid st Hg Hd. cbn. rewrite bt_get_map, Hg. by eexists. Qed.

Lemma rr_poll_mono now ids : forall (m : list (Z * ServerStream)) sid st, bt_get sid m = Some st -> dialed st = true ->
  exists st', bt_get sid (rr_poll (fun _ => true) (poll_s_stream now) ids m).2 = Some st' /\ dialed st' = true.
Proof.
  induction ids as [|x ids IH]; intros m sid st Hg Hd; cbn [rr_poll]; [eauto|].
  destruct (bt_get x m) as [sx|] eqn:Ex; [|eauto].
  destruct (poll_s_stream now sx) as [o sx'] eqn:Ep.
  assert (dialed sx' = dialed sx) as Hd'.
  { unfold poll_s_stream in Ep. destruct (arq.poll_transmit now (s_stream sx)). by injection Ep as <- <-. }
  assert (exists st', bt_get sid (bt_insert x sx' m) = Some st' /\ dialed st' = true) as (st' & Hg' & Hd2).
  { destruct (decide (x = sid)) as [<-|]; [rewrite bt_get_insert; exists sx'; split; [done|congruence]|].
    rewrite bt_get_insert_ne by done. eauto. }
  destruct o; cbn [snd]; [eauto|]. by eapply IH.
Qed.
Lemma rr_poll_sorted now ids : forall m : list (Z * ServerStream), bt_sorted m ->
  bt_sorted (rr_poll (fun _ => true) (poll_s_stream now) ids m).2.
Proof.
  induction ids as [|x ids IH]; intros m Hs; cbn [rr_poll]; [done|].
  destruct (bt_get x m) as [sx|]; [|by apply IH]. destruct (poll_s_stream now sx) as [[f|] sx'];
    [|apply IH]; by apply bt_sorted_insert.
Qed.

Lemma sess_mono_poll now x : sess_mono x (poll_downlink now x).2.
Proof.
  unfold poll_downlink, rr_next. set (ids := rr_order _ _). split.
  - intros Hs. pose proof (rr_poll_sorted now ids _ Hs). destruct (rr_poll _ _ _ _) as [[[y f]|] m']; done.
  - intros sid st Hg Hd. destruct (rr_poll_mono now ids (streams x) sid st Hg Hd) as (st' & Hg' & Hd').
    destruct (rr_poll _ _ _ _) as [[[y f]|] m']; cbn in *; eauto.
Qed.

(** Code of the server that keeps the dialed streams. *)
Definition dials {A} (m : SM A) : Prop := forall st, dial_mono st.1 (m st).2.1.

Lemma dials_bind {A B} (m : SM A) (k : A -> SM B) : dials m -> (forall a, dials (k a)) -> dials (bind m k).
Proof.
  intros Hm Hk st. unfold bind. pose proof (Hm st) as H. destruct (m st) as [[a|] st']; [|done].
  cbn [fst snd] in *. eapply dial_mono_trans; [exact H|apply Hk].
Qed.
Lemma dials_same {A} (m : SM A) : (forall st, (m st).2.1 = st.1) -> dials m.
Proof. intros H st. rewrite H. apply dial_mono_refl. Qed.
Lemma dials_mod f : (forall s, dial_mono s (f s)) -> dials (mod_server f).
Proof. intros H [s r]. apply H. Qed.
Lemma dials_nonce : dials draw_nonce.
Proof. apply dials_same. intros [s r]. unfold draw_nonce. cbn. by destruct (random_nonce r). Qed.
Lemma dials_answer q d : dials (answer q d). Proof. by apply dials_same. Qed.
Lemma dials_nodata q : dials (nodata q). Proof. by apply dials_same. Qed.
Lemma dials_server : dials server. Proof. by apply dials_same. Qed.
Lemma dials_lift {A} (o : option A) : dials (lift o). Proof. by apply dials_same. Qed.
Lemma dials_ret {A} (a : A) : dials (ret a). Proof. by apply dials_same. Qed.
#[local] Hint Resolve dials_nonce dials_answer dials_nodata dials_server dials_lift dials_ret : core.

Lemma dials_answer_frame q id f : dials (answer_frame q id f).
Proof. unfold answer_frame. repeat (apply dials_bind; [auto|intros]). auto. Qed.

Lemma open_server_stream_mono id sid target s : dial_mono s (open_server_stream id sid target s).
Proof.
  unfold open_server_stream. destruct (bool_decide _) eqn:E; [apply dial_mono_refl|]. apply bool_decide_eq_false in E.
  apply with_session_mono'. intros x Hx. split; [apply bt_sorted_insert|]. intros sid' st Hg Hd. exists st. split; [|done].
  cbn. rewrite bt_get_insert_ne; [done|]. intros ->. apply E. unfold streams_of. rewrite Hx.
  apply bt_get_In in Hg. apply list_elem_of_fmap. by exists (sid', st).
Qed.

Lemma dials_handle_frame q id f now : dials (handle_frame q id f now).
Proof.
  unfold handle_frame. destruct (frame.kind f); auto; try (destruct (frame.stream_id f); [|auto]).
  all: apply dials_bind; [apply dials_mod; intros s|intros; auto]; try (by apply dial_mono_refl).
  all: try apply open_server_stream_mono; try (apply with_session_mono, sess_mono_stream).
  all: destruct (read_u16 _); [apply with_session_mono, sess_mono_resize|apply dial_mono_refl].
Qed.

Lemma dials_answer_downlink q id now : dials (answer_downlink q id now).
Proof.
  intros [s r]. unfold answer_downlink, draw_nonce. exec_st.
  destruct (bt_get id (sessions s)) as [x|] eqn:Hx; [|apply dial_mono_refl].
  pose proof (sess_mono_poll now x) as Hp. destruct (poll_downlink now x) as [o x'].
  assert (dial_mono s (with_session id (fun _ => x') s)) as Hm.
  { apply with_session_mono'. intros y Hy. rewrite Hx in Hy. by injection Hy as <-. }
  destruct o as [f|]; [|exact Hm]. destruct (random_nonce r) as [[n|] r']; [|exact Hm].
  destruct (frame.seal_short _ _ _ _); exact Hm.
Qed.

(** The immediate answers of [handle_frame]. *)
Lemma handle_frame_reply q id f now st m : (handle_frame q id f now st).1 = Some (Some m) -> dials m.
Proof.
  unfold handle_frame. destruct (frame.kind f), (frame.stream_id f); try (cbn; congruence);
    intros [= <-]; apply dials_answer_frame.
Qed.

Lemma dials_handle_data q id nonce ct now : dials (handle_data q id nonce ct now).
Proof.
  unfold handle_data. apply dials_bind; [auto|intros s]. destruct (has_session id s); cbn [negb]; [|auto].
  apply dials_bind; [auto|intros x]. apply dials_bind.
  { apply dials_mod. intros s'. apply with_session_mono. intros y. split; eauto. }
  intros _ st. destruct (ok (frame.open_frame _ _ _)) as [f|]; [|apply dials_answer_downlink].
  unfold bind. pose proof (dials_handle_frame q id f now st) as H1. pose proof (handle_frame_reply q id f now st) as H2.
  destruct (handle_frame q id f now st) as [[[m|]|] st']; cbn [fst snd] in *; [| |exact H1].
  - eapply dial_mono_trans; [exact H1|]. by apply H2.
  - eapply dial_mono_trans; [exact H1|]. apply dials_answer_downlink.
Qed.

Lemma dials_handle_syn q id eph now : dials (handle_syn q id eph now).
Proof.
  intros [s r]. unfold handle_syn, draw_ephemeral. exec_st.
  destruct (bt_get id (sessions s)) as [x|] eqn:Hx; [apply dial_mono_refl|].
  destruct (generate r) as [[se|] r']; [|apply dial_mono_refl].
  destruct (agree se eph) as [ee|]; [|apply dial_mono_refl].
  destruct (aead_new _ (up _)); [|apply dial_mono_refl]. destruct (aead_new _ (down _)); [|apply dial_mono_refl].
  apply sessions_mono; cbn; [apply bt_sorted_insert| | |]; intros id' x.
  all: destruct (decide (id = id')) as [<-|Hne]; [rewrite ?bt_get_insert, ?Hx|rewrite ?bt_get_insert_ne by done].
  - intros [= <-]. left. constructor.
  - intros ?. right. exists x. split; [done|]. split; eauto.
  - done.
  - eauto.
  - done.
  - intros x' -> [= ->]. split; eauto.
Qed.

Lemma dials_on_query q now : dials (on_query q now).
Proof.
  unfold on_query. apply dials_bind; [auto|intros s].
  destruct (dns.parse_query q (zone s)) as [p|[]]; auto.
  destruct (frame.parse_packet _) as [[]|]; auto; [apply dials_handle_syn|apply dials_handle_data].
Qed.

(** ** The server's whole interface *)

Inductive Call :=
  | Query (q : bytes) (now : Z)
  | OpenTargets (id : bytes)
  | Deliver (id : bytes) (sid : Z) (data : bytes)
  | Take (id : bytes) (sid : Z)
  | CloseStream (id : bytes) (sid : Z)
  | Remove (id : bytes)
  | Sweep (now idle_ms : Z).

Definition do_call (st : Server * Rand) (c : Call) : Server * Rand :=
  match c with
  | Query q now => (on_query q now st).2
  | OpenTargets id => ((open_targets id st.1).2, st.2)
  | Deliver id sid data => (deliver_to_client id sid data st.1, st.2)
  | Take id sid => ((take_from_client id sid st.1).2, st.2)
  | CloseStream id sid => (server_close_stream id sid st.1, st.2)
  | Remove id => (remove_session id st.1, st.2)
  | Sweep now idle => ((sweep_idle now idle st.1).2, st.2)
  end.
Definition do_calls (cs : list Call) (st : Server * Rand) : Server * Rand := fold_left do_call cs st.

(** Calls that drop no session. *)
Definition keeps_sessions (c : Call) : bool := match c with Remove _ | Sweep _ _ => false | _ => true end.

Lemma open_targets_mono id s : dial_mono s (open_targets id s).2.
Proof.
  unfold open_targets. destruct (bt_get id (sessions s)) as [x|]; [|apply dial_mono_refl]. cbn [snd].
  apply with_session_mono. intros y. split; [apply bt_sorted_map|]. intros sid st Hg Hd. cbn. rewrite bt_get_map, Hg. by eexists.
Qed.

Lemma open_targets_dialed id s sid st : server_stream id sid s = Some st ->
  exists st', server_stream id sid (open_targets id s).2 = Some st' /\ dialed st' = true.
Proof.
  unfold server_stream, open_targets. destruct (bt_get id (sessions s)) as [x|] eqn:Hx; [|done]. cbn. intros Hg.
  rewrite bt_get_alter, Hx. cbn. rewrite bt_get_map, Hg. by eexists.
Qed.

Lemma do_call_mono st c : keeps_sessions c = true -> dial_mono st.1 (do_call st c).1.
Proof.
  destruct c; intros H; try done; cbn [do_call fst].
  - apply dials_on_query.
  - apply open_targets_mono.
  - apply with_session_mono, sess_mono_stream.
  - unfold take_from_client. destruct (server_stream _ _ _); [apply with_session_mono, sess_mono_stream|apply dial_mono_refl].
  - apply with_session_mono, sess_mono_stream.
Qed.

Lemma remove_sorted id s : server_sorted s -> server_sorted (remove_session id s).
Proof.
  intros [H1 H2]. split; [by apply bt_sorted_remove|]. intros id' x Hx. cbn in Hx.
  destruct (decide (id = id')) as [<-|]; [by rewrite bt_get_remove in Hx|]. rewrite bt_get_remove_ne in Hx by done. eauto.
Qed.

(** The loop of removals of [sweep_idle]. *)
Lemma remove_all ids : forall s, fold_left (fun m id => bt_remove id m) ids (sessions s) =
  sessions (fold_left (fun s id => remove_session id s) ids s).
Proof. induction ids as [|id ids IH]; intros s; [done|]. cbn. by rewrite <- IH. Qed.
Lemma remove_all_sorted ids : forall s, server_sorted s -> server_sorted (fold_left (fun s id => remove_session id s) ids s).
Proof. induction ids as [|id ids IH]; intros s Hs; [done|]. apply IH. by apply remove_sorted. Qed.
Lemma remove_all_get ids id : forall m : list (bytes * ServerSession),
  bt_get id (fold_left (fun m id => bt_remove id m) ids m) = if bool_decide (id ∈ ids) then None else bt_get id m.
Proof.
  induction ids as [|i ids IH]; intros m; [done|]. cbn. rewrite IH.
  destruct (decide (i = id)) as [<-|Hne].
  - rewrite (bool_decide_eq_true_2 (i ∈ i :: ids)) by left. rewrite bt_get_remove. by case_bool_decide.
  - rewrite bt_get_remove_ne by done. erewrite bool_decide_ext; [reflexivity|]. rewrite elem_of_cons. intuition congruence.
Qed.

Lemma do_call_sorted st c : server_sorted st.1 -> server_sorted (do_call st c).1.
Proof.
  destruct (keeps_sessions c) eqn:Hk; [apply (do_call_mono st c Hk)|]. destruct c; try done; cbn [do_call fst].
  - apply remove_sorted.
  - intros Hs. unfold sweep_idle. cbn [snd]. rewrite remove_all.
    destruct (remove_all_sorted ((filter (fun p => idle_ms <= sat_sub now (last_seen p.2)) (sessions st.1)).*1) _ Hs). done.
Qed.

Lemma do_calls_sorted cs : forall st, server_sorted st.1 -> server_sorted (do_calls cs st).1.
Proof. induction cs as [|c cs IH]; intros st Hs; [done|]. apply IH. by apply do_call_sorted. Qed.
Lemma do_calls_mono cs : Forall (fun c => keeps_sessions c = true) cs -> forall st, dial_mono st.1 (do_calls cs st).1.
Proof.
  induction 1 as [|c cs Hc _ IH]; intros st; [apply dial_mono_refl|].
  eapply dial_mono_trans; [by apply do_call_mono|]. apply IH.
Qed.
Lemma server_new_sorted k z c s : server_new k z c = Ok s -> server_sorted s.
Proof.
  unfold server_new. destruct (from_pkcs8 k); [|done]. destruct (dns.parse z); [|done]. intros [= <-]. split; [constructor|done].
Qed.

(** the server hands out each stream's target once.  In a server reached from
    [server_new] by any calls, once [open_targets] has covered a stream, it is never
    reported again, whatever queries (retransmitted opens included) and calls follow
    that do not drop its session. *)
Theorem target_handed_out_once k z c s0 r0 cs id sid st cs' :
  server_new k z c = Ok s0 -> server_stream id sid (do_calls cs (s0, r0)).1 = Some st ->
  Forall (fun c => keeps_sessions c = true) cs' ->
  sid ∉ (open_targets id (do_calls cs' (do_call (do_calls cs (s0, r0)) (OpenTargets id))).1).1.*1.
Proof.
  intros Hn Hg Hk. pose proof (do_calls_sorted cs (s0, r0) (server_new_sorted _ _ _ _ Hn)) as Hs.
  set (st1 := do_calls cs (s0, r0)) in *. destruct (open_targets_dialed id st1.1 sid st Hg) as (st2 & Hg2 & Hd2).
  destruct (do_calls_mono cs' Hk (do_call st1 (OpenTargets id))) as [Hs' Hm]. destruct (Hm _ _ _ Hg2 Hd2) as (st3 & Hg3 & Hd3).
  destruct Hs' as [_ Hs']; [by apply do_call_sorted|]. set (s' := (do_calls cs' _).1) in *. clearbody s'.
  unfold server_stream, open_targets in *. destruct (bt_get id (sessions s')) as [x|] eqn:Hx; [|done]. cbn [fst].
  rewrite <- list_fmap_compose. intros Hin. apply list_elem_of_fmap in Hin as ([k' st4] & -> & Hin).
  apply list_elem_of_filter in Hin as [Hdd Hin]. cbn in *. apply bt_In_get in Hin; [congruence|eauto].
Qed.

(** [sweep_idle] drops exactly the sessions that have been silent for [idle_ms],
    reports exactly those, and leaves the others as they are. *)
Theorem sweep_idle_exact k z c s0 r0 cs now idle id :
  server_new k z c = Ok s0 ->
  let s := (do_calls cs (s0, r0)).1 in let '(swept, s') := sweep_idle now idle s in
  (id ∈ swept <-> exists x, bt_get id (sessions s) = Some x /\ idle <= sat_sub now (last_seen x)) /\
  bt_get id (sessions s') = (let! x := bt_get id (sessions s) in
    if idle <=? sat_sub now (last_seen x) then None else Some x).
Proof.
  intros Hn s. destruct (do_calls_sorted cs (s0, r0) (server_new_sorted _ _ _ _ Hn)) as [Hs _]. fold s in Hs. clearbody s.
  unfold sweep_idle. cbn [sessions]. set (stale := (filter _ _).*1).
  assert (id ∈ stale <-> exists x, bt_get id (sessions s) = Some x /\ idle <= sat_sub now (last_seen x)) as Hst.
  { unfold stale. rewrite list_elem_of_fmap. split.
    - intros ([i x] & -> & Hin). apply list_elem_of_filter in Hin as [Hi Hin]. apply bt_In_get in Hin; eauto.
    - intros (x & Hx & Hi). exists (id, x). split; [done|]. apply list_elem_of_filter. split; [done|by apply bt_get_In]. }
  split; [exact Hst|]. transitivity (if bool_decide (id ∈ stale) then None else bt_get id (sessions s)); [apply remove_all_get|].
  case_bool_decide as Hd.
  - apply Hst in Hd as (x & -> & Hi). by rewrite (proj2 (Z.leb_le _ _) Hi).
  - destruct (bt_get id (sessions s)) as [x|]; [|done]. destruct (Z.leb_spec idle (sat_sub now (last_seen x))); [|done].
    exfalso. apply Hd, Hst. eauto.
Qed.
End Server.

(** ** Witnesses on the demo exchange *)

Section Witnesses.
Import ring_model.
(** The query the client sends after [n] rounds. *)
Definition demo_query (n : nat) : bytes :=
  default [] (let! st := demo_state in let '(c, s) := Nat.iter n (round 1) st in (poll_query 1 c).1).
Definition demo_id : bytes := default [] (let! st := demo_state in Some (c_conn_id st.1.1)).
Definition demo_opened : list Call := Eval vm_compute in [Query (demo_query 0) 1; Query (demo_query 1) 1].
Definition demo_more : list Call := Eval vm_compute in [Query (demo_query 1) 2; Query (demo_query 2) 3; Take demo_id 1].

Lemma demo_opened_has : is_Some (server_stream demo_id 1 (do_calls demo_opened (demo_s0, 100)).1).
Proof. apply is_Some_alt. vm_compute. exact I. Qed.
Lemma demo_opened_seen : exists x, bt_get demo_id (sessions (do_calls demo_opened (demo_s0, 100)).1) = Some x /\ 40 <= sat_sub 50 (last_seen x).
Proof.
  assert (match bt_get demo_id (sessions (do_calls demo_opened (demo_s0, 100)).1) with
          | Some x => 40 <=? sat_sub 50 (last_seen x) | None => false end = true) as H by (vm_compute; reflexivity).
  destruct (bt_get demo_id _) as [x|]; [|discriminate]. exists x. split; [reflexivity|]. by apply Z.leb_le.
Qed.

Lemma target_handed_out_once_witness :
  1 ∉ (open_targets demo_id (do_calls demo_more (do_call (do_calls demo_opened (demo_s0, 100)) (OpenTargets demo_id))).1).1.*1.
Proof.
  destruct demo_opened_has as [st E].
  refine (target_handed_out_once demo_key demo_zone default_config demo_s0 100 demo_opened demo_id 1 st demo_more demo_s0_new E _).
  repeat (constructor; [reflexivity|]). constructor.
Defined.

Lemma sweep_idle_exact_witness :
  demo_id ∈ (sweep_idle 50 40 (do_calls demo_opened (demo_s0, 100)).1).1.
Proof.
  pose proof (sweep_idle_exact demo_key demo_zone default_config demo_s0 100 demo_opened 50 40 demo_id demo_s0_new) as H.
  cbv zeta in H. destruct (sweep_idle 50 40 _) as [swept s']. apply (proj1 H). exact demo_opened_seen.
Defined.
End Witnesses.
End session_server.
