(* ===== verification/NetAddr.v ===== *)
(** Addresses as the packet code sees them: [std::net::IpAddr] and [SocketAddr] built
    by [SocketAddr::new] (no IPv6 flow label or scope), with the address classes the
    gateway tests. *)

From S2P Require Import Prelude.

Module net.

Inductive IpAddr := V4 (octets : bytes) | V6 (octets : bytes).
#[export] Instance IpAddr_eq_dec : EqDecision IpAddr.
Proof. solve_decision. Defined.
#[export] Instance IpAddr_countable : Countable IpAddr.
Proof.
  refine (inj_countable' (fun a => match a with V4 o => inl o | V6 o => inr o end)
    (fun s => match s with inl o => V4 o | inr o => V6 o end) _); by intros [].
Defined.

Record SocketAddr := mk_sock { ip : IpAddr; port : Z }.
#[export] Instance SocketAddr_eq_dec : EqDecision SocketAddr.
Proof. solve_decision. Defined.
#[export] Instance SocketAddr_countable : Countable SocketAddr.
Proof. refine (inj_countable' (fun s => (ip s, port s)) (fun p => mk_sock p.1 p.2) _); by intros []. Defined.

Definition octets (a : IpAddr) : bytes := match a with V4 o | V6 o => o end.
Definition is_v6 (a : IpAddr) : bool := match a with V4 _ => false | V6 _ => true end.
Definition is_ipv6 (s : SocketAddr) : bool := is_v6 (ip s).

Definition ip_ok (a : IpAddr) : Prop :=
  bytes_ok (octets a) /\ length (octets a) = match a with V4 _ => 4%nat | V6 _ => 16%nat end.
Definition sock_ok (s : SocketAddr) : Prop := ip_ok (ip s) /\ is_u16 (port s).
#[export] Instance ip_ok_dec a : Decision (ip_ok a).
Proof. unfold ip_ok. apply _. Defined.
#[export] Instance sock_ok_dec s : Decision (sock_ok s).
Proof. unfold sock_ok. apply _. Defined.

(** ** Address classes *)

Definition is_loopback (a : IpAddr) : bool :=
  match a with
  | V4 o => bool_decide (head o = Some 127)
  | V6 o => bool_decide (o = replicate 15 0 ++ [1])
  end.
Definition is_multicast (a : IpAddr) : bool :=
  match a with
  | V4 o => match head o with Some b => (224 <=? b) && (b <=? 239) | None => false end
  | V6 o => bool_decide (head o = Some 0xff)
  end.
Definition is_unspecified (a : IpAddr) : bool :=
  match a with V4 o => bool_decide (o = replicate 4 0) | V6 o => bool_decide (o = replicate 16 0) end.
(** [Ipv4Addr::is_broadcast], [Ipv4Addr::is_link_local]; for IPv6 the [fe80::/10] test. *)
Definition is_broadcast (a : IpAddr) : bool := match a with V4 o => bool_decide (o = replicate 4 255) | V6 _ => false end.
Definition is_link_local (a : IpAddr) : bool :=
  match a with
  | V4 o => bool_decide (take 2 o = [169; 254])
  | V6 o => Z.land (from_be_bytes (take 2 o)) 0xffc0 =? 0xfe80
  end.
End net.
