(* ===== verification/Checksum.v ===== *)
(** The internet checksum (RFC 1071) as [netstack/system/rewrite.rs] and
    [packet/mod.rs] compute it, with its one's-complement algebra: folding is
    reduction modulo 65535, and the incremental update of RFC 1624 agrees with
    recomputation. *)

From S2P Require Import Prelude.

Module checksum.

(** Accumulate the 16-bit words of [data] into a [u32]; an odd byte at the end is the
    high byte of a last word. *)
Fixpoint sum16 (data : bytes) (acc : Z) : Z :=
  match data with
  | a :: b :: data' => sum16 data' (wrap32 (acc + from_be_bytes [a; b]))
  | [last] => wrap32 (acc + Z.shiftl last 8)
  | [] => acc
  end.

(** The fold loop; on a [u32] two rounds reach 16 bits ([fold_loop_enough]). *)
Fixpoint fold_loop (fuel : nat) (acc : Z) : Z :=
  match fuel with
  | O => acc
  | S fuel => if Z.shiftr acc 16 =? 0 then acc else fold_loop fuel (Z.land acc 0xffff + Z.shiftr acc 16)
  end.
Definition fold (acc : Z) : Z := wrap16 (fold_loop 2 acc).

(** [!x] on a [u16]. *)
Definition not16 (x : Z) : Z := 65535 - x.
Definition checksum (data : bytes) (init : Z) : Z := not16 (fold (sum16 data init)).

Definition csum_replace_word (csum old new : Z) : Z := not16 (fold (not16 csum + not16 old + new)).
Fixpoint csum_replace (csum : Z) (old new : bytes) : Z :=
  match old, new with
  | o1 :: o2 :: old', n1 :: n2 :: new' =>
      csum_replace (csum_replace_word csum (from_be_bytes [o1; o2]) (from_be_bytes [n1; n2])) old' new'
  | _, _ => csum
  end.

(** ** Folding *)

Lemma fold_step acc : 0 <= acc -> Z.land acc 0xffff + Z.shiftr acc 16 = acc mod 65536 + acc / 65536.
Proof. intros. change 0xffff with (2 ^ 16 - 1). rewrite land_mask, shiftr_div by lia. done. Qed.

(** Two rounds bring a [u32] to 16 bits: the loop of the source ends there. *)
Lemma fold_loop_enough acc : is_u32 acc -> 0 <= fold_loop 2 acc < 65536 /\ Z.shiftr (fold_loop 2 acc) 16 = 0.
Proof.
  unfold fits. change (2 ^ 32) with 4294967296. intros Ha. cbn [fold_loop]. rewrite !shiftr_div by lia. change (2 ^ 16) with 65536.
  destruct (Z.eqb_spec (acc / 65536) 0); [lia|]. change 0xffff with (2 ^ 16 - 1). rewrite !land_mask by lia. change (2 ^ 16) with 65536.
  destruct (Z.eqb_spec ((acc mod 65536 + acc / 65536) / 65536) 0); lia.
Qed.

(** The folded value: the residue modulo 65535, with 65535 instead of 0 unless the sum is 0. *)
Lemma fold_spec acc : is_u32 acc -> fold acc = if acc =? 0 then 0 else (acc - 1) mod 65535 + 1.
Proof.
  intros Ha. destruct (fold_loop_enough acc Ha) as [Hb _]. unfold fold. rewrite wrap_small by exact Hb. clear Hb.
  unfold fits in Ha. change (2 ^ 32) with 4294967296 in Ha. cbn [fold_loop]. rewrite !shiftr_div by lia. change (2 ^ 16) with 65536.
  change 0xffff with (2 ^ 16 - 1). rewrite !land_mask by lia. change (2 ^ 16) with 65536.
  destruct (Z.eqb_spec acc 0) as [->|]; [done|].
  destruct (Z.eqb_spec (acc / 65536) 0); [lia|]. destruct (Z.eqb_spec ((acc mod 65536 + acc / 65536) / 65536) 0); lia.
Qed.
Lemma fold_range acc : is_u32 acc -> is_u16 (fold acc).
Proof. intros H. rewrite fold_spec by done. unfold fits. change (2 ^ 16) with 65536. destruct (acc =? 0); lia. Qed.
Lemma fold_mod acc : is_u32 acc -> fold acc mod 65535 = acc mod 65535.
Proof. intros H. rewrite fold_spec by done. destruct (Z.eqb_spec acc 0); lia. Qed.
(** A sum folds to all ones exactly when it is a positive multiple of 65535. *)
Lemma fold_ones acc : is_u32 acc -> fold acc = 65535 <-> 0 < acc /\ acc mod 65535 = 0.
Proof. intros H. rewrite fold_spec by done. unfold fits in H. destruct (Z.eqb_spec acc 0); lia. Qed.

(** ** Sums of words *)

Fixpoint wsum (data : bytes) : Z :=
  match data with
  | a :: b :: data' => a * 256 + b + wsum data'
  | [last] => last * 256
  | [] => 0
  end.

(** Induction two bytes at a time. *)
Lemma pair_ind (P : bytes -> Prop) : P [] -> (forall a, P [a]) -> (forall a b l, P l -> P (a :: b :: l)) -> forall l, P l.
Proof.
  intros H0 H1 H2 l. enough (P l /\ forall a, P (a :: l)) by tauto. induction l as [|b l [IH1 IH2]]; [by split|].
  split; [apply IH2|]. intros a. by apply H2.
Qed.

Lemma wsum_bound data : bytes_ok data -> 0 <= wsum data <= 65535 * Z.of_nat ((length data + 1) / 2).
Proof.
  induction data as [|a|a b l IH] using pair_ind; cbn [wsum]; intros Hd; [done| |].
  - inv_Forall. unfold fits in *. change (2 ^ 8) with 256 in *. cbn [length Nat.add Nat.div Nat.divmod fst]. lia.
  - inv_Forall. unfold fits in *. change (2 ^ 8) with 256 in *. specialize (IH ltac:(assumption)).
    replace (length (a :: b :: l) + 1)%nat with ((length l + 1) + 1 * 2)%nat by (cbn [length]; lia). rewrite Nat.div_add by lia. lia.
Qed.

(** No packet is longer: an IPv6 header in front of the largest payload. *)
Definition MAX_PACKET : Z := 65575.
Lemma wsum_small data : bytes_ok data -> Z.of_nat (length data) <= MAX_PACKET -> 0 <= wsum data <= 65535 * 32788.
Proof. intros Hd Hn. pose proof (wsum_bound data Hd). unfold MAX_PACKET in Hn. lia. Qed.

Lemma wsum_app l1 l2 : Nat.even (length l1) = true -> wsum (l1 ++ l2) = wsum l1 + wsum l2.
Proof.
  induction l1 as [|a|a b l IH] using pair_ind; [done..|]. cbn [app wsum length]. intros H. rewrite IH by exact H. lia.
Qed.

Lemma sum16_spec data : forall acc, bytes_ok data -> 0 <= acc -> acc + wsum data < 2 ^ 32 -> sum16 data acc = acc + wsum data.
Proof.
  induction data as [|a|a b l IH] using pair_ind; intros acc Hd Hacc Hlt; cbn [sum16 wsum] in *; [lia| |].
  - inv_Forall. unfold fits in *. rewrite Z.shiftl_mul_pow2 by lia. change (2 ^ 8) with 256 in *. apply wrap_small. unfold fits. lia.
  - inv_Forall. unfold fits in *. change (2 ^ 8) with 256 in *. pose proof (wsum_bound l ltac:(assumption)) as Hw.
    replace (from_be_bytes [a; b]) with (a * 256 + b) by (cbn; lia).
    rewrite wrap_small by (unfold fits; lia). rewrite IH by (assumption || lia). lia.
Qed.

(** ** The incremental update *)

Lemma replace_word_spec c o n : is_u16 c -> is_u16 o -> is_u16 n ->
  is_u16 (csum_replace_word c o n) /\ csum_replace_word c o n mod 65535 = (c + o - n) mod 65535.
Proof.
  unfold csum_replace_word, not16. intros Hc Ho Hn. remember (65535 - c + (65535 - o) + n) as x eqn:Ex.
  assert (is_u32 x) as Hx by (unfold fits in *; change (2 ^ 16) with 65536 in *; change (2 ^ 32) with 4294967296; lia).
  pose proof (fold_range x Hx) as Hr. pose proof (fold_mod x Hx) as Hm. unfold fits in *. change (2 ^ 16) with 65536 in *. lia.
Qed.

Lemma csum_replace_spec old : forall new c, length new = length old -> Nat.even (length old) = true ->
  bytes_ok old -> bytes_ok new -> is_u16 c ->
  is_u16 (csum_replace c old new) /\ csum_replace c old new mod 65535 = (c + wsum old - wsum new) mod 65535.
Proof.
  induction old as [|a|o1 o2 old IH] using pair_ind; intros new c Hl He Ho Hn Hc; [|done|].
  - destruct new; [|done]. cbn [csum_replace wsum]. split; [done|]. f_equal. lia.
  - destruct new as [|n1 [|n2 new]]; try done. inv_Forall. cbn [csum_replace wsum].
    assert (forall x y, is_byte x -> is_byte y -> is_u16 (from_be_bytes [x; y])) as Hw
      by (intros; unfold fits in *; change (2 ^ 8) with 256 in *; change (2 ^ 16) with 65536; cbn; lia).
    destruct (replace_word_spec c (from_be_bytes [o1; o2]) (from_be_bytes [n1; n2])) as [Hw1 Hw2]; auto.
    destruct (IH new (csum_replace_word c (from_be_bytes [o1; o2]) (from_be_bytes [n1; n2]))) as [Hw3 Hw4]; [cbn in Hl; lia|exact He|done..|].
    split; [exact Hw3|]. rewrite Hw4. revert Hw2.
    change (from_be_bytes [o1; o2]) with ((0 * 256 + o1) * 256 + o2). change (from_be_bytes [n1; n2]) with ((0 * 256 + n1) * 256 + n2).
    set (w := csum_replace_word _ _ _). clearbody w. clear. lia.
Qed.

(** ** Valid checksums *)

(** The receiver's test: the sum over the data, checksum included, is all ones. *)
Definition valid (data : bytes) (init : Z) : Prop := fold (sum16 data init) = 65535.

Lemma valid_iff data init : bytes_ok data -> 0 <= init -> init + wsum data < 2 ^ 32 ->
  valid data init <-> 0 < init + wsum data /\ (init + wsum data) mod 65535 = 0.
Proof.
  intros Hd Hi Hlt. unfold valid. rewrite sum16_spec by done. pose proof (wsum_bound data Hd). apply fold_ones. unfold fits. lia.
Qed.

(** Filling in the computed checksum makes the data valid. *)
Lemma checksum_valid pre post init : bytes_ok pre -> bytes_ok post -> Nat.even (length pre) = true -> 0 <= init ->
  init + wsum (pre ++ [0; 0] ++ post) + 65535 < 2 ^ 32 ->
  valid (pre ++ to_be_bytes 2 (checksum (pre ++ [0; 0] ++ post) init) ++ post) init.
Proof.
  intros Hpre Hpost He Hi Hlt. set (z := pre ++ [0; 0] ++ post) in *.
  assert (bytes_ok z) as Hz by (apply Forall_app_2; [done|]; by repeat (constructor; [done|])).
  pose proof (wsum_bound z Hz) as Hwz. unfold checksum. rewrite sum16_spec by (done || lia).
  assert (is_u32 (init + wsum z)) as Hs by (unfold fits; lia). set (c := not16 _).
  pose proof (fold_range _ Hs) as Hr. pose proof (fold_spec _ Hs) as Hf.
  assert (is_u16 c) as Hc by (unfold c, not16, fits in *; change (2 ^ 16) with 65536 in *; lia).
  assert (wsum (pre ++ to_be_bytes 2 c ++ post) = wsum z + c) as Hw.
  { unfold z. rewrite !wsum_app by done. cbn [to_be_bytes app wsum]. unfold fits in Hc. change (2 ^ 16) with 65536 in Hc. lia. }
  assert (c <= 65535) by (unfold fits in Hc; lia).
  apply valid_iff; [apply Forall_app_2; [done|]; apply Forall_app_2; [apply to_be_bytes_ok|done]|done|rewrite Hw; lia|].
  rewrite Hw. unfold c, not16 in *. rewrite Hf. destruct (Z.eqb_spec (init + wsum z) 0); lia.
Qed.
End checksum.
