(* ===== verification/NetNat.v ===== *)
(** [core/src/netstack/system/nat.rs]: the TCP NAT table of the kernel-TCP netstack,
    a bidirectional map between an application's source address and the synthetic
    port the local listener sees.  The two hash maps are finite maps ([gmap]); an
    [Instant] is a number of milliseconds. *)

From stdpp Require Import base gmap list numbers.
From S2P Require Import Prelude.

Module nat.

Section Table.
Context {SocketAddr : Type} `{Countable SocketAddr}.

Definition FIN_APP : Z := 1.
Definition FIN_PEER : Z := 2.

Record Session := mk_session { source : SocketAddr; destination : SocketAddr; last_seen : Z; fin : Z }.
#[export] Instance Session_eta : Settable Session := fun s => mk_session (source s) (destination s) (last_seen s) (fin s).

Definition is_closing (s : Session) : bool := fin s =? Z.lor FIN_APP FIN_PEER.

Record TcpNat := mk_nat { by_source : gmap SocketAddr Z; by_port : gmap Z Session; next_port : Z }.
#[export] Instance TcpNat_eta : Settable TcpNat := fun t => mk_nat (by_source t) (by_port t) (next_port t).

Definition new : TcpNat := mk_nat ∅ ∅ 1.
Definition len (t : TcpNat) : nat := size (by_port t).
Definition is_empty (t : TcpNat) : bool := (size (by_port t) =? 0)%nat.

(** [next_port.checked_add(1).unwrap_or(1)]. *)
Definition bump (p : Z) : Z := if p + 1 <? 2 ^ 16 then p + 1 else 1.

(** The scan of [alloc_port], with the number of rounds left. *)
Fixpoint alloc_loop (rounds : nat) (t : TcpNat) : option Z * TcpNat :=
  match rounds with
  | O => (None, t)
  | S rounds =>
      let p := next_port t in
      let t := t <| next_port := bump p |> in
      if negb (p =? 0) && negb (is_some (by_port t !! p)) then (Some p, t) else alloc_loop rounds t
  end.
Definition U16_MAX : Z := 65535.
Definition alloc_port (t : TcpNat) : option Z * TcpNat := alloc_loop (Z.to_nat U16_MAX) t.

Definition lookup (src dst : SocketAddr) (now : Z) (t : TcpNat) : option Z * TcpNat :=
  match by_source t !! src with
  | Some port => (Some port, t <| by_port := alter (fun s => s <| last_seen := now |>) port (by_port t) |>)
  | None =>
      let '(o, t) := alloc_port t in
      match o with
      | None => (None, t)
      | Some port =>
          (Some port, t <| by_source := <[src := port]> (by_source t) |>
                        <| by_port := <[port := mk_session src dst now 0]> (by_port t) |>)
      end
  end.

Definition lookup_back (port now : Z) (t : TcpNat) : option (SocketAddr * SocketAddr) * TcpNat :=
  match by_port t !! port with
  | None => (None, t)
  | Some s => (Some (source s, destination s), t <| by_port := <[port := s <| last_seen := now |>]> (by_port t) |>)
  end.

Definition remove (port : Z) (t : TcpNat) : TcpNat :=
  match by_port t !! port with
  | None => t
  | Some s => t <| by_port := delete port (by_port t) |> <| by_source := delete (source s) (by_source t) |>
  end.

Definition note_fin (port : Z) (from_app : bool) (now : Z) (t : TcpNat) : TcpNat :=
  t <| by_port := alter (fun s => s <| fin := Z.lor (fin s) (if from_app then FIN_APP else FIN_PEER) |> <| last_seen := now |>)
                    port (by_port t) |>.

(** [Instant::duration_since] saturates at zero. *)
Definition duration_since (now earlier : Z) : Z := Z.max 0 (now - earlier).
Definition is_stale (now active_timeout closing_timeout : Z) (s : Session) : bool :=
  (if is_closing s then closing_timeout else active_timeout) <=? duration_since now (last_seen s).

Definition evict_idle (now active_timeout closing_timeout : Z) (t : TcpNat) : nat * TcpNat :=
  let stale := (fun p => (p.1, source p.2)) <$>
    filter (fun p => is_stale now active_timeout closing_timeout p.2 = true) (map_to_list (by_port t)) in
  (length stale,
   fold_left (fun t p => t <| by_port := delete p.1 (by_port t) |> <| by_source := delete p.2 (by_source t) |>) stale t).

(** ** The invariant: the two maps are inverse to each other, on the ports 1 to 65535 *)

Record nat_ok (t : TcpNat) : Prop := {
  ok_fwd s p : by_source t !! s = Some p -> exists x, by_port t !! p = Some x /\ source x = s;
  ok_bwd p x : by_port t !! p = Some x -> by_source t !! source x = Some p;
  ok_range p x : by_port t !! p = Some x -> 1 <= p <= U16_MAX;
  ok_next : 1 <= next_port t <= U16_MAX;
}.

Lemma bump_spec p i : 1 <= p <= U16_MAX -> 0 <= i -> 1 <= bump p <= U16_MAX /\
  (bump p - 1 + i) mod U16_MAX = (p - 1 + (i + 1)) mod U16_MAX.
Proof. unfold bump, U16_MAX. change (2 ^ 16) with 65536. intros. destruct (Z.ltb_spec (p + 1) 65536); lia. Qed.

(** The scan changes the cursor only; it returns a free port, or has seen every
    port of its window in use. *)
Lemma alloc_loop_spec n : forall t o t', 1 <= next_port t <= U16_MAX -> alloc_loop n t = (o, t') ->
  by_source t' = by_source t /\ by_port t' = by_port t /\ 1 <= next_port t' <= U16_MAX /\
  match o with
  | Some p => 1 <= p <= U16_MAX /\ by_port t !! p = None
  | None => forall i, 0 <= i < Z.of_nat n -> is_Some (by_port t !! ((next_port t - 1 + i) mod U16_MAX + 1))
  end.
Proof.
  induction n as [|n IH]; intros t o t' Hn; cbn [alloc_loop].
  { intros [= <- <-]. split_and!; first [done|intros; lia]. }
  destruct (bump_spec (next_port t) 0 Hn ltac:(lia)) as [Hb _].
  assert (negb (next_port t =? 0) = true) as -> by lia. cbn [andb].
  change (by_port (t <| next_port := _ |>)) with (by_port t).
  destruct (by_port t !! next_port t) as [x|] eqn:Ex; cbn [is_some negb].
  - intros Ha. destruct (IH (t <| next_port := bump (next_port t) |>) o t' ltac:(exact Hb) Ha) as (H1 & H2 & Hn' & Ho).
    split_and!; [exact H1|exact H2|exact (proj1 Hn')|exact (proj2 Hn')|]. destruct o as [p|]; [exact Ho|]. intros i Hi.
    destruct (decide (i = 0)) as [->|].
    + rewrite Z.add_0_r, Z.mod_small by lia. replace (next_port t - 1 + 1) with (next_port t) by lia. by rewrite Ex.
    + specialize (Ho (i - 1) ltac:(lia)).
      destruct (bump_spec (next_port t) (i - 1) Hn ltac:(lia)) as [_ Hbi]. change (next_port (t <| next_port := bump (next_port t) |>)) with (bump (next_port t)) in Ho.
      rewrite Hbi in Ho. replace (i - 1 + 1) with i in Ho by lia. done.
  - intros [= <- <-]. done.
Qed.

Lemma alloc_port_spec t o t' : 1 <= next_port t <= U16_MAX -> alloc_port t = (o, t') ->
  by_source t' = by_source t /\ by_port t' = by_port t /\ 1 <= next_port t' <= U16_MAX /\
  match o with
  | Some p => 1 <= p <= U16_MAX /\ by_port t !! p = None
  | None => forall p, 1 <= p <= U16_MAX -> is_Some (by_port t !! p)
  end.
Proof.
  intros Hn Ha. destruct (alloc_loop_spec _ t o t' Hn Ha) as (H1 & H2 & H3 & Ho).
  split; [exact H1|split; [exact H2|split; [exact H3|]]].
  destruct o as [p|]; [done|]. intros p Hp. unfold U16_MAX in *.
  specialize (Ho ((p - next_port t) mod 65535) ltac:(lia)).
  replace ((next_port t - 1 + (p - next_port t) mod 65535) mod 65535 + 1) with p in Ho by lia. done.
Qed.

(** ** The calls, and what they promise *)

Inductive Call :=
  | Lookup (src dst : SocketAddr) (now : Z)
  | LookupBack (port now : Z)
  | Remove (port : Z)
  | NoteFin (port : Z) (from_app : bool) (now : Z)
  | EvictIdle (now active_timeout closing_timeout : Z).
Inductive Ret :=
  | RPort (o : option Z)
  | RPair (o : option (SocketAddr * SocketAddr))
  | RUnit
  | RCount (n : nat).

Definition exec (c : Call) (t : TcpNat) : Ret * TcpNat :=
  match c with
  | Lookup src dst now => let '(o, t) := lookup src dst now t in (RPort o, t)
  | LookupBack port now => let '(o, t) := lookup_back port now t in (RPair o, t)
  | Remove port => (RUnit, remove port t)
  | NoteFin port app now => (RUnit, note_fin port app now t)
  | EvictIdle now a c => let '(n, t) := evict_idle now a c t in (RCount n, t)
  end.

(** The specification: a finite set of mappings from ports to endpoints. *)
Abbreviation Spec := (gmap Z (SocketAddr * SocketAddr)).
Definition unmapped (a : Spec) (src : SocketAddr) : Prop := forall p d, a !! p <> Some (src, d).

Inductive spec_step (a : Spec) : Call -> Ret -> Spec -> Prop :=
  | spec_hit src dst now p d : a !! p = Some (src, d) -> spec_step a (Lookup src dst now) (RPort (Some p)) a
  | spec_alloc src dst now p : unmapped a src -> 1 <= p <= U16_MAX -> a !! p = None ->
      spec_step a (Lookup src dst now) (RPort (Some p)) (<[p := (src, dst)]> a)
  | spec_full src dst now : unmapped a src -> (forall p, 1 <= p <= U16_MAX -> is_Some (a !! p)) ->
      spec_step a (Lookup src dst now) (RPort None) a
  | spec_back port now : spec_step a (LookupBack port now) (RPair (a !! port)) a
  | spec_remove port : spec_step a (Remove port) RUnit (delete port a)
  | spec_fin port app now : spec_step a (NoteFin port app now) RUnit a
  | spec_evict now ta tc (dead : Spec) : dead ⊆ a -> spec_step a (EvictIdle now ta tc) (RCount (size dead)) (a ∖ dead).

Definition abs (t : TcpNat) : Spec := (fun x => (source x, destination x)) <$> by_port t.

Lemma abs_lookup t p : abs t !! p = (fun x => (source x, destination x)) <$> by_port t !! p.
Proof. apply lookup_fmap. Qed.

(** Refreshing a session keeps the endpoints, hence everything. *)
Lemma alter_sim f p t : (forall x, by_port t !! p = Some x -> source (f x) = source x /\ destination (f x) = destination x) ->
  nat_ok t -> nat_ok (t <| by_port := alter f p (by_port t) |>) /\ abs (t <| by_port := alter f p (by_port t) |>) = abs t.
Proof.
  intros Hf [H1 H2 H3 H4]. split; [constructor|].
  - intros s q Hs. destruct (H1 s q Hs) as (x & Hx & Hsx). destruct (decide (p = q)) as [<-|Hne].
    + exists (f x). cbn. rewrite lookup_alter_eq, Hx. split; [done|]. destruct (Hf x Hx). congruence.
    + exists x. cbn. by rewrite lookup_alter_ne.
  - intros q x. cbn. destruct (decide (p = q)) as [<-|Hne]; [|rewrite lookup_alter_ne by done; apply H2].
    rewrite lookup_alter_eq. destruct (by_port t !! p) as [y|] eqn:Ey; [|done]. intros E. apply (inj Some) in E as <-.
    rewrite (proj1 (Hf y eq_refl)). by apply H2.
  - intros q x. cbn. destruct (decide (p = q)) as [<-|Hne]; [|rewrite lookup_alter_ne by done; apply H3].
    rewrite lookup_alter_eq. destruct (by_port t !! p) as [y|] eqn:Ey; [|done]. intros _. by apply (H3 p y).
  - exact H4.
  - apply map_eq. intros q. rewrite !abs_lookup. cbn. destruct (decide (p = q)) as [<-|Hne]; [|by rewrite lookup_alter_ne].
    rewrite lookup_alter_eq. destruct (by_port t !! p) as [y|] eqn:Ey; [|done]. cbn. destruct (Hf y eq_refl). congruence.
Qed.

Lemma remove_sim p t : nat_ok t -> nat_ok (remove p t) /\ by_port (remove p t) = delete p (by_port t).
Proof.
  intros Hok. unfold remove. destruct (by_port t !! p) as [y|] eqn:Ey.
  2:{ split; [done|]. by rewrite delete_id. }
  destruct Hok as [H1 H2 H3 H4]. split; [|done]. constructor; cbn.
  - intros s q. rewrite lookup_delete_Some. intros [Hne Hs]. destruct (H1 s q Hs) as (x & Hx & Hsx). exists x.
    split; [|done]. rewrite lookup_delete_ne; [done|]. intros <-. congruence.
  - intros q x. rewrite lookup_delete_Some. intros [Hne Hx]. rewrite lookup_delete_ne; [by apply H2|].
    intros E. apply Hne. apply H2 in Hx, Ey. congruence.
  - intros q x. rewrite lookup_delete_Some. intros [_ Hx]. by eapply H3.
  - exact H4.
Qed.

(** The loop of [evict_idle] is a sequence of [remove]s. *)
Lemma evict_loop_sim l : forall t, nat_ok t -> NoDup l.*1 ->
  (forall p s, (p, s) ∈ l -> exists x, by_port t !! p = Some x /\ source x = s) ->
  let t' := fold_left (fun t p => t <| by_port := delete p.1 (by_port t) |> <| by_source := delete p.2 (by_source t) |>) l t in
  nat_ok t' /\ forall p, by_port t' !! p = if decide (p ∈ l.*1) then None else by_port t !! p.
Proof.
  induction l as [|[p s] l IH]; intros t Hok Hnd Hl; cbn [fold_left fst snd].
  { split; [done|]. intros p. rewrite decide_False; [done|]. apply not_elem_of_nil. }
  destruct (Hl p s) as (x & Hx & <-); [left|]. cbn in Hnd. apply list.NoDup_cons in Hnd as [Hp Hnd].
  destruct (remove_sim p t Hok) as [Hok' Hbp]. assert (remove p t = t <| by_port := delete p (by_port t) |> <| by_source := delete (source x) (by_source t) |>) as <-.
  { unfold remove. by rewrite Hx. }
  destruct (IH (remove p t) Hok' Hnd) as [H1 H2].
  { intros q s Hq. destruct (Hl q s) as (y & Hy & Hsy); [by right|]. exists y. split; [|done]. rewrite Hbp, lookup_delete_ne; [done|].
    intros ->. apply Hp. apply list_elem_of_fmap. by exists (q, s). }
  split; [exact H1|]. intros q. rewrite H2, Hbp. cbn. destruct (decide (p = q)) as [<-|Hne].
  - rewrite lookup_delete_eq, (decide_True (P := p ∈ p :: l.*1)) by left. by case_decide.
  - rewrite lookup_delete_ne by done. destruct (decide (q ∈ l.*1)); [rewrite decide_True|rewrite decide_False]; try done; [by right|].
    intros [->|]%elem_of_cons; done.
Qed.

Lemma evict_spec now ta tc t n t' : nat_ok t -> evict_idle now ta tc t = (n, t') ->
  nat_ok t' /\ by_port t' = filter (fun p => is_stale now ta tc p.2 = false) (by_port t) /\
  n = size (filter (fun p => is_stale now ta tc p.2 = true) (by_port t)).
Proof.
  intros Hok E. unfold evict_idle in E. set (fl := filter _ (map_to_list _)) in E. set (l := _ <$> fl) in E.
  assert (l.*1 = fl.*1) as Hl1 by (unfold l; rewrite <- list_fmap_compose; by apply list_fmap_ext).
  assert (forall p x, (p, x) ∈ fl <-> is_stale now ta tc x = true /\ by_port t !! p = Some x) as Hfl.
  { intros p x. unfold fl. rewrite list_elem_of_filter, elem_of_map_to_list. done. }
  assert (NoDup l.*1) as Hnd.
  { rewrite Hl1. unfold fl. eapply sublist_NoDup; [apply (NoDup_fst_map_to_list (by_port t))|].
    apply fmap_sublist, sublist_filter. }
  destruct (evict_loop_sim l t Hok Hnd) as [H1 H2].
  { intros p s' Hp. unfold l in Hp. apply list_elem_of_fmap in Hp as ([q x] & E' & Hx). cbn in E'. injection E' as -> ->.
    apply Hfl in Hx as [_ Hx]. eauto. }
  injection E as <- <-. split; [exact H1|]. split.
  - apply map_eq. intros p. rewrite H2, Hl1. apply option_eq. intros x. rewrite map_lookup_filter_Some. cbn. split.
    + case_decide as Hd; [done|]. intros Hx. split; [done|]. destruct (is_stale _ _ _ x) eqn:Es; [|done].
      exfalso. apply Hd, list_elem_of_fmap. exists (p, x). split; [done|]. by apply Hfl.
    + intros [Hx Hs]. rewrite decide_False; [done|]. intros ([q y] & -> & Hy)%list_elem_of_fmap. cbn in Hx. apply Hfl in Hy as [? ?]. congruence.
  - unfold l. rewrite length_fmap. rewrite <- (length_map_to_list (filter _ (by_port t))). apply Permutation_length.
    apply NoDup_Permutation; [|apply NoDup_map_to_list|].
    + eapply sublist_NoDup; [apply NoDup_map_to_list|apply sublist_filter].
    + intros [p x]. rewrite Hfl, elem_of_map_to_list, map_lookup_filter_Some. cbn. tauto.
Qed.

Lemma unmapped_abs t s : nat_ok t -> by_source t !! s = None -> unmapped (abs t) s.
Proof.
  intros [_ H2 _ _] Hs p d. rewrite abs_lookup. destruct (by_port t !! p) as [x|] eqn:Ex; [|done]. cbn. intros [= <- <-].
  apply H2 in Ex. congruence.
Qed.

Lemma lookup_sim src dst now t o t' : nat_ok t -> lookup src dst now t = (o, t') ->
  nat_ok t' /\ spec_step (abs t) (Lookup src dst now) (RPort o) (abs t').
Proof.
  intros Hok. unfold lookup. destruct (by_source t !! src) as [p|] eqn:Es.
  - intros [= <- <-]. destruct (alter_sim (fun s => s <| last_seen := now |>) p t) as [H1 H2]; [done..|]. split; [exact H1|].
    rewrite H2. destruct (ok_fwd t Hok src p Es) as (x & Hx & <-). econstructor. rewrite abs_lookup, Hx. reflexivity.
  - destruct (alloc_port t) as [[p|] t1] eqn:Ea; destruct (alloc_port_spec t _ _ (ok_next t Hok) Ea) as (E1 & E2 & Hn & Ho).
    + intros [= <- <-]. destruct Ho as [Hp Hf]. pose proof Hok as [H1 H2 H3 H4]. split.
      * constructor; cbn; rewrite ?E1, ?E2.
        -- intros s q. destruct (decide (src = s)) as [<-|Hne].
           ++ rewrite lookup_insert_eq. intros [= <-]. exists (mk_session src dst now 0). by rewrite lookup_insert_eq.
           ++ rewrite lookup_insert_ne by done. intros Hs. destruct (H1 s q Hs) as (x & Hx & Hsx). exists x.
              rewrite lookup_insert_ne; [done|]. intros <-. congruence.
        -- intros q x. destruct (decide (p = q)) as [<-|Hne].
           ++ rewrite lookup_insert_eq. intros E. apply (inj Some) in E as <-. cbn. by rewrite lookup_insert_eq.
           ++ rewrite lookup_insert_ne by done. intros Hx. apply H2 in Hx. rewrite lookup_insert_ne; [done|]. intros E. congruence.
        -- intros q x [[<- _]|[_ Hx]]%lookup_insert_Some; [done|]. by eapply H3.
        -- exact Hn.
      * unfold abs at 2. cbn. rewrite E2, fmap_insert. apply (spec_alloc (abs t) src dst now p); [by apply unmapped_abs|done|].
        by rewrite abs_lookup, Hf.
    + intros [= <- <-]. pose proof Hok as [H1 H2 H3 H4]. split; [constructor; rewrite ?E1, ?E2; done|].
      unfold abs at 2. rewrite E2. apply (spec_full (abs t)); [by apply unmapped_abs|]. intros p Hp. rewrite abs_lookup.
      destruct (Ho p Hp) as [x ->]. by eexists.
Qed.

Lemma exec_sim c t r t' : nat_ok t -> exec c t = (r, t') -> nat_ok t' /\ spec_step (abs t) c r (abs t').
Proof.
  intros Hok. destruct c as [src dst now|port now|port|port app now|now ta tc]; cbn [exec].
  - destruct (lookup src dst now t) as [o t1] eqn:E. intros [= <- <-]. by apply lookup_sim.
  - unfold lookup_back. destruct (by_port t !! port) as [x|] eqn:Ex.
    + intros [= <- <-]. destruct (alter_sim (fun s => s <| last_seen := now |>) port t) as [H1 H2]; [done..|].
      assert (alter (fun s => s <| last_seen := now |>) port (by_port t) = <[port := x <| last_seen := now |>]> (by_port t)) as E.
      { apply map_eq. intros q. destruct (decide (port = q)) as [<-|]; [by rewrite lookup_alter_eq, lookup_insert_eq, Ex|].
        by rewrite lookup_alter_ne, lookup_insert_ne. }
      rewrite E in H1, H2. split; [exact H1|]. rewrite H2. replace (Some (source x, destination x)) with (abs t !! port) by by rewrite abs_lookup, Ex.
      constructor.
    + intros [= <- <-]. split; [done|]. replace (@None (SocketAddr * SocketAddr)) with (abs t !! port) by by rewrite abs_lookup, Ex. constructor.
  - intros [= <- <-]. destruct (remove_sim port t Hok) as [H1 H2]. split; [exact H1|]. unfold abs at 2. rewrite H2, fmap_delete. constructor.
  - intros [= <- <-]. destruct (alter_sim (fun s => s <| fin := Z.lor (fin s) (if app then FIN_APP else FIN_PEER) |> <| last_seen := now |>) port t)
      as [H1 H2]; [done..|]. split; [exact H1|]. unfold note_fin. rewrite H2. constructor.
  - destruct (evict_idle now ta tc t) as [n t1] eqn:E. intros [= <- <-]. destruct (evict_spec now ta tc t n t1 Hok E) as (H1 & H2 & ->).
    split; [exact H1|]. set (dead := filter _ (by_port t)).
    replace (size dead) with (size ((fun x => (source x, destination x)) <$> dead)) by apply map_size_fmap.
    replace (abs t1) with (abs t ∖ ((fun x => (source x, destination x)) <$> dead)).
    { constructor. apply map_fmap_mono, map_filter_subseteq. }
    apply map_eq. intros p. rewrite lookup_difference, !abs_lookup, H2, lookup_fmap. unfold dead. rewrite !map_lookup_filter.
    destruct (by_port t !! p) as [x|]; [|done]. cbn. by destruct (is_stale now ta tc x).
Qed.

(** ** Runs *)

Fixpoint run (cs : list Call) (t : TcpNat) : list Ret * TcpNat :=
  match cs with
  | [] => ([], t)
  | c :: cs => let '(r, t) := exec c t in let '(rs, t) := run cs t in (r :: rs, t)
  end.

Inductive spec_run : Spec -> list Call -> list Ret -> Spec -> Prop :=
  | spec_nil a : spec_run a [] [] a
  | spec_cons a c r a1 cs rs a2 : spec_step a c r a1 -> spec_run a1 cs rs a2 -> spec_run a (c :: cs) (r :: rs) a2.

Lemma new_ok : nat_ok new.
Proof. constructor; cbn; try (intros ? ?; rewrite lookup_empty; done). unfold U16_MAX. lia. Qed.

Lemma run_sim cs : forall t, nat_ok t ->
  nat_ok (run cs t).2 /\ spec_run (abs t) cs (run cs t).1 (abs (run cs t).2).
Proof.
  induction cs as [|c cs IH]; intros t Hok; cbn [run]; [split; [done|constructor]|].
  destruct (exec c t) as [r t1] eqn:E. destruct (exec_sim c t r t1 Hok E) as [Hok1 Hs].
  destruct (IH t1 Hok1) as [H1 H2]. destruct (run cs t1) as [rs t2]. split; [exact H1|]. by econstructor.
Qed.

(** A mapping present after a call was there before, or was made by it. *)
Lemma exec_endpoints c t r t' p e : nat_ok t -> exec c t = (r, t') -> abs t' !! p = Some e ->
  abs t !! p = Some e \/ exists now, c = Lookup e.1 e.2 now.
Proof.
  intros Hok E. destruct (exec_sim c t r t' Hok E) as [_ Hs]. generalize dependent (abs t'). intros a' Hs Hp.
  destruct Hs as [|src dst now q| | |q| |now ta tc dead]; try by left.
  - apply lookup_insert_Some in Hp as [[<- <-]|[_ Hp]]; [right; by eexists|by left].
  - apply lookup_delete_Some in Hp as [_ Hp]. by left.
  - apply lookup_difference_Some in Hp as [Hp _]. by left.
Qed.

(** C37: the NAT table refines its specification: from the empty table, every sequence
    of calls returns what a plain set of port-to-endpoints mappings returns, in which
    [lookup] reuses the mapping of a known source, otherwise maps a free port of 1 to
    65535 to the new endpoints, and fails only when none is free. *)
Theorem nat_refines cs : spec_run ∅ cs (run cs new).1 (abs (run cs new).2).
Proof. replace (∅ : Spec) with (abs new) by apply fmap_empty. apply run_sim, new_ok. Qed.

Lemma full_iff t : nat_ok t -> (forall p, 1 <= p <= U16_MAX -> is_Some (by_port t !! p)) <-> Z.of_nat (len t) = U16_MAX.
Proof.
  intros [_ _ H3 _]. set (all := list_to_set (seqZ 1 U16_MAX) : gset Z).
  assert (size all = Z.to_nat U16_MAX) as Hall by (unfold all; rewrite size_list_to_set by apply NoDup_seqZ; apply length_seqZ).
  assert (forall p, p ∈ all <-> 1 <= p <= U16_MAX) as Hin by (intros p; unfold all; rewrite elem_of_list_to_set, elem_of_seqZ; lia).
  clearbody all.
  assert (dom (by_port t) ⊆ all) as Hsub by (intros p [x Hx]%elem_of_dom; apply Hin; by eapply H3).
  unfold len. rewrite <- (size_dom (D := gset Z)). split.
  - intros Hf. replace (dom (by_port t)) with all; [unfold U16_MAX in *; lia|]. apply leibniz_equiv. split; [|by apply Hsub].
    intros Hp%Hin. by apply elem_of_dom, Hf.
  - intros Hs p Hp. apply (elem_of_dom (D := gset Z)).
    replace (dom (by_port t)) with all; [by apply Hin|]. apply leibniz_equiv. symmetry. apply set_subseteq_size_equiv; [done|].
    unfold U16_MAX in *. lia.
Qed.

(** in every reachable table [lookup] fails exactly for a new source when all
    65535 synthetic ports are taken. *)
Theorem lookup_none_iff cs src dst now :
  let t := (run cs new).2 in
  (lookup src dst now t).1 = None <-> by_source t !! src = None /\ Z.of_nat (len t) = U16_MAX.
Proof.
  intros t. destruct (run_sim cs new new_ok) as [Hok _]. fold t in Hok. clearbody t. rewrite <- full_iff by done.
  unfold lookup. destruct (by_source t !! src) as [p|] eqn:Es; [split; [done|intros [? _]; done]|].
  destruct (alloc_port t) as [[p|] t1] eqn:Ea; destruct (alloc_port_spec t _ _ (ok_next t Hok) Ea) as (_ & _ & _ & Ho); cbn.
  - split; [done|]. intros [_ Hf]. destruct Ho as [Hp Hn]. destruct (Hf p Hp). congruence.
  - done.
Qed.

(** Calls that cannot drop the mapping of [p]. *)
Definition spares (p : Z) (c : Call) : bool :=
  match c with Remove q => negb (q =? p) | EvictIdle _ _ _ => false | _ => true end.

Lemma spec_spares a c r a' p x : spec_step a c r a' -> spares p c = true -> a !! p = Some x -> a' !! p = Some x.
Proof.
  intros Hs Hc Hx. destruct Hs as [| src dst now q _ _ Hq| | | | |]; cbn in Hc; try done.
  - rewrite lookup_insert_ne; [done|]. intros ->. congruence.
  - rewrite lookup_delete_ne; [done|]. intros ->. by rewrite Z.eqb_refl in Hc.
Qed.
Lemma spec_run_spares p x cs : forall a rs a', spec_run a cs rs a' -> Forall (fun c => spares p c = true) cs ->
  a !! p = Some x -> a' !! p = Some x.
Proof.
  induction cs as [|c cs IH]; intros a rs a' Hr Hc Hx; inversion Hr; subst; [done|]. inversion Hc; subst.
  eapply IH; [done..|]. by eapply spec_spares.
Qed.

(** the synthetic port leads back to the connection: after [lookup] gave a new
    source the port [p], [lookup_back] of [p] returns that source and the
    destination it was mapped with, through any calls that do not remove [p]. *)
Theorem lookup_back_roundtrip cs src dst now p t1 cs' now' :
  let t := (run cs new).2 in
  by_source t !! src = None -> lookup src dst now t = (Some p, t1) -> Forall (fun c => spares p c = true) cs' ->
  (lookup_back p now' (run cs' t1).2).1 = Some (src, dst).
Proof.
  intros t Hn Hl Hc. destruct (run_sim cs new new_ok) as [Hok _]. fold t in Hok. clearbody t.
  destruct (lookup_sim _ _ _ _ _ _ Hok Hl) as [Hok1 Hs].
  assert (abs t1 !! p = Some (src, dst)) as Hp.
  { inversion Hs; subst; [|by apply lookup_insert_eq].
    exfalso. match goal with E : abs t !! p = Some (src, _) |- _ => by apply (unmapped_abs t src Hok Hn) in E end. }
  destruct (run_sim cs' t1 Hok1) as [_ Hr]. pose proof (spec_run_spares p (src, dst) cs' _ _ _ Hr Hc Hp) as Hp'.
  rewrite abs_lookup in Hp'. unfold lookup_back. by destruct (by_port _ !! p).
Qed.

(** eviction removes exactly the sessions that were silent for their timeout, the
    short one once both sides sent a FIN, and counts them. *)
Theorem evict_exact cs now ta tc p :
  let t := (run cs new).2 in let '(n, t') := evict_idle now ta tc t in
  by_port t' !! p = (let! x := by_port t !! p in if is_stale now ta tc x then None else Some x) /\ (len t' + n = len t)%nat.
Proof.
  intros t. destruct (run_sim cs new new_ok) as [Hok _]. fold t in Hok. clearbody t.
  destruct (evict_idle now ta tc t) as [n t'] eqn:E. destruct (evict_spec now ta tc t n t' Hok E) as (_ & E2 & ->). split.
  - rewrite E2, map_lookup_filter. destruct (by_port t !! p) as [x|]; [|done]. cbn. by destruct (is_stale now ta tc x).
  - unfold len. rewrite E2.
    replace (filter (fun p => is_stale now ta tc p.2 = false) (by_port t))
      with (filter (fun p => ~ is_stale now ta tc p.2 = true) (by_port t))
      by (apply map_filter_ext; intros; by rewrite not_true_iff_false).
    rewrite Nat.add_comm, <- map_size_disj_union by apply map_disjoint_filter_complement.
    by rewrite map_filter_union_complement.
Qed.
End Table.
#[global] Arguments TcpNat SocketAddr {_ _}.
#[global] Arguments Session SocketAddr : clear implicits.

(** Two connections of one application, numbered addresses. *)
Definition demo_calls : list (@Call Z) := [Lookup 1001 80 5; NoteFin 1 true 6].
Lemma lookup_back_roundtrip_witness :
  (lookup_back 2 20 (run [Lookup 1001 80 11; Remove 1; NoteFin 2 false 12] (lookup 1002 443 10 (run demo_calls new).2).2).2).1 = Some (1002, 443).
Proof.
  refine (lookup_back_roundtrip demo_calls 1002 443 10 2 _ [Lookup 1001 80 11; Remove 1; NoteFin 2 false 12] 20 _ _ _).
  - vm_compute. reflexivity.
  - vm_compute. reflexivity.
  - repeat (constructor; [reflexivity|]). constructor.
Defined.
End nat.
