(* ===== verification/NetRewrite.v ===== *)
(** [core/src/netstack/system/rewrite.rs]: in-place rewriting of the TCP 4-tuple with
    incremental checksums, and building UDP packets.  Slice accesses that would panic
    are [None]; the theorems show that none is reached. *)

From S2P Require Import Prelude NetAddr Checksum.

Module rewrite.
Import net checksum.

Definition PROTO_TCP : Z := 6.
Definition PROTO_UDP : Z := 17.
Definition TCP_FIN : Z := 0x01.
Definition TCP_RST : Z := 0x04.

Inductive RewriteError := Truncated | NotIp | NotTcp | NotUdp | Ipv6Extension | FamilyMismatch.

Record Layout := mk_layout {
  ip_src : nat; ip_dst : nat; addr_len : nat; ip_checksum : option nat; tcp : nat; v6 : bool;
}.

(** [u16::from_be_bytes([pkt[i], pkt[i + 1]])]. *)
Definition be16 (pkt : bytes) (i : nat) : option Z :=
  let! a := pkt !! i in let! b := pkt !! S i in Some (from_be_bytes [a; b]).

Definition ihl_of (first : Z) : nat := Z.to_nat (Z.land first 0x0f) * 4.

Definition parse (pkt : bytes) : option (result RewriteError Layout) :=
  match pkt !! 0%nat with
  | None => Some (Err Truncated)
  | Some first =>
      if Z.shiftr first 4 =? 4 then
        let ihl := ihl_of first in
        if (ihl <? 20)%nat || (length pkt <? ihl + 20)%nat then Some (Err Truncated) else
        let! proto := pkt !! 9%nat in
        if negb (proto =? PROTO_TCP) then Some (Err NotTcp)
        else Some (Ok (mk_layout 12 16 4 (Some 10%nat) ihl false))
      else if Z.shiftr first 4 =? 6 then
        if (length pkt <? 40 + 20)%nat then Some (Err Truncated) else
        let! proto := pkt !! 6%nat in
        if negb (proto =? PROTO_TCP) then Some (Err (if (proto =? 17) || (proto =? 58) then NotTcp else Ipv6Extension))
        else Some (Ok (mk_layout 8 24 16 None 40 true))
      else Some (Err NotIp)
  end.

Definition read_ip (pkt : bytes) (off len : nat) : option IpAddr :=
  if (len =? 4)%nat then V4 <$> slice_get pkt off (off + 4) else V6 <$> slice_get pkt off (off + 16).
Definition write_ip (pkt : bytes) (off : nat) (a : IpAddr) : option bytes := copy_at pkt off (octets a).

Definition tcp_header (pkt : bytes) : option (result RewriteError (SocketAddr * SocketAddr * Z)) :=
  let?! l := parse pkt in
  let! src_ip := read_ip pkt (ip_src l) (addr_len l) in
  let! dst_ip := read_ip pkt (ip_dst l) (addr_len l) in
  let! src_port := be16 pkt (tcp l) in
  let! dst_port := be16 pkt (tcp l + 2) in
  let! flags := pkt !! (tcp l + 13)%nat in
  Some (Ok (mk_sock src_ip src_port, mk_sock dst_ip dst_port, flags)).

Definition tcp_endpoints (pkt : bytes) : option (result RewriteError (SocketAddr * SocketAddr)) :=
  let?! (s, d, _) := tcp_header pkt in Some (Ok (s, d)).

(** The rewritten packet; on an error the packet is untouched. *)
Definition rewrite_tcp (pkt : bytes) (new_src new_dst : SocketAddr) : option (result RewriteError bytes) :=
  let?! l := parse pkt in
  if negb (Bool.eqb (is_ipv6 new_src) (v6 l)) || negb (Bool.eqb (is_ipv6 new_dst) (v6 l)) then Some (Err FamilyMismatch) else
  let n := addr_len l in
  let! old_src := slice_get pkt (ip_src l) (ip_src l + n) in
  let! old_dst := slice_get pkt (ip_dst l) (ip_dst l + n) in
  let! old_sport := slice_get pkt (tcp l) (tcp l + 2) in
  let! old_dport := slice_get pkt (tcp l + 2) (tcp l + 4) in
  let! pkt := write_ip pkt (ip_src l) (ip new_src) in
  let! pkt := write_ip pkt (ip_dst l) (ip new_dst) in
  let new_sport := to_be_bytes 2 (port new_src) in
  let new_dport := to_be_bytes 2 (port new_dst) in
  let! pkt := copy_at pkt (tcp l) new_sport in
  let! pkt := copy_at pkt (tcp l + 2) new_dport in
  let! new_src_b := slice_get pkt (ip_src l) (ip_src l + n) in
  let! new_dst_b := slice_get pkt (ip_dst l) (ip_dst l + n) in
  let! pkt :=
    match ip_checksum l with
    | Some off =>
        let! c := be16 pkt off in
        let c := csum_replace c old_src new_src_b in
        let c := csum_replace c old_dst new_dst_b in
        copy_at pkt off (to_be_bytes 2 c)
    | None => Some pkt
    end in
  let toff := (tcp l + 16)%nat in
  let! c := be16 pkt toff in
  let c := csum_replace c old_src new_src_b in
  let c := csum_replace c old_dst new_dst_b in
  let c := csum_replace c old_sport new_sport in
  let c := csum_replace c old_dport new_dport in
  let! pkt := copy_at pkt toff (to_be_bytes 2 c) in
  Some (Ok pkt).

Definition ip_protocol (pkt : bytes) : option Z :=
  let! first := pkt !! 0%nat in
  if Z.shiftr first 4 =? 4 then pkt !! 9%nat else if Z.shiftr first 4 =? 6 then pkt !! 6%nat else None.

(** The offsets of the UDP packet: source, destination, address length, UDP header. *)
Definition udp_layout (pkt : bytes) : option (result RewriteError (nat * nat * nat * nat)) :=
  match pkt !! 0%nat with
  | None => Some (Err Truncated)
  | Some first =>
      if Z.shiftr first 4 =? 4 then
        let ihl := ihl_of first in
        if (ihl <? 20)%nat || (length pkt <? ihl + 8)%nat then Some (Err Truncated) else
        let! proto := pkt !! 9%nat in
        if negb (proto =? PROTO_UDP) then Some (Err NotUdp) else Some (Ok (12, 16, 4, ihl)%nat)
      else if Z.shiftr first 4 =? 6 then
        if (length pkt <? 40 + 8)%nat then Some (Err Truncated) else
        let! proto := pkt !! 6%nat in
        if negb (proto =? PROTO_UDP) then Some (Err NotUdp) else Some (Ok (8, 24, 16, 40)%nat)
      else Some (Err NotIp)
  end.

Definition udp_endpoints (pkt : bytes) : option (result RewriteError (SocketAddr * SocketAddr * nat)) :=
  let?! (src_off, dst_off, alen, l4) := udp_layout pkt in
  let! src_ip := read_ip pkt src_off alen in
  let! src_port := be16 pkt l4 in
  let! dst_ip := read_ip pkt dst_off alen in
  let! dst_port := be16 pkt (l4 + 2) in
  Some (Ok (mk_sock src_ip src_port, mk_sock dst_ip dst_port, (l4 + 8)%nat)).

Definition pseudo_header_sum (src dst : IpAddr) (proto : Z) (l4_len : nat) : Z :=
  let acc := if Bool.eqb (is_v6 src) (is_v6 dst) then sum16 (octets dst) (sum16 (octets src) 0) else 0 in
  wrap32 (wrap32 (acc + proto) + wrap32 (Z.of_nat l4_len)).

Definition build_udp (src dst : SocketAddr) (payload : bytes) : option (result RewriteError bytes) :=
  if negb (Bool.eqb (is_ipv6 src) (is_ipv6 dst)) then Some (Err FamilyMismatch) else
  let udp_len := (8 + length payload)%nat in
  let?! (out, l4) :=
    match ip src, ip dst with
    | V4 s, V4 d =>
        let total := (20 + udp_len)%nat in
        let out := replicate total 0 in
        let! out := copy_at out 0 [0x45] in
        let! out := copy_at out 2 (to_be_bytes 2 (Z.of_nat total)) in
        let! out := copy_at out 8 [64] in
        let! out := copy_at out 9 [PROTO_UDP] in
        let! out := copy_at out 12 s in
        let! out := copy_at out 16 d in
        let! hdr := slice_get out 0 20 in
        let ipc := checksum hdr 0 in
        let! out := copy_at out 10 (to_be_bytes 2 ipc) in
        Some (Ok (out, 20%nat))
    | V6 s, V6 d =>
        let total := (40 + udp_len)%nat in
        let out := replicate total 0 in
        let! out := copy_at out 0 [0x60] in
        let! out := copy_at out 4 (to_be_bytes 2 (Z.of_nat udp_len)) in
        let! out := copy_at out 6 [PROTO_UDP] in
        let! out := copy_at out 7 [64] in
        let! out := copy_at out 8 s in
        let! out := copy_at out 24 d in
        Some (Ok (out, 40%nat))
    | _, _ => Some (Err FamilyMismatch)
    end in
  let! out := copy_at out l4 (to_be_bytes 2 (port src)) in
  let! out := copy_at out (l4 + 2) (to_be_bytes 2 (port dst)) in
  let! out := copy_at out (l4 + 4) (to_be_bytes 2 (Z.of_nat udp_len)) in
  let! out := copy_at out (l4 + 8) payload in
  let pseudo := pseudo_header_sum (ip src) (ip dst) PROTO_UDP udp_len in
  let csum := checksum (drop l4 out) pseudo in
  let csum := if csum =? 0 then 0xFFFF else csum in
  let! out := copy_at out (l4 + 6) (to_be_bytes 2 csum) in
  Some (Ok out).

(** ** The fields of a TCP packet *)

(** A packet cut at its fields; without IPv4 header checksum for IPv6. *)
Record view := mk_view {
  w_head : bytes; w_ipck : bytes; w_src : bytes; w_dst : bytes; w_opts : bytes;
  w_sport : bytes; w_dport : bytes; w_mid : bytes; w_ck : bytes; w_rest : bytes;
}.
#[export] Instance view_eta : Settable view := fun w => mk_view (w_head w) (w_ipck w) (w_src w) (w_dst w) (w_opts w)
  (w_sport w) (w_dport w) (w_mid w) (w_ck w) (w_rest w).
Definition join (w : view) : bytes :=
  w_head w ++ w_ipck w ++ w_src w ++ w_dst w ++ w_opts w ++ w_sport w ++ w_dport w ++ w_mid w ++ w_ck w ++ w_rest w.
Definition layout_of (w : view) (six : bool) : Layout :=
  if six then mk_layout 8 24 16 None 40 true else mk_layout 12 16 4 (Some 10%nat) (20 + length (w_opts w)) false.

Record view_ok (w : view) (six : bool) : Prop := {
  wo_head : length (w_head w) = if six then 8%nat else 10%nat;
  wo_ipck : length (w_ipck w) = if six then 0%nat else 2%nat;
  wo_src : length (w_src w) = if six then 16%nat else 4%nat;
  wo_dst : length (w_dst w) = if six then 16%nat else 4%nat;
  wo_opts : Nat.even (length (w_opts w)) = true /\ (six = true -> w_opts w = []);
  wo_ports : length (w_sport w) = 2%nat /\ length (w_dport w) = 2%nat;
  wo_mid : length (w_mid w) = 12%nat;
  wo_ck : length (w_ck w) = 2%nat;
}.

Lemma parse_view pkt l : parse pkt = Some (Ok l) -> exists w, pkt = join w /\ view_ok w (v6 l) /\ l = layout_of w (v6 l).
Proof.
  unfold parse. destruct (pkt !! 0%nat) as [first|]; [|done].
  destruct (Z.shiftr first 4 =? 4).
  - destruct (Nat.ltb_spec (ihl_of first) 20) as [|H20]; [done|]. destruct (Nat.ltb_spec (length pkt) (ihl_of first + 20)) as [|Hl]; [done|]. cbn [orb].
    destruct (pkt !! 9%nat) as [proto|]; [|done]. destruct (negb _); [done|]. intros [= <-]. cbn [v6].
    assert (Nat.even (ihl_of first) = true) as He by (unfold ihl_of; rewrite Nat.even_mul; apply orb_true_r).
    set (ihl := ihl_of first) in *. clearbody ihl.
    destruct (cut pkt 10) as (a & r1 & -> & Ha); [lia|]. rewrite length_app in Hl. destruct (cut r1 2) as (b & r2 & -> & Hb); [lia|]. rewrite length_app in Hl.
    destruct (cut r2 4) as (c & r3 & -> & Hc); [lia|]. rewrite length_app in Hl. destruct (cut r3 4) as (d & r4 & -> & Hd); [lia|]. rewrite length_app in Hl.
    destruct (cut r4 (ihl - 20)) as (o & r5 & -> & Ho); [lia|]. rewrite length_app in Hl. destruct (cut r5 2) as (sp & r6 & -> & Hsp); [lia|]. rewrite length_app in Hl.
    destruct (cut r6 2) as (dp & r7 & -> & Hdp); [lia|]. rewrite length_app in Hl. destruct (cut r7 12) as (m & r8 & -> & Hm); [lia|]. rewrite length_app in Hl.
    destruct (cut r8 2) as (ck & r9 & -> & Hck); [lia|]. exists (mk_view a b c d o sp dp m ck r9).
    split; [done|]. split; [constructor; try done; cbn; split; [|done]|].
    + rewrite Ho. rewrite Nat.even_sub by lia. by rewrite He.
    + unfold layout_of. cbn. f_equal. lia.
  - destruct (Z.shiftr first 4 =? 6); [|done]. destruct (Nat.ltb_spec (length pkt) (40 + 20)) as [|Hl]; [done|].
    destruct (pkt !! 6%nat) as [proto|]; [|done]. destruct (negb _); [done|]. intros [= <-]. cbn [v6].
    destruct (cut pkt 8) as (a & r1 & -> & Ha); [lia|]. rewrite length_app in Hl. destruct (cut r1 16) as (c & r3 & -> & Hc); [lia|]. rewrite length_app in Hl.
    destruct (cut r3 16) as (d & r4 & -> & Hd); [lia|]. rewrite length_app in Hl. destruct (cut r4 2) as (sp & r6 & -> & Hsp); [lia|]. rewrite length_app in Hl.
    destruct (cut r6 2) as (dp & r7 & -> & Hdp); [lia|]. rewrite length_app in Hl. destruct (cut r7 12) as (m & r8 & -> & Hm); [lia|]. rewrite length_app in Hl.
    destruct (cut r8 2) as (ck & r9 & -> & Hck); [lia|]. exists (mk_view a [] c d [] sp dp m ck r9). done.
Qed.

Lemma be16_at l pre s post i : l = pre ++ s ++ post -> length pre = i -> length s = 2%nat -> be16 l i = Some (from_be_bytes s).
Proof.
  intros -> <- Hs. destruct s as [|a [|b [|]]]; try done. unfold be16.
  rewrite (lookup_app_r pre), Nat.sub_diag by lia. rewrite (lookup_app_r pre) by lia.
  by replace (S (length pre) - length pre)%nat with 1%nat by lia.
Qed.

(** Field positions: solve the side conditions of [slice_at], [copy_at_app], [be16_at] on a view. *)
Ltac field_pos :=
  match goal with
  | H : view_ok ?w ?six |- _ =>
      destruct H as [? ? ? ? [? Hno] [? ?] ? ?];
      destruct six; cbn [layout_of ip_src ip_dst addr_len tcp ip_checksum v6] in *;
      rewrite ?length_app; try rewrite (Hno eq_refl) in *; cbn [length w_head w_ipck w_src w_dst w_opts w_sport w_dport w_mid w_ck] in *; lia
  end.

Section View.
Context (w : view) (six : bool) (Hw : view_ok w six).

Lemma view_src : slice_get (join w) (ip_src (layout_of w six)) (ip_src (layout_of w six) + addr_len (layout_of w six)) = Some (w_src w).
Proof.
  apply (slice_at _ (w_head w ++ w_ipck w) (w_src w)
    (w_dst w ++ w_opts w ++ w_sport w ++ w_dport w ++ w_mid w ++ w_ck w ++ w_rest w));
    [unfold join; by rewrite <- !app_assoc|field_pos|field_pos].
Qed.
Lemma view_dst : slice_get (join w) (ip_dst (layout_of w six)) (ip_dst (layout_of w six) + addr_len (layout_of w six)) = Some (w_dst w).
Proof.
  apply (slice_at _ (w_head w ++ w_ipck w ++ w_src w) (w_dst w)
    (w_opts w ++ w_sport w ++ w_dport w ++ w_mid w ++ w_ck w ++ w_rest w));
    [unfold join; by rewrite <- !app_assoc|field_pos|field_pos].
Qed.
Lemma view_ports : slice_get (join w) (tcp (layout_of w six)) (tcp (layout_of w six) + 2) = Some (w_sport w) /\
  slice_get (join w) (tcp (layout_of w six) + 2) (tcp (layout_of w six) + 4) = Some (w_dport w) /\
  be16 (join w) (tcp (layout_of w six)) = Some (from_be_bytes (w_sport w)) /\
  be16 (join w) (tcp (layout_of w six) + 2) = Some (from_be_bytes (w_dport w)).
Proof.
  set (p1 := w_head w ++ w_ipck w ++ w_src w ++ w_dst w ++ w_opts w).
  assert (join w = p1 ++ w_sport w ++ w_dport w ++ w_mid w ++ w_ck w ++ w_rest w) as E1 by (unfold join, p1; by rewrite <- !app_assoc).
  assert (join w = (p1 ++ w_sport w) ++ w_dport w ++ w_mid w ++ w_ck w ++ w_rest w) as E2 by by rewrite <- app_assoc.
  assert (length p1 = tcp (layout_of w six)) as L1 by (unfold p1; field_pos).
  assert (length (p1 ++ w_sport w) = (tcp (layout_of w six) + 2)%nat) as L2 by (rewrite length_app, L1; field_pos).
  destruct Hw as [_ _ _ _ _ [Hs Hd] _ _]. split_and!.
  - eapply slice_at; [exact E1|exact L1|lia].
  - eapply slice_at; [exact E2|exact L2|lia].
  - eapply be16_at; [exact E1|exact L1|done].
  - eapply be16_at; [exact E2|exact L2|done].
Qed.
Lemma view_ck : be16 (join w) (tcp (layout_of w six) + 16) = Some (from_be_bytes (w_ck w)).
Proof.
  apply (be16_at _ (w_head w ++ w_ipck w ++ w_src w ++ w_dst w ++ w_opts w ++ w_sport w ++ w_dport w ++ w_mid w) (w_ck w) (w_rest w));
    [unfold join; by rewrite <- !app_assoc|field_pos|field_pos].
Qed.
Lemma view_ipck : six = false -> be16 (join w) 10 = Some (from_be_bytes (w_ipck w)).
Proof.
  intros ->. apply (be16_at _ (w_head w) (w_ipck w) (w_src w ++ w_dst w ++ w_opts w ++ w_sport w ++ w_dport w ++ w_mid w ++ w_ck w ++ w_rest w));
    [done|field_pos|field_pos].
Qed.
Lemma view_flags : exists f, join w !! (tcp (layout_of w six) + 13)%nat = Some f /\ w_mid w !! 9%nat = Some f.
Proof.
  destruct (lookup_lt_is_Some_2 (w_mid w) 9) as [f Hf]; [destruct Hw as [_ _ _ _ _ _ Hm _]; lia|]. exists f. split; [|done].
  replace (join w) with ((w_head w ++ w_ipck w ++ w_src w ++ w_dst w ++ w_opts w ++ w_sport w ++ w_dport w) ++ w_mid w ++ w_ck w ++ w_rest w)
    by (unfold join; by rewrite <- !app_assoc).
  assert (length (w_head w ++ w_ipck w ++ w_src w ++ w_dst w ++ w_opts w ++ w_sport w ++ w_dport w) = (tcp (layout_of w six) + 4)%nat) as L by field_pos.
  rewrite lookup_app_r, L by lia. replace (_ + 13 - _)%nat with 9%nat by lia. by apply lookup_app_l_Some.
Qed.

Lemma set_src x : length x = length (w_src w) -> copy_at (join w) (ip_src (layout_of w six)) x = Some (join (w <| w_src := x |>)).
Proof.
  intros Hx. rewrite (copy_at_app _ (w_head w ++ w_ipck w) (w_src w) x
    (w_dst w ++ w_opts w ++ w_sport w ++ w_dport w ++ w_mid w ++ w_ck w ++ w_rest w));
    [unfold join; cbn; by rewrite <- !app_assoc|unfold join; by rewrite <- !app_assoc|field_pos|done].
Qed.
Lemma set_dst x : length x = length (w_dst w) -> copy_at (join w) (ip_dst (layout_of w six)) x = Some (join (w <| w_dst := x |>)).
Proof.
  intros Hx. rewrite (copy_at_app _ (w_head w ++ w_ipck w ++ w_src w) (w_dst w) x
    (w_opts w ++ w_sport w ++ w_dport w ++ w_mid w ++ w_ck w ++ w_rest w));
    [unfold join; cbn; by rewrite <- !app_assoc|unfold join; by rewrite <- !app_assoc|field_pos|done].
Qed.
Lemma set_sport x : length x = 2%nat -> copy_at (join w) (tcp (layout_of w six)) x = Some (join (w <| w_sport := x |>)).
Proof.
  intros Hx. rewrite (copy_at_app _ (w_head w ++ w_ipck w ++ w_src w ++ w_dst w ++ w_opts w) (w_sport w) x
    (w_dport w ++ w_mid w ++ w_ck w ++ w_rest w));
    [unfold join; cbn; by rewrite <- !app_assoc|unfold join; by rewrite <- !app_assoc|field_pos|field_pos].
Qed.
Lemma set_dport x : length x = 2%nat -> copy_at (join w) (tcp (layout_of w six) + 2) x = Some (join (w <| w_dport := x |>)).
Proof.
  intros Hx. rewrite (copy_at_app _ (w_head w ++ w_ipck w ++ w_src w ++ w_dst w ++ w_opts w ++ w_sport w) (w_dport w) x
    (w_mid w ++ w_ck w ++ w_rest w));
    [unfold join; cbn; by rewrite <- !app_assoc|unfold join; by rewrite <- !app_assoc|field_pos|field_pos].
Qed.
Lemma set_ck x : length x = 2%nat -> copy_at (join w) (tcp (layout_of w six) + 16) x = Some (join (w <| w_ck := x |>)).
Proof.
  intros Hx. rewrite (copy_at_app _ (w_head w ++ w_ipck w ++ w_src w ++ w_dst w ++ w_opts w ++ w_sport w ++ w_dport w ++ w_mid w) (w_ck w) x
    (w_rest w));
    [unfold join; cbn; by rewrite <- !app_assoc|unfold join; by rewrite <- !app_assoc|field_pos|field_pos].
Qed.
Lemma set_ipck x : six = false -> length x = 2%nat -> copy_at (join w) 10 x = Some (join (w <| w_ipck := x |>)).
Proof.
  intros -> Hx. rewrite (copy_at_app _ (w_head w) (w_ipck w) x
    (w_src w ++ w_dst w ++ w_opts w ++ w_sport w ++ w_dport w ++ w_mid w ++ w_ck w ++ w_rest w)); [done|done|field_pos|field_pos].
Qed.
End View.

(** Replacing the mutable fields keeps the shape. *)
Lemma view_ok_set w six src dst sp dp ipck ck : view_ok w six ->
  length src = length (w_src w) -> length dst = length (w_dst w) -> length sp = 2%nat -> length dp = 2%nat ->
  length ipck = length (w_ipck w) -> length ck = 2%nat ->
  view_ok (mk_view (w_head w) ipck src dst (w_opts w) sp dp (w_mid w) ck (w_rest w)) six.
Proof. intros [] ? ? ? ? ? ?. constructor; cbn; try congruence; try done. Qed.

(** ** What rewriting does *)

Definition new_ipck (w : view) (six : bool) (s d : SocketAddr) : bytes :=
  if six then w_ipck w
  else to_be_bytes 2 (csum_replace (csum_replace (from_be_bytes (w_ipck w)) (w_src w) (octets (ip s))) (w_dst w) (octets (ip d))).
Definition new_ck (w : view) (s d : SocketAddr) : bytes :=
  to_be_bytes 2 (csum_replace (csum_replace (csum_replace (csum_replace (from_be_bytes (w_ck w))
    (w_src w) (octets (ip s))) (w_dst w) (octets (ip d))) (w_sport w) (to_be_bytes 2 (port s))) (w_dport w) (to_be_bytes 2 (port d))).
Definition rewritten (w : view) (six : bool) (s d : SocketAddr) : view :=
  mk_view (w_head w) (new_ipck w six s d) (octets (ip s)) (octets (ip d)) (w_opts w)
    (to_be_bytes 2 (port s)) (to_be_bytes 2 (port d)) (w_mid w) (new_ck w s d) (w_rest w).

Lemma octets_len a six : ip_ok a -> is_v6 a = six -> length (octets a) = if six then 16%nat else 4%nat.
Proof. intros [_ Hl] <-. by destruct a. Qed.

Lemma rewrite_tcp_view w six s d : view_ok w six -> parse (join w) = Some (Ok (layout_of w six)) ->
  ip_ok (ip s) -> ip_ok (ip d) -> is_ipv6 s = six -> is_ipv6 d = six ->
  rewrite_tcp (join w) s d = Some (Ok (join (rewritten w six s d))).
Proof.
  intros Hw Hp Hs Hd Es Ed. pose proof (octets_len _ _ Hs Es) as Ls. pose proof (octets_len _ _ Hd Ed) as Ld.
  assert (v6 (layout_of w six) = six) as Ev by by destruct six.
  unfold rewrite_tcp. rewrite Hp, Es, Ed, Ev, eqb_reflx. cbn [negb orb]. rewrite (view_src w six Hw), (view_dst w six Hw).
  destruct (view_ports w six Hw) as (-> & -> & _ & _).
  pose proof (wo_src w six Hw) as Hws. pose proof (wo_dst w six Hw) as Hwd.
  set (w1 := w <| w_src := octets (ip s) |>). set (w2 := w1 <| w_dst := octets (ip d) |>).
  set (w3 := w2 <| w_sport := to_be_bytes 2 (port s) |>). set (w4 := w3 <| w_dport := to_be_bytes 2 (port d) |>).
  set (w5 := w4 <| w_ipck := new_ipck w six s d |>).
  assert (view_ok w1 six /\ view_ok w2 six /\ view_ok w3 six /\ view_ok w4 six /\ view_ok w5 six) as (Hw1 & Hw2 & Hw3 & Hw4 & Hw5).
  { pose proof Hw as [????? [??] ??]. split_and!; apply (view_ok_set w six); cbn; try congruence; try done.
    unfold new_ipck. destruct six; [done|]. rewrite length_to_be_bytes. congruence. }
  assert (forall w', w_opts w' = w_opts w -> layout_of w' six = layout_of w six) as Hl by (intros w' E; unfold layout_of; by rewrite E).
  pose proof (set_src w six Hw (octets (ip s)) ltac:(congruence)) as E1.
  pose proof (set_dst w1 six Hw1 (octets (ip d)) ltac:(cbn; congruence)) as E2. rewrite Hl in E2 by done.
  pose proof (set_sport w2 six Hw2 (to_be_bytes 2 (port s)) ltac:(apply length_to_be_bytes)) as E3. rewrite Hl in E3 by done.
  pose proof (set_dport w3 six Hw3 (to_be_bytes 2 (port d)) ltac:(apply length_to_be_bytes)) as E4. rewrite Hl in E4 by done.
  change (join (w <| w_src := _ |>)) with (join w1) in E1. change (join (w1 <| w_dst := _ |>)) with (join w2) in E2.
  change (join (w2 <| w_sport := _ |>)) with (join w3) in E3. change (join (w3 <| w_dport := _ |>)) with (join w4) in E4.
  unfold write_ip. rewrite E1, E2, E3, E4. clear E1 E2 E3 E4.
  pose proof (view_src w4 six Hw4) as E5. pose proof (view_dst w4 six Hw4) as E6. rewrite Hl in E5, E6 by done. rewrite E5, E6.
  change (w_src w4) with (octets (ip s)). change (w_dst w4) with (octets (ip d)). clear E5 E6.
  assert (match ip_checksum (layout_of w six) with
    | Some off => let! c := be16 (join w4) off in
        copy_at (join w4) off (to_be_bytes 2 (csum_replace (csum_replace c (w_src w) (octets (ip s))) (w_dst w) (octets (ip d))))
    | None => Some (join w4) end = Some (join w5)) as E7.
  { unfold w5, new_ipck. destruct six; cbn [layout_of ip_checksum]; [done|].
    rewrite (view_ipck w4 false Hw4 eq_refl). by rewrite (set_ipck w4 false Hw4) by (done || apply length_to_be_bytes). }
  cbv zeta. rewrite E7. pose proof (view_ck w5 six Hw5) as E8. rewrite Hl in E8 by done. rewrite E8.
  change (w_ck w5) with (w_ck w). pose proof (set_ck w5 six Hw5 (new_ck w s d) ltac:(apply length_to_be_bytes)) as E9.
  rewrite Hl in E9 by done. unfold new_ck in E9. by rewrite E9.
Qed.

(** ** Parsing a view *)

Definition mk_ip (six : bool) (o : bytes) : IpAddr := if six then V6 o else V4 o.
Lemma mk_ip_octets a : mk_ip (is_v6 a) (octets a) = a.
Proof. by destruct a. Qed.

Lemma join_head w i : (i < length (w_head w))%nat -> join w !! i = w_head w !! i.
Proof. intros. unfold join. by apply lookup_app_l. Qed.

(** Whether a packet parses depends on its head and its length. *)
Lemma parse_set w w' six : view_ok w six -> parse (join w) = Some (Ok (layout_of w six)) ->
  w_head w' = w_head w -> w_opts w' = w_opts w -> length (join w') = length (join w) ->
  parse (join w') = Some (Ok (layout_of w' six)).
Proof.
  intros Hw Hp Hh Ho Hl. assert (forall i, (i < if six then 8 else 10)%nat -> join w' !! i = join w !! i) as Hi.
  { intros i Hi. pose proof (wo_head w six Hw). rewrite !join_head, Hh by (rewrite ?Hh; lia). done. }
  replace (layout_of w' six) with (layout_of w six) by (unfold layout_of; by rewrite Ho). rewrite <- Hp. unfold parse.
  rewrite (Hi 0%nat) by (destruct six; lia). destruct (join w !! 0%nat) as [first|] eqn:E0; [|done].
  revert Hp. unfold parse. rewrite E0, Hl. destruct (Z.shiftr first 4 =? 4) eqn:E4.
  - destruct six.
    { destruct (_ || _); [done|]. destruct (join w !! 9%nat); [|done]. by destruct (negb _). }
    rewrite (Hi 9%nat) by lia. done.
  - destruct (Z.shiftr first 4 =? 6); [|done]. destruct six; [by rewrite (Hi 6%nat) by lia|].
    destruct (_ <? _)%nat; [done|]. destruct (join w !! 6%nat); [|done]. by destruct (negb _).
Qed.

Lemma tcp_header_view w six : view_ok w six -> parse (join w) = Some (Ok (layout_of w six)) ->
  exists f, w_mid w !! 9%nat = Some f /\ tcp_header (join w) =
    Some (Ok (mk_sock (mk_ip six (w_src w)) (from_be_bytes (w_sport w)), mk_sock (mk_ip six (w_dst w)) (from_be_bytes (w_dport w)), f)).
Proof.
  intros Hw Hp. destruct (view_flags w six Hw) as (f & Hf & Hm). exists f. split; [done|]. unfold tcp_header. rewrite Hp.
  destruct (view_ports w six Hw) as (_ & _ & -> & ->). rewrite Hf.
  pose proof (view_src w six Hw) as Es. pose proof (view_dst w six Hw) as Ed. unfold read_ip. destruct six; cbn in *; by rewrite Es, Ed.
Qed.

(** ** Checksums of a view *)

Lemma wsum_word x : length x = 2%nat -> wsum x = from_be_bytes x.
Proof. destruct x as [|a [|b [|]]]; try done. intros _. cbn. lia. Qed.
Lemma wsum_be16 v : is_u16 v -> wsum (to_be_bytes 2 v) = v.
Proof. intros Hv. rewrite wsum_word by apply length_to_be_bytes. by apply from_to_be_bytes_small. Qed.

Lemma pseudo_sum src dst proto n : ip_ok src -> ip_ok dst -> is_v6 src = is_v6 dst -> is_u8 proto -> Z.of_nat n <= 2 ^ 20 ->
  pseudo_header_sum src dst proto n = wsum (octets src) + wsum (octets dst) + proto + Z.of_nat n /\
  wsum (octets src) + wsum (octets dst) + proto + Z.of_nat n < 2 ^ 22.
Proof.
  intros [Hs Ls] [Hd Ld] Ev Hp Hn. pose proof (wsum_bound _ Hs) as Bs. pose proof (wsum_bound _ Hd) as Bd.
  assert (length (octets src) <= 16 /\ length (octets dst) <= 16)%nat as [? ?] by (destruct src, dst; lia).
  assert (wsum (octets src) <= 65535 * 8 /\ wsum (octets dst) <= 65535 * 8) as [? ?].
  { assert (forall k, (k <= 16)%nat -> Z.of_nat ((k + 1) / 2) <= 8) as Hk by (intros; lia). pose proof (Hk (length (octets src))). pose proof (Hk (length (octets dst))). lia. }
  unfold pseudo_header_sum. rewrite Ev, eqb_reflx. unfold fits in Hp. change (2 ^ 8) with 256 in Hp. change (2 ^ 20) with 1048576 in Hn. change (2 ^ 22) with 4194304.
  rewrite (sum16_spec (octets src)), (sum16_spec (octets dst)) by (done || lia). unfold wrap. change (2 ^ 32) with 4294967296.
  destruct Bs as [Bs _], Bd as [Bd _]. rewrite (Z.mod_small (Z.of_nat n)), (Z.mod_small (_ + proto)), Z.mod_small by lia. split; lia.
Qed.

Definition ip_valid (pkt : bytes) (l : Layout) : Prop := v6 l = false -> valid (take (tcp l) pkt) 0.
Definition l4_valid (pkt : bytes) (l4 : nat) (src dst : IpAddr) (proto : Z) : Prop :=
  valid (drop l4 pkt) (pseudo_header_sum src dst proto (length pkt - l4)).

Section Sums.
Context (w : view) (six : bool) (Hw : view_ok w six).

Definition header (w : view) : bytes := w_head w ++ w_ipck w ++ w_src w ++ w_dst w ++ w_opts w.
Definition segment (w : view) : bytes := w_sport w ++ w_dport w ++ w_mid w ++ w_ck w ++ w_rest w.

Lemma packet_join_split : join w = header w ++ segment w.
Proof. unfold join, header, segment. by rewrite <- !app_assoc. Qed.
Lemma length_header : length (header w) = tcp (layout_of w six).
Proof. unfold header. field_pos. Qed.
Lemma take_header : take (tcp (layout_of w six)) (join w) = header w.
Proof. rewrite packet_join_split, <- length_header. apply take_app_length. Qed.
Lemma drop_header : drop (tcp (layout_of w six)) (join w) = segment w.
Proof. rewrite packet_join_split, <- length_header. apply drop_app_length. Qed.

Lemma wsum_header : wsum (header w) = wsum (w_head w) + wsum (w_ipck w) + wsum (w_src w) + wsum (w_dst w) + wsum (w_opts w).
Proof.
  destruct Hw as [H1 H2 H3 H4 [H5 _] _ _ _]. unfold header.
  rewrite !wsum_app; [lia|rewrite ?H1, ?H2, ?H3, ?H4; by destruct six..].
Qed.
Lemma wsum_segment : wsum (segment w) =
  from_be_bytes (w_sport w) + from_be_bytes (w_dport w) + wsum (w_mid w) + from_be_bytes (w_ck w) + wsum (w_rest w).
Proof.
  destruct Hw as [_ _ _ _ _ [H5 H6] H7 H8]. unfold segment.
  rewrite !wsum_app; [rewrite (wsum_word (w_sport w)), (wsum_word (w_dport w)), (wsum_word (w_ck w)) by done; lia|by rewrite ?H5, ?H6, ?H7, ?H8..].
Qed.
End Sums.


(** Replacing two 16-bit aligned fields and fixing the checksum incrementally. *)
Lemma ip_valid_rewritten w s d : view_ok w false -> bytes_ok (join w) -> Z.of_nat (length (join w)) <= MAX_PACKET ->
  0 < wsum (w_head w) -> sock_ok s -> sock_ok d -> is_ipv6 s = false -> is_ipv6 d = false ->
  valid (header w) 0 -> valid (header (rewritten w false s d)) 0.
Proof.
  intros Hw Hb Hl Hh [Hs _] [Hd _] Es Ed Hv. pose proof (octets_len _ _ Hs Es) as Ls. pose proof (octets_len _ _ Hd Ed) as Ld.
  rewrite (packet_join_split w) in Hb, Hl. apply Forall_app in Hb as [Hbh _]. rewrite length_app in Hl.
  assert (view_ok (rewritten w false s d) false) as Hw'.
  { pose proof Hw as [? E ? ? ? ? ? ?]. apply (view_ok_set w); rewrite ?length_to_be_bytes, ?E; congruence || done. }
  pose proof Hbh as Hbs. unfold header in Hbs. repeat (apply Forall_app in Hbs as [? Hbs]).
  destruct Hs as [Hs _], Hd as [Hd _].
  pose proof (wo_src w false Hw) as Lws. pose proof (wo_dst w false Hw) as Lwd. pose proof (wo_ipck w false Hw) as Lck. cbn in Lws, Lwd, Lck.
  assert (is_u16 (from_be_bytes (w_ipck w))) as Hc by (pose proof (from_be_bytes_bound (w_ipck w) ltac:(done)) as B; rewrite Lck in B; exact B).
  destruct (csum_replace_spec (w_src w) (octets (ip s)) (from_be_bytes (w_ipck w))) as [Hr1 M1]; [congruence|by rewrite Lws|done..|].
  destruct (csum_replace_spec (w_dst w) (octets (ip d)) (csum_replace (from_be_bytes (w_ipck w)) (w_src w) (octets (ip s)))) as [Hr2 M2];
    [congruence|by rewrite Lwd|done..|].
  assert (bytes_ok (header (rewritten w false s d))) as Hb'.
  { unfold header. cbn [rewritten w_head w_ipck w_src w_dst w_opts new_ipck]. repeat (apply Forall_app_2; [done || apply to_be_bytes_ok|]). done. }
  assert (length (header (rewritten w false s d)) = length (header w)) as Hlen
    by (rewrite (length_header _ _ Hw), (length_header _ _ Hw'); done).
  pose proof (wsum_small _ Hbh ltac:(lia)) as B1. pose proof (wsum_small _ Hb' ltac:(rewrite Hlen; lia)) as B2.
  apply valid_iff in Hv as [_ Hv]; [|done|done|lia]. apply valid_iff; [done|done|lia|].
  rewrite (wsum_header _ _ Hw) in Hv. rewrite (wsum_header _ _ Hw'). cbn [rewritten w_head w_ipck w_src w_dst w_opts new_ipck].
  rewrite wsum_be16 by done. rewrite (wsum_word (w_ipck w) Lck) in Hv.
  pose proof (wsum_bound (w_opts w) ltac:(done)) as [? _]. pose proof (wsum_bound _ Hs) as [? _]. pose proof (wsum_bound _ Hd) as [? _].
  unfold fits in Hr2. split; [lia|]. clear -Hv M1 M2. lia.
Qed.

Lemma mk_ip_ok (six : bool) (o : bytes) : bytes_ok o -> length o = (if six then 16 else 4)%nat -> ip_ok (mk_ip six o) /\ is_v6 (mk_ip six o) = six /\ octets (mk_ip six o) = o.
Proof. destruct six; split; done. Qed.

(** The new TCP checksum, modulo 65535. *)
Lemma new_ck_mod w six s d : view_ok w six -> bytes_ok (w_src w) -> bytes_ok (w_dst w) -> bytes_ok (w_sport w) -> bytes_ok (w_dport w) -> bytes_ok (w_ck w) ->
  sock_ok s -> sock_ok d -> is_ipv6 s = six -> is_ipv6 d = six ->
  exists c, new_ck w s d = to_be_bytes 2 c /\ is_u16 c /\
    c mod 65535 = (from_be_bytes (w_ck w) + wsum (w_src w) + wsum (w_dst w) + from_be_bytes (w_sport w) + from_be_bytes (w_dport w)
      - wsum (octets (ip s)) - wsum (octets (ip d)) - port s - port d) mod 65535.
Proof.
  intros [_ _ L1 L2 _ [L3 L4] _ L5] B1 B2 B3 B4 B5 [[Bs Ls] Ps] [[Bd Ld] Pd] Es Ed.
  pose proof (octets_len _ _ (conj Bs Ls) Es) as Los. pose proof (octets_len _ _ (conj Bd Ld) Ed) as Lod.
  assert (is_u16 (from_be_bytes (w_ck w))) as Hc by (pose proof (from_be_bytes_bound (w_ck w) B5) as B; rewrite L5 in B; exact B).
  unfold new_ck. eexists. split; [reflexivity|].
  destruct (csum_replace_spec (w_src w) (octets (ip s)) (from_be_bytes (w_ck w))) as [R1 M1]; [congruence|rewrite L1; by destruct six|done..|].
  set (c1 := csum_replace _ (w_src w) _) in *. clearbody c1.
  destruct (csum_replace_spec (w_dst w) (octets (ip d)) c1) as [R2 M2]; [congruence|rewrite L2; by destruct six|done..|].
  set (c2 := csum_replace _ (w_dst w) _) in *. clearbody c2.
  destruct (csum_replace_spec (w_sport w) (to_be_bytes 2 (port s)) c2) as [R3 M3]; [by rewrite length_to_be_bytes|by rewrite L3|done|apply to_be_bytes_ok|done|].
  set (c3 := csum_replace _ (w_sport w) _) in *. clearbody c3.
  destruct (csum_replace_spec (w_dport w) (to_be_bytes 2 (port d)) c3) as [R4 M4]; [by rewrite length_to_be_bytes|by rewrite L4|done|apply to_be_bytes_ok|done|].
  split; [exact R4|]. rewrite M4. rewrite (wsum_word (w_dport w)), (wsum_be16 (port d)) by done.
  rewrite (wsum_word (w_sport w)), (wsum_be16 (port s)) in M3 by done. clear -M1 M2 M3. lia.
Qed.

Lemma tcp_valid_rewritten w six s d : view_ok w six -> bytes_ok (join w) -> Z.of_nat (length (join w)) <= MAX_PACKET ->
  sock_ok s -> sock_ok d -> is_ipv6 s = six -> is_ipv6 d = six ->
  valid (segment w) (pseudo_header_sum (mk_ip six (w_src w)) (mk_ip six (w_dst w)) PROTO_TCP (length (segment w))) ->
  valid (segment (rewritten w six s d)) (pseudo_header_sum (ip s) (ip d) PROTO_TCP (length (segment w))).
Proof.
  intros Hw Hb Hl Hs Hd Es Ed Hv. rewrite (packet_join_split w) in Hb, Hl. rewrite length_app in Hl.
  apply Forall_app in Hb as [Hbh Hbt]. pose proof Hbh as Hbs. pose proof Hbt as Hbp. unfold header in Hbs. unfold segment in Hbp.
  apply Forall_app in Hbs as [_ Hbs]. apply Forall_app in Hbs as [_ Hbs]. apply Forall_app in Hbs as [Bs1 Hbs]. apply Forall_app in Hbs as [Bd1 _].
  apply Forall_app in Hbp as [Bsp Hbp]. apply Forall_app in Hbp as [Bdp Hbp]. apply Forall_app in Hbp as [Bm Hbp]. apply Forall_app in Hbp as [Bck Br].
  destruct (new_ck_mod w six s d Hw) as (c & Ec & Hc & Mc); [done..|].
  destruct (mk_ip_ok six (w_src w) Bs1 (wo_src _ _ Hw)) as (K1 & K2 & K3). destruct (mk_ip_ok six (w_dst w) Bd1 (wo_dst _ _ Hw)) as (K4 & K5 & K6).
  assert (view_ok (rewritten w six s d) six) as Hw'.
  { pose proof Hw as [L1 L2 L3 L4 L5 L6 L7 L8]. apply (view_ok_set w); rewrite ?L3, ?L4; try done;
      [by apply octets_len; [apply Hs|]|by apply octets_len; [apply Hd|]|].
    unfold new_ipck. destruct six; [done|by rewrite length_to_be_bytes]. }
  destruct (pseudo_sum (mk_ip six (w_src w)) (mk_ip six (w_dst w)) PROTO_TCP (length (segment w))) as [P1 Q1]; [done|done|congruence|done|unfold MAX_PACKET in Hl; lia|].
  destruct (pseudo_sum (ip s) (ip d) PROTO_TCP (length (segment w))) as [P2 Q2]; [apply Hs|apply Hd|unfold is_ipv6 in *; congruence|done|unfold MAX_PACKET in Hl; lia|].
  rewrite P1, K3, K6 in *. rewrite P2. destruct Hs as [[Bs _] Ps], Hd as [[Bd _] Pd].
  assert (bytes_ok (segment (rewritten w six s d))) as Hb'.
  { unfold segment. cbn [rewritten w_sport w_dport w_mid w_ck w_rest]. rewrite Ec.
    repeat (apply Forall_app_2; [done || apply to_be_bytes_ok|]). done. }
  assert (length (segment (rewritten w six s d)) = length (segment w)) as Hlen.
  { unfold segment. cbn [rewritten w_sport w_dport w_mid w_ck w_rest]. rewrite Ec, !length_app, !length_to_be_bytes.
    destruct Hw as [_ _ _ _ _ [-> ->] _ ->]. done. }
  pose proof (wsum_small _ Hbt ltac:(lia)) as W1. pose proof (wsum_small _ Hb' ltac:(rewrite Hlen; lia)) as W2.
  pose proof (wsum_bound _ Bs) as [Z1 _]. pose proof (wsum_bound _ Bd) as [Z2 _].
  apply valid_iff in Hv as [_ Hv]; [|done|pose proof (wsum_bound _ Bs1); pose proof (wsum_bound _ Bd1); unfold PROTO_TCP in *; lia|lia].
  apply valid_iff; [done|unfold PROTO_TCP; lia|lia|]. split; [unfold PROTO_TCP; lia|].
  rewrite (wsum_segment _ _ Hw) in Hv. rewrite (wsum_segment _ _ Hw'). cbn [rewritten w_sport w_dport w_mid w_ck w_rest]. rewrite Ec.
  rewrite !from_to_be_bytes_small by done. clear -Hv Mc. lia.
Qed.

Lemma rewritten_ok w six s d : view_ok w six -> ip_ok (ip s) -> ip_ok (ip d) -> is_ipv6 s = six -> is_ipv6 d = six ->
  view_ok (rewritten w six s d) six /\ length (join (rewritten w six s d)) = length (join w).
Proof.
  intros Hw Hs Hd Es Ed. pose proof (octets_len _ _ Hs Es) as Ls. pose proof (octets_len _ _ Hd Ed) as Ld. pose proof Hw as [L1 L2 L3 L4 L5 L6 L7 L8]. split.
  - apply (view_ok_set w); rewrite ?L3, ?L4; try done. unfold new_ipck. destruct six; [done|by rewrite length_to_be_bytes].
  - unfold join, new_ck. cbn [rewritten w_head w_ipck w_src w_dst w_opts w_sport w_dport w_mid w_ck w_rest]. unfold new_ck. rewrite !length_app, !length_to_be_bytes.
    rewrite L3, L4, Ls, Ld, (proj1 L6), (proj2 L6), L8. unfold new_ipck. destruct six; [done|]. rewrite length_to_be_bytes, L2. done.
Qed.

Lemma parse_first pkt l : bytes_ok pkt -> parse pkt = Some (Ok l) -> exists f, pkt !! 0%nat = Some f /\ 0 < f.
Proof.
  intros Hb. unfold parse. destruct (pkt !! 0%nat) as [f|] eqn:E; [|done]. intros H. exists f. split; [done|].
  assert (is_byte f) as Hf by (eapply Forall_lookup_1; done). rewrite !shiftr_div in H by lia. change (2 ^ 4) with 16 in H. unfold fits in Hf.
  destruct (Z.eqb_spec (f / 16) 4); [lia|]. destruct (Z.eqb_spec (f / 16) 6); [lia|done].
Qed.
Lemma wsum_pos data f : bytes_ok data -> data !! 0%nat = Some f -> 0 < f -> 0 < wsum data.
Proof.
  intros Hb. destruct data as [|a [|b l]]; [done|..]; intros [= ->] Hf; cbn [wsum]; [lia|]. inv_Forall.
  pose proof (wsum_bound l ltac:(done)). unfold fits in *. change (2 ^ 8) with 256 in *. lia.
Qed.

(** The byte is not of an address, a port or a checksum. *)
Definition kept (l : Layout) (i : nat) : Prop :=
  ~ (ip_src l <= i < ip_src l + addr_len l)%nat /\ ~ (ip_dst l <= i < ip_dst l + addr_len l)%nat /\
  (forall off, ip_checksum l = Some off -> ~ (off <= i < off + 2)%nat) /\
  ~ (tcp l <= i < tcp l + 4)%nat /\ ~ (tcp l + 16 <= i < tcp l + 18)%nat.

Lemma app_lookup_cong (a b x y : bytes) i : length a = length b -> ((i < length a)%nat -> a !! i = b !! i) ->
  ((length a <= i)%nat -> x !! (i - length a)%nat = y !! (i - length a)%nat) -> (a ++ x) !! i = (b ++ y) !! i.
Proof.
  intros Hl Ha Hx. destruct (Nat.lt_ge_cases i (length a)) as [Hi|Hi]; [rewrite !lookup_app_l by lia; by apply Ha|].
  rewrite !lookup_app_r by lia. rewrite <- Hl. by apply Hx.
Qed.

(** Packets that differ in their addresses, ports and checksums agree on every other byte. *)
Lemma view_keep w w' six i : view_ok w six -> view_ok w' six -> w_head w' = w_head w -> w_opts w' = w_opts w -> w_mid w' = w_mid w -> w_rest w' = w_rest w ->
  kept (layout_of w six) i -> join w' !! i = join w !! i.
Proof.
  intros [A1 A2 A3 A4 [_ A5] [A6 A6'] A7 A8] [B1 B2 B3 B4 _ [B6 B6'] B7 B8] E1 E2 E3 E4 (K1 & K2 & K3 & K4 & K5).
  unfold join. rewrite E1, E2, E3, E4. unfold layout_of in *.
  assert (length (w_opts w) = if six then 0 else length (w_opts w))%nat as Ho by (destruct six; [by rewrite A5|done]).
  destruct six; [clear K3|specialize (K3 10%nat eq_refl)]; cbn [ip_src ip_dst addr_len tcp] in *;
    repeat (apply app_lookup_cong; [congruence|intros; solve [done|lia]|intros]); done.
Qed.

(** A packet with a TCP header, cut at its fields. *)
Lemma header_view pkt src dst flags : tcp_header pkt = Some (Ok (src, dst, flags)) ->
  exists w, let six := is_ipv6 src in pkt = join w /\ view_ok w six /\ parse (join w) = Some (Ok (layout_of w six)) /\
    src = mk_sock (mk_ip six (w_src w)) (from_be_bytes (w_sport w)) /\ dst = mk_sock (mk_ip six (w_dst w)) (from_be_bytes (w_dport w)) /\
    w_mid w !! 9%nat = Some flags.
Proof.
  intros Hh. destruct (parse pkt) as [[l|]|] eqn:Hp; [|unfold tcp_header in Hh; by rewrite Hp in Hh..].
  destruct (parse_view pkt l Hp) as (w & -> & Hw & El). set (six := v6 l) in *. clearbody six. subst l.
  destruct (tcp_header_view w six Hw Hp) as (f & Hf & E). rewrite E in Hh. apply (inj Some), Ok_inj in Hh. injection Hh as <- <- <-.
  exists w. cbv zeta. assert (is_ipv6 (mk_sock (mk_ip six (w_src w)) (from_be_bytes (w_sport w))) = six) as -> by by destruct six. done.
Qed.

Lemma header_ok pkt src dst flags : bytes_ok pkt -> tcp_header pkt = Some (Ok (src, dst, flags)) ->
  sock_ok src /\ sock_ok dst /\ is_ipv6 dst = is_ipv6 src.
Proof.
  intros Hb Hh. destruct (header_view _ _ _ _ Hh) as (w & -> & Hw & _ & E1 & E2 & _). set (six := is_ipv6 src) in *. clearbody six.
  unfold join in Hb. repeat (apply Forall_app in Hb as [? Hb]). pose proof Hw as [_ _ L1 L2 _ [L3 L4] _ _].
  assert (forall x, bytes_ok x -> length x = 2%nat -> is_u16 (from_be_bytes x)) as Hu by (intros x Bx Lx; pose proof (from_be_bytes_bound x Bx) as B; by rewrite Lx in B).
  subst. unfold sock_ok, is_ipv6. cbn [ip port]. split_and!; try (by apply Hu); try (by apply mk_ip_ok); by destruct six.
Qed.

(** Rewriting such a packet replaces its endpoints. *)
Lemma rewrite_header w six s d f : view_ok w six -> parse (join w) = Some (Ok (layout_of w six)) -> w_mid w !! 9%nat = Some f ->
  sock_ok s -> sock_ok d -> is_ipv6 s = six -> is_ipv6 d = six ->
  rewrite_tcp (join w) s d = Some (Ok (join (rewritten w six s d))) /\
  parse (join (rewritten w six s d)) = Some (Ok (layout_of w six)) /\
  tcp_header (join (rewritten w six s d)) = Some (Ok (s, d, f)).
Proof.
  intros Hw Hp Hf Hs Hd Es Ed. destruct (rewritten_ok w six s d Hw (proj1 Hs) (proj1 Hd) Es Ed) as [Hw' Hl'].
  pose proof (parse_set w (rewritten w six s d) six Hw Hp eq_refl eq_refl Hl') as Hp'.
  split; [by apply rewrite_tcp_view; [..|apply Hs|apply Hd| |]|]. split; [exact Hp'|].
  destruct (tcp_header_view _ six Hw' Hp') as (f' & Hf' & ->). assert (f' = f) as -> by (cbn [rewritten w_mid] in Hf'; congruence).
  cbn [rewritten w_src w_dst w_sport w_dport]. rewrite !from_to_be_bytes_small by (apply Hs || apply Hd).
  unfold is_ipv6 in Es, Ed. rewrite <- Es at 1. rewrite <- Ed. rewrite !mk_ip_octets. by destruct s, d.
Qed.

(** C39: rewriting the 4-tuple is transparent.  For any TCP packet and any new
    endpoints of its family, [rewrite_tcp] succeeds; the result parses to exactly the
    new endpoints with the same flags; every byte of the packet, its IP header included, that is not of an address, a port, the IPv4
    header checksum or the TCP checksum is kept; and where the IPv4 header checksum and the TCP checksum were valid, the
    incrementally updated ones are valid. *)
Theorem rewrite_tcp_correct pkt src dst flags s d :
  bytes_ok pkt -> Z.of_nat (length pkt) <= MAX_PACKET -> tcp_header pkt = Some (Ok (src, dst, flags)) ->
  sock_ok s -> sock_ok d -> is_ipv6 s = is_ipv6 src -> is_ipv6 d = is_ipv6 src ->
  exists l pkt', parse pkt = Some (Ok l) /\ parse pkt' = Some (Ok l) /\
    rewrite_tcp pkt s d = Some (Ok pkt') /\ tcp_header pkt' = Some (Ok (s, d, flags)) /\ length pkt' = length pkt /\
    (forall i, kept l i -> pkt' !! i = pkt !! i) /\
    (ip_valid pkt l -> ip_valid pkt' l) /\
    (l4_valid pkt (tcp l) (ip src) (ip dst) PROTO_TCP -> l4_valid pkt' (tcp l) (ip s) (ip d) PROTO_TCP).
Proof.
  intros Hb Hlen Hh Hs Hd Es Ed. destruct (header_view _ _ _ _ Hh) as (w & -> & Hw & Hp & E1 & E2 & Hf).
  set (six := is_ipv6 src) in *. clearbody six. subst src dst. cbn [ip].
  destruct (rewrite_header w six s d flags Hw Hp Hf Hs Hd Es Ed) as (Hr & Hp' & Hh').
  destruct (rewritten_ok w six s d Hw (proj1 Hs) (proj1 Hd) Es Ed) as [Hw' Hl'].
  exists (layout_of w six), (join (rewritten w six s d)). split; [done|]. split; [exact Hp'|]. split; [exact Hr|].
  set (w' := rewritten w six s d) in *. split; [exact Hh'|].
  split; [exact Hl'|]. split; [intros i; by apply view_keep|]. replace (layout_of w six) with (layout_of w' six) by done. split.
  - unfold ip_valid. intros Hv E0. destruct six; [done|]. specialize (Hv eq_refl).
    change (layout_of w' false) with (layout_of w false) in Hv. rewrite (take_header w false Hw) in Hv. rewrite (take_header w' false Hw').
    destruct (parse_first _ _ Hb Hp) as (f0 & Hf0 & Hpos). apply ip_valid_rewritten; try done.
    eapply (wsum_pos _ f0); [unfold join in Hb; by apply Forall_app in Hb as [? _]|rewrite <- Hf0; symmetry; apply join_head; rewrite (wo_head _ _ Hw); lia|done].
  - unfold l4_valid. change (layout_of w' six) with (layout_of w six). rewrite (drop_header w six Hw).
    replace (drop (tcp (layout_of w six)) (join w')) with (segment w') by (symmetry; apply (drop_header w' six Hw')).
    rewrite Hl'. replace (length (join w) - tcp (layout_of w six))%nat with (length (segment w))
      by (rewrite packet_join_split, length_app, (length_header w six Hw); lia).
    by apply tcp_valid_rewritten.
Qed.

(** ** No access is out of range *)

Lemma read_some (pkt : bytes) a b : (a <= b <= length pkt)%nat -> is_Some (slice_get pkt a b).
Proof. intros. unfold slice_get. rewrite !(proj2 (Nat.leb_le _ _)) by lia. by eexists. Qed.
Lemma be16_some pkt i : (i + 2 <= length pkt)%nat -> is_Some (be16 pkt i).
Proof.
  intros. unfold be16. destruct (lookup_lt_is_Some_2 pkt i) as [a ->]; [lia|]. destruct (lookup_lt_is_Some_2 pkt (S i)) as [b ->]; [lia|]. by eexists.
Qed.
Lemma read_ip_some pkt off len : (off + (if (len =? 4)%nat then 4 else 16) <= length pkt)%nat -> is_Some (read_ip pkt off len).
Proof. intros. unfold read_ip. destruct (len =? 4)%nat; apply fmap_is_Some, read_some; lia. Qed.

Lemma parse_some pkt : is_Some (parse pkt).
Proof.
  unfold parse. destruct (pkt !! 0%nat) as [f|]; [|by eexists]. destruct (Z.shiftr f 4 =? 4).
  - destruct (Nat.ltb_spec (ihl_of f) 20); [by eexists|]. destruct (Nat.ltb_spec (length pkt) (ihl_of f + 20)); [by eexists|]. cbn [orb].
    destruct (lookup_lt_is_Some_2 pkt 9) as [x ->]; [lia|]. by destruct (negb _); eexists.
  - destruct (Z.shiftr f 4 =? 6); [|by eexists]. destruct (Nat.ltb_spec (length pkt) (40 + 20)); [by eexists|].
    destruct (lookup_lt_is_Some_2 pkt 6) as [x ->]; [lia|]. by destruct (negb _); eexists.
Qed.

Lemma tcp_header_some pkt : is_Some (tcp_header pkt).
Proof.
  destruct (parse_some pkt) as [[l|e] Hp]; [|unfold tcp_header; rewrite Hp; by eexists].
  destruct (parse_view pkt l Hp) as (w & -> & Hw & El). rewrite El in Hp.
  destruct (tcp_header_view w (v6 l) Hw Hp) as (f & _ & ->). by eexists.
Qed.

Lemma udp_layout_bounds pkt : match udp_layout pkt with
  | Some (Ok (a, b, n, l4)) => (a + n <= 40 /\ b + n <= l4 /\ a <= b /\ l4 + 8 <= length pkt /\ (n = 4 \/ n = 16))%nat
  | Some (Err _) => True
  | None => False
  end.
Proof.
  unfold udp_layout. destruct (pkt !! 0%nat) as [f|]; [|done]. destruct (Z.shiftr f 4 =? 4).
  - destruct (Nat.ltb_spec (ihl_of f) 20); [done|]. destruct (Nat.ltb_spec (length pkt) (ihl_of f + 8)); [done|]. cbn [orb].
    destruct (lookup_lt_is_Some_2 pkt 9) as [x ->]; [lia|]. destruct (negb _); [done|]. lia.
  - destruct (Z.shiftr f 4 =? 6); [|done]. destruct (Nat.ltb_spec (length pkt) (40 + 8)); [done|].
    destruct (lookup_lt_is_Some_2 pkt 6) as [x ->]; [lia|]. destruct (negb _); [done|]. lia.
Qed.

(** no packet makes the parsers or the rewriter access a byte out of range. *)
Theorem packet_code_never_panics pkt s d : ip_ok (ip s) -> ip_ok (ip d) ->
  is_Some (tcp_header pkt) /\ is_Some (rewrite_tcp pkt s d) /\ is_Some (udp_endpoints pkt).
Proof.
  intros Hs Hd. split_and!.
  - apply tcp_header_some.
  - destruct (parse_some pkt) as [[l|e] Hp]; [|unfold rewrite_tcp; rewrite Hp; by eexists].
    destruct (parse_view pkt l Hp) as (w & -> & Hw & El). rewrite El in Hp.
    destruct (bool_decide (is_ipv6 s = v6 l /\ is_ipv6 d = v6 l)) eqn:E.
    + apply bool_decide_eq_true in E as [Es Ed]. rewrite (rewrite_tcp_view w (v6 l) s d Hw Hp Hs Hd Es Ed). by eexists.
    + apply bool_decide_eq_false in E. unfold rewrite_tcp. rewrite Hp. assert (v6 (layout_of w (v6 l)) = v6 l) as -> by by destruct (v6 l).
      destruct (Bool.eqb (is_ipv6 s) (v6 l)) eqn:E1; [|by eexists]. destruct (Bool.eqb (is_ipv6 d) (v6 l)) eqn:E2; [|by eexists].
      apply eqb_prop in E1, E2. by destruct E.
  - unfold udp_endpoints. pose proof (udp_layout_bounds pkt) as Hu. destruct (udp_layout pkt) as [[[[[a b] n] l4]|]|]; [|by eexists|done].
    destruct (read_ip_some pkt a n) as [x ->]; [destruct (n =? 4)%nat eqn:En; lia|]. destruct (be16_some pkt l4) as [y ->]; [lia|].
    destruct (read_ip_some pkt b n) as [x' ->]; [destruct (n =? 4)%nat eqn:En; lia|]. destruct (be16_some pkt (l4 + 2)) as [y' ->]; [lia|]. by eexists.
Qed.

(** ** UDP packets *)

(** The packet [build_udp] makes, with its two checksums. *)
Definition udp_head4 (n : nat) (ipck : bytes) : bytes :=
  [0x45; 0] ++ to_be_bytes 2 (Z.of_nat (20 + (8 + n))) ++ [0; 0; 0; 0; 64; 17] ++ ipck.
Definition udp_head6 (n : nat) : bytes := [0x60; 0; 0; 0] ++ to_be_bytes 2 (Z.of_nat (8 + n)) ++ [17; 64].
Definition udp_seg (sp dp : Z) (ck payload : bytes) : bytes :=
  to_be_bytes 2 sp ++ to_be_bytes 2 dp ++ to_be_bytes 2 (Z.of_nat (8 + length payload)) ++ ck ++ payload.
Definition udp_csum (src dst : SocketAddr) (payload : bytes) : Z :=
  let c := checksum (udp_seg (port src) (port dst) [0; 0] payload) (pseudo_header_sum (ip src) (ip dst) PROTO_UDP (8 + length payload)) in
  if c =? 0 then 0xFFFF else c.

Lemma replicate_split {A} (x : A) n m : replicate (n + m) x = replicate n x ++ replicate m x.
Proof. apply replicate_add. Qed.

(** The UDP header and payload over zeroed space. *)
Lemma fill_segment (hdr : bytes) l4 sp dp payload : length hdr = l4 ->
  (let! out := copy_at (hdr ++ replicate (8 + length payload) 0) l4 (to_be_bytes 2 sp) in
   let! out := copy_at out (l4 + 2) (to_be_bytes 2 dp) in
   let! out := copy_at out (l4 + 4) (to_be_bytes 2 (Z.of_nat (8 + length payload))) in
   copy_at out (l4 + 8) payload) = Some (hdr ++ udp_seg sp dp [0; 0] payload).
Proof.
  intros Hl. set (z := replicate (length payload) 0).
  assert (hdr ++ replicate (8 + length payload) 0 = hdr ++ [0; 0] ++ [0; 0] ++ [0; 0] ++ [0; 0] ++ z) as -> by done.
  rewrite (copy_at_app _ hdr [0; 0] (to_be_bytes 2 sp) ([0; 0] ++ [0; 0] ++ [0; 0] ++ z)) by (done || apply length_to_be_bytes).
  rewrite (copy_at_app _ (hdr ++ to_be_bytes 2 sp) [0; 0] (to_be_bytes 2 dp) ([0; 0] ++ [0; 0] ++ z))
    by (by rewrite <- !app_assoc || rewrite ?length_app, ?length_to_be_bytes; done || lia).
  set (ul := to_be_bytes 2 (Z.of_nat (8 + length payload))).
  assert (length ul = 2%nat) as Hul by apply length_to_be_bytes.
  rewrite (copy_at_app _ (hdr ++ to_be_bytes 2 sp ++ to_be_bytes 2 dp) [0; 0] ul ([0; 0] ++ z))
    by (by rewrite <- !app_assoc || rewrite ?length_app, ?length_to_be_bytes; done || lia).
  rewrite (copy_at_app _ (hdr ++ to_be_bytes 2 sp ++ to_be_bytes 2 dp ++ ul ++ [0; 0]) z payload []).
  - unfold udp_seg. fold ul. by rewrite app_nil_r, <- !app_assoc.
  - by rewrite app_nil_r, <- !app_assoc.
  - rewrite !length_app, !length_to_be_bytes, Hul. cbn. lia.
  - unfold z. by rewrite length_replicate.
Qed.

Lemma fill_csum (hdr : bytes) l4 sp dp payload ck : length hdr = l4 -> length ck = 2%nat ->
  copy_at (hdr ++ udp_seg sp dp [0; 0] payload) (l4 + 6) ck = Some (hdr ++ udp_seg sp dp ck payload).
Proof.
  intros Hl Hc. unfold udp_seg.
  rewrite (copy_at_app _ (hdr ++ to_be_bytes 2 sp ++ to_be_bytes 2 dp ++ to_be_bytes 2 (Z.of_nat (8 + length payload))) [0; 0] ck payload).
  - by rewrite <- !app_assoc.
  - by rewrite <- !app_assoc.
  - rewrite !length_app, !length_to_be_bytes. lia.
  - done.
Qed.

Lemma build_head4 n s d : length s = 4%nat -> length d = 4%nat ->
  (let out := replicate (20 + (8 + n)) 0 in
   let! out := copy_at out 0 [0x45] in
   let! out := copy_at out 2 (to_be_bytes 2 (Z.of_nat (20 + (8 + n)))) in
   let! out := copy_at out 8 [64] in
   let! out := copy_at out 9 [PROTO_UDP] in
   let! out := copy_at out 12 s in
   let! out := copy_at out 16 d in
   let! hdr := slice_get out 0 20 in
   let ipc := checksum hdr 0 in
   let! out := copy_at out 10 (to_be_bytes 2 ipc) in
   Some (Ok (E := RewriteError) (out, 20%nat))) =
  Some (Ok ((udp_head4 n (to_be_bytes 2 (checksum (udp_head4 n [0; 0] ++ s ++ d) 0)) ++ s ++ d) ++ replicate (8 + n) 0, 20%nat)).
Proof.
  intros Hs Hd. rewrite (replicate_split 0 20). unfold udp_head4.
  pose proof (length_to_be_bytes 2 (Z.of_nat (20 + (8 + n)))) as Ht. set (t := to_be_bytes 2 (Z.of_nat (20 + (8 + n)))) in *. clearbody t.
  destruct t as [|t1 [|t2 [|]]]; try done. destruct s as [|s1 [|s2 [|s3 [|s4 [|]]]]]; try done. destruct d as [|d1 [|d2 [|d3 [|d4 [|]]]]]; try done.
Qed.

Lemma build_head6 n s d : length s = 16%nat -> length d = 16%nat ->
  (let out := replicate (40 + (8 + n)) 0 in
   let! out := copy_at out 0 [0x60] in
   let! out := copy_at out 4 (to_be_bytes 2 (Z.of_nat (8 + n))) in
   let! out := copy_at out 6 [PROTO_UDP] in
   let! out := copy_at out 7 [64] in
   let! out := copy_at out 8 s in
   let! out := copy_at out 24 d in
   Some (Ok (E := RewriteError) (out, 40%nat))) =
  Some (Ok ((udp_head6 n ++ s ++ d) ++ replicate (8 + n) 0, 40%nat)).
Proof.
  intros Hs Hd. rewrite (replicate_split 0 40). unfold udp_head6.
  pose proof (length_to_be_bytes 2 (Z.of_nat (8 + n))) as Ht. set (t := to_be_bytes 2 (Z.of_nat (8 + n))) in *. clearbody t.
  destruct t as [|t1 [|t2 [|]]]; [done..| |done]. set (z := replicate (8 + n) 0). clearbody z.
  assert (replicate 40 0 ++ z = replicate 8 0 ++ replicate 16 0 ++ replicate 16 0 ++ z) as -> by done.
  cbv zeta. set (z16 := replicate 16 0). assert (length z16 = 16%nat) as Hz by done. clearbody z16.
  assert (copy_at ([0x60; 0; 0; 0; t1; t2; PROTO_UDP; 64] ++ z16 ++ z16 ++ z) 8 s = Some ([0x60; 0; 0; 0; t1; t2; PROTO_UDP; 64] ++ s ++ z16 ++ z)) as E1
    by (apply copy_at_app with z16; [done|done|lia]).
  assert (copy_at ([0x60; 0; 0; 0; t1; t2; PROTO_UDP; 64] ++ s ++ z16 ++ z) 24 d = Some (([0x60; 0; 0; 0; t1; t2; PROTO_UDP; 64] ++ s) ++ d ++ z)) as E2
    by (apply copy_at_app with z16; [by rewrite <- !app_assoc|len|lia]).
  assert ((let! out := copy_at (replicate 8 0 ++ z16 ++ z16 ++ z) 0 [0x60] in
    let! out := copy_at out 4 [t1; t2] in let! out := copy_at out 6 [PROTO_UDP] in copy_at out 7 [64])
    = Some ([0x60; 0; 0; 0; t1; t2; PROTO_UDP; 64] ++ z16 ++ z16 ++ z)) as E0 by done.
  destruct (copy_at _ 0 _) as [o1|]; [|done]. destruct (copy_at o1 4 _) as [o2|]; [|done]. destruct (copy_at o2 6 _) as [o3|]; [|done].
  rewrite E0, E1, E2. by rewrite <- !app_assoc.
Qed.

(** What [build_udp] makes of two addresses of one family. *)
Lemma build_udp_eq src dst payload : ip_ok (ip src) -> ip_ok (ip dst) -> is_ipv6 src = is_ipv6 dst ->
  build_udp src dst payload = Some (Ok (
    (if is_ipv6 src then udp_head6 (length payload)
     else udp_head4 (length payload) (to_be_bytes 2 (checksum (udp_head4 (length payload) [0; 0] ++ octets (ip src) ++ octets (ip dst)) 0))) ++
    octets (ip src) ++ octets (ip dst) ++ udp_seg (port src) (port dst) (to_be_bytes 2 (udp_csum src dst payload)) payload)).
Proof.
  intros [_ Ls] [_ Ld] E. unfold build_udp. rewrite E, eqb_reflx. cbn [negb]. destruct src as [a sp], dst as [b dp]. unfold is_ipv6 in *. cbn [ip port] in *.
  assert (forall hdr l4, length hdr = l4 ->
    (let! out := copy_at (hdr ++ replicate (8 + length payload) 0) l4 (to_be_bytes 2 sp) in
     let! out := copy_at out (l4 + 2) (to_be_bytes 2 dp) in
     let! out := copy_at out (l4 + 4) (to_be_bytes 2 (Z.of_nat (8 + length payload))) in
     let! out := copy_at out (l4 + 8) payload in
     let pseudo := pseudo_header_sum a b PROTO_UDP (8 + length payload) in
     let csum := checksum (drop l4 out) pseudo in
     let csum := if csum =? 0 then 0xFFFF else csum in
     let! out := copy_at out (l4 + 6) (to_be_bytes 2 csum) in
     Some (Ok (E := RewriteError) out)) =
    Some (Ok (hdr ++ udp_seg sp dp (to_be_bytes 2 (udp_csum (mk_sock a sp) (mk_sock b dp) payload)) payload))) as Hfill.
  { intros hdr l4 Hl. pose proof (fill_segment hdr l4 sp dp payload Hl) as Hs.
    destruct (copy_at _ l4 _) as [o1|]; [|done]. destruct (copy_at o1 _ _) as [o2|]; [|done]. destruct (copy_at o2 _ _) as [o3|]; [|done].
    rewrite Hs. cbv zeta. rewrite (drop_app_length' hdr) by done. rewrite (fill_csum hdr l4) by (done || apply length_to_be_bytes). done. }
  destruct a as [s|s], b as [d|d]; cbn [is_v6 octets] in *; try done.
  - pose proof (build_head4 (length payload) s d Ls Ld) as Hh. cbv zeta in Hh, Hfill |- *. rewrite Hh, Hfill; [by rewrite <- !app_assoc|]. unfold udp_head4. rewrite !length_app, !length_to_be_bytes. cbn. lia.
  - pose proof (build_head6 (length payload) s d Ls Ld) as Hh. cbv zeta in Hh, Hfill |- *. rewrite Hh, Hfill; [by rewrite <- !app_assoc|]. unfold udp_head6. rewrite !length_app, !length_to_be_bytes. cbn. lia.
Qed.

Lemma length_seg sp dp ck payload : length ck = 2%nat -> length (udp_seg sp dp ck payload) = (8 + length payload)%nat.
Proof. intros H. unfold udp_seg. rewrite !length_app, !length_to_be_bytes, H. lia. Qed.

Lemma udp_layout4 n ipck s d rest : length ipck = 2%nat -> length s = 4%nat -> length d = 4%nat -> (8 <= length rest)%nat ->
  udp_layout (udp_head4 n ipck ++ s ++ d ++ rest) = Some (Ok (12, 16, 4, 20)%nat).
Proof.
  intros Hi Hs Hd Hr. unfold udp_head4. pose proof (length_to_be_bytes 2 (Z.of_nat (20 + (8 + n)))) as Ht.
  set (t := to_be_bytes 2 _) in *. clearbody t. destruct t as [|t1 [|t2 [|]]]; try (cbn in Ht; lia). destruct ipck as [|c1 [|c2 [|]]]; try (cbn in Hi; lia).
  unfold udp_layout. change ((_ ++ s ++ d ++ rest) !! 0%nat) with (Some 0x45). change ((_ ++ s ++ d ++ rest) !! 9%nat) with (Some 17).
  cbv iota beta zeta. change (Z.shiftr 0x45 4 =? 4) with true. change (ihl_of 0x45) with 20%nat. cbv iota.
  rewrite !length_app. cbn [length]. destruct (Nat.ltb_spec 20 20); [lia|]. destruct (Nat.ltb_spec (2 + (2 + (6 + 2)) + (length s + (length d + length rest))) (20 + 8)); [lia|].
  done.
Qed.
Lemma udp_layout6 n s d rest : length s = 16%nat -> length d = 16%nat -> (8 <= length rest)%nat ->
  udp_layout (udp_head6 n ++ s ++ d ++ rest) = Some (Ok (8, 24, 16, 40)%nat).
Proof.
  intros Hs Hd Hr. unfold udp_head6. pose proof (length_to_be_bytes 2 (Z.of_nat (8 + n))) as Ht.
  set (t := to_be_bytes 2 _) in *. clearbody t. destruct t as [|t1 [|t2 [|]]]; try (cbn in Ht; lia).
  unfold udp_layout. change ((_ ++ s ++ d ++ rest) !! 0%nat) with (Some 0x60). change ((_ ++ s ++ d ++ rest) !! 6%nat) with (Some 17).
  cbv iota beta zeta. change (Z.shiftr 0x60 4 =? 4) with false. change (Z.shiftr 0x60 4 =? 6) with true. cbv iota.
  rewrite !length_app. cbn [length]. destruct (Nat.ltb_spec (4 + (2 + 2) + (length s + (length d + length rest))) (40 + 8)); [lia|]. done.
Qed.

(** Reading the fields back from a header of known shape. *)
Lemma udp_endpoints_at pkt hdr src dst ck payload six l4 :
  pkt = hdr ++ octets (ip src) ++ octets (ip dst) ++ udp_seg (port src) (port dst) ck payload ->
  is_ipv6 src = six -> is_ipv6 dst = six -> sock_ok src -> sock_ok dst -> length ck = 2%nat ->
  udp_layout pkt = Some (Ok (length hdr, length hdr + length (octets (ip src)), (if six then 16 else 4), l4))%nat ->
  l4 = (length hdr + length (octets (ip src)) + length (octets (ip dst)))%nat ->
  udp_endpoints pkt = Some (Ok (src, dst, (l4 + 8)%nat)) /\ drop (l4 + 8) pkt = payload /\
  drop l4 pkt = udp_seg (port src) (port dst) ck payload.
Proof.
  intros Hp E1 E2 [Hs Ps] [Hd Pd] Hck Hl El4. pose proof (octets_len _ _ Hs E1) as Ls. pose proof (octets_len _ _ Hd E2) as Ld.
  set (so := octets (ip src)) in *. set (do_ := octets (ip dst)) in *. set (ul := to_be_bytes 2 (Z.of_nat (8 + length payload))).
  assert (read_ip pkt (length hdr) (if six then 16 else 4)%nat = Some (ip src)) as R1.
  { unfold read_ip. rewrite <- (mk_ip_octets (ip src)). unfold is_ipv6 in E1. rewrite E1. destruct six; cbn [Nat.eqb];
      rewrite (slice_at _ hdr so (do_ ++ udp_seg (port src) (port dst) ck payload)) by (done || lia); done. }
  assert (read_ip pkt (length hdr + length so) (if six then 16 else 4)%nat = Some (ip dst)) as R2.
  { unfold read_ip. rewrite <- (mk_ip_octets (ip dst)). unfold is_ipv6 in E2. rewrite E2. destruct six; cbn [Nat.eqb];
      rewrite (slice_at _ (hdr ++ so) do_ (udp_seg (port src) (port dst) ck payload)) by first [by rewrite <- app_assoc|rewrite ?length_app; lia]; done. }
  assert (pkt = (hdr ++ so ++ do_) ++ to_be_bytes 2 (port src) ++ to_be_bytes 2 (port dst) ++ ul ++ ck ++ payload) as Hp' by (rewrite Hp; unfold udp_seg; by rewrite <- !app_assoc).
  assert (length (hdr ++ so ++ do_) = l4) as Hl4 by (rewrite !length_app; lia). split_and!.
  - unfold udp_endpoints. rewrite Hl, R1, R2.
    rewrite (be16_at pkt (hdr ++ so ++ do_) (to_be_bytes 2 (port src)) (to_be_bytes 2 (port dst) ++ ul ++ ck ++ payload)) by (done || apply length_to_be_bytes).
    rewrite (be16_at pkt ((hdr ++ so ++ do_) ++ to_be_bytes 2 (port src)) (to_be_bytes 2 (port dst)) (ul ++ ck ++ payload)).
    + rewrite !from_to_be_bytes_small by done. by destruct src, dst.
    + rewrite Hp'. by rewrite <- !app_assoc.
    + rewrite length_app, Hl4, length_to_be_bytes. done.
    + apply length_to_be_bytes.
  - rewrite Hp'. replace ((hdr ++ so ++ do_) ++ to_be_bytes 2 (port src) ++ to_be_bytes 2 (port dst) ++ ul ++ ck ++ payload)
      with (((hdr ++ so ++ do_) ++ to_be_bytes 2 (port src) ++ to_be_bytes 2 (port dst) ++ ul ++ ck) ++ payload) by by rewrite <- !app_assoc.
    apply drop_app_length'. rewrite (length_app (hdr ++ so ++ do_)), Hl4. unfold ul. rewrite !length_app, !length_to_be_bytes, Hck. lia.
  - rewrite Hp'. by apply drop_app_length'.
Qed.

Lemma udp_csum_range src dst payload : sock_ok src -> sock_ok dst -> is_ipv6 src = is_ipv6 dst -> bytes_ok payload ->
  Z.of_nat (length payload) <= 65507 -> is_u16 (udp_csum src dst payload) /\ 0 < udp_csum src dst payload /\
  valid (udp_seg (port src) (port dst) (to_be_bytes 2 (udp_csum src dst payload)) payload)
    (pseudo_header_sum (ip src) (ip dst) PROTO_UDP (8 + length payload)).
Proof.
  intros [Hs Ps] [Hd Pd] E Hb Hl. set (init := pseudo_header_sum _ _ _ _).
  destruct (pseudo_sum (ip src) (ip dst) PROTO_UDP (8 + length payload) Hs Hd E ltac:(done) ltac:(lia)) as [Pi Qi].
  pose proof (wsum_bound _ (proj1 Hs)) as [Z1 _]. pose proof (wsum_bound _ (proj1 Hd)) as [Z2 _].
  assert (0 <= init < 2 ^ 22) as Hi by (unfold init; rewrite Pi; unfold PROTO_UDP in *; lia). clear Pi Qi Z1 Z2.
  set (pre := to_be_bytes 2 (port src) ++ to_be_bytes 2 (port dst) ++ to_be_bytes 2 (Z.of_nat (8 + length payload))).
  assert (forall ck, udp_seg (port src) (port dst) ck payload = pre ++ ck ++ payload) as Hseg by (intros; unfold udp_seg, pre; by rewrite <- !app_assoc).
  assert (bytes_ok pre /\ length pre = 6%nat) as [Hbp Hlp].
  { unfold pre. rewrite !length_app, !length_to_be_bytes. split; [|done]. apply Forall_app_2; [apply to_be_bytes_ok|]. apply Forall_app_2; apply to_be_bytes_ok. }
  assert (bytes_ok (pre ++ [0; 0] ++ payload)) as Hz by (apply Forall_app_2; [done|]; by repeat (constructor; [done|])).
  pose proof (wsum_small _ Hz ltac:(rewrite !length_app, Hlp; cbn [length]; unfold MAX_PACKET; lia)) as B.
  unfold udp_csum. cbv zeta. fold init. rewrite Hseg. set (c := checksum _ init).
  assert (is_u16 c) as Hc.
  { unfold c, checksum, not16. rewrite sum16_spec by (done || lia). pose proof (fold_range (init + wsum (pre ++ [0; 0] ++ payload)) ltac:(unfold fits; lia)) as Hr.
    unfold fits in *. change (2 ^ 16) with 65536 in *. lia. }
  pose proof (checksum_valid pre payload init Hbp Hb ltac:(by rewrite Hlp) ltac:(lia) ltac:(lia)) as Hv. fold c in Hv.
  destruct (Z.eqb_spec c 0) as [E0|]; [|by split_and!; [apply Hc..|unfold fits in Hc; lia|rewrite Hseg]].
  split; [done|]. split; [lia|]. rewrite Hseg. rewrite E0 in Hv.
  assert (forall v, is_u16 v -> bytes_ok (pre ++ to_be_bytes 2 v ++ payload) /\ wsum (pre ++ to_be_bytes 2 v ++ payload) = wsum pre + v + wsum payload) as Hw.
  { intros v Hv'. split; [apply Forall_app_2; [done|]; apply Forall_app_2; [apply to_be_bytes_ok|done]|].
    rewrite !wsum_app by (rewrite ?Hlp, ?length_to_be_bytes; done). rewrite wsum_be16 by done. lia. }
  destruct (Hw 0 ltac:(done)) as [K1 K2]. destruct (Hw 0xFFFF ltac:(done)) as [K3 K4].
  pose proof (wsum_bound _ Hb) as [W1 _]. pose proof (wsum_bound _ Hbp) as [W2 _].
  assert (wsum (pre ++ [0; 0] ++ payload) = wsum pre + wsum payload) as K5 by (rewrite !wsum_app by (by rewrite ?Hlp); done).
  apply valid_iff in Hv as [_ Hv]; [|done|lia|rewrite K2; lia]. apply valid_iff; [done|lia|rewrite K4; lia|]. rewrite K2 in Hv. rewrite K4. lia.
Qed.

Lemma udp_head_valid n s d : bytes_ok s -> bytes_ok d -> length s = 4%nat -> length d = 4%nat ->
  valid (udp_head4 n (to_be_bytes 2 (checksum (udp_head4 n [0; 0] ++ s ++ d) 0)) ++ s ++ d) 0.
Proof.
  intros Hs Hd Ls Ld. set (pre := [0x45; 0] ++ to_be_bytes 2 (Z.of_nat (20 + (8 + n))) ++ [0; 0; 0; 0; 64; 17]).
  assert (forall ck, udp_head4 n ck ++ s ++ d = pre ++ ck ++ s ++ d) as Hh by (intros; unfold udp_head4, pre; by rewrite <- !app_assoc).
  assert (bytes_ok pre) as Hp by (unfold pre; apply Forall_app_2; [by repeat (constructor; [done|])|]; apply Forall_app_2; [apply to_be_bytes_ok|by repeat (constructor; [done|])]).
  rewrite !Hh. apply checksum_valid; [done|by apply Forall_app_2|unfold pre; by rewrite !length_app, length_to_be_bytes|done|].
  pose proof (wsum_small (pre ++ [0; 0] ++ s ++ d)) as B. rewrite !length_app in B. unfold pre in B at 2. rewrite !length_app, length_to_be_bytes, Ls, Ld in B.
  specialize (B ltac:(apply Forall_app_2; [done|]; apply Forall_app_2; [by repeat (constructor; [done|])|by apply Forall_app_2]) ltac:(done)). lia.
Qed.

(** [build_udp] builds what [udp_endpoints] reads: for two addresses of one family
    and a payload that fits an IP packet it succeeds, the packet parses back to the
    same endpoints and payload, and its IPv4 header and UDP checksums are valid, the
    UDP one never 0 (which would mean none). *)
Theorem build_udp_correct src dst payload :
  sock_ok src -> sock_ok dst -> is_ipv6 src = is_ipv6 dst -> bytes_ok payload -> Z.of_nat (length payload) <= 65507 ->
  exists pkt off, build_udp src dst payload = Some (Ok pkt) /\ udp_endpoints pkt = Some (Ok (src, dst, off)) /\ drop off pkt = payload /\
    (is_ipv6 src = false -> valid (take 20 pkt) 0) /\ l4_valid pkt (off - 8) (ip src) (ip dst) PROTO_UDP /\
    be16 pkt (off - 2) <> Some 0.
Proof.
  intros Hs Hd E Hb Hl. destruct (udp_csum_range src dst payload Hs Hd E Hb Hl) as (Hc & Hpos & Hv).
  rewrite (build_udp_eq src dst payload (proj1 Hs) (proj1 Hd) E). set (ck := to_be_bytes 2 (udp_csum src dst payload)) in *.
  set (hdr := if is_ipv6 src then _ else _). set (pkt := hdr ++ _). set (n := length payload) in *. assert (length ck = 2%nat) as Lck by apply length_to_be_bytes.
  pose proof (octets_len _ _ (proj1 Hs) eq_refl) as Ls. pose proof (octets_len _ _ (proj1 Hd) (eq_sym E)) as Ld. fold (is_ipv6 src) in Ls, Ld.
  assert (length hdr = if is_ipv6 src then 8%nat else 12%nat) as Lh.
  { unfold hdr. destruct (is_ipv6 src); unfold udp_head4, udp_head6; rewrite !length_app, !length_to_be_bytes; done. }
  pose proof (length_seg (port src) (port dst) ck payload Lck) as Lseg.
  assert (udp_layout pkt = Some (Ok (length hdr, length hdr + length (octets (ip src)), (if is_ipv6 src then 16 else 4),
    length hdr + length (octets (ip src)) + length (octets (ip dst))))%nat) as Hlay.
  { rewrite Lh, Ls, Ld. unfold pkt, hdr. destruct (is_ipv6 src); [apply udp_layout6|apply udp_layout4]; try done; [lia|lia]. }
  destruct (udp_endpoints_at pkt hdr src dst ck payload (is_ipv6 src) _ eq_refl eq_refl (eq_sym E) Hs Hd Lck Hlay eq_refl) as (H1 & H2 & H3).
  set (l4 := (length hdr + length (octets (ip src)) + length (octets (ip dst)))%nat) in *.
  exists pkt, (l4 + 8)%nat. split; [done|]. split; [exact H1|]. split; [exact H2|]. split; [|split].
  - intros E0. unfold pkt, hdr. rewrite E0 in Ls, Ld |- *. rewrite E0 in Lh. set (h4 := udp_head4 n _).
    replace (h4 ++ _ ++ _ ++ udp_seg _ _ _ _) with ((h4 ++ octets (ip src) ++ octets (ip dst)) ++ udp_seg (port src) (port dst) ck payload) by by rewrite <- !app_assoc.
    rewrite take_app_length'; [apply udp_head_valid; [apply Hs|apply Hd|done|done]|]. unfold h4, udp_head4. rewrite !length_app, !length_to_be_bytes, Ls, Ld. done.
  - unfold l4_valid. replace (l4 + 8 - 8)%nat with l4 by lia. rewrite H3. replace (length pkt - l4)%nat with (8 + length payload)%nat; [exact Hv|].
    unfold pkt. rewrite !length_app, Lseg. unfold l4, n. lia.
  - rewrite (be16_at pkt (hdr ++ octets (ip src) ++ octets (ip dst) ++ to_be_bytes 2 (port src) ++ to_be_bytes 2 (port dst) ++ to_be_bytes 2 (Z.of_nat (8 + n))) ck payload).
    + unfold ck. rewrite from_to_be_bytes_small by exact Hc. intros [= E0]. lia.
    + unfold pkt, udp_seg. by rewrite <- !app_assoc.
    + rewrite !length_app, !length_to_be_bytes. unfold l4. lia.
    + exact Lck.
Qed.

(** ** Witnesses: a SYN from 10.0.0.1:49153 to 93.184.216.34:443, with valid checksums *)

Definition demo_app : SocketAddr := mk_sock (V4 [10; 0; 0; 1]) 49153.
Definition demo_target : SocketAddr := mk_sock (V4 [93; 184; 216; 34]) 443.
Definition demo_tcp : bytes := Eval vm_compute in
  let hdr ck := [0x45; 0; 0; 44; 0; 0; 0; 0; 64; 6] ++ ck ++ octets (ip demo_app) ++ octets (ip demo_target) in
  let seg ck := to_be_bytes 2 49153 ++ to_be_bytes 2 443 ++ [0; 0; 0; 7; 0; 0; 0; 0; 0x50; 2; 255; 255] ++ ck ++ [0; 0] ++ lit "data" in
  hdr (to_be_bytes 2 (checksum (hdr [0; 0]) 0)) ++
  seg (to_be_bytes 2 (checksum (seg [0; 0]) (pseudo_header_sum (ip demo_app) (ip demo_target) PROTO_TCP 24))).

Lemma rewrite_tcp_correct_witness : exists pkt',
  rewrite_tcp demo_tcp (mk_sock (V4 [10; 0; 0; 3]) 1) (mk_sock (V4 [10; 0; 0; 2]) 9000) = Some (Ok pkt') /\
  tcp_header pkt' = Some (Ok (mk_sock (V4 [10; 0; 0; 3]) 1, mk_sock (V4 [10; 0; 0; 2]) 9000, 2)) /\
  l4_valid pkt' 20 (V4 [10; 0; 0; 3]) (V4 [10; 0; 0; 2]) PROTO_TCP.
Proof.
  destruct (rewrite_tcp_correct demo_tcp demo_app demo_target 2 (mk_sock (V4 [10; 0; 0; 3]) 1) (mk_sock (V4 [10; 0; 0; 2]) 9000))
    as (l & pkt' & Hp & _ & H1 & H2 & _ & _ & _ & H3);
    [decided|vm_compute; discriminate|reflexivity|decided|decided|reflexivity|reflexivity|].
  exists pkt'. split; [exact H1|]. split; [exact H2|].
  change (parse demo_tcp) with (Some (Ok (E := RewriteError) (mk_layout 12 16 4 (Some 10%nat) 20 false))) in Hp.
  apply (inj Some), Ok_inj in Hp. subst l. apply H3. unfold l4_valid, valid. vm_compute. reflexivity.
Defined.

Lemma packet_code_never_panics_witness : is_Some (rewrite_tcp [0x4f; 1; 2] demo_app demo_target).
Proof. apply (packet_code_never_panics [0x4f; 1; 2] demo_app demo_target); decided. Defined.

Lemma build_udp_correct_witness : exists pkt off, build_udp demo_target demo_app (lit "reply") = Some (Ok pkt) /\
  udp_endpoints pkt = Some (Ok (demo_target, demo_app, off)) /\ drop off pkt = lit "reply".
Proof.
  destruct (build_udp_correct demo_target demo_app (lit "reply")) as (pkt & off & H1 & H2 & H3 & _);
    [decided|decided|reflexivity|decided|vm_compute; discriminate|]. exists pkt, off. split; [exact H1|]. split; [exact H2|exact H3].
Defined.
End rewrite.
