(* ===== verification/NetPump.v ===== *)
(** [core/src/netstack/system/pump.rs]: the redirect gateway.  It classifies each TUN
    packet, keeps the NAT tables of the two address families and rewrites the TCP
    4-tuple, so that the kernel's listener and the application each see the
    connection they expect. *)

From stdpp Require Import gmap.
From S2P Require Import Prelude NetAddr Checksum NetNat NetRewrite.

Module pump.
Import net rewrite.

Inductive PumpAction := WriteBack | Passthrough | Drop.

Record FamilyGateway := mk_family { server : IpAddr; gateway : IpAddr; listener_port : Z; table : nat.TcpNat SocketAddr }.
#[export] Instance FamilyGateway_eta : Settable FamilyGateway := fun f => mk_family (server f) (gateway f) (listener_port f) (table f).

(** The next address, wrapping within the family. *)
Definition next_addr (a : IpAddr) : IpAddr :=
  match a with
  | V4 o => V4 (to_be_bytes 4 (wrap32 (from_be_bytes o + 1)))
  | V6 o => V6 (to_be_bytes 16 (wrap 128 (from_be_bytes o + 1)))
  end.

Definition is_routable_target (a : IpAddr) : bool :=
  match a with
  | V4 _ => negb (is_loopback a || is_broadcast a || is_multicast a || is_unspecified a || is_link_local a)
  | V6 _ => negb (is_loopback a || is_multicast a || is_unspecified a || is_link_local a)
  end.

Definition family_new (s : IpAddr) (lport : Z) : FamilyGateway := mk_family s (next_addr s) lport nat.new.

Record Gateway := mk_gateway { fam4 : option FamilyGateway; fam6 : option FamilyGateway }.
#[export] Instance Gateway_eta : Settable Gateway := fun g => mk_gateway (fam4 g) (fam6 g).

Definition new (v4 v6 : option (bytes * Z)) : Gateway :=
  mk_gateway ((fun p => family_new (V4 p.1) p.2) <$> v4) ((fun p => family_new (V6 p.1) p.2) <$> v6).

(** [family_mut]: the state of a family, and storing it back. *)
Definition family (six : bool) (g : Gateway) : option FamilyGateway := if six then fam6 g else fam4 g.
Definition set_family (six : bool) (f : FamilyGateway) (g : Gateway) : Gateway :=
  if six then g <| fam6 := Some f |> else g <| fam4 := Some f |>.

(** [let _ = rewrite_tcp(pkt, ..)]: an error leaves the packet as it is. *)
Definition rewrite_or_keep (pkt : bytes) (s d : SocketAddr) : option bytes :=
  match rewrite_tcp pkt s d with Some (Ok p) => Some p | Some (Err _) => Some pkt | None => None end.

(** What RST and FIN do to a mapping. *)
Definition lifecycle (port flags : Z) (from_app : bool) (now : Z) (t : nat.TcpNat SocketAddr) : nat.TcpNat SocketAddr :=
  if negb (Z.land flags TCP_RST =? 0) then nat.remove port t
  else if negb (Z.land flags TCP_FIN =? 0) then nat.note_fin port from_app now t
  else t.

Definition process_tcp (pkt : bytes) (now : Z) (g : Gateway) : option (PumpAction * bytes * Gateway) :=
  match tcp_header pkt with
  | None => None
  | Some (Err _) => Some (Passthrough, pkt, g)
  | Some (Ok (src, dst, flags)) =>
      let six := is_ipv6 src in
      match family six g with
      | None => Some (Passthrough, pkt, g)
      | Some fg =>
          if bool_decide (ip src = server fg) && (port src =? listener_port fg) then
            let nat_port := port dst in
            let '(o, t) := nat.lookup_back nat_port now (table fg) in
            match o with
            | Some (client, target) =>
                let! pkt := rewrite_or_keep pkt target client in
                let t := lifecycle nat_port flags false now t in
                Some (WriteBack, pkt, set_family six (fg <| table := t |>) g)
            | None => Some (Drop, pkt, set_family six (fg <| table := t |>) g)
            end
          else if negb (is_routable_target (ip dst)) || bool_decide (ip dst = server fg) || bool_decide (ip dst = gateway fg) then
            Some (Passthrough, pkt, g)
          else
            let '(o, t) := nat.lookup src dst now (table fg) in
            match o with
            | Some nat_port =>
                let! pkt := rewrite_or_keep pkt (mk_sock (gateway fg) nat_port) (mk_sock (server fg) (listener_port fg)) in
                let t := lifecycle nat_port flags true now t in
                Some (WriteBack, pkt, set_family six (fg <| table := t |>) g)
            | None => Some (Drop, pkt, set_family six (fg <| table := t |>) g)
            end
      end
  end.

Definition intercept_udp (src dst : SocketAddr) (g : Gateway) : bool :=
  match family (is_ipv6 src) g with
  | Some fg => is_routable_target (ip dst) && negb (bool_decide (ip dst = server fg)) && negb (bool_decide (ip dst = gateway fg))
  | None => false
  end.

Definition resolve_accept (peer : SocketAddr) (now : Z) (g : Gateway) : option (SocketAddr * SocketAddr) * Gateway :=
  match family (is_ipv6 peer) g with
  | None => (None, g)
  | Some fg => let '(o, t) := nat.lookup_back (port peer) now (table fg) in (o, set_family (is_ipv6 peer) (fg <| table := t |>) g)
  end.

Definition evict_family (now ta tc : Z) (six : bool) (g : Gateway) : nat * Gateway :=
  match family six g with
  | None => (0%nat, g)
  | Some fg => let '(n, t) := nat.evict_idle now ta tc (table fg) in (n, set_family six (fg <| table := t |>) g)
  end.
Definition evict_idle (now ta tc : Z) (g : Gateway) : nat * Gateway :=
  let '(n, g) := evict_family now ta tc false g in
  let '(m, g) := evict_family now ta tc true g in
  ((n + m)%nat, g).

(** ** The invariant of a family *)

Definition endpoint_ok (six : bool) (s : SocketAddr) : Prop := sock_ok s /\ is_ipv6 s = six.

Record family_ok (six : bool) (f : FamilyGateway) : Prop := {
  fo_server : ip_ok (server f) /\ is_v6 (server f) = six;
  fo_gateway : gateway f = next_addr (server f);
  fo_port : is_u16 (listener_port f);
  fo_table : nat.nat_ok (table f);
  fo_ends p s d : nat.abs (table f) !! p = Some (s, d) -> endpoint_ok six s /\ endpoint_ok six d;
}.
Definition gateway_ok (g : Gateway) : Prop := forall six f, family six g = Some f -> family_ok six f.

Lemma next_addr_ok a : ip_ok a -> ip_ok (next_addr a) /\ is_v6 (next_addr a) = is_v6 a.
Proof. intros _. destruct a; (split; [split; [apply to_be_bytes_ok|apply length_to_be_bytes]|done]). Qed.

(** The table calls made on behalf of one packet. *)
Definition call_ok (six : bool) (c : nat.Call) : Prop :=
  match c with nat.Lookup s d _ => endpoint_ok six s /\ endpoint_ok six d | _ => True end.

Lemma table_exec six f c r t : family_ok six f -> call_ok six c -> nat.exec c (table f) = (r, t) -> family_ok six (f <| table := t |>).
Proof.
  intros [H1 H2 H3 H4 H5] Hc E. destruct (nat.exec_sim c _ _ _ H4 E) as [Hok _]. constructor; cbn; try done.
  intros p s d Hp. destruct (nat.exec_endpoints c _ _ _ p (s, d) H4 E Hp) as [|[now ->]]; [by eapply H5|exact Hc].
Qed.

Lemma lifecycle_call port flags app now (t : nat.TcpNat SocketAddr) :
  lifecycle port flags app now t = t \/
  exists c, (c = nat.Remove port \/ c = nat.NoteFin port app now) /\ lifecycle port flags app now t = (nat.exec c t).2.
Proof.
  unfold lifecycle. destruct (negb _); [right; exists (nat.Remove port); auto|].
  destruct (negb _); [right; exists (nat.NoteFin port app now); auto|by left].
Qed.

Lemma lifecycle_ok six f port flags app now : family_ok six f -> family_ok six (f <| table := lifecycle port flags app now (table f) |>).
Proof.
  intros Hf. destruct (lifecycle_call port flags app now (table f)) as [->|(c & Hc & ->)]; [by destruct f, Hf|].
  destruct (nat.exec c (table f)) as [r t] eqn:E. eapply table_exec; [done| |exact E]. by destruct Hc as [-> | ->].
Qed.

Lemma set_family_ok six f g : gateway_ok g -> family_ok six f -> gateway_ok (set_family six f g).
Proof.
  intros Hg Hf s x Hx. destruct six, s; cbn in Hx; try (by injection Hx as <-); [by apply (Hg false)|by apply (Hg true)].
Qed.
Lemma family_set six f g : family six (set_family six f g) = Some f.
Proof. by destruct six. Qed.
Lemma family_set_ne six six' f g : six <> six' -> family six' (set_family six f g) = family six' g.
Proof. by destruct six, six'. Qed.

(** ** One packet *)

Lemma rewrite_keep_header pkt src dst flags s d : bytes_ok pkt -> tcp_header pkt = Some (Ok (src, dst, flags)) ->
  endpoint_ok (is_ipv6 src) s -> endpoint_ok (is_ipv6 src) d ->
  exists pkt', rewrite_or_keep pkt s d = Some pkt' /\ tcp_header pkt' = Some (Ok (s, d, flags)).
Proof.
  intros Hb Hh [Hs Es] [Hd Ed]. destruct (header_view _ _ _ _ Hh) as (w & -> & Hw & Hp & _ & _ & Hf).
  destruct (rewrite_header w (is_ipv6 src) s d flags Hw Hp Hf Hs Hd Es Ed) as (Hr & _ & Hh').
  eexists. unfold rewrite_or_keep. rewrite Hr. split; [reflexivity|exact Hh'].
Qed.

(** The packets redirected to the listener, and the listener's replies. *)
Definition from_listener (src : SocketAddr) (f : FamilyGateway) : bool := bool_decide (ip src = server f) && (port src =? listener_port f).
Definition redirected (src dst : SocketAddr) (f : FamilyGateway) : bool :=
  negb (from_listener src f) && is_routable_target (ip dst) && negb (bool_decide (ip dst = server f)) && negb (bool_decide (ip dst = gateway f)).

Lemma gateway_endpoint six f p : family_ok six f -> is_u16 p ->
  endpoint_ok six (mk_sock (gateway f) p) /\ endpoint_ok six (mk_sock (server f) (listener_port f)).
Proof.
  intros [[H1 H2] H3 H4 _ _] Hp. destruct (next_addr_ok _ H1) as [N1 N2]. rewrite H3. split; (split; [split; [cbn; done|done]|]).
  - unfold is_ipv6. cbn. congruence.
  - exact H2.
Qed.

Lemma process_forward pkt now g src dst flags f p t : bytes_ok pkt -> gateway_ok g -> tcp_header pkt = Some (Ok (src, dst, flags)) ->
  family (is_ipv6 src) g = Some f -> redirected src dst f = true -> nat.lookup src dst now (table f) = (Some p, t) ->
  exists pkt', process_tcp pkt now g =
      Some (WriteBack, pkt', set_family (is_ipv6 src) (f <| table := lifecycle p flags true now t |>) g) /\
    tcp_header pkt' = Some (Ok (mk_sock (gateway f) p, mk_sock (server f) (listener_port f), flags)).
Proof.
  intros Hb Hg Hh Hf Hr Hl. unfold redirected, from_listener in Hr.
  apply andb_prop in Hr as [Hr H4]. apply andb_prop in Hr as [Hr H3]. apply andb_prop in Hr as [H1 H2].
  pose proof (Hg _ _ Hf) as Hok. assert (is_u16 p) as Hp.
  { destruct (nat.lookup_sim _ _ _ _ _ _ (fo_table _ _ Hok) Hl) as [Hn Hs].
    assert (is_Some (nat.by_port t !! p)) as [x Hx]; [|pose proof (nat.ok_range _ Hn p x Hx); unfold nat.U16_MAX, fits in *; lia].
    apply (fmap_is_Some (fun x => (nat.source x, nat.destination x))). rewrite <- nat.abs_lookup. inversion Hs; subst; [by eexists|].
    rewrite lookup_insert_eq. by eexists. }
  destruct (gateway_endpoint _ f p Hok Hp) as [Eg Es]. destruct (rewrite_keep_header pkt src dst flags _ _ Hb Hh Eg Es) as (pkt' & Hk & Hh').
  exists pkt'. split; [|exact Hh']. unfold process_tcp. rewrite Hh. cbv zeta. rewrite Hf. apply negb_true_iff in H1, H3, H4. rewrite H1, H2, H3, H4. cbn [negb orb].
  rewrite Hl, Hk. done.
Qed.

Lemma process_reply pkt now g src dst flags f client target : bytes_ok pkt -> gateway_ok g -> tcp_header pkt = Some (Ok (src, dst, flags)) ->
  family (is_ipv6 src) g = Some f -> from_listener src f = true -> nat.abs (table f) !! port dst = Some (client, target) ->
  exists pkt' t, nat.lookup_back (port dst) now (table f) = (Some (client, target), t) /\
    process_tcp pkt now g = Some (WriteBack, pkt', set_family (is_ipv6 src) (f <| table := lifecycle (port dst) flags false now t |>) g) /\
    tcp_header pkt' = Some (Ok (target, client, flags)).
Proof.
  intros Hb Hg Hh Hf Hr Hm. pose proof (Hg _ _ Hf) as Hok. destruct (fo_ends _ _ Hok _ _ _ Hm) as [Ec Et].
  destruct (rewrite_keep_header pkt src dst flags _ _ Hb Hh Et Ec) as (pkt' & Hk & Hh').
  rewrite nat.abs_lookup in Hm. destruct (nat.by_port (table f) !! port dst) as [x|] eqn:Ex; [|done]. injection Hm as Ec' Et'.
  assert (nat.lookup_back (port dst) now (table f) = (Some (client, target), (nat.lookup_back (port dst) now (table f)).2)) as Hl.
  { unfold nat.lookup_back. rewrite Ex, Ec', Et'. done. }
  exists pkt'. eexists. split; [exact Hl|]. split; [|exact Hh']. unfold process_tcp. rewrite Hh. cbv zeta. rewrite Hf. unfold from_listener in Hr. rewrite Hr.
  rewrite Hl, Hk. done.
Qed.

(** ** Every packet: a run of table calls in one family *)

Lemma table_run six cs : forall f, family_ok six f -> Forall (call_ok six) cs -> family_ok six (f <| table := (nat.run cs (table f)).2 |>).
Proof.
  induction cs as [|c cs IH]; intros f Hf Hc; cbn [nat.run]; [by destruct f, Hf|]. inversion Hc; subst.
  destruct (nat.exec c (table f)) as [r t] eqn:E. pose proof (table_exec six f c r t Hf ltac:(done) E) as Hf'.
  specialize (IH _ Hf' ltac:(done)). cbn in IH. by destruct (nat.run cs t).
Qed.

Definition rst_set (flags : Z) : bool := negb (Z.land flags TCP_RST =? 0).

(** The calls of [lifecycle]. *)
Definition lifecycle_calls (port flags : Z) (app : bool) (now : Z) : list (nat.Call (SocketAddr := SocketAddr)) :=
  if rst_set flags then [nat.Remove port] else if negb (Z.land flags TCP_FIN =? 0) then [nat.NoteFin port app now] else [].
Lemma lifecycle_run port flags app now t : lifecycle port flags app now t = (nat.run (lifecycle_calls port flags app now) t).2.
Proof. unfold lifecycle, lifecycle_calls, rst_set. destruct (negb _); [done|]. by destruct (negb _). Qed.
Lemma lifecycle_calls_ok six port flags app now : Forall (call_ok six) (lifecycle_calls port flags app now).
Proof. unfold lifecycle_calls. destruct (rst_set flags); [by repeat constructor|]. destruct (negb _); by repeat constructor. Qed.
Lemma lifecycle_spares p port flags app now : rst_set flags = false ->
  Forall (fun c => nat.spares p c = true) (lifecycle_calls port flags app now).
Proof. intros H. unfold lifecycle_calls. rewrite H. destruct (negb _); by repeat constructor. Qed.

Definition family_run (six : bool) (cs : list nat.Call) (g : Gateway) : Gateway :=
  match family six g with Some f => set_family six (f <| table := (nat.run cs (table f)).2 |>) g | None => g end.

Lemma run_app_one (c : nat.Call (SocketAddr := SocketAddr)) cs t r t1 : nat.exec c t = (r, t1) -> (nat.run (c :: cs) t).2 = (nat.run cs t1).2.
Proof. intros E. cbn. rewrite E. by destruct (nat.run cs t1). Qed.

Definition packet_rst (pkt : bytes) : bool :=
  match tcp_header pkt with Some (Ok (_, _, flags)) => rst_set flags | _ => false end.

Lemma process_run pkt now g : bytes_ok pkt -> gateway_ok g ->
  exists act pkt' six cs, process_tcp pkt now g = Some (act, pkt', family_run six cs g) /\ Forall (call_ok six) cs /\
    (packet_rst pkt = false -> forall p, Forall (fun c => nat.spares p c = true) cs).
Proof.
  intros Hb Hg. assert (forall six, family_run six [] g = g) as Hnil.
  { intros six. unfold family_run. destruct g as [g4 g6], six; cbn; [destruct g6 as [[]|]|destruct g4 as [[]|]]; done. }
  destruct (tcp_header_some pkt) as [[[[src dst] flags]|e] Hh].
  2:{ exists Passthrough, pkt, false, []. rewrite Hnil. split_and!; [unfold process_tcp; by rewrite Hh|constructor|intros; constructor]. }
  set (six := is_ipv6 src). assert (forall cs f, family six g = Some f ->
    set_family six (f <| table := (nat.run cs (table f)).2 |>) g = family_run six cs g) as Hset by (intros cs f E; unfold family_run; by rewrite E).
  destruct (family six g) as [f|] eqn:Hf.
  2:{ exists Passthrough, pkt, six, []. rewrite Hnil. split_and!; [unfold process_tcp; rewrite Hh; fold six; by rewrite Hf|constructor|intros; constructor]. }
  pose proof (Hg _ _ Hf) as Hok. destruct (header_ok _ _ _ _ Hb Hh) as (Os & Od & E6).
  assert (packet_rst pkt = rst_set flags) as -> by (unfold packet_rst; by rewrite Hh).
  destruct (from_listener src f) eqn:Hlis.
  - destruct (nat.abs (table f) !! port dst) as [[client target]|] eqn:Hm.
    + destruct (process_reply pkt now g src dst flags f client target Hb Hg Hh Hf Hlis Hm) as (pkt' & t & Hl & Hp & _).
      exists WriteBack, pkt', six, (nat.LookupBack (port dst) now :: lifecycle_calls (port dst) flags false now). split_and!.
      * rewrite Hp. fold six. rewrite <- (Hset _ f eq_refl). erewrite run_app_one by (cbn; by rewrite Hl). by rewrite lifecycle_run.
      * constructor; [done|apply lifecycle_calls_ok].
      * intros Hrst p. constructor; [done|by apply lifecycle_spares].
    + rewrite nat.abs_lookup in Hm. destruct (nat.by_port (table f) !! port dst) eqn:Ex; [done|].
      exists Drop, pkt, six, [nat.LookupBack (port dst) now]. split_and!; [|by repeat constructor|by repeat constructor].
      unfold process_tcp. rewrite Hh. fold six. rewrite Hf. unfold from_listener in Hlis. rewrite Hlis, <- (Hset _ f eq_refl). unfold nat.lookup_back. rewrite Ex.
      cbn. unfold nat.lookup_back. by rewrite Ex.
  - destruct (redirected src dst f) eqn:Hr.
    + destruct (nat.lookup src dst now (table f)) as [[p|] t] eqn:Hl.
      * destruct (process_forward pkt now g src dst flags f p t Hb Hg Hh Hf Hr Hl) as (pkt' & Hp & _).
        exists WriteBack, pkt', six, (nat.Lookup src dst now :: lifecycle_calls p flags true now). split_and!.
        -- rewrite Hp. fold six. rewrite <- (Hset _ f eq_refl). erewrite run_app_one by (cbn; by rewrite Hl). by rewrite lifecycle_run.
        -- constructor; [exact (conj (conj Os eq_refl) (conj Od E6))|apply lifecycle_calls_ok].
        -- intros Hrst q. constructor; [done|by apply lifecycle_spares].
      * exists Drop, pkt, six, [nat.Lookup src dst now]. split_and!; [|constructor; [exact (conj (conj Os eq_refl) (conj Od E6))|constructor]|by repeat constructor].
        unfold redirected, from_listener in *. rewrite Hlis in Hr. apply andb_prop in Hr as [Hr H4]. apply andb_prop in Hr as [H2 H3]. cbn [negb andb] in H2.
        apply negb_true_iff in H3, H4. unfold process_tcp. rewrite Hh. fold six. rewrite Hf, Hlis, H2, H3, H4. cbn [negb orb]. rewrite Hl, <- (Hset _ f eq_refl). cbn. by rewrite Hl.
    + exists Passthrough, pkt, six, []. rewrite Hnil. split_and!; [|constructor|intros; constructor].
      unfold redirected, from_listener in *. rewrite Hlis in Hr. cbn [negb andb] in Hr. unfold process_tcp. rewrite Hh. fold six. rewrite Hf, Hlis.
      destruct (is_routable_target (ip dst)), (bool_decide (ip dst = server f)), (bool_decide (ip dst = gateway f)); done.
Qed.

(** ** Sequences of calls *)

Inductive Call := Packet (pkt : bytes) (now : Z) | Accept (peer : SocketAddr) (now : Z) | Evict (now ta tc : Z).

(** The state after a call; [None] is a panic. *)
Definition exec (c : Call) (g : Gateway) : option Gateway :=
  match c with
  | Packet pkt now => let! (_, _, g) := process_tcp pkt now g in Some g
  | Accept peer now => Some (resolve_accept peer now g).2
  | Evict now ta tc => Some (evict_idle now ta tc g).2
  end.
Fixpoint run (cs : list Call) (g : Gateway) : option Gateway :=
  match cs with [] => Some g | c :: cs => let! g := exec c g in run cs g end.

Definition input_ok (c : Call) : Prop := match c with Packet pkt _ => bytes_ok pkt | _ => True end.

(** A call that cannot drop a mapping: no eviction, no RST. *)
Definition calm (c : Call) : bool :=
  match c with
  | Packet pkt _ => negb (packet_rst pkt)
  | Accept _ _ => true
  | Evict _ _ _ => false
  end.

Lemma family_run_ok six cs g : gateway_ok g -> Forall (call_ok six) cs -> gateway_ok (family_run six cs g).
Proof.
  intros Hg Hc. unfold family_run. destruct (family six g) as [f|] eqn:Hf; [|done]. apply set_family_ok; [done|]. apply table_run; [by apply Hg|done].
Qed.

Lemma accept_run peer now g : (resolve_accept peer now g).2 = family_run (is_ipv6 peer) [nat.LookupBack (port peer) now] g.
Proof.
  unfold resolve_accept, family_run. destruct (family _ g) as [f|]; [|done]. cbn. by destruct (nat.lookup_back (port peer) now (table f)).
Qed.
Lemma evict_family_run now ta tc six g : (evict_family now ta tc six g).2 = family_run six [nat.EvictIdle now ta tc] g.
Proof. unfold evict_family, family_run. destruct (family six g) as [f|]; [|done]. cbn. by destruct (nat.evict_idle now ta tc (table f)). Qed.

Lemma exec_ok c g : gateway_ok g -> input_ok c -> exists g', exec c g = Some g' /\ gateway_ok g'.
Proof.
  intros Hg Hi. destruct c as [pkt now|peer now|now ta tc]; cbn [exec].
  - destruct (process_run pkt now g Hi Hg) as (a & p & six & cs & -> & Hc & _). eexists. split; [reflexivity|]. by apply family_run_ok.
  - eexists. split; [reflexivity|]. rewrite accept_run. apply family_run_ok; [done|by repeat constructor].
  - eexists. split; [reflexivity|]. unfold evict_idle. pose proof (evict_family_run now ta tc false g) as E1.
    destruct (evict_family now ta tc false g) as [n g1]. cbn in E1. subst g1. pose proof (evict_family_run now ta tc true (family_run false [nat.EvictIdle now ta tc] g)) as E2.
    destruct (evict_family now ta tc true _) as [m g2]. cbn in E2. subst g2. cbn. do 2 (apply family_run_ok; [|by repeat constructor]). done.
Qed.

Lemma run_ok cs : forall g, gateway_ok g -> Forall input_ok cs -> exists g', run cs g = Some g' /\ gateway_ok g'.
Proof.
  induction cs as [|c cs IH]; intros g Hg Hi; cbn [run]; [eauto|]. inversion Hi; subst.
  destruct (exec_ok c g Hg) as (g1 & -> & Hg1); [done|]. by apply IH.
Qed.

Lemma gateway_new_ok v4 v6 : (forall o p, v4 = Some (o, p) -> ip_ok (V4 o) /\ is_u16 p) -> (forall o p, v6 = Some (o, p) -> ip_ok (V6 o) /\ is_u16 p) ->
  gateway_ok (new v4 v6).
Proof.
  intros H4 H6 six f Hf. assert (forall a p, ip_ok a -> is_u16 p -> is_v6 a = six -> family_ok six (family_new a p)) as Hn.
  { intros a p Ha Hp E. constructor; [done|done|done|apply nat.new_ok|].
    intros q s d. rewrite nat.abs_lookup. cbn. by rewrite lookup_empty. }
  destruct six; cbn in Hf; [destruct v6 as [[o p]|]|destruct v4 as [[o p]|]]; try done; injection Hf as <-; cbn;
    [destruct (H6 o p eq_refl)|destruct (H4 o p eq_refl)]; by apply Hn.
Qed.

(** The mapping of a synthetic port. *)
Definition mapping (six : bool) (p : Z) (g : Gateway) : option (SocketAddr * SocketAddr) :=
  let! f := family six g in nat.abs (table f) !! p.
(** The addresses a family was configured with. *)
Definition config (six : bool) (g : Gateway) : option (IpAddr * IpAddr * Z) :=
  (fun f => (server f, gateway f, listener_port f)) <$> family six g.

Lemma family_run_config six cs g six' : config six' (family_run six cs g) = config six' g.
Proof.
  unfold family_run, config. destruct (family six g) as [f|] eqn:Hf; [|done]. destruct (decide (six = six')) as [<-|Hne].
  - by rewrite family_set, Hf.
  - by rewrite family_set_ne.
Qed.
Lemma family_run_mapping six cs g six' p e : gateway_ok g -> Forall (fun c => nat.spares p c = true) cs ->
  mapping six' p g = Some e -> mapping six' p (family_run six cs g) = Some e.
Proof.
  intros Hg Hc Hm. unfold family_run, mapping in *. destruct (family six g) as [f|] eqn:Hf; [|done].
  destruct (decide (six = six')) as [<-|Hne]; [|by rewrite family_set_ne]. rewrite family_set, Hf in *. cbn.
  destruct (nat.run_sim cs (table f) (fo_table _ _ (Hg _ _ Hf))) as [_ Hr]. by eapply nat.spec_run_spares.
Qed.

Lemma exec_calm c g g' six p e : gateway_ok g -> input_ok c -> exec c g = Some g' -> calm c = true ->
  config six g' = config six g /\ (mapping six p g = Some e -> mapping six p g' = Some e).
Proof.
  intros Hg Hi E Hc. destruct c as [pkt now|peer now|]; cbn [exec] in E; [| |done].
  - destruct (process_run pkt now g Hi Hg) as (a & q & sx & cs & Hp & _ & Hs). rewrite Hp in E. injection E as <-.
    split; [apply family_run_config|]. apply family_run_mapping; [done|]. cbn in Hc.
    apply Hs. by apply negb_true_iff.
  - injection E as <-. rewrite accept_run. split; [apply family_run_config|]. apply family_run_mapping; [done|by repeat constructor].
Qed.

Lemma run_calm cs : forall g g' six p e, gateway_ok g -> Forall input_ok cs -> run cs g = Some g' -> Forall (fun c => calm c = true) cs ->
  mapping six p g = Some e -> config six g' = config six g /\ mapping six p g' = Some e.
Proof.
  induction cs as [|c cs IH]; intros g g' six p e Hg Hi Hr Hc Hm; cbn [run] in Hr; [by injection Hr as <-|]. inversion Hi; inversion Hc; subst.
  destruct (exec_ok c g Hg) as (g1 & E1 & Hg1); [done|]. rewrite E1 in Hr.
  destruct (exec_calm c g g1 six p e Hg ltac:(done) E1 ltac:(done)) as [Ec Em].
  destruct (IH g1 g' six p e Hg1 ltac:(done) Hr ltac:(done) (Em Hm)) as [Ec' Em']. split; [congruence|exact Em'].
Qed.

(** Where the gateway takes a packet from [app] to [target]: the table is keyed on the source alone, so a live mapping
    of [app] decides, whatever the packet says. *)
Definition bound_target (app target : SocketAddr) (t : nat.TcpNat SocketAddr) : SocketAddr :=
  match nat.by_source t !! app with
  | Some p => match nat.by_port t !! p with Some x => nat.destination x | None => target end
  | None => target
  end.

Lemma lookup_bound app target now t p t' : nat.nat_ok t -> nat.lookup app target now t = (Some p, t') ->
  nat.abs t' !! p = Some (app, bound_target app target t).
Proof.
  intros Hok Hl. destruct (nat.lookup_sim _ _ _ _ _ _ Hok Hl) as [_ Hs]. unfold bound_target. inversion Hs as [? ? ? ? d Hp E1 E2 E3|? ? ? ? Hu ? ? E1 E2 E3| | | | |]; subst.
  - rewrite Hp. rewrite nat.abs_lookup in Hp. destruct (nat.by_port t !! p) as [x|] eqn:Ex; [|done]. cbn in Hp. injection Hp as <- <-.
    by rewrite (nat.ok_bwd _ Hok _ _ Ex), Ex.
  - rewrite lookup_insert_eq. destruct (nat.by_source t !! app) as [q|] eqn:Eq; [|done].
    destruct (nat.ok_fwd _ Hok _ _ Eq) as (x & Hx & <-). exfalso. eapply (Hu q (nat.destination x)). by rewrite nat.abs_lookup, Hx.
Qed.

(** C38: the redirection is transparent.  In any state reached from a configured gateway, a packet other than a reset from
    [app] to a target the gateway redirects, for which there is a synthetic port (one is mapped, or one is free), is rewritten
    to go from that port of the gateway to the listener; the accept loop recovers exactly [app] and the target from that port;
    and, as long as nothing drops the mapping, every later packet the listener sends back to that port is rewritten to come from
    the target and go to [app]. The target is the packet's own destination if [app] has no mapping; if it has one, it is
    the mapping's, which is that of its earlier connection if the application reused its port too soon. *)
Theorem redirect_transparent v4 v6 cs g pkt now app target flags f p t :
  (forall o q, v4 = Some (o, q) -> ip_ok (V4 o) /\ is_u16 q) -> (forall o q, v6 = Some (o, q) -> ip_ok (V6 o) /\ is_u16 q) ->
  Forall input_ok cs -> run cs (new v4 v6) = Some g ->
  bytes_ok pkt -> tcp_header pkt = Some (Ok (app, target, flags)) -> packet_rst pkt = false ->
  family (is_ipv6 app) g = Some f -> redirected app target f = true ->
  nat.lookup app target now (table f) = (Some p, t) ->
  let dest := bound_target app target (table f) in
  (nat.by_source (table f) !! app = None -> dest = target) /\
  exists pkt' g', process_tcp pkt now g = Some (WriteBack, pkt', g') /\
    tcp_header pkt' = Some (Ok (mk_sock (gateway f) p, mk_sock (server f) (listener_port f), flags)) /\
    (forall now', (resolve_accept (mk_sock (gateway f) p) now' g').1 = Some (app, dest)) /\
    forall cs' g'' reply now'' flags'', Forall input_ok cs' -> Forall (fun c => calm c = true) cs' -> run cs' g' = Some g'' ->
      bytes_ok reply -> tcp_header reply = Some (Ok (mk_sock (server f) (listener_port f), mk_sock (gateway f) p, flags'')) ->
      exists reply' g3, process_tcp reply now'' g'' = Some (WriteBack, reply', g3) /\ tcp_header reply' = Some (Ok (dest, app, flags'')).
Proof.
  intros H4 H6 Hi Hrun Hb Hh Hrst Hf Hr Hl dest.
  split; [intros Hnew; unfold dest, bound_target; by rewrite Hnew|]. destruct (run_ok cs (new v4 v6) (gateway_new_ok v4 v6 H4 H6) Hi) as (g0 & E0 & Hg). assert (g0 = g) as -> by congruence.
  pose proof (Hg _ _ Hf) as Hok. set (six := is_ipv6 app) in *.
  destruct (process_forward pkt now g app target flags f p t Hb Hg Hh Hf Hr Hl) as (pkt' & Hp & Hh'). fold six in Hp.
  assert (is_v6 (gateway f) = six /\ is_v6 (server f) = six) as [Eg6 Es6].
  { destruct (fo_server _ _ Hok) as [S1 S2]. rewrite (fo_gateway _ _ Hok). destruct (next_addr_ok _ S1). split; congruence. }
  destruct (process_run pkt now g Hb Hg) as (a & q & sx & ccs & Hp2 & Hcok & _). rewrite Hp in Hp2. injection Hp2 as _ _ Eg.
  set (g' := set_family six (f <| table := lifecycle p flags true now t |>) g) in *.
  assert (gateway_ok g') as Hg' by (rewrite Eg; by apply family_run_ok). clear Eg Hcok.
  assert (mapping six p g' = Some (app, dest)) as Hm.
  { unfold mapping, g'. rewrite family_set. cbn. assert (packet_rst pkt = rst_set flags) as Er by (unfold packet_rst; by rewrite Hh). rewrite Er in Hrst.
    rewrite lifecycle_run. destruct (nat.lookup_sim _ _ _ _ _ _ (fo_table _ _ Hok) Hl) as [Hn _].
    destruct (nat.run_sim (lifecycle_calls p flags true now) t Hn) as [_ Hr']. eapply nat.spec_run_spares; [exact Hr'|by apply lifecycle_spares|].
    exact (lookup_bound _ _ _ _ _ _ (fo_table _ _ Hok) Hl). }
  exists pkt', g'. split; [exact Hp|]. split; [exact Hh'|]. split.
  - intros now'. unfold resolve_accept, is_ipv6. cbn [ip port]. rewrite Eg6. unfold mapping in Hm. destruct (family six g') as [f'|]; [|done].
    rewrite nat.abs_lookup in Hm. unfold nat.lookup_back. destruct (nat.by_port (table f') !! p) as [x|]; [|done]. exact Hm.
  - intros cs' g'' reply now'' flags'' Hi' Hc' Hr' Hbr Hhr. destruct (run_calm cs' g' g'' six p (app, dest) Hg' Hi' Hr' Hc' Hm) as [Ec Em].
    destruct (run_ok cs' g' Hg' Hi') as (g2 & E2 & Hg2). assert (g2 = g'') as -> by congruence.
    unfold mapping in Em. unfold config in Ec. destruct (family six g'') as [f2|] eqn:Hf2; [|done]. unfold g' in Ec. rewrite family_set in Ec. cbn in Ec. injection Ec as Es Egw Elp.
    destruct (process_reply reply now'' g'' (mk_sock (server f) (listener_port f)) (mk_sock (gateway f) p) flags'' f2 app dest Hbr Hg2 Hhr) as (reply' & t' & _ & P1 & P2).
    + unfold is_ipv6. cbn. by rewrite Es6.
    + unfold from_listener. cbn. rewrite Es, Elp, Z.eqb_refl. by rewrite bool_decide_eq_true_2.
    + exact Em.
    + exists reply'. eexists. split; [exact P1|exact P2].
Qed.

Definition demo_gw : Gateway := new (Some ([10; 0; 0; 2], 9000)) None.
Definition demo_fam : FamilyGateway := family_new (V4 [10; 0; 0; 2]) 9000.

Lemma redirect_transparent_witness : exists pkt' g', process_tcp demo_tcp 5 demo_gw = Some (WriteBack, pkt', g') /\
  (resolve_accept (mk_sock (V4 [10; 0; 0; 3]) 1) 6 g').1 = Some (demo_app, demo_target).
Proof.
  destruct (redirect_transparent (Some ([10; 0; 0; 2], 9000)) None [] demo_gw demo_tcp 5 demo_app demo_target 2 demo_fam 1
    (nat.lookup demo_app demo_target 5 (table demo_fam)).2) as (_ & pkt' & g' & H1 & _ & H2 & _).
  - intros o q [= <- <-]. split; decided.
  - discriminate.
  - constructor.
  - reflexivity.
  - decided.
  - reflexivity.
  - reflexivity.
  - reflexivity.
  - reflexivity.
  - vm_compute. reflexivity.
  - exists pkt', g'. split; [exact H1|exact (H2 6)].
Defined.
End pump.
