(* ===== verification/NetPacket.v ===== *)
(** [core/src/packet/mod.rs]: the read-only IP packet views and the ICMP echo
    responder.  The outer [option] is a panic (an index out of range). *)

From S2P Require Import Prelude NetAddr Checksum.

Module packet.
Import net checksum.

Definition ICMP : Z := 1.
Definition TCP : Z := 6.
Definition UDP : Z := 17.
Definition ICMPV6 : Z := 58.

Definition protocol_name (proto : Z) : bytes :=
  if proto =? ICMP then lit "icmp" else if proto =? TCP then lit "tcp" else if proto =? UDP then lit "udp"
  else if proto =? ICMPV6 then lit "icmpv6" else lit "other".

(** A validated view over a packet: the bytes, by version. *)
Inductive IpPacket := PV4 (b : bytes) | PV6 (b : bytes).

Definition ihl (first : Z) : nat := Z.to_nat (Z.land first 0x0f) * 4.
Definition ipv4_new (b : bytes) : option bytes :=
  let! first := head b in
  if (length b <? 20)%nat || (ihl first <? 20)%nat || (length b <? ihl first)%nat then None else Some b.
Definition V6_HEADER_LEN : nat := 40.
Definition ipv6_new (b : bytes) : option bytes := if (length b <? V6_HEADER_LEN)%nat then None else Some b.

Definition parse (b : bytes) : option IpPacket :=
  let! first := head b in
  if Z.shiftr first 4 =? 4 then PV4 <$> ipv4_new b
  else if Z.shiftr first 4 =? 6 then PV6 <$> ipv6_new b
  else None.

Definition view_bytes (p : IpPacket) : bytes := match p with PV4 b | PV6 b => b end.
(** The accessors; [None] is an index out of range, ruled out by the constructors. *)
Definition header_len (p : IpPacket) : option nat :=
  match p with PV4 b => ihl <$> b !! 0%nat | PV6 _ => Some V6_HEADER_LEN end.
Definition protocol (p : IpPacket) : option Z := match p with PV4 b => b !! 9%nat | PV6 b => b !! 6%nat end.
Definition src (p : IpPacket) : option IpAddr :=
  match p with PV4 b => V4 <$> slice_get b 12 16 | PV6 b => V6 <$> slice_get b 8 24 end.
Definition dst (p : IpPacket) : option IpAddr :=
  match p with PV4 b => V4 <$> slice_get b 16 20 | PV6 b => V6 <$> slice_get b 24 40 end.
Definition packet_len (p : IpPacket) : nat := length (view_bytes p).
Definition is_empty (p : IpPacket) : bool := (packet_len p =? 0)%nat.
Definition payload (p : IpPacket) : option bytes :=
  let! h := header_len p in slice_get (view_bytes p) h (length (view_bytes p)).

Definition ICMP_ECHO_REQUEST : Z := 8.
Definition ICMP_ECHO_REPLY : Z := 0.
Definition ICMPV6_ECHO_REQUEST : Z := 128.
Definition ICMPV6_ECHO_REPLY : Z := 129.

(** The checksum helpers of this file. *)
Definition csum_acc (sum : Z) (data : bytes) : Z := sum16 data sum.
Definition csum_fold (sum : Z) : Z := not16 (fold sum).
Definition checksum (data : bytes) : Z := csum_fold (csum_acc 0 data).

Definition v4_echo_reply (p : IpPacket) : option (option bytes) :=
  let! proto := protocol p in
  if negb (proto =? ICMP) then Some None else
  let! hdr := header_len p in
  let! icmp := payload p in
  match head icmp with
  | None => Some None
  | Some ty =>
      if negb (ty =? ICMP_ECHO_REQUEST) then Some None else
      let out := view_bytes p in
      let! s := slice_get out 12 16 in
      let! d := slice_get out 16 20 in
      let! out := copy_at out 12 d in
      let! out := copy_at out 16 s in
      let! out := copy_at out hdr [ICMP_ECHO_REPLY] in
      let! out := copy_at out (hdr + 2) [0] in
      let! out := copy_at out (hdr + 3) [0] in
      let icmp_ck := checksum (drop hdr out) in
      let! out := copy_at out (hdr + 2) (to_be_bytes 2 icmp_ck) in
      let! out := copy_at out 10 [0] in
      let! out := copy_at out 11 [0] in
      let ip_ck := checksum (take hdr out) in
      let! out := copy_at out 10 (to_be_bytes 2 ip_ck) in
      Some (Some out)
  end.

Definition v6_echo_reply (p : IpPacket) : option (option bytes) :=
  let! proto := protocol p in
  if negb (proto =? ICMPV6) then Some None else
  let off := V6_HEADER_LEN in
  let! icmp := payload p in
  match head icmp with
  | None => Some None
  | Some ty =>
      if negb (ty =? ICMPV6_ECHO_REQUEST) then Some None else
      let out := view_bytes p in
      let! s := slice_get out 8 24 in
      let! d := slice_get out 24 40 in
      let! out := copy_at out 8 d in
      let! out := copy_at out 24 s in
      let! out := copy_at out off [ICMPV6_ECHO_REPLY] in
      let! out := copy_at out (off + 2) [0] in
      let! out := copy_at out (off + 3) [0] in
      let msg_len := (length out - off)%nat in
      let sum := csum_acc 0 d in
      let sum := csum_acc sum s in
      let sum := csum_acc sum (to_be_bytes 4 (Z.of_nat msg_len)) in
      let sum := csum_acc sum [0; 0; 0; ICMPV6] in
      let sum := csum_acc sum (drop off out) in
      let ck := csum_fold sum in
      let! out := copy_at out (off + 2) (to_be_bytes 2 ck) in
      Some (Some out)
  end.

Definition icmp_echo_reply (request : bytes) : option (option bytes) :=
  match parse request with
  | None => Some None
  | Some (PV4 b) => v4_echo_reply (PV4 b)
  | Some (PV6 b) => v6_echo_reply (PV6 b)
  end.

(** ** The fields of an echo request *)

(** A packet cut at its fields: the IP header up to the addresses (with the IPv4
    checksum), the addresses, options, and the ICMP message. *)
Record view := mk_view { w_head : bytes; w_ipck : bytes; w_src : bytes; w_dst : bytes; w_opts : bytes; w_icmp : bytes }.
#[export] Instance view_eta : Settable view := fun w => mk_view (w_head w) (w_ipck w) (w_src w) (w_dst w) (w_opts w) (w_icmp w).
Definition join (w : view) : bytes := w_head w ++ w_ipck w ++ w_src w ++ w_dst w ++ w_opts w ++ w_icmp w.

Record view_ok (w : view) (six : bool) : Prop := {
  wo_head : length (w_head w) = if six then 8%nat else 10%nat;
  wo_ipck : length (w_ipck w) = if six then 0%nat else 2%nat;
  wo_src : length (w_src w) = if six then 16%nat else 4%nat;
  wo_dst : length (w_dst w) = if six then 16%nat else 4%nat;
  wo_opts : Nat.even (length (w_opts w)) = true /\ (six = true -> w_opts w = []);
}.
Definition hdr_len (w : view) (six : bool) : nat := if six then 40%nat else (20 + length (w_opts w))%nat.
Definition mk_packet (six : bool) (b : bytes) : IpPacket := if six then PV6 b else PV4 b.


Lemma icmp_parse_view pkt p : parse pkt = Some p -> exists w six, pkt = join w /\ view_ok w six /\ p = mk_packet six pkt /\ header_len p = Some (hdr_len w six).
Proof.
  unfold parse. destruct (head pkt) as [first|] eqn:Eh; [|done]. assert (pkt !! 0%nat = Some first) as E0 by (by destruct pkt).
  destruct (Z.shiftr first 4 =? 4).
  - unfold ipv4_new. rewrite Eh. destruct (Nat.ltb_spec (length pkt) 20); [done|]. destruct (Nat.ltb_spec (ihl first) 20); [done|].
    destruct (Nat.ltb_spec (length pkt) (ihl first)) as [|Hl]; [done|]. cbn [orb fmap option_fmap option_map]. intros [= <-].
    assert (Nat.even (ihl first) = true) as He by (unfold ihl; rewrite Nat.even_mul; apply orb_true_r).
    assert (header_len (PV4 pkt) = Some (ihl first)) as Hh by (cbn; by rewrite E0).
    set (n := ihl first) in *. clearbody n. clear E0 Eh.
    destruct (cut pkt 10) as (a & r1 & -> & Ha); [lia|]. rewrite length_app in Hl. destruct (cut r1 2) as (b & r2 & -> & Hb); [lia|]. rewrite length_app in Hl.
    destruct (cut r2 4) as (c & r3 & -> & Hc); [lia|]. rewrite length_app in Hl. destruct (cut r3 4) as (d & r4 & -> & Hd); [lia|]. rewrite length_app in Hl.
    destruct (cut r4 (n - 20)) as (o & r5 & -> & Ho); [lia|]. exists (mk_view a b c d o r5), false.
    split; [done|]. split; [constructor; try done; cbn; split; [|done]; rewrite Ho, Nat.even_sub by lia; by rewrite He|]. split; [done|].
    rewrite Hh. unfold hdr_len. cbn. f_equal. lia.
  - destruct (Z.shiftr first 4 =? 6); [|done]. unfold ipv6_new, V6_HEADER_LEN. destruct (Nat.ltb_spec (length pkt) 40) as [|Hl]; [done|]. intros [= <-].
    clear E0 Eh. destruct (cut pkt 8) as (a & r1 & -> & Ha); [lia|]. rewrite length_app in Hl. destruct (cut r1 16) as (c & r3 & -> & Hc); [lia|]. rewrite length_app in Hl.
    destruct (cut r3 16) as (d & r4 & -> & Hd); [lia|]. exists (mk_view a [] c d [] r4), true. done.
Qed.

Ltac field_pos :=
  match goal with
  | H : view_ok ?w ?six |- _ =>
      destruct H as [? ? ? ? [? Hno]];
      destruct six; cbn [hdr_len] in *; unfold hdr_len in *; rewrite ?length_app; try rewrite (Hno eq_refl) in *; cbn [length w_head w_ipck w_src w_dst w_opts w_icmp] in *; lia
  end.

Definition src_off (six : bool) : nat := if six then 8%nat else 12%nat.
Definition dst_off (six : bool) : nat := if six then 24%nat else 16%nat.
Definition addr_n (six : bool) : nat := if six then 16%nat else 4%nat.

Section View.
Context (w : view) (six : bool) (Hw : view_ok w six).

Definition ip_header (w : view) : bytes := w_head w ++ w_ipck w ++ w_src w ++ w_dst w ++ w_opts w.
Lemma icmp_join_split : join w = ip_header w ++ w_icmp w.
Proof. unfold join, ip_header. by rewrite <- !app_assoc. Qed.
Lemma icmp_length_header : length (ip_header w) = hdr_len w six.
Proof. unfold ip_header. field_pos. Qed.
Lemma icmp_take_header : take (hdr_len w six) (join w) = ip_header w.
Proof. rewrite icmp_join_split, <- icmp_length_header. apply take_app_length. Qed.
Lemma icmp_drop_header : drop (hdr_len w six) (join w) = w_icmp w.
Proof. rewrite icmp_join_split, <- icmp_length_header. apply drop_app_length. Qed.

Lemma get_src : slice_get (join w) (src_off six) (src_off six + addr_n six) = Some (w_src w).
Proof.
  apply (slice_at _ (w_head w ++ w_ipck w) (w_src w) (w_dst w ++ w_opts w ++ w_icmp w)); [unfold join; by rewrite <- !app_assoc|unfold src_off; field_pos|unfold src_off, addr_n; field_pos].
Qed.
Lemma get_dst : slice_get (join w) (dst_off six) (dst_off six + addr_n six) = Some (w_dst w).
Proof.
  apply (slice_at _ (w_head w ++ w_ipck w ++ w_src w) (w_dst w) (w_opts w ++ w_icmp w)); [unfold join; by rewrite <- !app_assoc|unfold dst_off; field_pos|unfold dst_off, addr_n; field_pos].
Qed.
Lemma get_payload : slice_get (join w) (hdr_len w six) (length (join w)) = Some (w_icmp w).
Proof.
  apply (slice_at _ (ip_header w) (w_icmp w) []); [rewrite app_nil_r; apply icmp_join_split|apply icmp_length_header|].
  rewrite icmp_join_split, length_app, icmp_length_header. done.
Qed.
Lemma icmp_set_src x : length x = addr_n six -> copy_at (join w) (src_off six) x = Some (join (w <| w_src := x |>)).
Proof.
  intros Hx. rewrite (copy_at_app _ (w_head w ++ w_ipck w) (w_src w) x (w_dst w ++ w_opts w ++ w_icmp w));
    [unfold join; cbn; by rewrite <- !app_assoc|unfold join; by rewrite <- !app_assoc|unfold src_off; field_pos|unfold addr_n in Hx; field_pos].
Qed.
Lemma icmp_set_dst x : length x = addr_n six -> copy_at (join w) (dst_off six) x = Some (join (w <| w_dst := x |>)).
Proof.
  intros Hx. rewrite (copy_at_app _ (w_head w ++ w_ipck w ++ w_src w) (w_dst w) x (w_opts w ++ w_icmp w));
    [unfold join; cbn; by rewrite <- !app_assoc|unfold join; by rewrite <- !app_assoc|unfold dst_off; field_pos|unfold addr_n in Hx; field_pos].
Qed.
Lemma set_icmp k a old x b : w_icmp w = a ++ old ++ b -> length a = k -> length x = length old ->
  copy_at (join w) (hdr_len w six + k) x = Some (join (w <| w_icmp := a ++ x ++ b |>)).
Proof.
  intros E Ha Hx. rewrite (copy_at_app _ (ip_header w ++ a) old x b);
    [unfold join, ip_header; cbn; by rewrite <- !app_assoc|rewrite icmp_join_split, E; by rewrite <- !app_assoc|rewrite length_app, icmp_length_header; lia|done].
Qed.
(** Past the end of the message the write panics. *)
Lemma set_icmp_short k x : (length (w_icmp w) < k + length x)%nat -> copy_at (join w) (hdr_len w six + k) x = None.
Proof.
  intros H. unfold copy_at. rewrite (proj2 (Nat.leb_gt _ _)); [done|]. rewrite icmp_join_split, length_app, icmp_length_header. lia.
Qed.
Lemma icmp_set_ipck k a old x b : six = false -> w_ipck w = a ++ old ++ b -> length a = k -> length x = length old ->
  copy_at (join w) (10 + k) x = Some (join (w <| w_ipck := a ++ x ++ b |>)).
Proof.
  intros -> E Ha Hx. rewrite (copy_at_app _ (w_head w ++ a) old x (b ++ w_src w ++ w_dst w ++ w_opts w ++ w_icmp w));
    [unfold join; cbn; by rewrite <- !app_assoc|unfold join; rewrite E; by rewrite <- !app_assoc|rewrite length_app; field_pos|done].
Qed.
End View.

(** ** The reply *)

Definition icmp_reply_type (six : bool) : Z := if six then ICMPV6_ECHO_REPLY else ICMP_ECHO_REPLY.
Definition icmp_proto (six : bool) : Z := if six then ICMPV6 else ICMP.
Definition icmp_request_type (six : bool) : Z := if six then ICMPV6_ECHO_REQUEST else ICMP_ECHO_REQUEST.

(** The unfolded sum in front of the message: the IPv6 pseudo-header. *)
Definition icmp_init (six : bool) (s d : bytes) (n : nat) : Z :=
  if six then csum_acc (csum_acc (csum_acc (csum_acc 0 s) d) (to_be_bytes 4 (Z.of_nat n))) [0; 0; 0; ICMPV6] else 0.
Definition reply_icmp (six : bool) (s d : bytes) (code : Z) (rest : bytes) : bytes :=
  let zeroed := [icmp_reply_type six; code] ++ [0; 0] ++ rest in
  [icmp_reply_type six; code] ++ to_be_bytes 2 (csum_fold (csum_acc (icmp_init six s d (length zeroed)) zeroed)) ++ rest.
Definition reply_ipck (w : view) : bytes := to_be_bytes 2 (checksum (w_head w ++ [0; 0] ++ w_dst w ++ w_src w ++ w_opts w)).
Definition reply_view (w : view) (six : bool) (code : Z) (rest : bytes) : view :=
  mk_view (w_head w) (if six then w_ipck w else reply_ipck w) (w_dst w) (w_src w) (w_opts w) (reply_icmp six (w_dst w) (w_src w) code rest).

Definition echo_reply (six : bool) (p : IpPacket) : option (option bytes) := if six then v6_echo_reply p else v4_echo_reply p.

(** The address swap keeps the shape. *)
Lemma swap_ok w six ipck : view_ok w six -> length ipck = length (w_ipck w) -> forall icmp,
  view_ok (mk_view (w_head w) ipck (w_dst w) (w_src w) (w_opts w) icmp) six.
Proof. intros [] ? icmp. constructor; cbn; congruence || done. Qed.

Lemma v4_reply_view w code c1 c2 rest : view_ok w false -> protocol (PV4 (join w)) = Some ICMP ->
  header_len (PV4 (join w)) = Some (hdr_len w false) -> w_icmp w = ICMP_ECHO_REQUEST :: code :: c1 :: c2 :: rest ->
  v4_echo_reply (PV4 (join w)) = Some (Some (join (reply_view w false code rest))).
Proof.
  intros Hw Hp Hh E. unfold v4_echo_reply, payload. rewrite Hp. cbn [negb Z.eqb ICMP Pos.eqb]. rewrite Hh. cbn [view_bytes]. rewrite (get_payload w false Hw), E.
  cbn [head negb Z.eqb ICMP_ECHO_REQUEST Pos.eqb]. rewrite (get_src w false Hw : slice_get (join w) 12 16 = _), (get_dst w false Hw : slice_get (join w) 16 20 = _).
  pose proof Hw as [L1 L2 L3 L4 L5].
  rewrite (icmp_set_src w false Hw (w_dst w) L4 : copy_at (join w) 12 _ = _). set (w1 := w <| w_src := w_dst w |>).
  assert (view_ok w1 false) as Hw1 by (constructor; done). rewrite (icmp_set_dst w1 false Hw1 (w_src w) L3 : copy_at (join w1) 16 _ = _).
  assert (forall icmp, join (w1 <| w_dst := w_src w |> <| w_icmp := icmp |>) = join (mk_view (w_head w) (w_ipck w) (w_dst w) (w_src w) (w_opts w) icmp)) as Hj by done.
  change (w1 <| w_dst := w_src w |>) with (mk_view (w_head w) (w_ipck w) (w_dst w) (w_src w) (w_opts w) (w_icmp w)).
  set (v := fun ck icmp => mk_view (w_head w) ck (w_dst w) (w_src w) (w_opts w) icmp).
  assert (forall ck icmp, length ck = 2%nat -> view_ok (v ck icmp) false) as Hv by (intros; apply swap_ok; [done|congruence]).
  change (mk_view _ _ _ _ _ (w_icmp w)) with (v (w_ipck w) (w_icmp w)). rewrite E. clear Hj Hw1 w1.
  assert (forall ck k a old x b, length ck = 2%nat -> length a = k -> length x = length old ->
    copy_at (join (v ck (a ++ old ++ b))) (hdr_len w false + k) x = Some (join (v ck (a ++ x ++ b)))) as Hset.
  { intros. apply (set_icmp (v ck (a ++ old ++ b)) false (Hv _ _ ltac:(done)) k a old x b); done. }
  rewrite <- (Nat.add_0_r (hdr_len w false)) at 1. rewrite (Hset _ 0%nat [] [ICMP_ECHO_REQUEST] [ICMP_ECHO_REPLY] (code :: c1 :: c2 :: rest)) by done.
  rewrite (Hset _ 2%nat [ICMP_ECHO_REPLY; code] [c1] [0] (c2 :: rest)) by done.
  rewrite (Hset _ 3%nat [ICMP_ECHO_REPLY; code; 0] [c2] [0] rest) by done.
  change ([ICMP_ECHO_REPLY; code; 0] ++ [0] ++ rest) with ([ICMP_ECHO_REPLY; code] ++ [0; 0] ++ rest).
  rewrite (icmp_drop_header (v _ _) false (Hv _ _ L2) : drop (hdr_len w false) _ = _).
  rewrite (Hset _ 2%nat [ICMP_ECHO_REPLY; code] [0; 0]) by (done || apply length_to_be_bytes).
  destruct (w_ipck w) as [|k1 [|k2 [|]]] eqn:Ek; try done.
  assert (forall k a old x b icmp, length (a ++ old ++ b) = 2%nat -> length a = k -> length x = length old ->
    copy_at (join (v (a ++ old ++ b) icmp)) (10 + k) x = Some (join (v (a ++ x ++ b) icmp))) as Hipck.
  { intros. apply (icmp_set_ipck (v (a ++ old ++ b) icmp) false (Hv _ _ ltac:(done)) k a old x b); done. }
  set (icmp := [ICMP_ECHO_REPLY; code] ++ _ ++ rest).
  rewrite (Hipck 0%nat [] [k1] [0] [k2] icmp eq_refl eq_refl eq_refl : copy_at (join (v [k1; k2] icmp)) 10 [0] = _).
  rewrite (Hipck 1%nat [0] [k2] [0] [] icmp eq_refl eq_refl eq_refl : copy_at (join (v ([] ++ [0] ++ [k2]) icmp)) 11 [0] = _).
  rewrite (icmp_take_header (v [0; 0] icmp) false (Hv [0; 0] icmp eq_refl) : take (hdr_len w false) (join (v ([0] ++ [0] ++ []) icmp)) = _).
  rewrite (Hipck 0%nat [] [0; 0] _ [] icmp eq_refl eq_refl (length_to_be_bytes 2 _) : copy_at (join (v ([0] ++ [0] ++ []) icmp)) 10 _ = _).
  unfold reply_view, reply_icmp, reply_ipck. rewrite app_nil_r. done.
Qed.

Lemma v6_reply_view w code c1 c2 rest : view_ok w true -> protocol (PV6 (join w)) = Some ICMPV6 ->
  w_icmp w = ICMPV6_ECHO_REQUEST :: code :: c1 :: c2 :: rest ->
  v6_echo_reply (PV6 (join w)) = Some (Some (join (reply_view w true code rest))).
Proof.
  intros Hw Hp E. unfold v6_echo_reply, payload. cbv zeta. rewrite Hp. cbn [negb Z.eqb ICMPV6 Pos.eqb header_len view_bytes].
  rewrite (get_payload w true Hw : slice_get (join w) V6_HEADER_LEN _ = _), E.
  cbn [head negb Z.eqb ICMPV6_ECHO_REQUEST Pos.eqb]. rewrite (get_src w true Hw : slice_get (join w) 8 24 = _), (get_dst w true Hw : slice_get (join w) 24 40 = _).
  pose proof Hw as [L1 L2 L3 L4 L5].
  rewrite (icmp_set_src w true Hw (w_dst w) L4 : copy_at (join w) 8 _ = _). set (w1 := w <| w_src := w_dst w |>).
  assert (view_ok w1 true) as Hw1 by (constructor; done). rewrite (icmp_set_dst w1 true Hw1 (w_src w) L3 : copy_at (join w1) 24 _ = _).
  set (v := fun icmp => mk_view (w_head w) (w_ipck w) (w_dst w) (w_src w) (w_opts w) icmp).
  assert (forall icmp, view_ok (v icmp) true) as Hv by (intros; by apply swap_ok).
  change (w1 <| w_dst := w_src w |>) with (v (w_icmp w)). rewrite E. clear Hw1 w1.
  assert (forall k a old x b, length a = k -> length x = length old ->
    copy_at (join (v (a ++ old ++ b))) (V6_HEADER_LEN + k) x = Some (join (v (a ++ x ++ b)))) as Hset.
  { intros. apply (set_icmp (v (a ++ old ++ b)) true (Hv _) k a old x b); done. }
  rewrite (Hset 0%nat [] [ICMPV6_ECHO_REQUEST] [ICMPV6_ECHO_REPLY] (code :: c1 :: c2 :: rest) eq_refl eq_refl :
    copy_at (join (v (ICMPV6_ECHO_REQUEST :: code :: c1 :: c2 :: rest))) V6_HEADER_LEN [ICMPV6_ECHO_REPLY] = Some (join (v ([ICMPV6_ECHO_REPLY; code] ++ [c1] ++ c2 :: rest)))).
  rewrite (Hset 2%nat [ICMPV6_ECHO_REPLY; code] [c1] [0] (c2 :: rest)) by done.
  change ([ICMPV6_ECHO_REPLY; code] ++ [0] ++ c2 :: rest) with ([ICMPV6_ECHO_REPLY; code; 0] ++ [c2] ++ rest).
  rewrite (Hset 3%nat [ICMPV6_ECHO_REPLY; code; 0] [c2] [0] rest) by done.
  change ([ICMPV6_ECHO_REPLY; code; 0] ++ [0] ++ rest) with ([ICMPV6_ECHO_REPLY; code] ++ [0; 0] ++ rest). set (z := [ICMPV6_ECHO_REPLY; code] ++ [0; 0] ++ rest).
  assert ((length (join (v z)) - V6_HEADER_LEN)%nat = length z) as Hl.
  { rewrite icmp_join_split, length_app, (icmp_length_header _ _ (Hv z)). change (hdr_len (v z) true) with V6_HEADER_LEN. change (w_icmp (v z)) with z. lia. }
  rewrite Hl, (icmp_drop_header (v z) true (Hv z) : drop V6_HEADER_LEN _ = _).
  subst z. rewrite (Hset 2%nat [ICMPV6_ECHO_REPLY; code] [0; 0]) by (done || apply length_to_be_bytes). done.
Qed.

(** Too short a message: the write to its checksum field panics. *)
Lemma short_reply_panics w six ty l : view_ok w six -> protocol (mk_packet six (join w)) = Some (icmp_proto six) ->
  header_len (mk_packet six (join w)) = Some (hdr_len w six) -> w_icmp w = ty :: l -> ty = icmp_request_type six -> (length l < 3)%nat ->
  echo_reply six (mk_packet six (join w)) = None.
Proof.
  intros Hw Hp Hh E -> Hl. pose proof Hw as [L1 L2 L3 L4 L5]. set (w1 := w <| w_src := w_dst w |>). assert (view_ok w1 six) as Hw1 by (constructor; done).
  set (w2 := w1 <| w_dst := w_src w |>). assert (view_ok w2 six) as Hw2 by (constructor; done).
  set (w3 := w2 <| w_icmp := icmp_reply_type six :: l |>). assert (view_ok w3 six) as Hw3 by (constructor; done).
  assert (copy_at (join w2) (hdr_len w six) [icmp_reply_type six] = Some (join w3)) as E3.
  { rewrite <- (Nat.add_0_r (hdr_len w six)). apply (set_icmp w2 six Hw2 0 [] [icmp_request_type six] [icmp_reply_type six] l); done. }
  assert (exists o, copy_at (join w3) (hdr_len w six + 2) [0] = o /\ match o with None => True | Some out => copy_at out (hdr_len w six + 3) [0] = None end) as (o & E4 & E5).
  { destruct l as [|a [|b l]]; [eexists; split; [apply (set_icmp_short w3 six Hw3); cbn; lia|done]..|]. destruct l; [|cbn in Hl; lia].
    exists (Some (join (w3 <| w_icmp := [icmp_reply_type six; a; 0] |>))). split; [apply (set_icmp w3 six Hw3 2 [icmp_reply_type six; a] [b] [0] []); done|].
    apply (set_icmp_short (w3 <| w_icmp := [icmp_reply_type six; a; 0] |>) six ltac:(constructor; done)). cbn. lia. }
  pose proof (get_payload w six Hw) as G. pose proof (get_src w six Hw) as Gs. pose proof (get_dst w six Hw) as Gd.
  pose proof (icmp_set_src w six Hw (w_dst w) L4) as Ss. pose proof (icmp_set_dst w1 six Hw1 (w_src w) L3) as Sd. fold w1 in Ss. change (join (w1 <| w_dst := w_src w |>)) with (join w2) in Sd.
  destruct six; cbn [echo_reply mk_packet src_off dst_off addr_n Nat.add icmp_proto icmp_reply_type icmp_request_type] in *;
    unfold v6_echo_reply, v4_echo_reply, payload; cbv zeta; rewrite Hp, Hh; cbn [negb Z.eqb Pos.eqb ICMP ICMPV6 view_bytes]; rewrite G, E;
    cbn [head negb Z.eqb Pos.eqb ICMP_ECHO_REQUEST ICMPV6_ECHO_REQUEST]; rewrite Gs, Gd, Ss, Sd;
    unfold V6_HEADER_LEN; cbn [hdr_len] in *; unfold hdr_len in *; rewrite E3, E4; destruct o; [by rewrite E5|done|by rewrite E5|done].
Qed.

(** The message after its type byte, if the packet is an echo request. *)
Definition six_of (p : IpPacket) : bool := match p with PV4 _ => false | PV6 _ => true end.
Definition echo_message (request : bytes) : option bytes :=
  let! p := parse request in
  let! proto := protocol p in
  let! icmp := payload p in
  match icmp with
  | ty :: l => if (proto =? icmp_proto (six_of p)) && (ty =? icmp_request_type (six_of p)) then Some l else None
  | [] => None
  end.

Definition is_echo (request : bytes) (w : view) (six : bool) (l : bytes) : Prop :=
  request = join w /\ view_ok w six /\ parse request = Some (mk_packet six request) /\
  header_len (mk_packet six request) = Some (hdr_len w six) /\ protocol (mk_packet six request) = Some (icmp_proto six) /\
  w_icmp w = icmp_request_type six :: l.

Lemma view_protocol w six : view_ok w six -> exists pr, protocol (mk_packet six (join w)) = Some pr.
Proof.
  intros Hw. enough (is_Some (protocol (mk_packet six (join w)))) as [pr ?] by eauto.
  destruct six; cbn [mk_packet protocol]; apply lookup_lt_is_Some; unfold join; field_pos.
Qed.

(** What the responder does, by the kind of packet. *)
Lemma reply_cases request :
  (icmp_echo_reply request = Some None /\ echo_message request = None) \/
  exists w six l, is_echo request w six l /\ echo_message request = Some l /\
    match l with
    | code :: _ :: _ :: rest => icmp_echo_reply request = Some (Some (join (reply_view w six code rest)))
    | _ => icmp_echo_reply request = None
    end.
Proof.
  destruct (parse request) as [p|] eqn:Ep; [|left; unfold icmp_echo_reply, echo_message; by rewrite Ep].
  destruct (icmp_parse_view _ _ Ep) as (w & six & Er & Hw & -> & Hh). destruct (view_protocol w six Hw) as [pr Hp]. rewrite <- Er in Hp.
  assert (icmp_echo_reply request = echo_reply six (mk_packet six request)) as Hi by (unfold icmp_echo_reply; rewrite Ep; by destruct six).
  assert (payload (mk_packet six request) = Some (w_icmp w)) as Hpl.
  { unfold payload. rewrite Hh. replace (view_bytes (mk_packet six request)) with (join w) by (rewrite <- Er; by destruct six). by apply get_payload. }
  assert (six_of (mk_packet six request) = six) as H6 by by destruct six.
  unfold echo_message. rewrite Ep, Hp, Hpl, H6, Hi.
  destruct (Z.eqb_spec pr (icmp_proto six)) as [->|Hn].
  2: { left. split; [|by destruct (w_icmp w)]. clear Hi. unfold echo_reply, v4_echo_reply, v6_echo_reply.
       destruct six; rewrite Hp; cbn [icmp_proto] in Hn; by rewrite (proj2 (Z.eqb_neq _ _) Hn). }
  assert (forall ty, head (w_icmp w) = ty -> ty <> Some (icmp_request_type six) -> echo_reply six (mk_packet six request) = Some None) as Hdecl.
  { clear Hi. intros ty Hty Hne. unfold echo_reply, v4_echo_reply, v6_echo_reply. cbv zeta.
    destruct six; rewrite Hp; cbn [icmp_proto negb Z.eqb Pos.eqb ICMP ICMPV6]; rewrite ?Hh, Hpl, Hty; (destruct ty as [ty|]; [|done]);
      cbn [icmp_request_type] in Hne; destruct (Z.eqb_spec ty ICMPV6_ECHO_REQUEST), (Z.eqb_spec ty ICMP_ECHO_REQUEST); done || congruence. }
  destruct (w_icmp w) as [|ty l] eqn:Ei; [left; split; [by eapply Hdecl|done]|].
  destruct (Z.eqb_spec ty (icmp_request_type six)) as [->|Hn]; [|left; split; [eapply (Hdecl (Some ty)); [done|congruence]|done]].
  right. exists w, six, l. split; [done|]. split; [done|]. rewrite Er in *.
  destruct l as [|code [|c1 [|c2 rest]]]; [eapply short_reply_panics; eauto; cbn; lia..|].
  destruct six; cbn [echo_reply mk_packet]; [by eapply v6_reply_view|by eapply v4_reply_view].
Qed.

(** ** The claims *)

(** C40: the responder panics exactly on an echo request whose ICMP message is shorter
    than its four-byte header; every other packet, malformed ones included, gets
    an answer or is declined. *)
Theorem echo_reply_panics_iff request :
  icmp_echo_reply request = None <-> exists l, echo_message request = Some l /\ (length l < 3)%nat.
Proof.
  destruct (reply_cases request) as [[E1 E2]|(w & six & l & _ & E & H)].
  - rewrite E1, E2. split; [done|]. by intros (l & ? & _).
  - rewrite E. split.
    + intros Hn. exists l. split; [done|]. destruct l as [|? [|? [|? ?]]]; cbn; try lia. by rewrite Hn in H.
    + intros (l' & [= <-] & Hl). destruct l as [|? [|? [|? ?]]]; try done. cbn in Hl. lia.
Qed.

Lemma icmp_init_bound six s d n : bytes_ok s -> bytes_ok d -> length s = addr_n six -> length d = addr_n six ->
  0 <= icmp_init six s d n <= 65535 * 20.
Proof.
  intros Hs Hd Ls Ld. destruct six; [|done]. cbn [addr_n] in Ls, Ld. unfold icmp_init, csum_acc.
  assert (forall x, bytes_ok x -> (length x <= 16)%nat -> 0 <= wsum x <= 65535 * 8) as Hb by (intros x Hx Lx; pose proof (wsum_bound x Hx); lia).
  pose proof (Hb s Hs ltac:(lia)) as B1. pose proof (Hb d Hd ltac:(lia)) as B2.
  assert (forall x, bytes_ok x -> length x = 4%nat -> 0 <= wsum x <= 65535 * 2) as Hb4 by (intros x Hx Lx; pose proof (wsum_bound x Hx); rewrite Lx in *; cbn in *; lia).
  pose proof (to_be_bytes_ok 4 (Z.of_nat n)) as Hn. pose proof (Hb4 _ Hn (length_to_be_bytes _ _)) as B3.
  assert (bytes_ok [0; 0; 0; ICMPV6]) as Hi by (by repeat constructor). pose proof (Hb4 _ Hi eq_refl) as B4.
  set (ln := to_be_bytes 4 _) in *. clearbody ln.
  assert (forall a x, bytes_ok x -> 0 <= a -> a + wsum x <= 65535 * 20 -> sum16 x a = a + wsum x) as Hsum by (intros; apply sum16_spec; [done..|lia]).
  rewrite (Hsum 0) by (done || lia). rewrite (Hsum _ d) by (done || lia). rewrite (Hsum _ ln) by (done || lia). rewrite (Hsum _ [_; _; _; _]) by (done || lia). lia.
Qed.

Lemma reply_icmp_valid six s d code rest : bytes_ok s -> bytes_ok d -> length s = addr_n six -> length d = addr_n six ->
  is_u8 code -> bytes_ok rest -> Z.of_nat (4 + length rest) <= MAX_PACKET ->
  valid (reply_icmp six s d code rest) (icmp_init six s d (length (reply_icmp six s d code rest))).
Proof.
  intros Hs Hd Ls Ld Hc Hr Hl. unfold reply_icmp. cbv zeta. rewrite !length_app, length_to_be_bytes. change (length [0; 0]) with 2%nat.
  pose proof (icmp_init_bound six s d (length [icmp_reply_type six; code] + (2 + length rest)) Hs Hd Ls Ld) as Hi. set (init := icmp_init _ _ _ _) in *.
  assert (bytes_ok [icmp_reply_type six; code]) as Hp by (constructor; [by destruct six|by constructor]).
  apply (checksum_valid [icmp_reply_type six; code] rest init); [exact Hp|exact Hr|reflexivity|lia|]. set (z := [icmp_reply_type six; code] ++ [0; 0] ++ rest).
  assert (bytes_ok z) as Hz by (apply Forall_app_2; [done|apply Forall_app_2; [by repeat constructor|done]]).
  pose proof (wsum_small z Hz ltac:(unfold z; rewrite !length_app; cbn [length]; lia)). lia.
Qed.

Lemma reply_ipck_valid w : view_ok w false -> bytes_ok (join w) -> Z.of_nat (length (join w)) <= MAX_PACKET ->
  valid (ip_header (reply_view w false 0 [])) 0.
Proof.
  intros Hw Hb Hl. destruct Hw as [L1 L2 L3 L4 [L5 _]]. unfold join in *. rewrite !Forall_app in Hb. rewrite !length_app in Hl. destruct Hb as (B1 & B2 & B3 & B4 & B5 & _).
  unfold reply_view, ip_header, reply_ipck. cbn [w_head w_ipck w_src w_dst w_opts].
  assert (bytes_ok (w_dst w ++ w_src w ++ w_opts w)) as Hp by (rewrite !Forall_app; done).
  apply (checksum_valid (w_head w) (w_dst w ++ w_src w ++ w_opts w) 0); [exact B1|exact Hp|by rewrite L1|lia|]. set (z := w_head w ++ _).
  assert (bytes_ok z) as Hz by (unfold z; rewrite !Forall_app; split_and!; try done; by repeat constructor).
  pose proof (wsum_small z Hz ltac:(unfold z; rewrite !length_app; cbn [length]; lia)). lia.
Qed.

(** What the accessors read off a view. *)
Lemma mk_src w six : view_ok w six -> src (mk_packet six (join w)) = Some ((if six then V6 else V4) (w_src w)).
Proof. intros Hw. pose proof (get_src w six Hw) as G. destruct six; cbn [mk_packet src]; cbn in G; by rewrite G. Qed.
Lemma mk_dst w six : view_ok w six -> dst (mk_packet six (join w)) = Some ((if six then V6 else V4) (w_dst w)).
Proof. intros Hw. pose proof (get_dst w six Hw) as G. destruct six; cbn [mk_packet dst]; cbn in G; by rewrite G. Qed.
Lemma mk_payload w six : view_ok w six -> header_len (mk_packet six (join w)) = Some (hdr_len w six) -> payload (mk_packet six (join w)) = Some (w_icmp w).
Proof. intros Hw Hh. unfold payload. rewrite Hh. replace (view_bytes _) with (join w) by (by destruct six). by apply get_payload. Qed.

(** The version, header length and protocol are read from the part the reply keeps. *)
Lemma same_head w w' six : w_head w' = w_head w -> view_ok w six -> length (join w') = length (join w) ->
  parse (join w) = Some (mk_packet six (join w)) -> parse (join w') = Some (mk_packet six (join w')) /\
  header_len (mk_packet six (join w')) = header_len (mk_packet six (join w)) /\ protocol (mk_packet six (join w')) = protocol (mk_packet six (join w)).
Proof.
  intros Eh Hw Hl. pose proof (wo_head _ _ Hw) as L1. unfold parse, ipv4_new, ipv6_new. rewrite Hl.
  assert (forall n, (n < (if six then 8 else 10))%nat -> join w' !! n = join w !! n) as Hlk.
  { intros n Hn. unfold join. rewrite Eh. rewrite !lookup_app_l by lia. done. }
  assert (head (join w') = head (join w)) as ->. { rewrite !head_lookup. apply Hlk. destruct six; lia. }
  destruct (head (join w)) as [f|]; [|done]. intros H. split.
  - destruct (Z.shiftr f 4 =? 4); [|destruct (Z.shiftr f 4 =? 6); [|done]]; destruct six; repeat case_match; done.
  - split; destruct six; cbn [mk_packet header_len protocol]; rewrite ?Hlk by lia; done.
Qed.

Definition icmp_message_valid (six : bool) (q : IpPacket) (m : bytes) : Prop :=
  exists s d, src q = Some ((if six then V6 else V4) s) /\ dst q = Some ((if six then V6 else V4) d) /\ valid m (icmp_init six s d (length m)).

(** a produced reply is the request sent back: the same length, header length
    and protocol, the addresses swapped, the type turned from request to reply
    with code, identifier, sequence and payload kept, and the checksums valid -
    the ICMP one (over the IPv6 pseudo-header for version 6) and, in version 4,
    the header's. *)
Theorem echo_reply_correct request out :
  bytes_ok request -> Z.of_nat (length request) <= MAX_PACKET -> icmp_echo_reply request = Some (Some out) ->
  exists six h code ck ck' rest,
    let p := mk_packet six request in let q := mk_packet six out in
    parse request = Some p /\ parse out = Some q /\ length out = length request /\
    header_len p = Some h /\ header_len q = Some h /\ protocol q = protocol p /\
    src q = dst p /\ dst q = src p /\ length ck = 2%nat /\ length ck' = 2%nat /\
    payload p = Some (icmp_request_type six :: code :: ck ++ rest) /\
    payload q = Some (icmp_reply_type six :: code :: ck' ++ rest) /\
    icmp_message_valid six q (icmp_reply_type six :: code :: ck' ++ rest) /\
    (six = false -> valid (take h out) 0).
Proof.
  intros Hb Hl Hr. destruct (reply_cases request) as [[E _]|(w & six & l & (-> & Hw & Hp & Hh & Hpr & Hi) & _ & H)]; [congruence|].
  destruct l as [|code [|c1 [|c2 rest]]]; try congruence. rewrite Hr in H. injection H as ->.
  set (w' := reply_view w six code rest). assert (view_ok w' six) as Hw'.
  { apply swap_ok; [done|]. destruct six; [done|]. unfold reply_ipck. by rewrite length_to_be_bytes, (wo_ipck _ _ Hw). }
  assert (hdr_len w' six = hdr_len w six) as Hhl by (by destruct six).
  assert (length (join w') = length (join w)) as Hlen.
  { rewrite !icmp_join_split, !length_app, (icmp_length_header _ _ Hw), (icmp_length_header _ _ Hw'), Hhl, Hi. unfold w', reply_view, reply_icmp. cbn [w_icmp]. cbv zeta.
    rewrite !length_app, length_to_be_bytes. cbn [length]. lia. }
  destruct (same_head w w' six eq_refl Hw Hlen Hp) as (Q1 & Q2 & Q3). rewrite Hh, <- Hhl in Q2.
  assert (bytes_ok (join w)) as Hb' by done. unfold join in Hb. rewrite !Forall_app, Hi in Hb. destruct Hb as (_ & _ & B3 & B4 & _ & B6). inv_Forall.
  eexists six, (hdr_len w six), code, [c1; c2], (to_be_bytes 2 _), rest. cbv zeta.
  split; [exact Hp|]. split; [exact Q1|]. split; [exact Hlen|]. split; [exact Hh|]. split; [rewrite Q2; by rewrite Hhl|]. split; [exact Q3|].
  rewrite !mk_src, !mk_dst by done. split; [done|]. split; [done|]. split; [done|]. split; [apply length_to_be_bytes|].
  rewrite !mk_payload by done. split; [by rewrite Hi|]. split; [done|]. split.
  - exists (w_dst w), (w_src w). rewrite !mk_src, !mk_dst by done. split; [done|]. split; [done|].
    apply (reply_icmp_valid six (w_dst w) (w_src w) code rest); try done; [apply Hw|apply Hw|]. rewrite icmp_join_split, length_app, Hi in Hl. cbn [length] in Hl. lia.
  - intros ->. rewrite <- Hhl, (icmp_take_header w' false Hw'). by apply reply_ipck_valid.
Qed.

(** A ping of 10.0.0.1 by 10.0.0.2, with identifier 1, sequence 7 and two data bytes. *)
Definition demo_ping : bytes :=
  [0x45; 0; 0; 30; 0; 9; 0; 0; 64; 1; 0x66; 0xc7; 10; 0; 0; 2; 10; 0; 0; 1; 8; 0; 0x96; 0x96; 0; 1; 0; 7; 97; 98].
Definition demo_pong : bytes := default [] (default None (icmp_echo_reply demo_ping)).

Lemma echo_reply_correct_witness : length demo_pong = 30%nat /\ take 2 (drop 20 demo_pong) = [0; 0].
Proof.
  assert (icmp_echo_reply demo_ping = Some (Some demo_pong)) as E by (vm_compute; reflexivity).
  destruct (echo_reply_correct demo_ping demo_pong ltac:(decided) ltac:(vm_compute; discriminate) E) as (six & h & code & ck & ck' & rest & _ & _ & Hl & _).
  split; [exact Hl|vm_compute; reflexivity].
Defined.
End packet.
