(* ===== verification/FakeIp.v ===== *)
(** [core/src/dns/fakeip.rs]: the allocator of synthetic addresses and its map
    between domains and addresses, with expiry and a least-recently-used cap.  The
    hash maps are finite maps ([gmap]); the order in which one is iterated is an
    argument of the operations that iterate.  An [Instant] is a number of
    milliseconds, a [String] its bytes. *)

From stdpp Require Import base gmap list numbers.
From S2P Require Import Prelude RustStr NetAddr.

Module fakeip.
Import net.

Definition V4_BASE : bytes := [28; 0; 0; 0].
Definition V4_COUNT : Z := Z.shiftl 1 17.
Definition V6_BASE : bytes := [0x30; 0x00; 0x20; 0x18; 0; 0; 0; 0; 0; 0; 0; 0; 0; 0; 0; 0].
Definition V6_COUNT : Z := Z.shiftl 1 20.

Definition is_fake_v6 (addr : bytes) : bool :=
  let n := from_be_bytes addr in
  let base := from_be_bytes V6_BASE in
  (base <=? n) && (n <? base + V6_COUNT).

Record Space := mk_space { base : Z; count : Z; high_water : Z; free : list Z; s_v4 : bool }.
#[export] Instance Space_eta : Settable Space := fun s => mk_space (base s) (count s) (high_water s) (free s) (s_v4 s).

(** [Vec::pop] takes the last element, [Vec::push] appends. *)
Definition alloc_offset (s : Space) : option Z * Space :=
  match list.last (free s) with
  | Some o => (Some o, s <| free := take (length (free s) - 1) (free s) |>)
  | None =>
      if high_water s <? count s then (Some (high_water s), s <| high_water := high_water s + 1 |>)
      else (None, s)
  end.

Definition addr (s : Space) (offset : Z) : IpAddr :=
  if s_v4 s then V4 (to_be_bytes 4 (wrap32 (wrap32 (base s) + wrap32 offset)))
  else V6 (to_be_bytes 16 (wrap 128 (base s + offset))).

Record Mapping := mk_mapping { domain : bytes; offset : Z; last_used : Z }.
#[export] Instance Mapping_eta : Settable Mapping := fun m => mk_mapping (domain m) (offset m) (last_used m).

Record FakeIpPool := mk_pool {
  space4 : Space; space6 : Space; ttl : Z; cap : Z;
  by_domain : gmap (bytes * bool) IpAddr;
  by_ip : gmap IpAddr Mapping;
}.
#[export] Instance FakeIpPool_eta : Settable FakeIpPool := fun p =>
  mk_pool (space4 p) (space6 p) (ttl p) (cap p) (by_domain p) (by_ip p).

(** [if v6 { &mut self.v6 } else { &mut self.v4 }]. *)
Definition space (six : bool) (p : FakeIpPool) : Space := if six then space6 p else space4 p.
Definition set_space (six : bool) (s : Space) (p : FakeIpPool) : FakeIpPool :=
  if six then p <| space6 := s |> else p <| space4 := s |>.

Definition clamp (x lo hi : Z) : Z := Z.min (Z.max x lo) hi.

Definition new (ttl cap : Z) : FakeIpPool :=
  mk_pool (mk_space (from_be_bytes V4_BASE) V4_COUNT 1 [] true)
          (mk_space (from_be_bytes V6_BASE) V6_COUNT 1 [] false)
          ttl (clamp cap 1 (Z.min V4_COUNT V6_COUNT - 1)) ∅ ∅.

Definition len (p : FakeIpPool) : nat := size (by_ip p).
Definition is_empty (p : FakeIpPool) : bool := (size (by_ip p) =? 0)%nat.

Definition remove_by_ip (ip : IpAddr) (p : FakeIpPool) : FakeIpPool :=
  match by_ip p !! ip with
  | None => p
  | Some m =>
      let p := p <| by_ip := delete ip (by_ip p) |> <| by_domain := delete (domain m, is_v6 ip) (by_domain p) |> in
      let s := space (is_v6 ip) p in
      set_space (is_v6 ip) (s <| free := free s ++ [offset m] |>) p
  end.

(** The order in which [HashMap::iter] visits a map. *)
Definition Order : Type := gmap IpAddr Mapping -> list (IpAddr * Mapping).
Definition order_ok (it : Order) : Prop := forall m, it m ≡ₚ map_to_list m.

(** [Iterator::min_by_key]: the first of the least elements. *)
Fixpoint min_by_key {A} (key : A -> Z) (l : list A) : option A :=
  match l with
  | [] => None
  | x :: l => match min_by_key key l with Some y => if key y <? key x then Some y else Some x | None => Some x end
  end.

Definition evict_lru (it : Order) (p : FakeIpPool) : FakeIpPool :=
  match min_by_key (fun e => last_used e.2) (it (by_ip p)) with
  | Some (ip, _) => remove_by_ip ip p
  | None => p
  end.

Definition evict_lru_family (it : Order) (six : bool) (p : FakeIpPool) : bool * FakeIpPool :=
  match min_by_key (fun e => last_used e.2) (filter (fun e => is_v6 e.1 = six) (it (by_ip p))) with
  | Some (ip, _) => (true, remove_by_ip ip p)
  | None => (false, p)
  end.

Fixpoint alloc_rounds (rounds : nat) (it : Order) (six : bool) (p : FakeIpPool) : (IpAddr * Z) * FakeIpPool :=
  match rounds with
  | O => ((addr (space six p) 0, 0), p)
  | S rounds =>
      let '(hit, s) := alloc_offset (space six p) in
      let p := set_space six s p in
      match hit with
      | Some off => ((addr s off, off), p)
      | None => alloc_rounds rounds it six (evict_lru_family it six p).2
      end
  end.
Definition alloc_in (it : Order) (six : bool) (p : FakeIpPool) : (IpAddr * Z) * FakeIpPool := alloc_rounds 2 it six p.

Definition saturating_duration_since (now earlier : Z) : Z := Z.max 0 (now - earlier).
Definition fresh_enough (now : Z) (m : Mapping) (p : FakeIpPool) : bool := saturating_duration_since now (last_used m) <=? ttl p.
Definition touch (ip : IpAddr) (now : Z) (p : FakeIpPool) : FakeIpPool :=
  p <| by_ip := alter (fun m => m <| last_used := now |>) ip (by_ip p) |>.

Definition insert_fresh (it : Order) (d : bytes) (want_v6 : bool) (now : Z) (p : FakeIpPool) : IpAddr * FakeIpPool :=
  let p := if cap p <=? Z.of_nat (size (by_ip p)) then evict_lru it p else p in
  let '((ip, offset), p) := alloc_in it want_v6 p in
  (ip, p <| by_domain := <[(d, want_v6) := ip]> (by_domain p) |>
         <| by_ip := <[ip := mk_mapping d offset now]> (by_ip p) |>).

Definition allocate (it : Order) (dom : bytes) (want_v6 : bool) (now : Z) (p : FakeIpPool) : IpAddr * FakeIpPool :=
  let d := to_ascii_lowercase dom in
  match by_domain p !! (d, want_v6) with
  | Some ip =>
      match by_ip p !! ip with
      | Some m =>
          if fresh_enough now m p then (ip, touch ip now p)
          else insert_fresh it d want_v6 now (remove_by_ip ip p)
      | None => insert_fresh it d want_v6 now (remove_by_ip ip p)
      end
  | None => insert_fresh it d want_v6 now p
  end.

Definition recover (ip : IpAddr) (now : Z) (p : FakeIpPool) : option bytes * FakeIpPool :=
  match by_ip p !! ip with
  | Some m => if fresh_enough now m p then (Some (domain m), touch ip now p) else (None, remove_by_ip ip p)
  | None => (None, p)
  end.

(** ** The invariant *)

Definition family_base (six : bool) : Z := from_be_bytes (if six then V6_BASE else V4_BASE).
Definition family_count (six : bool) : Z := if six then V6_COUNT else V4_COUNT.
Definition fake (six : bool) (o : Z) : IpAddr :=
  if six then V6 (to_be_bytes 16 (family_base true + o)) else V4 (to_be_bytes 4 (family_base false + o)).
(** The live mappings of a family. *)
Definition live (six : bool) (m : gmap IpAddr Mapping) : gmap IpAddr Mapping := filter (fun e => is_v6 e.1 = six) m.

Record space_ok (six : bool) (s : Space) : Prop := {
  so_base : base s = family_base six;
  so_count : count s = family_count six;
  so_v4 : s_v4 s = negb six;
  so_high : 1 <= high_water s <= count s;
  so_free : Forall (fun o => 1 <= o < high_water s) (free s);
  so_nodup : NoDup (free s);
}.

Record mapping_ok (p : FakeIpPool) (ip : IpAddr) (m : Mapping) : Prop := {
  mo_addr : ip = fake (is_v6 ip) (offset m);
  mo_range : 1 <= offset m < high_water (space (is_v6 ip) p);
  mo_used : offset m ∉ free (space (is_v6 ip) p);
  mo_back : by_domain p !! (domain m, is_v6 ip) = Some ip;
}.

Record pool_ok (p : FakeIpPool) : Prop := {
  po_space : forall six, space_ok six (space six p);
  po_map : forall ip m, by_ip p !! ip = Some m -> mapping_ok p ip m;
  po_domain : forall d six ip, by_domain p !! (d, six) = Some ip -> is_v6 ip = six /\ exists m, by_ip p !! ip = Some m /\ domain m = d;
  po_count : forall six, high_water (space six p) - 1 = Z.of_nat (length (free (space six p)) + size (live six (by_ip p)));
  po_size : Z.of_nat (size (by_ip p)) <= cap p;
  po_cap : 1 <= cap p < family_count false;
}.

(** ** Addresses *)

Lemma family_count_le six : family_count false <= family_count six.
Proof. by destruct six. Qed.
Lemma is_v6_fake six o : is_v6 (fake six o) = six.
Proof. by destruct six. Qed.
Lemma base_fits six o : 0 <= o < family_count six -> fits (if six then 128 else 32) (family_base six + o) /\ fits (if six then 128 else 32) (family_base six).
Proof.
  unfold fits. destruct six.
  - change (family_count true) with 1048576. change (family_base true) with 63803594736259179095180407450552500224. change (2 ^ 128) with 340282366920938463463374607431768211456. lia.
  - change (family_count false) with 131072. change (family_base false) with 469762048. change (2 ^ 32) with 4294967296. lia.
Qed.
Lemma fake_inj six o o' : 0 <= o < family_count six -> 0 <= o' < family_count six -> fake six o = fake six o' -> o = o'.
Proof.
  intros H H' E. destruct (base_fits six o H) as [B _], (base_fits six o' H') as [B' _]. unfold fits in *.
  assert (forall n, to_be_bytes n (family_base six + o) = to_be_bytes n (family_base six + o') -> 256 ^ Z.of_nat n = 2 ^ (if six then 128 else 32) -> o = o') as Hn.
  { intros n En Ep. apply (f_equal from_be_bytes) in En. rewrite !from_to_be_bytes_small in En by lia. lia. }
  apply (f_equal octets) in E. destruct six; (eapply Hn; [exact E|reflexivity]).
Qed.
Lemma addr_fake six s o : space_ok six s -> 0 <= o < family_count six -> addr s o = fake six o.
Proof.
  intros [Hb Hc Hv _ _ _] Ho. destruct (base_fits six o Ho) as [B B']. unfold addr. rewrite Hv, Hb. destruct six; cbn [negb fake].
  - by rewrite wrap_small.
  - rewrite (wrap_small 32 (family_base false)) by done. rewrite (wrap_small 32 o); [by rewrite wrap_small|]. unfold fits. change (family_count false) with 131072 in Ho. change (2 ^ 32) with 4294967296. lia.
Qed.

Lemma space_set_eq six s p : space six (set_space six s p) = s.
Proof. by destruct six. Qed.
Lemma space_set_ne six six' s p : six' <> six -> space six' (set_space six s p) = space six' p.
Proof. by destruct six, six'. Qed.
Lemma set_space_rest six s p : by_ip (set_space six s p) = by_ip p /\ by_domain (set_space six s p) = by_domain p /\ cap (set_space six s p) = cap p /\ ttl (set_space six s p) = ttl p.
Proof. by destruct six. Qed.

(** ** Removing a mapping *)

Lemma live_delete six ip m x : m !! ip = Some x ->
  size (live six m) = (size (live six (delete ip m)) + if decide (is_v6 ip = six) then 1 else 0)%nat.
Proof.
  intros E. unfold live. rewrite map_filter_delete. destruct (decide (is_v6 ip = six)) as [Hs|Hs].
  - assert (filter (fun e : IpAddr * Mapping => is_v6 e.1 = six) m !! ip = Some x) as E' by (by apply map_lookup_filter_Some).
    rewrite map_size_delete_Some by eauto. assert (size (filter (fun e : IpAddr * Mapping => is_v6 e.1 = six) m) <> 0%nat); [|lia].
    intros E0. apply map_size_empty_iff in E0. by rewrite E0 in E'.
  - rewrite map_size_delete_None; [lia|]. apply map_lookup_filter_None. right. intros y _. done.
Qed.

Lemma remove_fields ip p : by_ip (remove_by_ip ip p) = delete ip (by_ip p) /\ cap (remove_by_ip ip p) = cap p /\ ttl (remove_by_ip ip p) = ttl p /\
  (forall k, by_domain p !! k = None -> by_domain (remove_by_ip ip p) !! k = None) /\
  (forall m, by_ip p !! ip = Some m -> by_domain (remove_by_ip ip p) = delete (domain m, is_v6 ip) (by_domain p)) /\
  (forall six, high_water (space six (remove_by_ip ip p)) = high_water (space six p)).
Proof.
  unfold remove_by_ip. destruct (by_ip p !! ip) as [m|] eqn:E.
  - destruct (is_v6 ip); cbn; (split; [done|]; split; [done|]; split; [done|]; split; [|split; [by intros m' [= <-]|by intros []]]);
      intros k Hk; rewrite lookup_delete_None; by right.
  - rewrite delete_id by done. done.
Qed.

(** Two live mappings with one offset in one family are one mapping. *)
Lemma offset_unique p ip ip' m m' : pool_ok p -> by_ip p !! ip = Some m -> by_ip p !! ip' = Some m' ->
  is_v6 ip = is_v6 ip' -> offset m = offset m' -> ip = ip'.
Proof.
  intros Hp E E' H6 Ho. destruct (po_map _ Hp _ _ E) as [A _ _ _], (po_map _ Hp _ _ E') as [A' _ _ _]. rewrite A, A'. by rewrite H6, Ho.
Qed.

Lemma remove_ok ip p : pool_ok p -> pool_ok (remove_by_ip ip p).
Proof.
  intros Hp. destruct (by_ip p !! ip) as [m|] eqn:E; [|unfold remove_by_ip; by rewrite E].
  destruct (remove_fields ip p) as (F1 & F2 & _ & _ & F4 & F5). specialize (F4 _ E).
  assert (free (space (is_v6 ip) (remove_by_ip ip p)) = free (space (is_v6 ip) p) ++ [offset m]) as Ff.
  { unfold remove_by_ip. rewrite E. by destruct (is_v6 ip). }
  assert (forall six, six <> is_v6 ip -> space six (remove_by_ip ip p) = space six p) as Fn.
  { intros six Hs. unfold remove_by_ip. rewrite E. by destruct six, (is_v6 ip). }
  destruct (po_map _ Hp _ _ E) as [A R U B].
  constructor.
  - intros six. destruct (decide (six = is_v6 ip)) as [->|Hs]; [|rewrite Fn by done; apply Hp]. destruct (po_space _ Hp (is_v6 ip)) as [s1 s2 s3 s4 s5 s6].
    assert (base (space (is_v6 ip) (remove_by_ip ip p)) = base (space (is_v6 ip) p) /\ count (space (is_v6 ip) (remove_by_ip ip p)) = count (space (is_v6 ip) p) /\
      s_v4 (space (is_v6 ip) (remove_by_ip ip p)) = s_v4 (space (is_v6 ip) p)) as (K1 & K2 & K3) by (unfold remove_by_ip; rewrite E; by destruct (is_v6 ip)).
    constructor; rewrite ?Ff, ?F5, ?K1, ?K2, ?K3; try done.
    + apply Forall_app_2; [done|by constructor].
    + apply list.NoDup_app. split; [done|]. split; [intros x Hx ->%list_elem_of_singleton; done|apply list.NoDup_singleton].
  - intros ip' m'. rewrite F1, lookup_delete_Some. intros [Hne E']. destruct (po_map _ Hp _ _ E') as [A' R' U' B'].
    constructor; [done|by rewrite F5| |].
    + destruct (decide (is_v6 ip' = is_v6 ip)) as [H6|H6]; [|by rewrite Fn]. rewrite H6, Ff in *. rewrite elem_of_app, list_elem_of_singleton.
      intros [|Ho]; [done|]. apply Hne. by eapply (offset_unique p ip ip' m m').
    + rewrite F4, lookup_delete_ne; [done|]. intros [= Hd H6]. apply Hne. rewrite Hd, H6 in B. congruence.
  - intros d six ip'. rewrite F4, lookup_delete_Some. intros [Hne Ed]. destruct (po_domain _ Hp _ _ _ Ed) as [H6 (m' & E' & Hd)]. split; [done|]. exists m'.
    rewrite F1, lookup_delete_ne; [done|]. intros ->. apply Hne. congruence.
  - intros six. rewrite F1, F5. pose proof (po_count _ Hp six) as Hc. rewrite (live_delete six ip _ m E) in Hc.
    destruct (decide (is_v6 ip = six)) as [<-|Hs]; [rewrite Ff, length_app; cbn; lia|rewrite Fn by done; lia].
  - rewrite F1, F2. pose proof (po_size _ Hp). rewrite map_size_delete, E. cbn. lia.
  - rewrite F2. apply Hp.
Qed.

(** ** Refreshing a mapping *)

Lemma touch_by_ip ip now p m : by_ip p !! ip = Some m -> by_ip (touch ip now p) = <[ip := m <| last_used := now |>]> (by_ip p).
Proof.
  intros E. unfold touch. cbn. apply map_eq. intros i. destruct (decide (i = ip)) as [->|Hn].
  - by rewrite lookup_alter_eq, lookup_insert_eq, E.
  - by rewrite lookup_alter_ne, lookup_insert_ne by done.
Qed.

Lemma live_insert six ip x m : size (live six (<[ip := x]> m)) =
  (size (live six m) + if decide (is_v6 ip = six /\ m !! ip = None) then 1 else 0)%nat.
Proof.
  unfold live. rewrite map_filter_insert. cbn. destruct (decide (is_v6 ip = six)) as [Hs|Hs].
  - rewrite map_size_insert. destruct (m !! ip) as [y|] eqn:E.
    + rewrite (proj2 (map_lookup_filter_Some _ m ip y)) by done. rewrite decide_False by (by intros [_ ?]). cbn. lia.
    + rewrite (proj2 (map_lookup_filter_None _ m ip)) by (by left). rewrite decide_True by done. lia.
  - rewrite (decide_False (P := _ /\ _)) by (by intros [? _]). rewrite map_filter_delete_not; [lia|]. done.
Qed.

Lemma touch_ok ip now p m : pool_ok p -> by_ip p !! ip = Some m -> pool_ok (touch ip now p).
Proof.
  intros Hp E. pose proof (touch_by_ip ip now p m E) as Hi. destruct (po_map _ Hp _ _ E) as [A R U B].
  constructor; rewrite ?Hi; try apply Hp.
  - intros ip' m'. rewrite lookup_insert_Some. intros [[<- <-]|[Hn E']]; [done|]. destruct (po_map _ Hp _ _ E'). done.
  - intros d six ip' Ed. destruct (po_domain _ Hp _ _ _ Ed) as [H6 (m' & E' & Hd)]. split; [done|].
    destruct (decide (ip' = ip)) as [->|Hn]; [|exists m'; by rewrite lookup_insert_ne]. exists (m <| last_used := now |>). rewrite lookup_insert_eq. split; [done|]. cbn. congruence.
  - intros six. rewrite live_insert, decide_False by (intros [_ ?]; congruence). rewrite Nat.add_0_r. apply (po_count _ Hp).
  - rewrite map_size_insert, E. apply Hp.
Qed.

(** ** Eviction *)

Lemma min_by_key_spec {A} (key : A -> Z) l : match min_by_key key l with
  | Some x => x ∈ l /\ Forall (fun y => key x <= key y) l
  | None => l = [] end.
Proof.
  induction l as [|x l IH]; cbn; [done|]. destruct (min_by_key key l) as [y|].
  - destruct IH as [Hy Hl]. destruct (Z.ltb_spec (key y) (key x)).
    + split; [by constructor|]. constructor; [lia|done].
    + split; [constructor|]. constructor; [lia|]. eapply list.Forall_impl; [exact Hl|]. cbn. intros. lia.
  - subst. split; [constructor|]. by repeat constructor.
Qed.

Definition least_recent (v : IpAddr) (m : gmap IpAddr Mapping) : Prop :=
  exists x, m !! v = Some x /\ forall ip y, m !! ip = Some y -> last_used x <= last_used y.

Lemma evict_lru_spec it p : order_ok it -> by_ip p <> ∅ -> exists v, least_recent v (by_ip p) /\ evict_lru it p = remove_by_ip v p.
Proof.
  unfold order_ok. intros Hit Hne. unfold evict_lru. pose proof (min_by_key_spec (fun e : IpAddr * Mapping => last_used e.2) (it (by_ip p))) as H.
  destruct (min_by_key _ _) as [[v x]|].
  - exists v. split; [|done]. destruct H as [Hin Hall]. rewrite Hit in Hin, Hall. exists x. split; [by apply elem_of_map_to_list|].
    intros ip y E. rewrite Forall_forall in Hall. apply (Hall (ip, y)). by apply list_elem_of_In, elem_of_map_to_list.
  - exfalso. apply Hne. apply map_to_list_empty_iff, Permutation_nil. rewrite <- (Hit (by_ip p)). by rewrite H.
Qed.

(** ** A fresh mapping *)

(** [s] is the space of family [six] after [o] was taken from it. *)
Record taken (six : bool) (p : FakeIpPool) (o : Z) (s : Space) : Prop := {
  ta_space : space_ok six s;
  ta_range : 1 <= o < high_water s;
  ta_free : o ∉ free s;
  ta_high : high_water (space six p) <= high_water s;
  ta_sub : forall x, x ∈ free s -> x ∈ free (space six p);
  ta_fresh : forall ip m, by_ip p !! ip = Some m -> is_v6 ip = six -> offset m <> o;
  ta_count : high_water s - 1 = Z.of_nat (length (free s) + size (live six (by_ip p)) + 1);
}.

(** Below the cap the first attempt succeeds. *)
Lemma alloc_offset_spec six p : pool_ok p -> Z.of_nat (size (by_ip p)) < cap p ->
  exists o s, alloc_offset (space six p) = (Some o, s) /\ taken six p o s.
Proof.
  intros Hp Hsz. unfold alloc_offset. pose proof (po_count _ Hp six) as Hc. pose proof (po_space _ Hp six) as Hs. destruct Hs as [s1 s2 s3 s4 s5 s6].
  destruct (list.last (free (space six p))) as [o|] eqn:El.
  - apply last_Some in El as [l El]. rewrite El in *. rewrite length_app in *. cbn [length] in *. replace (length l + 1 - 1)%nat with (length l) by lia. rewrite take_app_length.
    apply Forall_app in s5 as [F1 F2]. apply list.NoDup_app in s6 as (N1 & N2 & _). inv_Forall.
    eexists o, _. split; [done|]. constructor; cbn; rewrite ?El; try done.
    + intros Hin. by apply (N2 o Hin), list_elem_of_singleton.
    + intros x Hx. apply elem_of_app. by left.
    + intros ip m E H6 Ho. destruct (po_map _ Hp _ _ E) as [_ _ U _]. rewrite H6, El, Ho in U. apply U, elem_of_app. right. by apply list_elem_of_singleton.
    + lia.
  - apply last_None in El. rewrite El in *. cbn [length] in Hc. pose proof (map_size_filter (fun e : IpAddr * Mapping => is_v6 e.1 = six) (by_ip p)) as Hf. fold (live six (by_ip p)) in Hf.
    pose proof (po_cap _ Hp). pose proof (family_count_le six). destruct (Z.ltb_spec (high_water (space six p)) (count (space six p))) as [Hlt|]; [|lia].
    eexists _, _. split; [done|]. constructor; cbn; rewrite ?El; try done; [|lia|apply not_elem_of_nil|lia| |cbn; lia].
    + constructor; cbn; rewrite ?El; try done; first [lia|constructor].
    + intros ip m E H6 Ho. destruct (po_map _ Hp _ _ E) as [_ R _ _]. rewrite H6 in R. lia.
Qed.

Definition add (six : bool) (s : Space) (d : bytes) (o now : Z) (p : FakeIpPool) : FakeIpPool :=
  let p := set_space six s p in
  p <| by_domain := <[(d, six) := fake six o]> (by_domain p) |> <| by_ip := <[fake six o := mk_mapping d o now]> (by_ip p) |>.

Lemma taken_absent six p o s : pool_ok p -> taken six p o s -> by_ip p !! fake six o = None.
Proof.
  intros Hp [t1 t2 t3 t4 t5 t6 t7]. destruct (by_ip p !! fake six o) as [m|] eqn:E; [|done]. exfalso.
  destruct (po_map _ Hp _ _ E) as [A R _ _]. rewrite is_v6_fake in *. apply (t6 _ _ E (is_v6_fake _ _)).
  pose proof (so_high _ _ t1). pose proof (so_count _ _ t1). symmetry. eapply fake_inj; [| |exact A]; lia.
Qed.

Lemma add_ok six s d o now p : pool_ok p -> taken six p o s -> Z.of_nat (size (by_ip p)) < cap p -> by_domain p !! (d, six) = None ->
  pool_ok (add six s d o now p).
Proof.
  intros Hp Ht Hsz Hd. pose proof (taken_absent _ _ _ _ Hp Ht) as Ha. destruct Ht as [t1 t2 t3 t4 t5 t6 t7].
  assert (space six (add six s d o now p) = s) as Fs by by destruct six.
  assert (forall six', six' <> six -> space six' (add six s d o now p) = space six' p) as Fn by by intros []; destruct six.
  assert (by_ip (add six s d o now p) = <[fake six o := mk_mapping d o now]> (by_ip p)) as Fi by by destruct six.
  assert (by_domain (add six s d o now p) = <[(d, six) := fake six o]> (by_domain p)) as Fd by by destruct six.
  assert (cap (add six s d o now p) = cap p) as Fc by by destruct six.
  constructor; rewrite ?Fi, ?Fd, ?Fc.
  - intros six'. destruct (decide (six' = six)) as [->|]; [by rewrite Fs|]. rewrite Fn by done. apply Hp.
  - intros ip m. rewrite lookup_insert_Some. intros [[<- <-]|[Hn E]].
    + constructor; rewrite ?is_v6_fake, ?Fs, ?Fd; cbn; try done. apply lookup_insert_eq.
    + destruct (po_map _ Hp _ _ E) as [A R U B]. constructor; [done|..].
      * destruct (decide (is_v6 ip = six)) as [H6|]; [|by rewrite Fn]. rewrite H6, Fs in *. lia.
      * destruct (decide (is_v6 ip = six)) as [H6|]; [|by rewrite Fn]. rewrite H6, Fs in *. intros Hx. by apply U, t5.
      * rewrite Fd, lookup_insert_ne; [done|]. intros [= Hx Hy]. rewrite <- Hx, <- Hy in B. congruence.
  - intros d' six' ip'. rewrite lookup_insert_Some. intros [[[= <- <-] <-]|[Hn Ed]].
    + rewrite is_v6_fake. split; [done|]. eexists. by rewrite lookup_insert_eq.
    + destruct (po_domain _ Hp _ _ _ Ed) as [H6 (m' & E' & Hd')]. split; [done|]. exists m'. rewrite lookup_insert_ne; [done|]. congruence.
  - intros six'. rewrite live_insert, is_v6_fake. pose proof (po_count _ Hp six'). destruct (decide (six' = six)) as [->|Hn].
    + rewrite Fs, decide_True by done. lia.
    + rewrite Fn, decide_False by (done || intros [? _]; congruence). lia.
  - rewrite map_size_insert, Ha. cbn. lia.
  - apply Hp.
Qed.

(** Room for one more: nothing is removed below the cap, and one least recently used
    mapping at it. *)
Definition room (cap : Z) (m rest : gmap IpAddr Mapping) : Prop :=
  (rest = m /\ Z.of_nat (size m) < cap) \/ (Z.of_nat (size m) = cap /\ exists v, least_recent v m /\ rest = delete v m).

Lemma insert_fresh_spec it d six now p : order_ok it -> pool_ok p -> by_domain p !! (d, six) = None ->
  exists o rest, let r := insert_fresh it d six now p in
    r.1 = fake six o /\ 1 <= o < family_count six /\ pool_ok r.2 /\ ttl r.2 = ttl p /\ cap r.2 = cap p /\
    room (cap p) (by_ip p) rest /\ rest !! fake six o = None /\ by_ip r.2 = <[fake six o := mk_mapping d o now]> rest.
Proof.
  intros Hit Hp Hd. unfold insert_fresh. cbv zeta.
  set (q := if cap p <=? Z.of_nat (size (by_ip p)) then evict_lru it p else p).
  assert (pool_ok q /\ ttl q = ttl p /\ cap q = cap p /\ room (cap p) (by_ip p) (by_ip q) /\ Z.of_nat (size (by_ip q)) < cap q /\ by_domain q !! (d, six) = None)
    as (Hq & Ht & Hc & Hr & Hsz & Hdq).
  { unfold q. destruct (Z.leb_spec (cap p) (Z.of_nat (size (by_ip p)))) as [Hge|Hlt]; [|by repeat (split; [done|]); split; [left|]].
    pose proof (po_size _ Hp). pose proof (po_cap _ Hp). destruct (evict_lru_spec it p Hit) as (v & Hv & ->); [intros E; rewrite E, map_size_empty in Hge; lia|].
    destruct (remove_fields v p) as (F1 & F2 & F3 & F4 & _ & _). split; [by apply remove_ok|]. split; [done|]. split; [done|]. rewrite F1, F2.
    split; [right; split; [lia|by exists v]|]. split; [|by apply F4]. destruct Hv as (x & Ex & _). rewrite map_size_delete, Ex. cbn. lia. }
  clearbody q. destruct (alloc_offset_spec six q Hq Hsz) as (o & s & Ea & Hta). unfold alloc_in. cbn [alloc_rounds]. rewrite Ea.
  pose proof (ta_space _ _ _ _ Hta) as Hs. pose proof (ta_range _ _ _ _ Hta) as Ho. pose proof (so_high _ _ Hs). pose proof (so_count _ _ Hs).
  rewrite (addr_fake six s o Hs) by lia. exists o, (by_ip q). split; [done|]. split; [lia|]. split; [by apply (add_ok six s d o now q)|].
  cbn [snd]. destruct (set_space_rest six s q) as (R1 & R2 & R3 & R4). cbn. rewrite R1, R3, R4. repeat (split; [done|]). split; [by eapply taken_absent|done].
Qed.

(** What [allocate] does to the mappings, by case. *)
Inductive allocated (p : FakeIpPool) (d : bytes) (six : bool) (now : Z) : IpAddr -> gmap IpAddr Mapping -> Prop :=
| AllocHit ip m :
    by_domain p !! (d, six) = Some ip -> by_ip p !! ip = Some m -> fresh_enough now m p = true ->
    allocated p d six now ip (<[ip := m <| last_used := now |>]> (by_ip p))
| AllocNew o rest :
    by_domain p !! (d, six) = None -> room (cap p) (by_ip p) rest -> rest !! fake six o = None ->
    1 <= o < family_count six -> allocated p d six now (fake six o) (<[fake six o := mk_mapping d o now]> rest)
| AllocExpired ip m o rest :
    by_domain p !! (d, six) = Some ip -> by_ip p !! ip = Some m -> fresh_enough now m p = false ->
    room (cap p) (delete ip (by_ip p)) rest -> rest !! fake six o = None ->
    1 <= o < family_count six -> allocated p d six now (fake six o) (<[fake six o := mk_mapping d o now]> rest).

Lemma allocate_spec it dom six now p : order_ok it -> pool_ok p ->
  let r := allocate it dom six now p in
  pool_ok r.2 /\ ttl r.2 = ttl p /\ cap r.2 = cap p /\ allocated p (to_ascii_lowercase dom) six now r.1 (by_ip r.2).
Proof.
  intros Hit Hp. unfold allocate. cbv zeta. set (d := to_ascii_lowercase dom). clearbody d. destruct (by_domain p !! (d, six)) as [ip|] eqn:Ed.
  - destruct (po_domain _ Hp _ _ _ Ed) as [H6 (m & E & Hm)]. rewrite E. destruct (fresh_enough now m p) eqn:Ef.
    + cbn [fst snd]. split; [by eapply touch_ok|]. split; [done|]. split; [done|]. rewrite (touch_by_ip _ _ _ m) by done. by eapply AllocHit.
    + destruct (remove_fields ip p) as (F1 & F2 & F3 & _ & F5 & _).
      assert (by_domain (remove_by_ip ip p) !! (d, six) = None) as Hd by (rewrite (F5 m E), Hm, H6; apply lookup_delete_eq).
      destruct (insert_fresh_spec it d six now (remove_by_ip ip p) Hit (remove_ok _ _ Hp) Hd) as (o & rest & -> & Ho & Hok & -> & -> & Hr & Hn & ->).
      split; [done|]. rewrite F1, F2 in *. split; [done|]. split; [done|]. by eapply AllocExpired.
  - destruct (insert_fresh_spec it d six now p Hit Hp Ed) as (o & rest & -> & Ho & Hok & -> & -> & Hr & Hn & ->).
    split; [done|]. split; [done|]. split; [done|]. by eapply AllocNew.
Qed.

Lemma recover_ok ip now p : pool_ok p -> pool_ok (recover ip now p).2 /\ ttl (recover ip now p).2 = ttl p /\ cap (recover ip now p).2 = cap p.
Proof.
  intros Hp. unfold recover. destruct (by_ip p !! ip) as [m|] eqn:E; [|done]. destruct (fresh_enough now m p); cbn [snd].
  - split; [by eapply touch_ok|done].
  - destruct (remove_fields ip p) as (_ & F2 & F3 & _). split; [by apply remove_ok|done].
Qed.

Lemma pool_new_ok t c : pool_ok (new t c).
Proof.
  constructor; try (intros; unfold new in *; cbn in *; done).
  - intros []; (constructor; cbn; try done; constructor).
  - intros []; done.
  - unfold new. cbn [by_ip cap]. rewrite map_size_empty. unfold clamp. change (Z.min V4_COUNT V6_COUNT) with 131072. lia.
  - unfold new. cbn [cap]. unfold clamp. change (Z.min V4_COUNT V6_COUNT) with 131072. change (family_count false) with 131072. lia.
Qed.

(** ** Histories *)

Inductive Call := Allocate (it : Order) (dom : bytes) (six : bool) (now : Z) | Recover (ip : IpAddr) (now : Z).
Inductive Ret := Address (ip : IpAddr) | Found (d : option bytes).
Definition exec (c : Call) (p : FakeIpPool) : Ret * FakeIpPool :=
  match c with
  | Allocate it dom six now => let '(ip, p) := allocate it dom six now p in (Address ip, p)
  | Recover ip now => let '(d, p) := recover ip now p in (Found d, p)
  end.
Fixpoint run (cs : list Call) (p : FakeIpPool) : list Ret * FakeIpPool :=
  match cs with
  | [] => ([], p)
  | c :: cs => let '(r, p) := exec c p in let '(rs, p) := run cs p in (r :: rs, p)
  end.
Definition call_ok (c : Call) : Prop := match c with Allocate it _ _ _ => order_ok it | Recover _ _ => True end.
Definition call_time (c : Call) : Z := match c with Allocate _ _ _ now | Recover _ now => now end.

Lemma pool_exec_ok c p : call_ok c -> pool_ok p -> pool_ok (exec c p).2 /\ ttl (exec c p).2 = ttl p /\ cap (exec c p).2 = cap p.
Proof.
  intros Hc Hp. destruct c as [it dom six now|ip now]; cbn.
  - destruct (allocate_spec it dom six now p Hc Hp) as (H1 & H2 & H3 & _). by destruct (allocate it dom six now p).
  - pose proof (recover_ok ip now p Hp). by destruct (recover ip now p).
Qed.
Lemma pool_run_ok cs : forall p, Forall call_ok cs -> pool_ok p -> pool_ok (run cs p).2 /\ ttl (run cs p).2 = ttl p /\ cap (run cs p).2 = cap p.
Proof.
  induction cs as [|c cs IH]; intros p Hc Hp; [done|]. inversion Hc; subst. cbn. destruct (pool_exec_ok c p) as (A & B & C); [done..|].
  destruct (exec c p) as [r q]. cbn in *. destruct (IH q) as (A' & B' & C'); [done..|]. destruct (run cs q). cbn in *. split; [done|]. split; congruence.
Qed.

(** The last domain each address was handed out for. *)
Definition hand (h : gmap IpAddr bytes) (e : Call * Ret) : gmap IpAddr bytes :=
  match e with
  | (Allocate _ dom _ _, Address ip) => <[ip := to_ascii_lowercase dom]> h
  | _ => h
  end.
Definition handed (cs : list Call) (rs : list Ret) (h : gmap IpAddr bytes) : gmap IpAddr bytes := fold_left hand (zip cs rs) h.

Definition tracks (h : gmap IpAddr bytes) (p : FakeIpPool) : Prop := forall ip m, by_ip p !! ip = Some m -> h !! ip = Some (domain m).

Lemma room_sub cap m rest ip x : room cap m rest -> rest !! ip = Some x -> m !! ip = Some x.
Proof. intros [[-> _]|(_ & v & _ & ->)]; [done|]. by intros [_ ?]%lookup_delete_Some. Qed.

Lemma allocated_domain p d six now ip m' : pool_ok p -> allocated p d six now ip m' -> forall i x, m' !! i = Some x ->
  if decide (i = ip) then domain x = d else by_ip p !! i = Some x.
Proof.
  intros Hp Ha i x. destruct Ha as [ip m Ed E _|o rest _ Hr Hn _|ip m o rest Ed E _ Hr Hn _]; rewrite lookup_insert_Some; intros [[<- <-]|[Hne Hx]].
  - rewrite decide_True by done. destruct (po_domain _ Hp _ _ _ Ed) as [_ (m' & E' & <-)]. cbn. congruence.
  - by rewrite decide_False by congruence.
  - by rewrite decide_True.
  - rewrite decide_False by congruence. by eapply room_sub.
  - by rewrite decide_True.
  - rewrite decide_False by congruence. eapply room_sub in Hx; [|done]. by apply lookup_delete_Some in Hx as [_ ?].
Qed.

Lemma exec_tracks c p h : call_ok c -> pool_ok p -> tracks h p -> tracks (hand h (c, (exec c p).1)) (exec c p).2.
Proof.
  intros Hc Hp Ht. destruct c as [it dom six now|ip now]; cbn.
  - destruct (allocate_spec it dom six now p Hc Hp) as (_ & _ & _ & Ha). destruct (allocate it dom six now p) as [ip q]. cbn in *.
    intros i x Hx. pose proof (allocated_domain _ _ _ _ _ _ Hp Ha i x Hx) as H. destruct (decide (i = ip)) as [->|Hn].
    + by rewrite lookup_insert_eq, H.
    + rewrite lookup_insert_ne by done. by apply Ht.
  - unfold recover. destruct (by_ip p !! ip) as [m|] eqn:E; [|done]. destruct (fresh_enough now m p); cbn; intros i x Hx.
    + change (by_ip (touch ip now p) !! i = Some x) in Hx. rewrite (touch_by_ip _ _ _ m E), lookup_insert_Some in Hx. destruct Hx as [[<- <-]|[_ Hx]]; [cbn; by apply Ht|by apply Ht].
    + destruct (remove_fields ip p) as [F1 _]. rewrite F1 in Hx. apply lookup_delete_Some in Hx as [_ Hx]. by apply Ht.
Qed.

Lemma run_tracks cs : forall p h, Forall call_ok cs -> pool_ok p -> tracks h p -> tracks (handed cs (run cs p).1 h) (run cs p).2.
Proof.
  induction cs as [|c cs IH]; intros p h Hc Hp Ht; [done|]. inversion Hc; subst. cbn. pose proof (exec_tracks c p h) as H. destruct (pool_exec_ok c p) as (A & _); [done..|].
  destruct (exec c p) as [r q]. cbn in *. specialize (IH q (hand h (c, r))). destruct (run cs q). cbn in *. by apply IH; auto.
Qed.

(** ** The claims *)

(** whatever the history of calls and the iteration orders of the hash map, a
    recovered domain is the one the address was last handed out for, in lower case;
    reused offsets never bring back an older domain. *)
Theorem recover_last_handed t c cs ip now d :
  Forall call_ok cs -> (recover ip now (run cs (new t c)).2).1 = Some d ->
  handed cs (run cs (new t c)).1 ∅ !! ip = Some d.
Proof.
  intros Hc. pose proof (run_tracks cs (new t c) ∅ Hc (pool_new_ok t c) ltac:(done)) as Ht. unfold recover.
  destruct (by_ip (run cs (new t c)).2 !! ip) as [m|] eqn:E; [|done]. destruct (fresh_enough _ _ _); [|done]. intros [= <-]. by apply Ht.
Qed.

Lemma fake_value six o : 0 <= o < family_count six -> from_be_bytes (octets (fake six o)) = family_base six + o.
Proof.
  intros Ho. destruct (base_fits six o Ho) as [B _]. unfold fits in B. destruct six; cbn [fake octets]; apply from_to_be_bytes_small; exact B.
Qed.

(** Every address handed out is a fake one, of the family asked for. *)
Lemma allocated_fake p d six now ip m' : pool_ok p -> allocated p d six now ip m' -> exists o, ip = fake six o /\ 1 <= o < family_count six.
Proof.
  intros Hp Ha. destruct Ha as [ip m Ed E _|o rest _ _ _ Ho|ip m o rest _ _ _ _ _ Ho]; [|by exists o..].
  destruct (po_domain _ Hp _ _ _ Ed) as [H6 _]. destruct (po_map _ Hp _ _ E) as [A R _ _]. destruct (po_space _ Hp (is_v6 ip)) as [_ Hc _ Hh _ _].
  rewrite H6 in *. exists (offset m). split; [done|lia].
Qed.
Lemma allocated_now p d six now ip m' : allocated p d six now ip m' -> exists x, m' !! ip = Some x /\ last_used x = now.
Proof. intros []; eexists; (split; [apply lookup_insert_eq|done]). Qed.

(** in every reachable pool an allocation succeeds with an address of the family
    asked for, strictly inside the reserved range (never its network address, which
    the exhausted-range fallback would return), which no other live domain has;
    the pool stays within its cap, and the address recovers the lower-cased domain
    for the time to live. *)
Theorem allocate_correct t c cs it dom six now ip p' :
  Forall call_ok cs -> order_ok it -> allocate it dom six now (run cs (new t c)).2 = (ip, p') ->
  is_v6 ip = six /\ family_base six < from_be_bytes (octets ip) < family_base six + family_count six /\
  (six = true -> is_fake_v6 (octets ip) = true) /\
  Z.of_nat (len p') <= clamp c 1 (Z.min V4_COUNT V6_COUNT - 1) /\
  (forall d' six', by_domain p' !! (d', six') = Some ip <-> (d', six') = (to_ascii_lowercase dom, six)) /\
  (forall now', Z.max 0 (now' - now) <= t -> (recover ip now' p').1 = Some (to_ascii_lowercase dom)).
Proof.
  intros Hc Hit Ha. destruct (pool_run_ok cs (new t c) Hc (pool_new_ok t c)) as (Hp & Ht & Hcap). set (p := (run cs (new t c)).2) in *. clearbody p.
  destruct (allocate_spec it dom six now p Hit Hp) as (Hp' & Ht' & Hc' & Hal). rewrite Ha in *. cbn [fst snd] in *.
  destruct (allocated_fake _ _ _ _ _ _ Hp Hal) as (o & Eo & Ho). destruct (allocated_now _ _ _ _ _ _ Hal) as (x & Ex & Hx).
  pose proof (allocated_domain _ _ _ _ _ _ Hp Hal ip x Ex) as Hd. rewrite decide_True in Hd by done.
  assert (is_v6 ip = six) as H6 by (rewrite Eo; apply is_v6_fake).
  assert (from_be_bytes (octets ip) = family_base six + o) as Hv by (rewrite Eo; apply fake_value; lia).
  split; [done|]. split; [lia|]. split; [|split; [|split]].
  - intros ->. unfold is_fake_v6. rewrite Hv. apply andb_true_iff. split; [apply Z.leb_le|apply Z.ltb_lt]; change (from_be_bytes V6_BASE) with (family_base true); change V6_COUNT with (family_count true); lia.
  - pose proof (po_size _ Hp') as Hs. rewrite Hc', Hcap in Hs. exact Hs.
  - intros d' six'. split; [|intros [= -> ->]].
    + intros Hb. destruct (po_domain _ Hp' _ _ _ Hb) as [? (m & E & Hm)]. congruence.
    + destruct (po_map _ Hp' _ _ Ex) as [_ _ _ B]. congruence.
  - intros now' Hn. unfold recover. rewrite Ex. unfold fresh_enough, saturating_duration_since. rewrite Hx, Ht', Ht. change (ttl (new t c)) with t.
    rewrite (proj2 (Z.leb_le _ _) Hn). cbn. by rewrite Hd.
Qed.

(** *** Survival *)

(** The mappings used at [t] or later. *)
Definition recent (t : Z) (m : gmap IpAddr Mapping) : nat := size (filter (fun e => t <= last_used e.2) m).

Lemma recent_delete t i m : (recent t (delete i m) <= recent t m)%nat.
Proof. unfold recent. rewrite map_filter_delete, map_size_delete. case_match; cbn; lia. Qed.
Lemma recent_insert t i x m : (recent t (<[i := x]> m) <= recent t m + 1)%nat.
Proof.
  unfold recent. rewrite map_filter_insert. destruct (decide _).
  - rewrite map_size_insert. case_match; cbn; lia.
  - rewrite map_filter_delete, map_size_delete. case_match; cbn; lia.
Qed.
Lemma recent_all t m : (forall i x, m !! i = Some x -> t <= last_used x) -> recent t m = size m.
Proof. intros H. unfold recent. rewrite map_filter_id; [done|]. intros i x E. by apply (H i x). Qed.

Lemma room_keeps t cap m rest ip x : room cap m rest -> m !! ip = Some x -> t <= last_used x -> Z.of_nat (recent t m) < cap ->
  rest !! ip = Some x /\ (recent t rest <= recent t m)%nat.
Proof.
  intros [[-> _]|(Hs & v & (y & Ey & Hl) & ->)] E Ht Hr; [done|]. split; [|apply recent_delete].
  rewrite lookup_delete_ne; [done|]. intros ->. rewrite E in Ey. injection Ey as <-.
  rewrite recent_all in Hr; [lia|]. intros i z Ez. specialize (Hl i z Ez). lia.
Qed.

(** One call within the time to live keeps the mapping and adds at most one recent one. *)
Lemma exec_keeps t c p ip x : pool_ok p -> call_ok c -> by_ip p !! ip = Some x -> t <= last_used x -> t <= call_time c <= t + ttl p ->
  Z.of_nat (recent t (by_ip p)) < cap p ->
  exists y, by_ip (exec c p).2 !! ip = Some y /\ domain y = domain x /\ t <= last_used y /\ (recent t (by_ip (exec c p).2) <= recent t (by_ip p) + 1)%nat.
Proof.
  intros Hp Hc E Ht Hnow Hr.
  assert (forall i now, t <= now -> exists y, (alter (fun m => m <| last_used := now |>) i (by_ip p)) !! ip = Some y /\ domain y = domain x /\ t <= last_used y) as Hk.
  { intros i now Hn. destruct (decide (i = ip)) as [->|Hne]; [rewrite lookup_alter_eq, E|rewrite lookup_alter_ne by done; eauto]. eexists. split; [reflexivity|]. cbn. split; [done|lia]. }
  assert (forall now, t <= now <= t + ttl p -> fresh_enough now x p = true) as Hf.
  { intros now Hn. unfold fresh_enough, saturating_duration_since. apply Z.leb_le. lia. }
  destruct c as [it dom six now|i now]; cbn in Hnow, Hc |- *.
  - destruct (allocate_spec it dom six now p Hc Hp) as (_ & _ & _ & Ha). destruct (allocate it dom six now p) as [r q]. cbn [fst snd] in *. set (m' := by_ip q) in *. clearbody m'.
    destruct Ha as [i m Ed Ei _|o rest _ Hroom Hn _|i m o rest Ed Ei Hexp Hroom Hn _].
    + pose proof (Hk i now ltac:(lia)) as Hk'. change (alter _ i (by_ip p)) with (by_ip (touch i now p)) in Hk'. rewrite (touch_by_ip i now p m Ei) in Hk'.
      destruct Hk' as (y & H1 & H2 & H3). exists y. pose proof (recent_insert t i (m <| last_used := now |>) (by_ip p)). done.
    + destruct (room_keeps t _ _ _ ip x Hroom E Ht Hr) as [E' Hle]. exists x. pose proof (recent_insert t (fake six o) (mk_mapping (to_ascii_lowercase dom) o now) rest).
      rewrite lookup_insert_ne by congruence. split; [done|]. split; [done|]. split; [done|lia].
    + assert (i <> ip) as Hne by (intros ->; rewrite E in Ei; injection Ei as <-; rewrite Hf in Hexp by lia; done).
      pose proof (recent_delete t i (by_ip p)) as Hd. destruct (room_keeps t _ _ _ ip x Hroom) as [E' Hle]; [by rewrite lookup_delete_ne|done|lia|].
      exists x. pose proof (recent_insert t (fake six o) (mk_mapping (to_ascii_lowercase dom) o now) rest).
      rewrite lookup_insert_ne by congruence. split; [done|]. split; [done|]. split; [done|lia].
  - unfold recover. destruct (by_ip p !! i) as [m|] eqn:Ei; [|exists x; split; [done|]; split; [done|]; split; [done|cbn; lia]]. destruct (fresh_enough now m p) eqn:Hm; cbn [snd].
    + destruct (Hk i now ltac:(lia)) as (y & H1 & H2 & H3). exists y. split; [exact H1|]. split; [done|]. split; [done|]. rewrite (touch_by_ip i now p m Ei). apply recent_insert.
    + assert (i <> ip) as Hne by (intros ->; rewrite E in Ei; injection Ei as <-; rewrite Hf in Hm by lia; done).
      destruct (remove_fields i p) as [F1 _]. rewrite F1. exists x. pose proof (recent_delete t i (by_ip p)). rewrite lookup_delete_ne by done. split; [done|]. split; [done|]. split; [done|lia].
Qed.

Lemma run_keeps t cs : forall p ip x, pool_ok p -> Forall call_ok cs -> by_ip p !! ip = Some x -> t <= last_used x ->
  Forall (fun c => t <= call_time c <= t + ttl p) cs -> Z.of_nat (recent t (by_ip p) + length cs) <= cap p ->
  exists y, by_ip (run cs p).2 !! ip = Some y /\ domain y = domain x /\ t <= last_used y.
Proof.
  induction cs as [|c cs IH]; intros p ip x Hp Hc E Ht Hnow Hr; [by exists x|]. inversion Hc; subst. inversion Hnow; subst. cbn [length] in Hr.
  destruct (pool_exec_ok c p) as (A & B & C); [done..|]. destruct (exec_keeps t c p ip x) as (y & E' & Hd & Ht' & Hle); [done..|lia|]. cbn. destruct (exec c p) as [r q]. cbn [fst snd] in *.
  destruct (IH q ip y) as (z & Ez & Hz & Hzt); [done..|by rewrite B|rewrite C; lia|]. destruct (run cs q). cbn in *. exists z. split; [done|]. split; [congruence|done].
Qed.

(** an address handed out at [now] still recovers its domain at any time within the
    time to live, provided that the calls made in between and the mappings already
    used at [now] or later (its own included) are no more than the cap. *)
Theorem lru_survives t c cs it dom six now ip p cs' now' :
  Forall call_ok cs -> order_ok it -> allocate it dom six now (run cs (new t c)).2 = (ip, p) ->
  Forall call_ok cs' -> Forall (fun c => now <= call_time c <= now + t) cs' -> now <= now' <= now + t ->
  Z.of_nat (recent now (by_ip p) + length cs') <= cap p ->
  (recover ip now' (run cs' p).2).1 = Some (to_ascii_lowercase dom).
Proof.
  intros Hc Hit Ha Hc' Htime Hnow Hr. destruct (pool_run_ok cs (new t c) Hc (pool_new_ok t c)) as (Hp & Ht & _). set (p0 := (run cs (new t c)).2) in *. clearbody p0.
  destruct (allocate_spec it dom six now p0 Hit Hp) as (Hp' & Ht' & _ & Hal). rewrite Ha in *. cbn [fst snd] in *. rewrite Ht in Ht'. change (ttl (new t c)) with t in Ht'.
  destruct (allocated_now _ _ _ _ _ _ Hal) as (x & Ex & Hx). pose proof (allocated_domain _ _ _ _ _ _ Hp Hal ip x Ex) as Hd. rewrite decide_True in Hd by done.
  destruct (run_keeps now cs' p ip x) as (y & Ey & Hy & Hyt); [done..|lia|by rewrite Ht'|done|].
  destruct (pool_run_ok cs' p Hc' Hp') as (_ & Ht'' & _). unfold recover. rewrite Ey. unfold fresh_enough, saturating_duration_since.
  rewrite (proj2 (Z.leb_le _ _)) by lia. cbn. congruence.
Qed.

(** ** Examples *)

Definition demo_order : Order := map_to_list.
Lemma demo_order_ok : order_ok demo_order.
Proof. intros m. reflexivity. Qed.
(** A pool of two addresses in which a third domain evicts the least recently used. *)
Definition demo_calls : list Call :=
  [Allocate demo_order (lit "A.example") false 1; Allocate demo_order (lit "b.example") true 2; Allocate demo_order (lit "c.example") false 3].
Lemma demo_calls_ok : Forall call_ok demo_calls.
Proof. repeat (constructor; [exact demo_order_ok|]). constructor. Qed.

Lemma recover_last_handed_witness : handed demo_calls (run demo_calls (new 60 2)).1 ∅ !! V4 [28; 0; 0; 1] = Some (lit "c.example").
Proof. apply (recover_last_handed 60 2 demo_calls (V4 [28; 0; 0; 1]) 10); [exact demo_calls_ok|vm_compute; reflexivity]. Defined.

Lemma allocate_correct_witness : exists p', allocate demo_order (lit "B.Example") false 5 (run demo_calls (new 60 2)).2 = (V4 [28; 0; 0; 2], p') /\
  (recover (V4 [28; 0; 0; 2]) 65 p').1 = Some (lit "b.example").
Proof.
  destruct (allocate demo_order (lit "B.Example") false 5 (run demo_calls (new 60 2)).2) as [ip p'] eqn:E.
  assert (ip = V4 [28; 0; 0; 2]) as -> by (apply (f_equal fst) in E; vm_compute in E; by rewrite E).
  exists p'. split; [done|].
  destruct (allocate_correct 60 2 demo_calls demo_order (lit "B.Example") false 5 (V4 [28; 0; 0; 2]) p' demo_calls_ok demo_order_ok E) as (_ & _ & _ & _ & _ & H).
  exact (H 65 ltac:(done)).
Defined.

Lemma lru_survives_witness :
  (recover (V4 [28; 0; 0; 2]) 60 (run [Allocate demo_order (lit "d.example") true 20] (allocate demo_order (lit "B.Example") false 5 (run demo_calls (new 60 2)).2).2).2).1
  = Some (lit "b.example").
Proof.
  destruct (allocate demo_order (lit "B.Example") false 5 (run demo_calls (new 60 2)).2) as [ip p'] eqn:E.
  assert (ip = V4 [28; 0; 0; 2]) as -> by (apply (f_equal fst) in E; vm_compute in E; by rewrite E).
  assert (Z.of_nat (recent 5 (by_ip p') + 1) <= cap p') as Hr by (apply (f_equal snd) in E; cbn [snd] in E; rewrite <- E; vm_compute; discriminate).
  assert (5 <= 60 <= 5 + 60) as Ht' by lia. set (later := [Allocate demo_order (lit "d.example") true 20]).
  assert (Forall call_ok later) as Hc by (constructor; [exact demo_order_ok|constructor]).
  assert (Forall (fun c => 5 <= call_time c <= 5 + 60) later) as Ht by (constructor; [cbn [call_time]; lia|constructor]).
  exact (lru_survives 60 2 demo_calls demo_order (lit "B.Example") false 5 (V4 [28; 0; 0; 2]) p' later 60 demo_calls_ok demo_order_ok E Hc Ht Ht' Hr).
Defined.
End fakeip.
