(* ===== verification/DnsServer.v ===== *)
(** [core/src/dns/wire.rs] and [core/src/dns/server.rs]: the codec of the fake-IP DNS server and
    the server over the address pool of [FakeIp]. *)

From stdpp Require Import base gmap list numbers.
From S2P Require Import Prelude RustStr NetAddr FakeIp.

Module dns.
Import net.

(** ** The codec *)

Definition TYPE_A : Z := 1.
Definition TYPE_AAAA : Z := 28.
Definition CLASS_IN : Z := 1.
Definition HEADER_LEN : nat := 12.
Definition MAX_NAME_LEN : Z := 255.
Definition MAX_LABEL_LEN : Z := 63.

Inductive DnsError := Truncated | Malformed (what : string) | NameTooLong.

Record Query := mk_query { id : Z; recursion_desired : bool; q_name : bytes; qtype : Z; qclass : Z; question_wire : bytes }.

(** [char::from] of a byte, in UTF-8. *)
Definition latin1 (b : Z) : bytes := if b <? 128 then [b] else [Z.lor 0xC0 (Z.shiftr b 6); Z.lor 0x80 (Z.land b 0x3F)].
Definition label_text (l : bytes) : bytes := mbind (fun b => latin1 (ascii_lower b)) l.
(** [labels.join(".")]. *)
Fixpoint join_dots (ls : list bytes) : bytes := match ls with [] => [] | [l] => l | l :: ls => l ++ 46 :: join_dots ls end.

(** The loop of [read_qname] over the bytes from the current offset on; the labels and the
    bytes after the name.  Each round reads two bytes or more. *)
Fixpoint qname_loop (fuel : nat) (s : bytes) (total : Z) (ls : list bytes) : option (result DnsError (list bytes * bytes)) :=
  match fuel with
  | O => None
  | S fuel =>
      match s with
      | [] => Some (Err Truncated)
      | len :: s =>
          if len =? 0 then Some (Ok (ls, s))
          else if negb (Z.land len 0xC0 =? 0) then Some (Err (Malformed "compression/reserved bits in question name"))
          else if MAX_LABEL_LEN <? len then Some (Err (Malformed "label too long"))
          else if (length s <? Z.to_nat len)%nat then Some (Err Truncated)
          else
            let total := total + len + 1 in
            if MAX_NAME_LEN <? total then Some (Err NameTooLong)
            else qname_loop fuel (drop (Z.to_nat len) s) total (ls ++ [label_text (take (Z.to_nat len) s)])
      end
  end.
Definition read_qname (s : bytes) : option (result DnsError (bytes * bytes)) :=
  let?! (ls, rest) := qname_loop (S (length s)) s 1 [] in Some (Ok (join_dots ls, rest)).

Definition parse_query (buf : bytes) : option (result DnsError Query) :=
  if (length buf <? HEADER_LEN)%nat then Some (Err Truncated)
  else
    let flags0 := default 0 (buf !! 2%nat) in
    if negb (Z.land flags0 0x80 =? 0) then Some (Err (Malformed "QR set (not a query)"))
    else if negb (from_be_bytes (take 2 (drop 4 buf)) =? 1) then Some (Err (Malformed "expected exactly one question"))
    else
      let?! (name, rest) := read_qname (drop HEADER_LEN buf) in
      if (length rest <? 4)%nat then Some (Err Truncated)
      else
        Some (Ok (mk_query (from_be_bytes (take 2 buf)) (negb (Z.land flags0 1 =? 0)) name
          (from_be_bytes (take 2 rest)) (from_be_bytes (take 2 (drop 2 rest)))
          (take (length buf - HEADER_LEN - length rest + 4) (drop HEADER_LEN buf)))).

Definition answer_record (ttl : Z) (ip : IpAddr) : bytes :=
  [0xC0; 0x0C] ++
  match ip with
  | V4 o => to_be_bytes 2 TYPE_A ++ to_be_bytes 2 CLASS_IN ++ to_be_bytes 4 ttl ++ to_be_bytes 2 4 ++ o
  | V6 o => to_be_bytes 2 TYPE_AAAA ++ to_be_bytes 2 CLASS_IN ++ to_be_bytes 4 ttl ++ to_be_bytes 2 16 ++ o
  end.
Definition build_response (q : Query) (answers : list IpAddr) (ttl : Z) : bytes :=
  let ancount := Z.min (Z.of_nat (length answers)) 65535 in
  to_be_bytes 2 (id q) ++ [Z.lor 0x80 (if recursion_desired q then 1 else 0); 0x80] ++ to_be_bytes 2 1 ++ to_be_bytes 2 ancount ++ to_be_bytes 2 0 ++ to_be_bytes 2 0 ++
  question_wire q ++ mbind (answer_record ttl) (take (Z.to_nat ancount) answers).

(** ** The server *)

Record DnsServer := mk_server { pool : fakeip.FakeIpPool; answer_ttl_secs : Z; ad_block : option (bytes -> bool) }.
#[export] Instance DnsServer_eta : Settable DnsServer := fun s => mk_server (pool s) (answer_ttl_secs s) (ad_block s).
Definition shared_pool (ttl cap : Z) : fakeip.FakeIpPool := fakeip.new ttl cap.
Definition server_new (p : fakeip.FakeIpPool) (ttl : Z) : DnsServer := mk_server p ttl None.
Definition with_ad_block (check : bytes -> bool) (s : DnsServer) : DnsServer := s <| ad_block := Some check |>.
Definition recover_domain (ip : IpAddr) (now : Z) (s : DnsServer) : option bytes * DnsServer :=
  let (d, p) := fakeip.recover ip now (pool s) in (d, s <| pool := p |>).

(** [handle], at the time [now]: the outer [option] is fuel, the inner one the response or a
    drop. *)
Definition handle (it : fakeip.Order) (buf : bytes) (now : Z) (s : DnsServer) : option (option bytes * DnsServer) :=
  match parse_query buf with
  | None => None
  | Some (Err _) => Some (None, s)
  | Some (Ok q) =>
      let nodata := (Some (build_response q [] (answer_ttl_secs s)), s) in
      let answer (want_v6 : bool) :=
        if bool_decide (q_name q = []) then nodata
        else if match ad_block s with Some is_blocked => is_blocked (q_name q) | None => false end then nodata
        else
          let (ip, p) := fakeip.allocate it (q_name q) want_v6 now (pool s) in
          (Some (build_response q [ip] (answer_ttl_secs s)), s <| pool := p |>) in
      Some (if (qtype q =? TYPE_A) && (qclass q =? CLASS_IN) then answer false
            else if (qtype q =? TYPE_AAAA) && (qclass q =? CLASS_IN) then answer true
            else nodata)
  end.

(** ** Names *)

Lemma qname_loop_runs fuel : forall s total ls, (length s < fuel)%nat -> qname_loop fuel s total ls <> None.
Proof.
  induction fuel as [|fuel IH]; intros s total ls Hf; [lia|]. cbn [qname_loop]. destruct s as [|len s]; [done|]. cbn [length] in Hf.
  destruct (len =? 0); [done|]. destruct (negb _); [done|]. destruct (MAX_LABEL_LEN <? len); [done|]. destruct (length s <? Z.to_nat len)%nat; [done|]. cbv zeta. destruct (MAX_NAME_LEN <? total + len + 1); [done|]. apply IH. rewrite length_drop. lia.
Qed.
(** What follows the name does not matter to reading it. *)
Lemma qname_loop_tail fuel : forall s total ls ls' rest, qname_loop fuel s total ls = Some (Ok (ls', rest)) -> exists pre, s = pre ++ rest /\
  forall tail fuel', (length (pre ++ tail) < fuel')%nat -> qname_loop fuel' (pre ++ tail) total ls = Some (Ok (ls', tail)).
Proof.
  induction fuel as [|fuel IH]; intros s total ls ls' rest; cbn [qname_loop]; [done|]. destruct s as [|len s]; [done|]. destruct (Z.eqb_spec len 0) as [->|Hz].
  { intros [= <- <-]. exists [0]. split; [done|]. intros tail [|fuel'] Hf; [cbn in Hf; lia|done]. }
  destruct (negb (Z.land len 192 =? 0)) eqn:E1; [done|]. destruct (MAX_LABEL_LEN <? len) eqn:E2; [done|]. destruct (Nat.ltb_spec (length s) (Z.to_nat len)) as [|Hl]; [done|]. cbv zeta.
  destruct (MAX_NAME_LEN <? total + len + 1) eqn:E3; [done|]. intros H. apply IH in H as (pre & Hs & Hpre). set (lab := take (Z.to_nat len) s) in *.
  assert (length lab = Z.to_nat len) as Hlab by (unfold lab; rewrite length_take; lia). exists (len :: lab ++ pre). split.
  { cbn. f_equal. rewrite <- app_assoc, <- Hs. symmetry. apply take_drop. }
  intros tail [|fuel'] Hf; [cbn in Hf; lia|]. cbn [app qname_loop]. rewrite (proj2 (Z.eqb_neq len 0) Hz), E1, E2. rewrite <- app_assoc. cbn [length app] in Hf. rewrite !length_app in Hf.
  rewrite (proj2 (Nat.ltb_ge _ _)) by (rewrite length_app; lia). cbv zeta. rewrite E3, drop_app_length', take_app_length' by done. apply Hpre. rewrite length_app. lia.
Qed.
Lemma read_qname_runs s : read_qname s <> None.
Proof. unfold read_qname. pose proof (qname_loop_runs (S (length s)) s 1 [] ltac:(lia)). by destruct (qname_loop _ _ _ _) as [[[]|]|]. Qed.
Lemma read_qname_tail s name rest : read_qname s = Some (Ok (name, rest)) -> exists pre, s = pre ++ rest /\ forall tail, read_qname (pre ++ tail) = Some (Ok (name, tail)).
Proof.
  unfold read_qname. destruct (qname_loop _ s 1 []) as [[[ls r]|]|] eqn:E; [|done..]. intros [= <- <-]. apply qname_loop_tail in E as (pre & -> & H). exists pre. split; [done|].
  intros tail. rewrite H by lia. done.
Qed.

(** ** A decoder of replies *)

Record Reply := mk_reply { rp_id : Z; rp_flags : Z * Z; rp_question : bytes; rp_answers : list (Z * IpAddr) }.

Definition chop (n : nat) (s : bytes) : option (bytes * bytes) := if (n <=? length s)%nat then Some (take n s, drop n s) else None.
Lemma chop_app a b n : length a = n -> chop n (a ++ b) = Some (a, b).
Proof. intros <-. unfold chop. rewrite (proj2 (Nat.leb_le _ _)) by len. by rewrite take_app_length, drop_app_length. Qed.

(** The address records of an answer section, whose names point at the question. *)
Fixpoint read_answers (n : nat) (s : bytes) : option (list (Z * IpAddr)) :=
  match n with
  | O => if bool_decide (s = []) then Some [] else None
  | S n =>
      let! (name, s) := chop 2 s in
      let! (ty, s) := chop 2 s in
      let! (class, s) := chop 2 s in
      let! (ttl, s) := chop 4 s in
      let! (len, s) := chop 2 s in
      let! (data, s) := chop (Z.to_nat (from_be_bytes len)) s in
      let! ip := if (from_be_bytes ty =? TYPE_A) && (from_be_bytes len =? 4) then Some (V4 data)
                 else if (from_be_bytes ty =? TYPE_AAAA) && (from_be_bytes len =? 16) then Some (V6 data) else None in
      let! l := read_answers n s in
      if bool_decide (name = [0xC0; 0x0C]) && (from_be_bytes class =? CLASS_IN) then Some ((from_be_bytes ttl, ip) :: l) else None
  end.
Definition decode_reply (resp : bytes) : option Reply :=
  let! (i, s) := chop 2 resp in
  let! (flags, s) := chop 2 s in
  let! (counts, s) := chop 8 s in
  match read_qname s with
  | Some (Ok (_, rest)) =>
      let! (_, answers) := chop 4 rest in
      let! l := read_answers (Z.to_nat (from_be_bytes (take 2 (drop 2 counts)))) answers in
      if bool_decide (take 2 counts = [0; 1]) && bool_decide (drop 4 counts = [0; 0; 0; 0])
      then Some (mk_reply (from_be_bytes i) (default 0 (flags !! 0%nat), default 0 (flags !! 1%nat)) (take (length s - length answers) s) l) else None
  | _ => None
  end.

Lemma be16_value v : 0 <= v < 65536 -> from_be_bytes (to_be_bytes 2 v) = v.
Proof. intros H. by apply from_to_be_bytes_small. Qed.
(** One record, of type [ty] with [n] bytes of data. *)
Lemma read_record_data k ty n ttl data rest : 0 <= ty < 65536 -> 0 <= n < 65536 -> fits 32 ttl -> length data = Z.to_nat n ->
  read_answers (S k) ([0xC0; 0x0C] ++ to_be_bytes 2 ty ++ to_be_bytes 2 CLASS_IN ++ to_be_bytes 4 ttl ++ to_be_bytes 2 n ++ data ++ rest) =
    let! ip := if (ty =? TYPE_A) && (n =? 4) then Some (V4 data) else if (ty =? TYPE_AAAA) && (n =? 16) then Some (V6 data) else None in
    let! l := read_answers k rest in Some ((ttl, ip) :: l).
Proof.
  intros Hty Hn Httl Hd. cbn [read_answers]. rewrite (chop_app [0xC0; 0x0C] _ 2 eq_refl), !(chop_app (to_be_bytes 2 _) _ 2 (length_to_be_bytes 2 _)).
  rewrite (chop_app (to_be_bytes 4 ttl) _ 4 (length_to_be_bytes 4 _)), (chop_app (to_be_bytes 2 n) _ 2 (length_to_be_bytes 2 _)). rewrite !be16_value by done || (unfold CLASS_IN; lia).
  rewrite (chop_app data rest _ Hd). destruct (if (ty =? TYPE_A) && (n =? 4) then _ else _) as [ip|]; [|done]. destruct (read_answers k rest) as [l|]; [|done].
  rewrite bool_decide_true by done. change (from_be_bytes (to_be_bytes 2 CLASS_IN) =? CLASS_IN) with true. cbn [andb]. by rewrite (from_to_be_bytes_small 4 ttl Httl).
Qed.
Lemma read_answers_records ttl ips : fits 32 ttl -> Forall ip_ok ips -> read_answers (length ips) (mbind (answer_record ttl) ips) = Some (pair ttl <$> ips).
Proof.
  intros Httl. induction 1 as [|ip ips [_ Hl] _ IH]; [done|]. cbn [length mbind list_bind fmap list_fmap]. unfold answer_record at 1.
  destruct ip as [o|o]; cbn [octets] in Hl; rewrite <- !app_assoc; (rewrite read_record_data; [|unfold TYPE_A, TYPE_AAAA; lia|lia|done|exact Hl]); fold (mbind (M := list) (answer_record ttl) ips); cbn [andb orb]; by rewrite IH.
Qed.

Lemma parse_query_parts buf q : bytes_ok buf -> parse_query buf = Some (Ok q) ->
  fits 16 (id q) /\ exists pre tail4, question_wire q = pre ++ tail4 /\ length tail4 = 4%nat /\ forall t, read_qname (pre ++ t) = Some (Ok (q_name q, t)).
Proof.
  intros Hb. unfold parse_query. destruct (Nat.ltb_spec (length buf) HEADER_LEN) as [|Hlen]; [done|]. cbv zeta. destruct (negb _); [done|]. destruct (negb (_ =? 1)); [done|].
  destruct (read_qname (drop HEADER_LEN buf)) as [[[name rest]|]|] eqn:E; [|done..]. destruct (Nat.ltb_spec (length rest) 4) as [|Hr]; [done|]. intros [= <-]. cbn [id question_wire q_name]. split.
  - pose proof (from_be_bytes_bound (take 2 buf) ltac:(by apply Forall_take)) as H. rewrite length_take in H. unfold HEADER_LEN in Hlen. replace (2 `min` length buf)%nat with 2%nat in H by lia. exact H.
  - apply read_qname_tail in E as (pre & Ed & Hq). exists pre, (take 4 rest). split; [|split; [rewrite length_take; lia|done]]. rewrite Ed.
    apply (f_equal length) in Ed. rewrite length_app, length_drop in Ed. rewrite take_app_ge by lia. f_equal. f_equal. lia.
Qed.

(** Replies decode to what they were built from. *)
Lemma build_response_decodes buf q ips ttl : bytes_ok buf -> parse_query buf = Some (Ok q) -> Forall ip_ok ips -> Z.of_nat (length ips) <= 65535 -> fits 32 ttl ->
  decode_reply (build_response q ips ttl) = Some (mk_reply (id q) (if recursion_desired q then 0x81 else 0x80, 0x80) (question_wire q) (pair ttl <$> ips)).
Proof.
  intros Hb Hq Hips Hn Httl. destruct (parse_query_parts buf q Hb Hq) as (Hid & pre & t4 & Hw & Ht4 & Hname).
  unfold decode_reply, build_response. cbv zeta. rewrite Z.min_l by done. rewrite Nat2Z.id, firstn_all.
  rewrite (chop_app (to_be_bytes 2 (id q)) _ 2 (length_to_be_bytes 2 _)), (chop_app [_; _] _ 2 eq_refl). rewrite !(app_assoc (to_be_bytes 2 _) (to_be_bytes 2 _)), (app_assoc (_ ++ _) (_ ++ _)).
  set (counts := (to_be_bytes 2 1 ++ to_be_bytes 2 (Z.of_nat (length ips))) ++ to_be_bytes 2 0 ++ to_be_bytes 2 0).
  assert (length counts = 8%nat) as Hc by (unfold counts; rewrite !length_app, !length_to_be_bytes; done). rewrite (chop_app counts _ 8 Hc), Hw, <- (app_assoc pre), Hname, (chop_app t4 _ 4 Ht4).
  assert (take 2 (drop 2 counts) = to_be_bytes 2 (Z.of_nat (length ips))) as ->.
  { unfold counts. rewrite <- app_assoc, (drop_app_length' (to_be_bytes 2 1)), take_app_length' by done. done. }
  rewrite be16_value, Nat2Z.id, (read_answers_records ttl ips Httl Hips) by lia.
  assert (take 2 counts = [0; 1] /\ drop 4 counts = [0; 0; 0; 0]) as [-> ->].
  { split; [reflexivity|]. unfold counts. rewrite drop_app_length' by (rewrite length_app, !length_to_be_bytes; done). reflexivity. }
  rewrite !bool_decide_true by done. cbn [andb]. rewrite (from_to_be_bytes_small 2 (id q) Hid). f_equal. rewrite app_assoc, length_app, Nat.add_sub, take_app_length. cbn. by destruct (recursion_desired q).
Qed.

(** ** Names come out in lower case *)

Abbreviation lower := (Forall (fun b => ascii_lower b = b)).
Lemma latin1_lower b : fits 8 b -> lower (latin1 (ascii_lower b)).
Proof.
  intros Hb. assert (forallb (fun b => forallb (fun x => ascii_lower x =? x) (latin1 (ascii_lower b))) (seqZ 0 256) = true) as H by (vm_compute; reflexivity).
  rewrite forallb_forall in H. specialize (H b ltac:(apply list_elem_of_In, elem_of_seqZ; exact Hb)). rewrite forallb_forall in H. apply list.Forall_forall. intros x Hx. apply Z.eqb_eq, H. by apply list_elem_of_In.
Qed.
Lemma label_text_lower l : bytes_ok l -> lower (label_text l).
Proof. intros H. unfold label_text. apply list.Forall_forall. intros x (b & Hx & Hb)%list_elem_of_bind. rewrite list.Forall_forall in H. pose proof (latin1_lower b (H b Hb)) as Hl. rewrite list.Forall_forall in Hl. by apply Hl. Qed.
Lemma qname_loop_lower fuel : forall s total ls ls' rest, bytes_ok s -> Forall lower ls -> qname_loop fuel s total ls = Some (Ok (ls', rest)) -> Forall lower ls'.
Proof.
  induction fuel as [|fuel IH]; intros s total ls ls' rest Hs Hls; cbn [qname_loop]; [done|]. destruct s as [|len s]; [done|]. apply Forall_cons_iff in Hs as [_ Hs].
  destruct (len =? 0); [by intros [= <- <-]|]. destruct (negb _); [done|]. destruct (MAX_LABEL_LEN <? len); [done|]. destruct (_ <? _)%nat; [done|]. cbv zeta. destruct (MAX_NAME_LEN <? _); [done|].
  apply IH; [by apply Forall_drop|]. apply Forall_app. split; [done|]. apply Forall_singleton, label_text_lower. by apply Forall_take.
Qed.
Lemma join_dots_lower ls : Forall lower ls -> lower (join_dots ls).
Proof. induction 1 as [|l ls Hl Hls IH]; [done|]. destruct ls; [done|]. cbn [join_dots]. apply Forall_app. split; [done|]. by constructor. Qed.
Lemma parse_query_lower buf q : bytes_ok buf -> parse_query buf = Some (Ok q) -> to_ascii_lowercase (q_name q) = q_name q.
Proof.
  intros Hb. unfold parse_query, read_qname. destruct (_ <? _)%nat; [done|]. cbv zeta. destruct (negb _); [done|]. destruct (negb (_ =? 1)); [done|].
  destruct (qname_loop _ _ _ _) as [[[ls rest]|]|] eqn:E; [|done..]. destruct (_ <? 4)%nat; [done|]. intros [= <-]. cbn [q_name].
  apply qname_loop_lower in E; [|by apply Forall_drop|done]. apply join_dots_lower in E. unfold to_ascii_lowercase. rewrite <- (list_fmap_id (join_dots ls)) at 2. by apply Forall_fmap_ext_1.
Qed.

(** ** The server answers with addresses that recover the name *)

(** What the server is called with: queries, and the addresses that flows dial. *)
Inductive DnsCall := Ask (it : fakeip.Order) (buf : bytes) (now : Z) | Dial (ip : IpAddr) (now : Z).
Definition serve_one (s : DnsServer) (c : DnsCall) : DnsServer :=
  match c with
  | Ask it buf now => match handle it buf now s with Some (_, s) => s | None => s end
  | Dial ip now => (recover_domain ip now s).2
  end.
Definition serve (cs : list DnsCall) (s : DnsServer) : DnsServer := fold_left serve_one cs s.
Definition dns_call_ok (c : DnsCall) : Prop := match c with Ask it _ _ => fakeip.order_ok it | Dial _ _ => True end.

(** The family of the address a query is answered with, if any. *)
Definition wanted (block : option (bytes -> bool)) (q : Query) : option bool :=
  if bool_decide (q_name q = []) || match block with Some f => f (q_name q) | None => false end || negb (qclass q =? CLASS_IN) then None
  else if qtype q =? TYPE_A then Some false else if qtype q =? TYPE_AAAA then Some true else None.

Lemma handle_wanted it buf now s q : parse_query buf = Some (Ok q) ->
  handle it buf now s = Some (match wanted (ad_block s) q with
    | Some six => let (ip, p) := fakeip.allocate it (q_name q) six now (pool s) in (Some (build_response q [ip] (answer_ttl_secs s)), s <| pool := p |>)
    | None => (Some (build_response q [] (answer_ttl_secs s)), s)
    end).
Proof.
  intros E. unfold handle. rewrite E. cbv zeta. f_equal. unfold wanted. destruct (bool_decide (q_name q = [])); cbn [orb]; [by destruct ((qtype q =? TYPE_A) && (qclass q =? CLASS_IN)), ((qtype q =? TYPE_AAAA) && (qclass q =? CLASS_IN))|].
  destruct (match ad_block s with Some f => f (q_name q) | None => false end); cbn [orb]; [by destruct ((qtype q =? TYPE_A) && (qclass q =? CLASS_IN)), ((qtype q =? TYPE_AAAA) && (qclass q =? CLASS_IN))|].
  destruct (qclass q =? CLASS_IN); cbn [negb]; rewrite ?andb_true_r, ?andb_false_r; [|done]. by destruct (qtype q =? TYPE_A), (qtype q =? TYPE_AAAA).
Qed.

Definition same_setup (s s' : DnsServer) : Prop := answer_ttl_secs s' = answer_ttl_secs s /\ ad_block s' = ad_block s /\ fakeip.ttl (pool s') = fakeip.ttl (pool s).
Lemma serve_one_ok c s : dns_call_ok c -> fakeip.pool_ok (pool s) -> fakeip.pool_ok (pool (serve_one s c)) /\ same_setup s (serve_one s c).
Proof.
  intros Hc Hp. destruct c as [it buf now|ip now]; cbn [serve_one].
  - destruct (parse_query buf) as [[q|e]|] eqn:E; [|unfold handle; by rewrite E..]. rewrite (handle_wanted it buf now s q E). destruct (wanted (ad_block s) q) as [six|]; [|done].
    pose proof (fakeip.allocate_spec it (q_name q) six now (pool s) Hc Hp) as (Hp' & Ht & _). destruct (fakeip.allocate _ _ _ _ _) as [ip p]. by split.
  - unfold recover_domain. pose proof (fakeip.recover_ok ip now (pool s) Hp) as (Hp' & Ht & _). destruct (fakeip.recover ip now (pool s)) as [d p]. by split.
Qed.
Lemma serve_ok cs : forall s, Forall dns_call_ok cs -> fakeip.pool_ok (pool s) -> fakeip.pool_ok (pool (serve cs s)) /\ same_setup s (serve cs s).
Proof.
  induction cs as [|c cs IH]; intros s Hcs Hp; [by split|]. apply Forall_cons_iff in Hcs as [Hc Hcs]. destruct (serve_one_ok c s Hc Hp) as [Hp1 (H1 & H2 & H3)].
  destruct (IH (serve_one s c) Hcs Hp1) as [Hp2 (H4 & H5 & H6)]. change (serve (c :: cs) s) with (serve cs (serve_one s c)). split; [done|]. repeat split; congruence.
Qed.

(** A call of the server makes at most one call of the pool, at its time. *)
Definition dns_time (c : DnsCall) : Z := match c with Ask _ _ now | Dial _ now => now end.
Lemma serve_one_pool c s : dns_call_ok c -> exists l, pool (serve_one s c) = (fakeip.run l (pool s)).2 /\ (length l <= 1)%nat /\
  Forall fakeip.call_ok l /\ Forall (fun x => fakeip.call_time x = dns_time c) l.
Proof.
  assert (exists l, pool s = (fakeip.run l (pool s)).2 /\ (length l <= 1)%nat /\ Forall fakeip.call_ok l /\ Forall (fun x => fakeip.call_time x = dns_time c) l) as Hnil.
  { exists []. split; [done|]. split; [cbn; lia|]. by split. }
  intros Hc. destruct c as [it buf now|ip now]; cbn [serve_one].
  - destruct (parse_query buf) as [[q|e]|] eqn:E; [|unfold handle; by rewrite E..]. rewrite (handle_wanted it buf now s q E). destruct (wanted (ad_block s) q) as [six|]; [|done].
    exists [fakeip.Allocate it (q_name q) six now]. cbn. destruct (fakeip.allocate _ _ _ _ _) as [ip p]. split; [done|]. split; [lia|]. by split; constructor.
  - exists [fakeip.Recover ip now]. unfold recover_domain. cbn. destruct (fakeip.recover ip now (pool s)) as [d p]. split; [done|]. split; [lia|]. by split; constructor.
Qed.

Lemma pool_run_app l l' : forall p, (fakeip.run (l ++ l') p).2 = (fakeip.run l' (fakeip.run l p).2).2.
Proof.
  induction l as [|c l IH]; intros p; [done|]. cbn. destruct (fakeip.exec c p) as [r q]. specialize (IH q).
  destruct (fakeip.run (l ++ l') q). destruct (fakeip.run l q). done.
Qed.

Lemma serve_pool (P : Z -> Prop) cs : forall s, Forall dns_call_ok cs -> Forall (fun c => P (dns_time c)) cs ->
  exists l, pool (serve cs s) = (fakeip.run l (pool s)).2 /\ (length l <= length cs)%nat /\ Forall fakeip.call_ok l /\ Forall (fun x => P (fakeip.call_time x)) l.
Proof.
  induction cs as [|c cs IH]; intros s Hcs Ht; [by exists []|]. apply Forall_cons_iff in Hcs as [Hc Hcs]. apply Forall_cons_iff in Ht as [Hct Ht].
  destruct (serve_one_pool c s Hc) as (l & E & Hl & Hok & Htime). destruct (IH (serve_one s c) Hcs Ht) as (l' & E' & Hl' & Hok' & Htime').
  exists (l ++ l'). change (serve (c :: cs) s) with (serve cs (serve_one s c)). rewrite E', E, pool_run_app. split; [done|]. split; [rewrite length_app; cbn; lia|].
  split; [by apply Forall_app|]. apply Forall_app. split; [|done]. eapply list.Forall_impl; [exact Htime|]. cbn. by intros x ->.
Qed.

Lemma serve_cap cs s : Forall dns_call_ok cs -> fakeip.pool_ok (pool s) -> fakeip.cap (pool (serve cs s)) = fakeip.cap (pool s).
Proof.
  intros Hcs Hp. destruct (serve_pool (fun _ => True) cs s Hcs) as (l & E & _ & Hok & _); [by apply list.Forall_true|]. rewrite E.
  by apply fakeip.pool_run_ok.
Qed.

(** A mapping used at [now] outlives the calls that follow within the time to live, while there are no more mappings in use than the cap. *)
Lemma served_mapping cs s now now' ip x : fakeip.pool_ok (pool s) -> fakeip.by_ip (pool s) !! ip = Some x -> now <= fakeip.last_used x ->
  Forall dns_call_ok cs -> Forall (fun c => now <= dns_time c <= now + fakeip.ttl (pool s)) cs -> now <= now' <= now + fakeip.ttl (pool s) ->
  Z.of_nat (fakeip.recent now (fakeip.by_ip (pool s)) + length cs) <= fakeip.cap (pool s) ->
  (recover_domain ip now' (serve cs s)).1 = Some (fakeip.domain x).
Proof.
  intros Hp Ex Hx Hcs Ht Hn Hr. destruct (serve_pool (fun z => now <= z <= now + fakeip.ttl (pool s)) cs s Hcs Ht) as (l & E & Hl & Hok & Htime).
  destruct (fakeip.run_keeps now l (pool s) ip x) as (y & Ey & Hy & Hyt); [done..|lia|].
  destruct (fakeip.pool_run_ok l (pool s) Hok Hp) as (_ & Httl & _). unfold recover_domain. rewrite E. unfold fakeip.recover. rewrite Ey.
  unfold fakeip.fresh_enough, fakeip.saturating_duration_since. rewrite Httl, (proj2 (Z.leb_le _ _)) by lia. cbn. by rewrite Hy.
Qed.

Lemma fake_ip_ok six o : 0 <= o < fakeip.family_count six -> ip_ok (fakeip.fake six o).
Proof. intros Ho. unfold fakeip.fake, ip_ok. destruct six; cbn [octets]; (split; [apply to_be_bytes_ok|apply length_to_be_bytes]). Qed.

(** C19: the fake-IP round trip.  After any history of queries and dials, a parseable query gets
    a reply that echoes its id, its recursion flag and its question: with one address of
    the family asked for when it asks for an Internet address of a name that is neither
    empty nor blocked, and with none otherwise, the server left as it was.  Dialling the
    address next, within the pool's time to live, recovers the name of the question; so does dialling
    it within the time to live after any later queries and dials in that time, as long as
    those and the mappings used at the time of the query or later are no more than the cap of the pool. *)
Theorem dns_round_trip t c ttl block cs it buf now q (s := serve cs (mk_server (shared_pool t c) ttl block)) :
  Forall dns_call_ok cs -> fakeip.order_ok it -> bytes_ok buf -> fits 32 ttl -> parse_query buf = Some (Ok q) ->
  exists resp s', handle it buf now s = Some (Some resp, s') /\
    let reply := mk_reply (id q) (if recursion_desired q then 0x81 else 0x80, 0x80) (question_wire q) in
    match wanted block q with
    | Some six => exists ip, decode_reply resp = Some (reply [(ttl, ip)]) /\ is_v6 ip = six /\
        (forall now', Z.max 0 (now' - now) <= t -> (recover_domain ip now' s').1 = Some (q_name q)) /\
        (forall later now', Forall dns_call_ok later -> Forall (fun x => now <= dns_time x <= now + t) later -> now <= now' <= now + t ->
           Z.of_nat (fakeip.recent now (fakeip.by_ip (pool s')) + length later) <= fakeip.clamp c 1 131071 ->
           (recover_domain ip now' (serve later s')).1 = Some (q_name q))
    | None => decode_reply resp = Some (reply []) /\ s' = s
    end.
Proof.
  intros Hcs Hit Hb Httl Hq. destruct (serve_ok cs (mk_server (shared_pool t c) ttl block) Hcs (fakeip.pool_new_ok t c)) as [Hp (H1 & H2 & H3)]. fold s in Hp, H1, H2, H3. cbn in H1, H2, H3.
  pose proof (serve_cap cs (mk_server (shared_pool t c) ttl block) Hcs (fakeip.pool_new_ok t c)) as Hcap. fold s in Hcap.
  rewrite (handle_wanted it buf now s q Hq), H1, H2. destruct (wanted block q) as [six|].
  - pose proof (fakeip.allocate_spec it (q_name q) six now (pool s) Hit Hp) as (Hp' & Ht & Hc' & Hal). destruct (fakeip.allocate it (q_name q) six now (pool s)) as [ip p']. cbn [fst snd] in *.
    do 2 eexists. split; [reflexivity|]. exists ip. destruct (fakeip.allocated_fake _ _ _ _ _ _ Hp Hal) as (o & Eo & Ho). destruct (fakeip.allocated_now _ _ _ _ _ _ Hal) as (x & Ex & Hx).
    pose proof (fakeip.allocated_domain _ _ _ _ _ _ Hp Hal ip x Ex) as Hd. rewrite decide_True, (parse_query_lower buf q Hb Hq) in Hd by done. split; [|split; [|split]].
    + apply (build_response_decodes buf q [ip] ttl Hb Hq); [|cbn; lia|done]. apply Forall_singleton. rewrite Eo. apply fake_ip_ok. lia.
    + rewrite Eo. apply fakeip.is_v6_fake.
    + intros now' Hn. unfold recover_domain. cbn [pool update_field DnsServer_eta]. unfold fakeip.recover. rewrite Ex. unfold fakeip.fresh_enough, fakeip.saturating_duration_since.
      rewrite Hx, Ht, H3. change (fakeip.ttl (shared_pool t c)) with t. rewrite (proj2 (Z.leb_le _ _) Hn). cbn. by rewrite Hd.
    + intros later now' Hl Hlt Hn Hr. rewrite <- Hd. change (fakeip.ttl (shared_pool t c)) with t in H3.
      apply (served_mapping later _ now now'); cbn [pool update_field DnsServer_eta]; [exact Hp'|exact Ex|lia|exact Hl|by rewrite Ht, H3|by rewrite Ht, H3|].
      rewrite Hc', Hcap. exact Hr.
  - do 2 eexists. split; [reflexivity|]. split; [|done]. apply (build_response_decodes buf q [] ttl Hb Hq); [done|cbn; lia|done].
Qed.

(** A query for the A record of [Example.com]. *)
Definition sample_query : bytes := [0x12; 0x34; 1; 0; 0; 1; 0; 0; 0; 0; 0; 0; 7] ++ lit "Example" ++ [3] ++ lit "com" ++ [0; 0; 1; 0; 1].
(** Another name asked for later. *)
Definition other_query : bytes := [0; 1; 1; 0; 0; 1; 0; 0; 0; 0; 0; 0; 3] ++ lit "org" ++ [0; 0; 1; 0; 1].
Lemma dns_round_trip_witness : exists resp s' ip, handle fakeip.demo_order sample_query 7 (mk_server (shared_pool 60 10) 30 None) = Some (Some resp, s') /\
  option_map rp_answers (decode_reply resp) = Some [(30, ip)] /\ (recover_domain ip 20 s').1 = Some (lit "example.com") /\
  (recover_domain ip 20 (serve [Ask fakeip.demo_order other_query 12] s')).1 = Some (lit "example.com").
Proof.
  assert (bytes_ok sample_query) as Hb by (apply (bool_decide_eq_true_1 _); vm_compute; reflexivity).
  destruct (parse_query sample_query) as [[q|e]|] eqn:Eq; [|vm_compute in Eq; discriminate Eq..].
  assert (q = mk_query 0x1234 true (lit "example.com") 1 1 (drop 12 sample_query)) as Hq by (vm_compute in Eq; injection Eq as <-; vm_compute; reflexivity).
  destruct (dns_round_trip 60 10 30 None [] fakeip.demo_order sample_query 7 q (Forall_nil_2 _) fakeip.demo_order_ok Hb ltac:(unfold fits; lia) Eq) as (resp & s' & Hh & Hw).
  assert (wanted None q = Some false) as Ew by (rewrite Hq; vm_compute; reflexivity). rewrite Ew in Hw. destruct Hw as (ip & Hdec & _ & Hrec & Hlater). exists resp, s', ip. split; [exact Hh|].
  split; [rewrite Hdec; reflexivity|]. split; [rewrite (Hrec 20 ltac:(lia)); rewrite Hq; reflexivity|].
  rewrite Hlater; [by rewrite Hq|constructor; [exact fakeip.demo_order_ok|constructor]|constructor; [cbn; lia|constructor]|lia|].
  assert (s' = serve [Ask fakeip.demo_order sample_query 7] (mk_server (shared_pool 60 10) 30 None)) as -> by (unfold serve, serve_one; cbn [fold_left]; cbn in Hh |- *; rewrite Hh; done).
  vm_compute. discriminate.
Defined.
End dns.
