(* ===== verification/RustNet.v ===== *)
(** The standard library's parsers that the sources use on text: [IpAddr::from_str],
    [u8::from_str] and [str::split_once]. *)

From stdpp Require Import base list numbers.
From S2P Require Import Prelude RustStr NetAddr.

Module text.
Import net.

(** [str::split_once] at a character. *)
Fixpoint split_once (c : Z) (s : bytes) : option (bytes * bytes) :=
  match s with
  | [] => None
  | x :: s => if x =? c then Some ([], s) else let! (a, b) := split_once c s in Some (x :: a, b)
  end.

(** [char::to_digit]. *)
Definition to_digit (radix b : Z) : option Z :=
  let d := if (48 <=? b) && (b <=? 57) then b - 48
           else if (97 <=? b) && (b <=? 122) then b - 97 + 10
           else if (65 <=? b) && (b <=? 90) then b - 65 + 10 else radix in
  if d <? radix then Some d else None.
Fixpoint take_digits (radix : Z) (s : bytes) : list Z * bytes :=
  match s with
  | b :: r => match to_digit radix b with Some d => let (ds, r) := take_digits radix r in (d :: ds, r) | None => ([], s) end
  | [] => ([], [])
  end.
Definition from_radix (radix : Z) (ds : list Z) : Z := fold_left (fun v d => v * radix + d) ds 0.

(** [u8::from_str]: an optional [+], then digits. *)
Definition parse_u8 (s : bytes) : option Z :=
  let s := match s with 43 :: r => r | _ => s end in
  match take_digits 10 s with
  | ((_ :: _) as ds, []) => let v := from_radix 10 ds in if v <? 256 then Some v else None
  | _ => None
  end.

(** The parser of [core::net]: each step returns what is left, or fails and reads nothing. *)
Definition read_number (radix : Z) (max_digits : nat) (zero_prefix : bool) (limit : Z) (s : bytes) : option (Z * bytes) :=
  let (ds, r) := take_digits radix s in
  let v := from_radix radix ds in
  if (length ds =? 0)%nat || (max_digits <? length ds)%nat || (limit <? v) then None
  else if negb zero_prefix && bool_decide (head s = Some 48) && (1 <? length ds)%nat then None
  else Some (v, r).
Definition read_given_char (c : Z) (s : bytes) : option bytes := match s with b :: r => if b =? c then Some r else None | [] => None end.
(** [read_separator]: the separator, except before the first group. *)
Definition read_separator {A} (c : Z) (index : nat) (inner : bytes -> option (A * bytes)) (s : bytes) : option (A * bytes) :=
  let! s := if (0 <? index)%nat then read_given_char c s else Some s in inner s.

Fixpoint read_v4_groups (n index : nat) (s : bytes) : option (list Z * bytes) :=
  match n with
  | O => Some ([], s)
  | S n =>
      let! (g, s) := read_separator 46 index (read_number 10 3 false 255) s in
      let! (gs, s) := read_v4_groups n (S index) s in Some (g :: gs, s)
  end.
Definition read_ipv4_addr (s : bytes) : option (list Z * bytes) := read_v4_groups 4 0 s.

(** [read_groups]: [n] groups may follow; the groups read, whether they end in an IPv4 address. *)
Fixpoint read_groups (n index : nat) (s : bytes) : list Z * bool * bytes :=
  match n with
  | O => ([], false, s)
  | S n' =>
      match (if (1 <=? n')%nat then read_separator 58 index read_ipv4_addr s else None) with
      | Some (o, s) => ([from_be_bytes (take 2 o); from_be_bytes (drop 2 o)], true, s)
      | None =>
          match read_separator 58 index (read_number 16 4 true 65535) s with
          | Some (g, s) => let '(gs, v4, s) := read_groups n' (S index) s in (g :: gs, v4, s)
          | None => ([], false, s)
          end
      end
  end.
Definition read_ipv6_addr (s : bytes) : option (list Z * bytes) :=
  let '(hd, v4, s) := read_groups 8 0 s in
  if (length hd =? 8)%nat then Some (hd, s)
  else if v4 then None
  else
    let! s := read_given_char 58 s in
    let! s := read_given_char 58 s in
    let '(tl, _, s) := read_groups (8 - (length hd + 1)) 0 s in
    Some (hd ++ replicate (8 - length hd - length tl) 0 ++ tl, s).

Definition parse_ip (s : bytes) : option IpAddr :=
  let! (a, r) :=
    match read_ipv4_addr s with
    | Some (o, r) => Some (V4 o, r)
    | None => let! (gs, r) := read_ipv6_addr s in Some (V6 (concat (to_be_bytes 2 <$> gs)), r)
    end in
  match r with [] => Some a | _ => None end.

Lemma parse_ip_samples :
  parse_ip (lit "10.0.0.1") = Some (V4 [10; 0; 0; 1]) /\ parse_ip (lit "10.0.0.01") = None /\
  parse_ip (lit "fd00::1") = Some (V6 [253; 0; 0; 0; 0; 0; 0; 0; 0; 0; 0; 0; 0; 0; 0; 1]) /\
  parse_ip (lit "::ffff:1.2.3.4") = Some (V6 [0; 0; 0; 0; 0; 0; 0; 0; 0; 0; 255; 255; 1; 2; 3; 4]).
Proof. vm_compute. done. Qed.

(** ** What the parsers return *)

Lemma from_radix_nonneg radix ds acc : 0 <= radix -> 0 <= acc -> Forall (fun d => 0 <= d) ds -> 0 <= fold_left (fun v d => v * radix + d) ds acc.
Proof. intros Hr Ha H. revert acc Ha. induction H as [|d ds Hd _ IH]; intros acc Ha; cbn; [done|]. apply IH. nia. Qed.
Lemma take_digits_nonneg radix s : 0 <= radix -> Forall (fun d => 0 <= d) (take_digits radix s).1.
Proof.
  intros Hr. induction s as [|b s IH]; cbn; [done|]. destruct (to_digit radix b) as [d|] eqn:E; [|done]. destruct (take_digits radix s) as [ds r]. constructor; [|done].
  unfold to_digit in E. destruct ((48 <=? b) && (b <=? 57)) eqn:E1; [|destruct ((97 <=? b) && (b <=? 122)) eqn:E2; [|destruct ((65 <=? b) && (b <=? 90)) eqn:E3]]; cbv zeta in E; (destruct (_ <? radix); [|done]); injection E as <-; lia.
Qed.
Lemma parse_u8_byte s v : parse_u8 s = Some v -> fits 8 v.
Proof.
  unfold parse_u8. cbv zeta. set (s' := match s with 43 :: r => r | _ => s end). pose proof (take_digits_nonneg 10 s' ltac:(lia)) as Hn. destruct (take_digits 10 s') as [[|d ds] [|x r]]; try done.
  destruct (Z.ltb_spec (from_radix 10 (d :: ds)) 256); [|done]. intros [= <-]. split; [by apply from_radix_nonneg|done].
Qed.
Lemma read_number_spec radix m z limit s v r : 0 <= radix -> read_number radix m z limit s = Some (v, r) -> 0 <= v <= limit.
Proof.
  intros Hr. unfold read_number. pose proof (take_digits_nonneg radix s Hr) as Hn. destruct (take_digits radix s) as [ds r0]. cbn [fst] in Hn.
  destruct (Z.ltb_spec limit (from_radix radix ds)); [rewrite orb_true_r; done|]. rewrite orb_false_r. destruct (_ || _); [done|]. destruct (_ && _); [done|]. intros [= <- <-]. split; [by apply from_radix_nonneg|done].
Qed.
Lemma read_separator_inner {A} c i (inner : bytes -> option (A * bytes)) s a r : read_separator c i inner s = Some (a, r) -> exists s', inner s' = Some (a, r).
Proof. unfold read_separator. destruct (0 <? i)%nat; [destruct (read_given_char c s); [|done]|]; eauto. Qed.
Lemma read_v4_groups_spec n i s gs r : read_v4_groups n i s = Some (gs, r) -> length gs = n /\ bytes_ok gs.
Proof.
  revert i s gs r. induction n as [|n IH]; intros i s gs r; cbn; [by intros [= <- <-]|]. destruct (read_separator _ _ _ _) as [[g s1]|] eqn:E; [|done].
  destruct (read_v4_groups n (S i) s1) as [[gs' s2]|] eqn:E'; [|done]. intros [= <- <-]. apply IH in E' as [<- Hb]. split; [done|]. constructor; [|done].
  apply read_separator_inner in E as [s' E]. apply read_number_spec in E; [|lia]. unfold fits. lia.
Qed.
Lemma read_groups_spec n i s gs v4 r : read_groups n i s = (gs, v4, r) -> (length gs <= n)%nat.
Proof.
  revert i s gs v4 r. induction n as [|n IH]; intros i s gs v4 r; cbn [read_groups]; [by intros [= <- <- <-]|].
  destruct (Nat.leb_spec 1 n) as [Hn|Hn]; [destruct (read_separator 58 i read_ipv4_addr s) as [[o s1]|]; [intros [= <- <- <-]; cbn; lia|]|];
    (destruct (read_separator 58 i _ s) as [[g s1]|]; [|intros [= <- <- <-]; cbn; lia]); destruct (read_groups n (S i) s1) as [[gs' v4'] s2] eqn:E; apply IH in E; intros [= <- <- <-]; cbn; lia.
Qed.
Lemma read_ipv6_spec s gs r : read_ipv6_addr s = Some (gs, r) -> length gs = 8%nat.
Proof.
  unfold read_ipv6_addr. destruct (read_groups 8 0 s) as [[hd v4] s1] eqn:E1. destruct (Nat.eqb_spec (length hd) 8) as [Hl|Hn]; [by intros [= <- <-]|].
  destruct v4; [done|]. destruct (read_given_char 58 s1) as [s2|]; [|done]. destruct (read_given_char 58 s2) as [s3|]; [|done].
  destruct (read_groups _ 0 s3) as [[tl v4'] s4] eqn:E2. intros [= <- <-]. apply read_groups_spec in E1, E2. rewrite !length_app, length_replicate. lia.
Qed.
(** What parses is an address. *)
Lemma parse_ip_ok s a : parse_ip s = Some a -> ip_ok a.
Proof.
  unfold parse_ip. destruct (read_ipv4_addr s) as [[o r]|] eqn:E4.
  - destruct r; [|done]. intros [= <-]. apply read_v4_groups_spec in E4 as [Hl Hb]. by split.
  - destruct (read_ipv6_addr s) as [[gs r]|] eqn:E6; [|done]. destruct r; [|done]. intros [= <-]. apply read_ipv6_spec in E6. clear -E6. split; cbn [octets].
    + clear. apply Forall_concat, Forall_fmap, list.Forall_forall. intros g _. exact (to_be_bytes_ok 2 g).
    + do 9 (destruct gs as [|? gs]; [done|]). done.
Qed.
End text.
