(* ===== verification/Arena.v ===== *)
(** Tries kept in an arena, as [core/src/rules/matcher.rs] keeps its two: a [Vec] of
    nodes whose edges are indices, node 0 the root.  The walk that extends a path,
    the depth-first visit with an explicit stack, and what they mean on the
    function from paths to node contents. *)

From stdpp Require Import base list numbers.
From S2P Require Import Prelude.

(** What a node type offers: edges labelled by [K], and the content [P] it carries. *)
Class ArenaNode (K N P : Type) := {
  blank : N;
  child : N -> K -> option nat;
  add_child : K -> nat -> N -> N;
  payload : N -> P;
}.
Class ArenaNodeLaws (K N P : Type) `{EqDecision K} `{ArenaNode K N P} : Prop := {
  child_blank k : child (blank : N) k = None;
  child_add k j (n : N) k' : child (add_child k j n) k' = if decide (k = k') then Some j else child n k';
  payload_add k j (n : N) : payload (add_child k j n) = payload n;
}.

Module arena.
Section Arena.
Context {K N P : Type} `{!EqDecision K} `{!ArenaNode K N P} `{!ArenaNodeLaws K N P}.
Implicit Types nodes : list N.

(** The walk of [insert]: follow the edges, pushing a node where one is missing. *)
Fixpoint extend (ks : list K) (cur : nat) nodes : option (nat * list N) :=
  match ks with
  | [] => Some (cur, nodes)
  | k :: ks =>
      let! n := nodes !! cur in
      match child n k with
      | Some next => extend ks next nodes
      | None =>
          let next := length nodes in
          extend ks next (alter (add_child k next) cur (nodes ++ [blank]))
      end
  end.

(** The loop over an explicit stack of frames, the top first: pop a frame, visit its
    node, push its children with what the visit passes down. *)
Fixpoint dfs {C} (visit : C -> N -> option (N * C)) (kids : N -> list nat) (fuel : nat) (stack : list (nat * C)) nodes : option (list N) :=
  match stack with
  | [] => Some nodes
  | (i, c) :: stack =>
      match fuel with
      | O => None
      | S fuel =>
          let! n := nodes !! i in
          let! (n, c) := visit c n in
          dfs visit kids fuel (reverse ((fun j => (j, c)) <$> kids n) ++ stack) (<[i := n]> nodes)
      end
  end.

(** ** Paths *)

Fixpoint reach nodes (cur : nat) (p : list K) : option nat :=
  match p with
  | [] => Some cur
  | k :: p => let! n := nodes !! cur in let! next := child n k in reach nodes next p
  end.
(** The content at a path; that of a blank node where there is none. *)
Definition view nodes (p : list K) : P :=
  match reach nodes 0 p with
  | Some i => match nodes !! i with Some n => payload n | None => payload (blank : N) end
  | None => payload (blank : N)
  end.

Record tree_ok nodes : Prop := {
  tr_root : (0 < length nodes)%nat;
  tr_edge : forall i n k j, nodes !! i = Some n -> child n k = Some j -> (i < j < length nodes)%nat;
  tr_uniq : forall i i' n n' k k' j, nodes !! i = Some n -> nodes !! i' = Some n' ->
    child n k = Some j -> child n' k' = Some j -> i = i' /\ k = k';
}.

Lemma reach_app nodes cur p q : reach nodes cur (p ++ q) = let! i := reach nodes cur p in reach nodes i q.
Proof.
  revert cur. induction p as [|k p IH]; intros cur; cbn; [done|]. destruct (nodes !! cur) as [n|]; [|done]. by destruct (child n k).
Qed.
Lemma reach_snoc nodes cur p k : reach nodes cur (p ++ [k]) = let! i := reach nodes cur p in let! n := nodes !! i in child n k.
Proof. rewrite reach_app. destruct (reach nodes cur p) as [i|]; [|done]. cbn. destruct (nodes !! i) as [n|]; [|done]. by destruct (child n k). Qed.

Lemma reach_lt nodes cur p i : tree_ok nodes -> (cur < length nodes)%nat -> reach nodes cur p = Some i -> (cur <= i < length nodes)%nat.
Proof.
  intros Ht. revert cur. induction p as [|k p IH]; intros cur Hc; cbn; [by intros [= ->]|].
  destruct (nodes !! cur) as [n|] eqn:E; [|done]. destruct (child n k) as [j|] eqn:Ej; [|done]. pose proof (tr_edge _ Ht _ _ _ _ E Ej).
  intros Hr. specialize (IH j ltac:(lia) Hr). lia.
Qed.

(** A node is reached by one path only. *)
Lemma reach_inj nodes p q i : tree_ok nodes -> reach nodes 0 p = Some i -> reach nodes 0 q = Some i -> p = q.
Proof.
  intros Ht. revert q i. induction p as [|k p IH] using rev_ind; intros q i Hp Hq; destruct q as [|k' q _] using rev_ind; [done| | |].
  - rewrite reach_snoc in Hq. destruct (reach nodes 0 q) as [m|]; [|done]. destruct (nodes !! m) as [n|] eqn:E; [|done]. cbn in Hp. injection Hp as <-.
    pose proof (tr_edge _ Ht _ _ _ _ E Hq). lia.
  - rewrite reach_snoc in Hp. destruct (reach nodes 0 p) as [m|]; [|done]. destruct (nodes !! m) as [n|] eqn:E; [|done]. cbn in Hq. injection Hq as <-.
    pose proof (tr_edge _ Ht _ _ _ _ E Hp). lia.
  - rewrite reach_snoc in Hp, Hq. destruct (reach nodes 0 p) as [m|] eqn:Em; [|done]. destruct (reach nodes 0 q) as [m'|] eqn:Em'; [|done].
    destruct (nodes !! m) as [n|] eqn:E; [|done]. destruct (nodes !! m') as [n'|] eqn:E'; [|done].
    destruct (tr_uniq _ Ht _ _ _ _ _ _ _ E E' Hp Hq) as [<- <-]. f_equal. by eapply IH.
Qed.

(** ** Extending a path *)

Lemma grow_lookup nodes cur k n i : nodes !! cur = Some n ->
  alter (add_child k (length nodes)) cur (nodes ++ [blank]) !! i =
  if decide (i = cur) then Some (add_child k (length nodes) n) else if decide (i = length nodes) then Some blank else nodes !! i.
Proof.
  intros E. pose proof (lookup_lt_Some _ _ _ E). destruct (decide (i = cur)) as [->|Hn].
  - rewrite list_lookup_alter_eq, lookup_app_l by done. by rewrite E.
  - rewrite list_lookup_alter_ne by done. destruct (decide (i = length nodes)) as [->|Hn']; [by rewrite lookup_app_r, Nat.sub_diag|].
    destruct (decide (i < length nodes)%nat); [by rewrite lookup_app_l|]. rewrite !lookup_ge_None_2; [done|lia|rewrite length_app; cbn; lia].
Qed.

Lemma grow_tree nodes cur k n : tree_ok nodes -> nodes !! cur = Some n -> child n k = None ->
  tree_ok (alter (add_child k (length nodes)) cur (nodes ++ [blank])).
Proof.
  intros Ht E Hk. pose proof (lookup_lt_Some _ _ _ E) as Hlt. pose proof (grow_lookup nodes cur k n) as Hg. set (nodes' := alter _ _ _) in *.
  assert (length nodes' = S (length nodes)) as Hl by (unfold nodes'; rewrite length_alter, length_app; cbn; lia).
  assert (forall i m k' j, nodes' !! i = Some m -> child m k' = Some j ->
    (i = cur /\ k' = k /\ j = length nodes) \/ exists m', nodes !! i = Some m' /\ child m' k' = Some j) as Hc.
  { intros i m k' j Hi Hj. rewrite Hg in Hi by done. destruct (decide (i = cur)) as [->|]; [|destruct (decide (i = length nodes))].
    - injection Hi as <-. rewrite child_add in Hj. destruct (decide (k = k')) as [<-|]; [left; split; [done|]; split; congruence|right; eauto].
    - injection Hi as <-. by rewrite child_blank in Hj.
    - right. eauto. }
  constructor.
  - lia.
  - intros i m k' j Hi Hj. destruct (Hc _ _ _ _ Hi Hj) as [(-> & -> & ->)|(m' & Hi' & Hj')]; [lia|]. pose proof (tr_edge _ Ht _ _ _ _ Hi' Hj'). lia.
  - intros i i' m m' k1 k2 j Hi Hi' Hj Hj'. destruct (Hc _ _ _ _ Hi Hj) as [(-> & -> & ->)|(x & Hx & Hxj)], (Hc _ _ _ _ Hi' Hj') as [(-> & -> & Hjj)|(y & Hy & Hyj)].
    + done.
    + pose proof (tr_edge _ Ht _ _ _ _ Hy Hyj). lia.
    + subst j. pose proof (tr_edge _ Ht _ _ _ _ Hx Hxj). lia.
    + by eapply (tr_uniq _ Ht).
Qed.

Lemma grow_reach nodes cur k n a p j : nodes !! cur = Some n -> child n k = None ->
  reach nodes a p = Some j -> reach (alter (add_child k (length nodes)) cur (nodes ++ [blank])) a p = Some j.
Proof.
  intros E Hk. revert a. induction p as [|k' p IH]; intros a; cbn [reach]; [done|]. rewrite (grow_lookup nodes cur k n) by done.
  destruct (nodes !! a) as [m|] eqn:Ea; [|done]. destruct (child m k') as [b|] eqn:Eb; [|done]. intros Hr. specialize (IH _ Hr).
  destruct (decide (a = cur)) as [->|Hn].
  - assert (m = n) as -> by congruence. rewrite child_add. destruct (decide (k = k')) as [<-|]; [congruence|]. by rewrite Eb.
  - rewrite decide_False by (apply lookup_lt_Some in Ea; lia). by rewrite Eb.
Qed.
Lemma grow_reach_inv nodes cur k n a p j : tree_ok nodes -> nodes !! cur = Some n -> (a < length nodes)%nat ->
  reach (alter (add_child k (length nodes)) cur (nodes ++ [blank])) a p = Some j -> reach nodes a p = Some j \/ j = length nodes.
Proof.
  intros Ht E. set (nodes' := alter _ _ _). pose proof (grow_lookup nodes cur k n) as Hg.
  assert (forall p j, reach nodes' (length nodes) p = Some j -> j = length nodes) as Hnew.
  { intros [|k' q] i; cbn [reach]; [congruence|]. unfold nodes'. rewrite Hg by done. apply lookup_lt_Some in E. rewrite decide_False, decide_True by lia. by rewrite child_blank. }
  revert a. induction p as [|k' p IH]; intros a Ha; cbn [reach]; [by left|]. unfold nodes' at 1. rewrite Hg by done.
  destruct (decide (a = cur)) as [->|Hn].
  - rewrite E, child_add. destruct (decide (k = k')) as [<-|]; [intros Hr; right; by eapply Hnew|].
    destruct (child n k') as [b|] eqn:Eb; [|done]. apply IH. by apply (tr_edge _ Ht _ _ _ _ E Eb).
  - rewrite decide_False by lia. destruct (nodes !! a) as [m|] eqn:Ea; [|done]. destruct (child m k') as [b|] eqn:Eb; [|done].
    apply IH. by apply (tr_edge _ Ht _ _ _ _ Ea Eb).
Qed.

Lemma grow_view nodes cur k n p : tree_ok nodes -> nodes !! cur = Some n -> child n k = None ->
  view (alter (add_child k (length nodes)) cur (nodes ++ [blank])) p = view nodes p.
Proof.
  intros Ht E Hk. unfold view. pose proof (grow_lookup nodes cur k n) as Hg. destruct (reach nodes 0 p) as [j|] eqn:Ej.
  - rewrite (grow_reach _ _ _ _ _ _ _ E Hk Ej), Hg by done. pose proof (reach_lt _ _ _ _ Ht (tr_root _ Ht) Ej). destruct (decide (j = cur)) as [->|]; [by rewrite E, payload_add|].
    by rewrite decide_False by lia.
  - destruct (reach (alter _ _ _) 0 p) as [j|] eqn:Ej'; [|done]. destruct (grow_reach_inv _ _ _ _ _ _ _ Ht E (tr_root _ Ht) Ej') as [Hx| ->]; [congruence|].
    rewrite Hg by done. apply lookup_lt_Some in E. by rewrite decide_False, decide_True by lia.
Qed.

Lemma extend_spec ks : forall cur nodes, tree_ok nodes -> (cur < length nodes)%nat ->
  exists i nodes', extend ks cur nodes = Some (i, nodes') /\ tree_ok nodes' /\ reach nodes' cur ks = Some i /\
    (forall p, view nodes' p = view nodes p) /\ (forall a p j, reach nodes a p = Some j -> reach nodes' a p = Some j).
Proof.
  induction ks as [|k ks IH]; intros cur nodes Ht Hc; cbn [extend]; [by exists cur, nodes|].
  destruct (lookup_lt_is_Some_2 _ _ Hc) as [n E]. rewrite E. destruct (child n k) as [next|] eqn:Ek.
  - pose proof (tr_edge _ Ht _ _ _ _ E Ek) as Hlt. destruct (IH next nodes Ht ltac:(lia)) as (i & nodes' & H1 & H2 & H3 & H4 & H5).
    exists i, nodes'. split; [done|]. split; [done|]. split; [|done]. rewrite (reach_app nodes' cur [k] ks : reach nodes' cur (k :: ks) = _), (H5 cur [k] next); [done|]. cbn. by rewrite E, Ek.
  - set (nodes1 := alter _ _ _). assert (tree_ok nodes1) as Ht1 by by eapply grow_tree. pose proof (grow_lookup nodes cur k n) as Hg.
    destruct (IH (length nodes) nodes1 Ht1) as (i & nodes' & H1 & H2 & H3 & H4 & H5); [unfold nodes1; rewrite length_alter, length_app; cbn; lia|].
    assert (reach nodes1 cur [k] = Some (length nodes)) as Hr.
    { cbn. unfold nodes1. rewrite Hg, decide_True by done. by rewrite child_add, decide_True. }
    exists i, nodes'. split; [done|]. split; [done|]. split; [|split].
    + rewrite (reach_app nodes' cur [k] ks : reach nodes' cur (k :: ks) = _), (H5 _ _ _ Hr). done.
    + intros p. rewrite H4. by eapply grow_view.
    + intros a p j Hj. apply H5. by eapply grow_reach.
Qed.

(** Changing the content of the node at [q]. *)
Lemma alter_tree (f : N -> N) i nodes : tree_ok nodes -> (forall n k, child (f n) k = child n k) -> tree_ok (alter f i nodes).
Proof.
  intros Ht Hf. assert (forall a m, alter f i nodes !! a = Some m -> exists m', nodes !! a = Some m' /\ forall k, child m k = child m' k) as Ha.
  { intros a m. destruct (decide (a = i)) as [->|]; [|rewrite list_lookup_alter_ne by done; eauto]. rewrite list_lookup_alter_eq.
    destruct (nodes !! i) as [m'|]; [|done]. intros [= <-]. eauto. }
  constructor; [rewrite length_alter; apply Ht| |].
  - intros a m k j Hm Hj. destruct (Ha _ _ Hm) as (m' & Hm' & Hc). rewrite length_alter. rewrite Hc in Hj. by eapply (tr_edge _ Ht).
  - intros a a' m m' k k' j Hm Hm' Hj Hj'. destruct (Ha _ _ Hm) as (x & Hx & Hc), (Ha _ _ Hm') as (y & Hy & Hc'). rewrite Hc in Hj. rewrite Hc' in Hj'. by eapply (tr_uniq _ Ht).
Qed.
Lemma alter_reach (f : N -> N) i nodes a p : (forall n k, child (f n) k = child n k) -> reach (alter f i nodes) a p = reach nodes a p.
Proof.
  intros Hf. revert a. induction p as [|k p IH]; intros a; cbn; [done|]. destruct (decide (a = i)) as [->|Hne].
  - rewrite list_lookup_alter_eq. destruct (nodes !! i) as [n|]; [|done]. cbn. rewrite Hf. by destruct (child n k).
  - rewrite list_lookup_alter_ne by done. destruct (nodes !! a) as [n|]; [|done]. by destruct (child n k).
Qed.
Lemma alter_view (f : N -> N) (g : P -> P) i nodes q p : tree_ok nodes -> reach nodes 0 q = Some i ->
  (forall n k, child (f n) k = child n k) -> (forall n, payload (f n) = g (payload n)) ->
  view (alter f i nodes) p = if decide (p = q) then g (view nodes p) else view nodes p.
Proof.
  intros Ht Hq Hf Hg. unfold view. rewrite alter_reach by done. destruct (decide (p = q)) as [->|Hn].
  - rewrite Hq. pose proof (reach_lt _ _ _ _ Ht (tr_root _ Ht) Hq) as Hlt. destruct (lookup_lt_is_Some_2 nodes i) as [n E]; [lia|].
    rewrite list_lookup_alter_eq, E. cbn. by rewrite Hg.
  - destruct (reach nodes 0 p) as [j|] eqn:Ej; [|done]. rewrite list_lookup_alter_ne; [done|]. intros ->. apply Hn. by eapply reach_inj.
Qed.

(** ** The depth-first visit *)

Section Dfs.
Context {C : Type} (visit : C -> N -> option (N * C)) (kids : N -> list nat).
(** What a visit does to the content, and what it passes down. *)
Context (vp : C -> P -> P) (vc : C -> P -> C) (Pok : P -> Prop).
Hypothesis visit_ok : forall c n, Pok (payload n) ->
  exists n', visit c n = Some (n', vc c (payload n)) /\ payload n' = vp c (payload n) /\ forall k, child n' k = child n k.
Hypothesis kids_ok : forall n j, j ∈ kids n <-> exists k, child n k = Some j.
Hypothesis kids_nodup : forall n, (forall k k' j, child n k = Some j -> child n k' = Some j -> k = k') -> NoDup (kids n).

(** What reaches the node at a path, passed down from the root. *)
Fixpoint cov (v : list K -> P) (c : C) (p : list K) : C :=
  match p with
  | [] => c
  | k :: p => cov (fun q => v (k :: q)) (vc c (v [])) p
  end.
Lemma cov_snoc v c p k : cov v c (p ++ [k]) = vc (cov v c p) (v p).
Proof. revert v c. induction p as [|k' p IH]; intros v c; cbn; [done|]. apply IH. Qed.

Context (nodes0 : list N) (c0 : C) (Htree : tree_ok nodes0) (Hpok : forall p, Pok (view nodes0 p)).

Definition pending (ps : list (list K)) (p : list K) : Prop := exists q, q ∈ ps /\ q `prefix_of` p.

Record loop_inv (stack : list (nat * C)) (ps : list (list K)) (nodes : list N) (done : list nat) : Prop := {
  li_len : length nodes = length nodes0;
  li_child : forall i n n0, nodes !! i = Some n -> nodes0 !! i = Some n0 -> forall k, child n k = child n0 k;
  li_stack : Forall2 (fun f p => reach nodes0 0 p = Some f.1 /\ f.2 = cov (view nodes0) c0 p) stack ps;
  li_anti : forall p q, p ∈ ps -> q ∈ ps -> p `prefix_of` q -> p = q;
  li_nodup : NoDup ps;
  li_pending : forall p i n, reach nodes0 0 p = Some i -> nodes !! i = Some n -> pending ps p -> payload n = view nodes0 p;
  li_visited : forall p i n, reach nodes0 0 p = Some i -> nodes !! i = Some n -> ~ pending ps p -> payload n = vp (cov (view nodes0) c0 p) (view nodes0 p);
  li_done : NoDup done /\ forall i, i ∈ done -> (i < length nodes0)%nat /\ forall p, reach nodes0 0 p = Some i -> ~ pending ps p;
}.

Lemma kids_keys n : exists ks, Forall2 (fun j k => child n k = Some j) (kids n) ks.
Proof.
  assert (forall l, (forall j, j ∈ l -> j ∈ kids n) -> exists ks, Forall2 (fun j k => child n k = Some j) l ks) as H; [|apply H; done].
  induction l as [|j l IH]; intros Hl; [by exists []|]. destruct IH as [ks Hks]; [intros; apply Hl; by right|].
  destruct (proj1 (kids_ok n j) (Hl j ltac:(left))) as [k Hk]. exists (k :: ks). by constructor.
Qed.

Lemma bounded_nodup (l : list nat) n : NoDup l -> (forall x, x ∈ l -> x < n)%nat -> (length l <= n)%nat.
Proof.
  intros Hl Hb. rewrite <- (length_seq n 0). apply submseteq_length, NoDup_submseteq; [done|]. intros x Hx. apply elem_of_seq. specialize (Hb x Hx). lia.
Qed.

Lemma pending_pop q ks ps p n : (forall r, r ∈ ps -> r `prefix_of` q \/ q `prefix_of` r -> False) ->
  (forall k, (child n k <> None) <-> k ∈ ks) -> (forall k p', p = q ++ k :: p' -> child n k <> None) ->
  pending (reverse ((fun k => q ++ [k]) <$> ks) ++ ps) p <-> (pending (q :: ps) p /\ p <> q).
Proof.
  intros Hx Hks Hreach. split.
  - intros (r & Hr & Hp). apply elem_of_app in Hr as [Hr|Hr].
    + rewrite elem_of_reverse, list_elem_of_fmap in Hr. destruct Hr as (k & -> & Hk). split.
      * exists q. split; [left|]. destruct Hp as [z ->]. exists (k :: z). by rewrite <- app_assoc.
      * intros ->. apply prefix_length in Hp. rewrite length_app in Hp. cbn in Hp. lia.
    + split; [exists r; split; [by right|done]|]. intros ->. by eapply Hx; [|left].
  - intros [(r & Hr & Hp) Hn]. apply elem_of_cons in Hr as [->|Hr]; [|exists r; split; [apply elem_of_app; by right|done]].
    destruct Hp as [[|k p'] ->]; [by rewrite app_nil_r in Hn|]. exists (q ++ [k]). split.
    + apply elem_of_app. left. rewrite elem_of_reverse, list_elem_of_fmap. exists k. split; [done|]. apply Hks. by eapply Hreach.
    + exists p'. by rewrite <- app_assoc.
Qed.

Lemma keys_nodup n l ks : Forall2 (fun j k => child n k = Some j) l ks -> NoDup l -> NoDup ks.
Proof.
  induction 1 as [|j k l ks Hk Hks IH]; intros Hl; [constructor|]. apply list.NoDup_cons in Hl as [Hj Hl]. constructor; [|by apply IH].
  intros Hin. apply list_elem_of_lookup in Hin as [a Ha]. destruct (Forall2_lookup_r _ _ _ _ _ Hks Ha) as (j' & Hj' & Hc). apply Hj.
  assert (j' = j) as -> by congruence. by eapply list_elem_of_lookup_2.
Qed.
Lemma keys_child i n n0 ks : nodes0 !! i = Some n0 -> (forall k, child n k = child n0 k) -> Forall2 (fun j k => child n k = Some j) (kids n) ks ->
  forall k, (child n k <> None) <-> k ∈ ks.
Proof.
  intros E0 Hn0 Hks k. split.
  - destruct (child n k) as [j|] eqn:Ej; [|done]. intros _. assert (j ∈ kids n) as Hj by (apply kids_ok; eauto). apply list_elem_of_lookup in Hj as [a Ha].
    destruct (Forall2_lookup_l _ _ _ _ _ Hks Ha) as (k' & Hk' & Hck). rewrite Hn0 in Ej, Hck. destruct (tr_uniq _ Htree _ _ _ _ _ _ _ E0 E0 Ej Hck) as [_ ->]. by eapply list_elem_of_lookup_2.
  - intros Hk. apply list_elem_of_lookup in Hk as [a Ha]. destruct (Forall2_lookup_r _ _ _ _ _ Hks Ha) as (j & _ & Hck). by rewrite Hck.
Qed.

(** The paths on the stack stay incomparable when one is replaced by its children. *)
Lemma pop_anti (q ks : list K) (ps : list (list K)) : NoDup ks -> NoDup ps -> (forall p r, p ∈ ps -> r ∈ ps -> p `prefix_of` r -> p = r) ->
  (forall r, r ∈ ps -> r `prefix_of` q \/ q `prefix_of` r -> False) ->
  let ps' := reverse ((fun k => q ++ [k]) <$> ks) ++ ps in
  NoDup ps' /\ forall a b, a ∈ ps' -> b ∈ ps' -> a `prefix_of` b -> a = b.
Proof.
  intros Hks Hps Hanti Hx. cbv zeta.
  assert (forall k r, r ∈ ps -> (q ++ [k]) `prefix_of` r \/ r `prefix_of` (q ++ [k]) -> False) as Hkr.
  { intros k r Hr [[z ->]|Hpre]; [apply (Hx _ Hr); right; exists (k :: z); by rewrite <- app_assoc|].
    destruct Hpre as [z Hz]. destruct z as [|k' z _] using rev_ind; [rewrite app_nil_r in Hz; subst r; apply (Hx _ Hr); right; by apply prefix_app_r|].
    rewrite app_assoc in Hz. apply app_inj_2 in Hz as [-> _]; [|done]. apply (Hx _ Hr). left. by apply prefix_app_r. }
  split.
  - apply list.NoDup_app. split; [|split; [|done]].
    + rewrite reverse_Permutation. apply NoDup_fmap_2; [|done]. intros k k' Hkk'. by apply app_inj_2 in Hkk' as [_ [= ->]].
    + intros r. rewrite elem_of_reverse, list_elem_of_fmap. intros (k & -> & _) Hr. apply (Hx _ Hr). right. by apply prefix_app_r.
  - intros a b. rewrite !elem_of_app, !elem_of_reverse, !list_elem_of_fmap. intros [(k & -> & Hk)|Ha] [(k' & -> & Hk')|Hb] Hpre.
    + apply prefix_app_inv in Hpre. destruct Hpre as [z Hz]. by injection Hz as ->.
    + exfalso. by apply (Hkr k b Hb); left.
    + exfalso. by apply (Hkr k' a Ha); right.
    + by apply Hanti.
Qed.

Lemma inv_pop i c stack q ps nodes done : loop_inv ((i, c) :: stack) (q :: ps) nodes done ->
  exists n n' c', nodes !! i = Some n /\ visit c n = Some (n', c') /\ ~ (i ∈ done) /\ (i < length nodes0)%nat /\
    exists ps', loop_inv (reverse ((fun j => (j, c')) <$> kids n') ++ stack) ps' (<[i := n']> nodes) (i :: done).
Proof.
  intros [Hlen Hch Hst Hanti Hnd Hpend Hvis [Hdn Hd]]. inversion Hst as [|? ? ? ? [Hq Hc] Hst']; subst. cbn [fst snd] in *. subst c.
  pose proof (reach_lt _ _ _ _ Htree (tr_root _ Htree) Hq) as Hi. destruct (lookup_lt_is_Some_2 nodes i) as [n E]; [lia|]. destruct (lookup_lt_is_Some_2 nodes0 i) as [n0 E0]; [lia|].
  assert (payload n = view nodes0 q) as Hpay by (eapply Hpend; [done..|]; exists q; split; [left|done]).
  destruct (visit_ok (cov (view nodes0) c0 q) n) as (n' & Hv & Hp' & Hc'); [rewrite Hpay; apply Hpok|]. rewrite Hpay in Hv, Hp'.
  assert (forall k, child n' k = child n0 k) as Hn0 by (intros k; rewrite Hc'; by eapply Hch).
  destruct (kids_keys n') as [ks Hks]. apply list.NoDup_cons in Hnd as [Hnq Hnd].
  assert (forall r, r ∈ ps -> r `prefix_of` q \/ q `prefix_of` r -> False) as Hx.
  { intros r Hr Hpre. apply Hnq. destruct Hpre as [Hpre|Hpre]; [rewrite <- (Hanti r q)|rewrite (Hanti q r)]; first [done|by left|by right]. }
  pose proof (keys_child i n' n0 ks E0 Hn0 Hks) as Hkk.
  assert (forall k k' j, child n' k = Some j -> child n' k' = Some j -> k = k') as Hinj by (intros k k' j; rewrite !Hn0; intros H1 H2; by eapply (tr_uniq _ Htree)).
  assert (forall p j, reach nodes0 0 p = Some j -> pending (reverse ((fun k => q ++ [k]) <$> ks) ++ ps) p <-> pending (q :: ps) p /\ p <> q) as Hpp.
  { intros p j Hj. apply (pending_pop q ks ps p n' Hx Hkk). intros k p' ->. rewrite Hn0. rewrite reach_app, Hq in Hj. cbn in Hj. rewrite E0 in Hj. by destruct (child n0 k). }
  exists n, n', (vc (cov (view nodes0) c0 q) (view nodes0 q)). split; [done|]. split; [done|].
  split; [intros Hin; eapply (proj2 (Hd i Hin)); [exact Hq|]; exists q; split; [left|done]|]. split; [lia|].
  destruct (pop_anti q ks ps (keys_nodup _ _ _ Hks (kids_nodup n' Hinj)) Hnd) as [Hd' Ha]; [intros; apply Hanti; by try right|done|].
  exists (reverse ((fun k => q ++ [k]) <$> ks) ++ ps). constructor.
  - by rewrite length_insert.
  - intros a m m0. destruct (decide (a = i)) as [->|]; [rewrite list_lookup_insert_eq by lia; intros [= <-]; congruence|rewrite list_lookup_insert_ne by done; apply Hch].
  - apply Forall2_app; [|done]. apply Forall2_reverse. apply Forall2_fmap. eapply list.Forall2_impl; [exact Hks|]. intros j k Hjk. cbn. split; [|by rewrite cov_snoc].
    rewrite reach_snoc, Hq, E0. by rewrite <- Hn0.
  - exact Ha.
  - exact Hd'.
  - intros p a m Hp. rewrite (Hpp p a Hp). intros Hm [Hpq Hne]. rewrite list_lookup_insert_ne in Hm; [by eapply Hpend|]. intros ->. apply Hne. by eapply reach_inj.
  - intros p a m Hp Hm. rewrite (Hpp p a Hp). intros Hnp. destruct (decide (p = q)) as [->|Hne].
    + assert (a = i) as -> by congruence. rewrite list_lookup_insert_eq in Hm by lia. by injection Hm as <-.
    + rewrite list_lookup_insert_ne in Hm by (intros ->; apply Hne; by eapply reach_inj). eapply Hvis; [done..|]. intros Hpq. by apply Hnp.
  - split; [constructor; [|done]|].
    + intros Hin. eapply (proj2 (Hd i Hin)); [exact Hq|]. exists q. split; [left|done].
    + intros j Hj. apply elem_of_cons in Hj as [->|Hj]; [split; [lia|]|split; [by apply Hd|]]; intros p Hp; rewrite (Hpp p _ Hp); intros [Hpq Hne].
      * apply Hne. by eapply reach_inj.
      * by eapply (proj2 (Hd j Hj)).
Qed.

Lemma inv_start : loop_inv [(0%nat, c0)] [[]] nodes0 [].
Proof.
  constructor; try done.
  - intros i n n0 E E0 k. congruence.
  - by repeat constructor.
  - intros p q ->%list_elem_of_singleton ->%list_elem_of_singleton. done.
  - apply list.NoDup_singleton.
  - intros p i n Hp E _. unfold view. by rewrite Hp, E.
  - intros p i n _ _ Hn. exfalso. apply Hn. exists []. split; [left|apply prefix_nil].
  - split; [constructor|]. intros i Hi. by apply not_elem_of_nil in Hi.
Qed.

(** Every node is popped once: as many rounds as there are nodes are enough. *)
Lemma dfs_loop fuel : forall stack ps nodes done, loop_inv stack ps nodes done -> (length nodes0 <= fuel + length done)%nat ->
  exists nodes' done', dfs visit kids fuel stack nodes = Some nodes' /\ loop_inv [] [] nodes' done'.
Proof.
  induction fuel as [|fuel IH]; intros [|[i c] stack] ps nodes done Hinv Hf; pose proof (li_stack _ _ _ _ Hinv) as Hst; inversion Hst; subst; try (cbn; by eauto).
  - exfalso. destruct (inv_pop _ _ _ _ _ _ _ Hinv) as (_ & _ & _ & _ & _ & Hi & Hlt & _). destruct (li_done _ _ _ _ Hinv) as [Hn Hd].
    enough (length (i :: done) <= length nodes0)%nat by (cbn in *; lia). apply bounded_nodup; [by constructor|]. intros x Hx. apply elem_of_cons in Hx as [->|Hx]; [done|by apply Hd].
  - destruct (inv_pop _ _ _ _ _ _ _ Hinv) as (n & n' & c' & E & Hv & _ & _ & ps' & Hinv'). cbn [dfs]. rewrite E, Hv. apply (IH _ _ _ _ Hinv'). cbn. lia.
Qed.

Hypothesis vp_blank : forall c, vp c (payload (blank : N)) = payload (blank : N).

Lemma dfs_spec : exists nodes', dfs visit kids (length nodes0) [(0%nat, c0)] nodes0 = Some nodes' /\
  length nodes' = length nodes0 /\ tree_ok nodes' /\ forall p, view nodes' p = vp (cov (view nodes0) c0 p) (view nodes0 p).
Proof.
  destruct (dfs_loop (length nodes0) _ _ _ _ inv_start ltac:(cbn; lia)) as (nodes' & done' & Hd & Hinv). exists nodes'. split; [done|].
  destruct Hinv as [Hlen Hch _ _ _ _ Hvis _]. split; [done|].
  assert (forall i n, nodes' !! i = Some n -> exists n0, nodes0 !! i = Some n0) as Hex.
  { intros i n E. apply lookup_lt_is_Some_2. apply lookup_lt_Some in E. lia. }
  split.
  - constructor; [rewrite Hlen; apply Htree| |].
    + intros i n k j E Hj. destruct (Hex _ _ E) as [n0 E0]. rewrite (Hch _ _ _ E E0) in Hj. rewrite Hlen. by eapply (tr_edge _ Htree).
    + intros i i' n m k k' j E E' Hj Hj'. destruct (Hex _ _ E) as [n0 E0], (Hex _ _ E') as [m0 E0']. rewrite (Hch _ _ _ E E0) in Hj. rewrite (Hch _ _ _ E' E0') in Hj'. by eapply (tr_uniq _ Htree).
  - assert (forall p a, reach nodes' a p = reach nodes0 a p) as Hr.
    { induction p as [|k p IH]; intros a; [done|]. cbn. destruct (nodes' !! a) as [n|] eqn:E.
      - destruct (Hex _ _ E) as [n0 E0]. rewrite E0, (Hch _ _ _ E E0). by destruct (child n0 k).
      - rewrite (lookup_ge_None_2 nodes0); [done|]. apply lookup_ge_None in E. lia. }
    intros p. unfold view at 1. rewrite Hr. destruct (reach nodes0 0 p) as [i|] eqn:Ep.
    + pose proof (reach_lt _ _ _ _ Htree (tr_root _ Htree) Ep). destruct (lookup_lt_is_Some_2 nodes' i) as [n E]; [lia|]. rewrite E. eapply Hvis; [done..|].
      intros (q & Hq & _). by apply not_elem_of_nil in Hq.
    + assert (view nodes0 p = payload (blank : N)) as -> by (unfold view; by rewrite Ep). by rewrite vp_blank.
Qed.
End Dfs.
End Arena.
End arena.
