(* ===== verification/RuleTrie.v ===== *)
(** [core/src/rules/matcher.rs], the two tries: the reversed-label trie of domain rules
    and the bit trie of address prefixes, with the compaction that drops covered
    entries.  A rank is the position of a rule list; a smaller rank wins. *)

From stdpp Require Import base gmap list numbers vector fin.
From S2P Require Import Prelude RustStr NetAddr Arena.

Module rules.
Import net.

Inductive Action := Proxy | Direct | Proxyless | Reject.
#[export] Instance Action_eq_dec : EqDecision Action.
Proof. solve_decision. Defined.

Definition ACTION_COUNT : nat := 4.
Definition action_index (a : Action) : fin ACTION_COUNT :=
  match a with Proxy => 0 | Direct => 1 | Proxyless => 2 | Reject => 3 end%fin.

Definition min_opt (cur : option Z) (new : Z) : Z := match cur with Some c => Z.min c new | None => new end.
Definition is_covered (cover : option Z) (victim : Z) : bool := match cover with Some c => c <=? victim | None => false end.

(** [[Option<Rank>; ACTION_COUNT]]. *)
Abbreviation Covering := (vec (option Z) ACTION_COUNT).
Definition no_cover : Covering := vreplicate ACTION_COUNT None.
Definition extend_cover (c : Covering) (act : fin ACTION_COUNT) (r : Z) : Covering := vinsert act (Some (min_opt (c !!! act) r)) c.

(** [actions[rank as usize]]; [None] is a panic. *)
Definition action_of (actions : list Action) (rank : Z) : option Action := actions !! Z.to_nat rank.

(** ** The domain trie *)

Inductive Terminal := Exact | Suffix.

Record TrieNode := mk_trie { children : gmap bytes nat; suffix_rank : option Z; exact_rank : option Z }.
#[export] Instance TrieNode_eta : Settable TrieNode := fun n => mk_trie (children n) (suffix_rank n) (exact_rank n).
#[export] Instance TrieNode_node : ArenaNode bytes TrieNode (option Z * option Z) := {
  blank := mk_trie ∅ None None;
  child n k := children n !! k;
  add_child k j n := n <| children := <[k := j]> (children n) |>;
  payload n := (suffix_rank n, exact_rank n);
}.
Abbreviation DomainTrie := (list TrieNode).

Definition DOT : Z := 46.
Definition labels (domain : bytes) : list bytes := filter (fun l => l <> []) (reverse (split_on DOT domain)).

Definition domain_insert (domain : bytes) (kind : Terminal) (rank : Z) (nodes : DomainTrie) : option DomainTrie :=
  let nodes := match nodes with [] => [blank] | _ => nodes end in
  let! (cur, nodes) := arena.extend (labels domain) 0 nodes in
  let! n := nodes !! cur in
  let n := match kind with
           | Exact => n <| exact_rank := Some (min_opt (exact_rank n) rank) |>
           | Suffix => n <| suffix_rank := Some (min_opt (suffix_rank n) rank) |>
           end in
  Some (<[cur := n]> nodes).

Fixpoint domain_walk (ls : list bytes) (cur : nat) (best : option Z) (nodes : DomainTrie) : option (option Z) :=
  match ls with
  | [] => Some best
  | label :: ls =>
      let! n := nodes !! cur in
      match children n !! label with
      | None => Some best
      | Some next =>
          let! n := nodes !! next in
          let best := match suffix_rank n with Some r => Some (min_opt best r) | None => best end in
          let best := match ls, exact_rank n with [], Some r => Some (min_opt best r) | _, _ => best end in
          domain_walk ls next best nodes
      end
  end.
Definition domain_lookup (domain : bytes) (nodes : DomainTrie) : option (option Z) :=
  match nodes with [] => Some None | _ => domain_walk (labels domain) 0 None nodes end.

(** One round of the loop of [DomainTrie::compact]. *)
Definition domain_visit (actions : list Action) (covering : Covering) (n : TrieNode) : option (TrieNode * Covering) :=
  let! n :=
    match exact_rank n with
    | Some exact =>
        let! a := action_of actions exact in
        let act := action_index a in
        let covered_by_ancestor := is_covered (covering !!! act) exact in
        let! covered_by_self :=
          match suffix_rank n with
          | Some sr => let! b := action_of actions sr in Some (bool_decide (action_index b = act) && (sr <=? exact))
          | None => Some false
          end in
        Some (if covered_by_ancestor || covered_by_self then n <| exact_rank := None |> else n)
    | None => Some n
    end in
  let! n :=
    match suffix_rank n with
    | Some sr =>
        let! a := action_of actions sr in
        Some (if is_covered (covering !!! action_index a) sr then n <| suffix_rank := None |> else n)
    | None => Some n
    end in
  let! child_cover :=
    match suffix_rank n with
    | Some sr => let! a := action_of actions sr in Some (extend_cover covering (action_index a) sr)
    | None => Some covering
    end in
  Some (n, child_cover).

(** The order in which [HashMap::values] visits the children of a node. *)
Definition Order : Type := gmap bytes nat -> list nat.
Definition order_ok (it : Order) : Prop := forall m, it m ≡ₚ (map_to_list m).*2.

Definition domain_compact (it : Order) (actions : list Action) (nodes : DomainTrie) : option DomainTrie :=
  match nodes with
  | [] => Some []
  | _ => arena.dfs (domain_visit actions) (fun n => it (children n)) (length nodes) [(0%nat, no_cover)] nodes
  end.

(** ** The bit trie *)

(** [child] holds [usize::MAX] ([NO_CHILD]) for an absent child; here [None]. *)
Record BitNode := mk_bit { child0 : option nat; child1 : option nat; rank : option Z }.
#[export] Instance BitNode_eta : Settable BitNode := fun n => mk_bit (child0 n) (child1 n) (rank n).
#[export] Instance BitNode_node : ArenaNode bool BitNode (option Z * option Z) := {
  blank := mk_bit None None None;
  child n k := if k : bool then child1 n else child0 n;
  add_child k j n := if k : bool then n <| child1 := Some j |> else n <| child0 := Some j |>;
  payload n := (rank n, None);
}.
Abbreviation BitTrie := (list BitNode).

Definition ensure_root (nodes : BitTrie) : BitTrie := match nodes with [] => [blank] | _ => nodes end.
(** [((addr >> (127 - i)) & 1) as usize]. *)
Definition bit_at (addr i : Z) : bool := negb (Z.land (Z.shiftr addr (127 - i)) 1 =? 0).
Definition bits (addr depth : Z) : list bool := bit_at addr <$> seqZ 0 depth.

Definition bit_insert (addr prefix max_bits r : Z) (nodes : BitTrie) : option BitTrie :=
  let nodes := ensure_root nodes in
  let depth := Z.min prefix max_bits in
  let! (cur, nodes) := arena.extend (bits addr depth) 0 nodes in
  let! n := nodes !! cur in
  Some (<[cur := n <| rank := Some (min_opt (rank n) r) |>]> nodes).

Fixpoint bit_walk (bs : list bool) (cur : nat) (best : option Z) (nodes : BitTrie) : option (option Z) :=
  match bs with
  | [] => Some best
  | b :: bs =>
      let! n := nodes !! cur in
      match child n b with
      | None => Some best
      | Some next =>
          let! n := nodes !! next in
          let best := match rank n with Some r => Some (min_opt best r) | None => best end in
          bit_walk bs next best nodes
      end
  end.
Definition bit_lookup (addr max_bits : Z) (nodes : BitTrie) : option (option Z) :=
  match nodes with
  | [] => Some None
  | root :: _ => bit_walk (bits addr max_bits) 0 (rank root) nodes
  end.

(** One round of the loop of [BitTrie::compact]. *)
Definition bit_visit (actions : list Action) (covering : Covering) (n : BitNode) : option (BitNode * Covering) :=
  let! n :=
    match rank n with
    | Some r => let! a := action_of actions r in Some (if is_covered (covering !!! action_index a) r then n <| rank := None |> else n)
    | None => Some n
    end in
  let! child_cover :=
    match rank n with
    | Some r => let! a := action_of actions r in Some (extend_cover covering (action_index a) r)
    | None => Some covering
    end in
  Some (n, child_cover).
Definition bit_kids (n : BitNode) : list nat := omap id [child0 n; child1 n].
Definition bit_compact (actions : list Action) (nodes : BitTrie) : option BitTrie :=
  match nodes with
  | [] => Some []
  | _ => arena.dfs (bit_visit actions) bit_kids (length nodes) [(0%nat, no_cover)] nodes
  end.

(** ** Prefixes of both families *)

Record IpCidr := mk_cidr { c_addr : IpAddr; c_prefix : Z }.
Record CidrTrie := mk_cidrs { t_v4 : BitTrie; t_v6 : BitTrie }.
#[export] Instance CidrTrie_eta : Settable CidrTrie := fun t => mk_cidrs (t_v4 t) (t_v6 t).
Definition cidrs_default : CidrTrie := mk_cidrs [] [].

(** [u32::from], [u128::from]: the address as an integer. *)
Definition ip_value (a : IpAddr) : Z := from_be_bytes (octets a).

Definition cidr_insert (c : IpCidr) (r : Z) (t : CidrTrie) : option CidrTrie :=
  match c_addr c with
  | V4 _ => let! v := bit_insert (Z.shiftl (ip_value (c_addr c)) 96) (c_prefix c) 32 r (t_v4 t) in Some (t <| t_v4 := v |>)
  | V6 _ => let! v := bit_insert (ip_value (c_addr c)) (c_prefix c) 128 r (t_v6 t) in Some (t <| t_v6 := v |>)
  end.
Definition cidr_lookup (a : IpAddr) (t : CidrTrie) : option (option Z) :=
  match a with
  | V4 _ => bit_lookup (Z.shiftl (ip_value a) 96) 32 (t_v4 t)
  | V6 _ => bit_lookup (ip_value a) 128 (t_v6 t)
  end.
Definition cidr_compact (actions : list Action) (t : CidrTrie) : option CidrTrie :=
  let! v4 := bit_compact actions (t_v4 t) in
  let! v6 := bit_compact actions (t_v6 t) in
  Some (mk_cidrs v4 v6).
End rules.
