(* ===== verification/RuleCover.v ===== *)
(** Why compaction is invisible to lookups: the tries as functions from paths to the
    ranks stored there, the lookup and the compaction on such functions, and the
    tries of [RuleTrie] as instances. *)

From stdpp Require Import base gmap list numbers vector fin.
From S2P Require Import Prelude RustStr NetAddr Arena RuleTrie.

Module cover.
Import rules.

(** ** Best ranks *)

(** The better of two optional ranks. *)
Definition omin (a b : option Z) : option Z :=
  match a, b with Some x, Some y => Some (Z.min x y) | Some x, None => Some x | None, b => b end.
(** [a] is at least as good as rank [r]. *)
Definition beats (a : option Z) (r : Z) : Prop := exists x, a = Some x /\ x <= r.

Lemma omin_assoc a b c : omin a (omin b c) = omin (omin a b) c.
Proof. destruct a, b, c; cbn; f_equal; lia. Qed.
Lemma omin_comm a b : omin a b = omin b a.
Proof. destruct a, b; cbn; f_equal; lia. Qed.
Lemma omin_none_r a : omin a None = a.
Proof. by destruct a. Qed.
Lemma omin_beats a r : beats a r -> omin a (Some r) = a.
Proof. intros (x & -> & H). cbn. f_equal. lia. Qed.
Lemma beats_omin_l a b r : beats a r -> beats (omin a b) r.
Proof. intros (x & -> & H). destruct b; eexists; (split; [reflexivity|]); lia. Qed.
Lemma beats_omin_some a r r' : r <= r' -> beats (omin a (Some r)) r'.
Proof. intros H. destruct a; eexists; (split; [reflexivity|]); lia. Qed.
Lemma beats_le a r r' : beats a r -> r <= r' -> beats a r'.
Proof. intros (x & -> & H) H'. exists x. split; [done|lia]. Qed.
Lemma min_opt_omin cur r : Some (min_opt cur r) = omin cur (Some r).
Proof. by destruct cur. Qed.

(** ** Lookup and compaction on paths *)

(** The covering rank and the exact rank stored at a path. *)
Abbreviation Ranks := (option Z * option Z)%type.

Section Paths.
Context {K : Type} `{!EqDecision K}.
Implicit Types v : list K -> Ranks.

(** The best rank along a path: every covering rank on the way and the exact one at its end. *)
Fixpoint best_along v (ls : list K) : option Z :=
  omin (v []).1 (match ls with [] => (v []).2 | k :: ls => best_along (fun q => v (k :: q)) ls end).

Lemma best_along_ext v v' ls : (forall p, v p = v' p) -> best_along v ls = best_along v' ls.
Proof. revert v v'. induction ls as [|k ls IH]; intros v v' H; cbn; rewrite H; [done|]. f_equal. apply IH. intros p. apply H. Qed.

(** A stored rank shows along the paths it covers. *)
Lemma best_along_cover v v' ks r ls : (forall p, v' p = if decide (p = ks) then (omin (v p).1 (Some r), (v p).2) else v p) ->
  best_along v' ls = omin (best_along v ls) (if decide (ks `prefix_of` ls) then Some r else None).
Proof.
  revert v v' ks. induction ls as [|k ls IH]; intros v v' ks Hv; cbn [best_along]; rewrite Hv.
  - destruct ks as [|k' ks]; [rewrite !decide_True by (done || apply prefix_nil); cbn|rewrite !decide_False; cbn].
    + rewrite <- !omin_assoc. f_equal. apply omin_comm.
    + by rewrite omin_none_r.
    + intros H. by apply prefix_nil_inv in H.
    + done.
  - destruct ks as [|k' ks].
    + rewrite !decide_True by (done || apply prefix_nil). cbn. rewrite <- !omin_assoc. f_equal. rewrite omin_comm. f_equal.
      apply best_along_ext. intros p. rewrite Hv. by rewrite decide_False.
    + rewrite decide_False by done. rewrite <- omin_assoc. f_equal. destruct (decide (k' = k)) as [->|Hn].
      * rewrite (IH (fun q => v (k :: q)) _ ks). { f_equal. destruct (decide (ks `prefix_of` ls)) as [H|H]; [by rewrite decide_True by by apply prefix_cons|rewrite decide_False; [done|]]. intros Hp. apply H. by apply prefix_cons_inv_2 in Hp. }
        intros p. rewrite Hv. destruct (decide (p = ks)) as [->|]; [by rewrite decide_True|rewrite decide_False; congruence].
      * rewrite (decide_False (P := _ `prefix_of` _)) by (intros Hp; by apply prefix_cons_inv_1 in Hp). rewrite omin_none_r. apply best_along_ext. intros p. rewrite Hv, decide_False; congruence.
Qed.
Lemma best_along_exact v v' ks r ls : (forall p, v' p = if decide (p = ks) then ((v p).1, omin (v p).2 (Some r)) else v p) ->
  best_along v' ls = omin (best_along v ls) (if decide (ks = ls) then Some r else None).
Proof.
  revert v v' ks. induction ls as [|k ls IH]; intros v v' ks Hv; cbn [best_along]; rewrite Hv.
  - destruct ks as [|k' ks]; [rewrite !decide_True by done; cbn; by rewrite omin_assoc|by rewrite !decide_False, omin_none_r by done].
  - destruct ks as [|k' ks].
    + rewrite decide_True, decide_False by done. cbn. rewrite omin_none_r. f_equal. apply best_along_ext. intros p. rewrite Hv. by rewrite decide_False.
    + rewrite decide_False by done. rewrite <- omin_assoc. f_equal. destruct (decide (k' = k)) as [->|Hn].
      * rewrite (IH (fun q => v (k :: q)) _ ks). { f_equal. destruct (decide (ks = ls)) as [->|]; [by rewrite decide_True|rewrite decide_False; congruence]. }
        intros p. rewrite Hv. destruct (decide (p = ks)) as [->|]; [by rewrite decide_True|rewrite decide_False; congruence].
      * rewrite (decide_False (P := _ = k :: ls)) by congruence. rewrite omin_none_r. apply best_along_ext. intros p. rewrite Hv, decide_False; congruence.
Qed.
Lemma best_along_none v ls : (forall p, v p = (None, None)) -> best_along v ls = None.
Proof. revert v. induction ls as [|k ls IH]; intros v H; cbn; rewrite H; [done|]. cbn. apply IH. intros p. apply H. Qed.

(** The compaction, by the action index of each rank. *)
Context (idx : Z -> fin ACTION_COUNT).
Definition covered (c : Covering) (r : Z) : bool := is_covered (c !!! idx r) r.
Definition kept_cover (c : Covering) (s : option Z) : option Z := match s with Some r => if covered c r then None else Some r | None => None end.
Definition kept_exact (c : Covering) (s e : option Z) : option Z :=
  match e with
  | Some r => if covered c r || match s with Some sr => bool_decide (idx sr = idx r) && (sr <=? r) | None => false end then None else Some r
  | None => None
  end.
Definition compacted (c : Covering) (x : Ranks) : Ranks := (kept_cover c x.1, kept_exact c x.1 x.2).
Definition passed_down (c : Covering) (x : Ranks) : Covering := match kept_cover c x.1 with Some r => extend_cover c (idx r) r | None => c end.

(** What covers is at least as good as what was seen on the way. *)
Definition below (b : option Z) (c : Covering) : Prop := forall a r, c !!! a = Some r -> beats b r.

Lemma covered_beats b c r : below b c -> covered c r = true -> beats b r.
Proof.
  unfold covered, is_covered. intros Hb. destruct (c !!! idx r) as [x|] eqn:E; [|done]. intros H%Z.leb_le. eapply beats_le; [by eapply Hb|done].
Qed.
Lemma kept_cover_omin b c s : below b c -> omin b (kept_cover c s) = omin b s.
Proof. intros Hb. destruct s as [r|]; [|done]. cbn. destruct (covered c r) eqn:E; [|done]. rewrite omin_beats by by eapply covered_beats. apply omin_none_r. Qed.
Lemma kept_exact_omin b c s e : below b c -> omin (omin b s) (kept_exact c s e) = omin (omin b s) e.
Proof.
  intros Hb. destruct e as [r|]; [|done]. cbn. destruct (covered c r) eqn:E; cbn [orb].
  - rewrite (omin_beats _ r), omin_none_r; [done|]. apply beats_omin_l. by eapply covered_beats.
  - destruct s as [sr|]; [|done]. destruct (bool_decide _); [|done]. destruct (Z.leb_spec sr r); [|done]. cbn [andb].
    rewrite (omin_beats _ r), omin_none_r; [done|]. by apply beats_omin_some.
Qed.
Lemma below_passed b c x : below b c -> below (omin b x.1) (passed_down c x).
Proof.
  intros Hb. assert (below (omin b x.1) c) as Hc by (intros a r H; apply beats_omin_l; by eapply Hb). unfold passed_down.
  destruct x as [[r|] e]; cbn in *; [|done]. destruct (covered c r); [done|]. intros a r'. unfold extend_cover. destruct (decide (a = idx r)) as [->|Hn].
  - rewrite vlookup_insert. intros [= <-]. destruct (c !!! idx r) as [x|] eqn:E; cbn; [|by apply beats_omin_some].
    destruct (Z.min_spec x r) as [[_ ->]|[_ ->]]; [by eapply Hc|by apply beats_omin_some].
  - rewrite vlookup_insert_ne by done. apply Hc.
Qed.

Lemma compacted_best ls : forall v c b, below b c ->
  omin b (best_along (fun p => compacted (arena.cov passed_down v c p) (v p)) ls) = omin b (best_along v ls).
Proof.
  induction ls as [|k ls IH]; intros v c b Hb; cbn [best_along arena.cov]; rewrite !omin_assoc; cbn [compacted fst snd].
  - rewrite (kept_cover_omin b c (v []).1 Hb). by apply kept_exact_omin.
  - rewrite (kept_cover_omin b c (v []).1 Hb). apply (IH (fun q => v (k :: q))). by apply below_passed.
Qed.
End Paths.

(** ** The tries *)

#[export] Instance TrieNode_laws : ArenaNodeLaws bytes TrieNode (option Z * option Z).
Proof.
  constructor; [done| |done]. intros k j n k'. cbn. destruct (decide (k = k')) as [->|Hn]; [apply lookup_insert_eq|by apply lookup_insert_ne].
Qed.
#[export] Instance BitNode_laws : ArenaNodeLaws bool BitNode (option Z * option Z).
Proof. constructor; [by intros []| |by intros []]. by intros [] j n []. Qed.

Lemma trie_blank : payload (blank : TrieNode) = (None, None).
Proof. done. Qed.
Lemma bit_blank : payload (blank : BitNode) = (None, None).
Proof. done. Qed.

Section Trie.
Context {K N : Type} `{!EqDecision K} `{!ArenaNode K N Ranks} `{!ArenaNodeLaws K N Ranks}.
Implicit Types nodes : list N.
Hypothesis blank_empty : payload (blank : N) = (None, None).

Definition trie_ok nodes : Prop := nodes = [] \/ arena.tree_ok nodes.
Definition rooted nodes : list N := match nodes with [] => [blank] | _ => nodes end.

Lemma view_nil p : arena.view ([] : list N) p = (None, None).
Proof. unfold arena.view. by destruct p. Qed.
Lemma rooted_ok nodes : trie_ok nodes -> arena.tree_ok (rooted nodes).
Proof.
  intros [->|H]; [|by destruct nodes; [destruct H; cbn in *; lia|]]. cbn. constructor; [cbn; lia| |].
  - intros [|i] n k j E Hj; [|done]. injection E as <-. by rewrite child_blank in Hj.
  - intros [|i] [|i'] n n' k k' j E E' Hj Hj'; try done. injection E as <-. by rewrite child_blank in Hj.
Qed.
Lemma rooted_view nodes p : arena.view (rooted nodes) p = arena.view nodes p.
Proof.
  destruct nodes as [|n nodes]; [|done]. rewrite view_nil. unfold arena.view. destruct p as [|k p]; cbn; [done|]. by rewrite child_blank.
Qed.

(** Storing into the node at a path. *)
Lemma store_spec nodes ks (f : N -> N) (g : Ranks -> Ranks) : trie_ok nodes ->
  (forall n k, child (f n) k = child n k) -> (forall n, payload (f n) = g (payload n)) ->
  exists cur n nodes', arena.extend ks 0 (rooted nodes) = Some (cur, nodes') /\ nodes' !! cur = Some n /\ trie_ok (<[cur := f n]> nodes') /\
    forall p, arena.view (<[cur := f n]> nodes') p = if decide (p = ks) then g (arena.view nodes p) else arena.view nodes p.
Proof.
  intros Hok Hf Hg. pose proof (rooted_ok _ Hok) as Ht. destruct (arena.extend_spec ks 0 (rooted nodes) Ht (arena.tr_root _ Ht)) as (cur & nodes' & E & Ht' & Hr & Hv & _).
  destruct (lookup_lt_is_Some_2 nodes' cur) as [n En]; [apply (arena.reach_lt _ _ _ _ Ht' (arena.tr_root _ Ht') Hr)|].
  assert (<[cur := f n]> nodes' = alter f cur nodes') as Ea.
  { apply list_eq. intros i. destruct (decide (i = cur)) as [->|Hn]; [rewrite list_lookup_insert_eq, list_lookup_alter_eq, En; [done|by eapply lookup_lt_Some]|by rewrite list_lookup_insert_ne, list_lookup_alter_ne by done]. }
  exists cur, n, nodes'. split; [done|]. split; [done|]. rewrite Ea. split; [right; by apply arena.alter_tree|]. intros p.
  rewrite (arena.alter_view f g cur nodes' ks p Ht' Hr Hf Hg). by rewrite Hv, rooted_view.
Qed.

(** The view below a child that is there. *)
Lemma view_child nodes p cur n : arena.reach nodes 0 p = Some cur -> nodes !! cur = Some n -> arena.view nodes p = payload n.
Proof. intros Hr E. unfold arena.view. by rewrite Hr, E. Qed.
Lemma view_absent nodes p k q cur n : arena.reach nodes 0 p = Some cur -> nodes !! cur = Some n -> child n k = None -> arena.view nodes (p ++ k :: q) = (None, None).
Proof. intros Hr E Hk. unfold arena.view. rewrite arena.reach_app, Hr. cbn. by rewrite E, Hk. Qed.
End Trie.

Definition trie_index (actions : list Action) (r : Z) : fin ACTION_COUNT := action_index (default Proxy (action_of actions r)).
(** Every stored rank has an action. *)
Definition ranks_ok (actions : list Action) (x : Ranks) : Prop := forall r, x.1 = Some r \/ x.2 = Some r -> is_Some (action_of actions r).

Lemma domain_insert_spec d kind r nodes : trie_ok nodes -> exists nodes', domain_insert d kind r nodes = Some nodes' /\ trie_ok nodes' /\
  forall p, arena.view nodes' p =
    if decide (p = labels d) then match kind with Suffix => (omin (arena.view nodes p).1 (Some r), (arena.view nodes p).2)
                                                | Exact => ((arena.view nodes p).1, omin (arena.view nodes p).2 (Some r)) end
    else arena.view nodes p.
Proof.
  intros Hok. unfold domain_insert. change (match nodes with [] => [blank] | _ => nodes end) with (rooted nodes).
  destruct kind.
  - destruct (store_spec trie_blank nodes (labels d) (fun n => n <| exact_rank := Some (min_opt (exact_rank n) r) |>) (fun x => (x.1, omin x.2 (Some r))) Hok) as (cur & n & nodes' & -> & -> & H); [done| |eauto].
    intros n. cbn. by rewrite min_opt_omin.
  - destruct (store_spec trie_blank nodes (labels d) (fun n => n <| suffix_rank := Some (min_opt (suffix_rank n) r) |>) (fun x => (omin x.1 (Some r), x.2)) Hok) as (cur & n & nodes' & -> & -> & H); [done| |eauto].
    intros n. cbn. by rewrite min_opt_omin.
Qed.

Lemma domain_walk_spec nodes ls : arena.tree_ok nodes -> forall p cur best, arena.reach nodes 0 p = Some cur ->
  domain_walk ls cur best nodes = Some (omin best (match ls with [] => None | k :: ls => best_along (fun q => arena.view nodes (p ++ k :: q)) ls end)).
Proof.
  intros Ht. induction ls as [|k ls IH]; intros p cur best Hr; cbn [domain_walk]; [by rewrite omin_none_r|].
  pose proof (arena.reach_lt _ _ _ _ Ht (arena.tr_root _ Ht) Hr) as Hlt. destruct (lookup_lt_is_Some_2 nodes cur) as [n E]; [lia|]. rewrite E.
  destruct (children n !! k) as [next|] eqn:Ek.
  - assert (arena.reach nodes 0 (p ++ [k]) = Some next) as Hr' by (rewrite arena.reach_snoc, Hr, E; exact Ek).
    pose proof (arena.reach_lt _ _ _ _ Ht (arena.tr_root _ Ht) Hr') as Hlt'. destruct (lookup_lt_is_Some_2 nodes next) as [n' E']; [lia|]. rewrite E'.
    rewrite (IH (p ++ [k]) next) by done. f_equal. pose proof (view_child nodes (p ++ [k]) next n' Hr' E') as Hv.
    assert (forall b, match suffix_rank n' with Some r => Some (min_opt b r) | None => b end = omin b (suffix_rank n')) as Hs by (intros b; destruct (suffix_rank n'); [apply min_opt_omin|by rewrite omin_none_r]).
    destruct ls as [|k' ls]; cbn [best_along].
    + rewrite Hv. cbn. rewrite Hs. rewrite omin_none_r, omin_assoc. destruct (exact_rank n'); [apply min_opt_omin|by rewrite omin_none_r].
    + rewrite Hv. cbn [payload fst snd TrieNode_node]. rewrite Hs. rewrite omin_assoc. f_equal. apply (best_along_ext (K := bytes)). intros q. by rewrite <- app_assoc.
  - f_equal. rewrite best_along_none, omin_none_r; [done|]. intros q. by eapply (view_absent trie_blank).
Qed.

Definition best_domain (v : list bytes -> Ranks) (ls : list bytes) : option Z :=
  match ls with [] => None | k :: ls => best_along (fun q => v (k :: q)) ls end.
Lemma domain_lookup_spec d nodes : trie_ok nodes -> domain_lookup d nodes = Some (best_domain (arena.view nodes) (labels d)).
Proof.
  unfold domain_lookup. intros [->|Ht].
  - f_equal. unfold best_domain. destruct (labels d); [done|]. by rewrite best_along_none.
  - destruct nodes as [|n0 rest]; [destruct Ht; cbn in *; lia|]. rewrite (domain_walk_spec (n0 :: rest) _ Ht [] 0) by done. by destruct (labels d).
Qed.

(** *** Compaction *)

Lemma domain_visit_spec actions c n : ranks_ok actions (payload n) -> exists n',
  domain_visit actions c n = Some (n', passed_down (trie_index actions) c (payload n)) /\
  payload n' = compacted (trie_index actions) c (payload n) /\ forall k, child n' k = child n k.
Proof.
  destruct n as [ch s e]. unfold ranks_ok. cbn [payload TrieNode_node fst snd suffix_rank exact_rank child children]. intros Hok.
  assert (forall r, s = Some r \/ e = Some r -> exists a, action_of actions r = Some a /\ trie_index actions r = action_index a) as Ha.
  { intros r Hr. destruct (Hok r Hr) as [a Ea]. exists a. split; [done|]. unfold trie_index. by rewrite Ea. }
  clear Hok. unfold domain_visit, passed_down, compacted, kept_exact, kept_cover, covered. cbn [exact_rank suffix_rank fst snd].
  destruct s as [sr|], e as [er|]; cbn [exact_rank suffix_rank].
  - destruct (Ha sr) as (a & Ea & Hi); [by left|]. destruct (Ha er) as (b & Eb & Hj); [by right|]. rewrite Eb, Ea, Hi, Hj.
    destruct (is_covered (c !!! action_index b) er); destruct (bool_decide (action_index a = action_index b)); destruct (sr <=? er); cbn [orb andb suffix_rank exact_rank update_field];
      cbn; rewrite ?Ea; destruct (is_covered (c !!! action_index a) sr) eqn:Hc; cbn; rewrite ?Ea, ?Hi; eexists; (split; [reflexivity|]); done.
  - destruct (Ha sr) as (a & Ea & Hi); [by left|]. rewrite Ea, Hi. destruct (is_covered (c !!! action_index a) sr) eqn:Hc; cbn; rewrite ?Ea, ?Hi; eexists; (split; [reflexivity|]); done.
  - destruct (Ha er) as (b & Eb & Hj); [by right|]. rewrite Eb, Hj. destruct (is_covered (c !!! action_index b) er); cbn; eexists; (split; [reflexivity|]); done.
  - cbn. eexists. split; [reflexivity|]. done.
Qed.

Lemma order_kids it (n : TrieNode) : order_ok it -> (forall j, j ∈ it (children n) <-> exists k, child n k = Some j) /\
  ((forall k k' j, child n k = Some j -> child n k' = Some j -> k = k') -> NoDup (it (children n))).
Proof.
  unfold order_ok. intros Hit. specialize (Hit (children n)). split.
  - intros j. rewrite Hit, list_elem_of_fmap. split.
    + intros ([k j'] & -> & Hin). exists k. by apply elem_of_map_to_list.
    + intros [k Hk]. exists (k, j). split; [done|]. by apply elem_of_map_to_list.
  - intros Hinj. rewrite Hit. apply NoDup_fmap_2_strong; [|apply NoDup_map_to_list]. intros [k j] [k' j'] Hk Hk' [= <-].
    apply elem_of_map_to_list in Hk, Hk'. f_equal. by eapply Hinj.
Qed.

Lemma compacted_none idx c : compacted idx c (None, None) = (None, None).
Proof. done. Qed.

Lemma domain_compact_spec it actions nodes : order_ok it -> trie_ok nodes -> (forall p, ranks_ok actions (arena.view nodes p)) ->
  exists nodes', domain_compact it actions nodes = Some nodes' /\ trie_ok nodes' /\
    forall p, arena.view nodes' p = compacted (trie_index actions) (arena.cov (passed_down (trie_index actions)) (arena.view nodes) no_cover p) (arena.view nodes p).
Proof.
  intros Hit [->|Ht] Hok; unfold domain_compact.
  - exists []. split; [done|]. split; [by left|]. intros p. by rewrite view_nil.
  - destruct nodes as [|n0 rest]; [destruct Ht; cbn in *; lia|]. set (nodes := n0 :: rest) in *.
    destruct (arena.dfs_spec (domain_visit actions) (fun n => it (children n)) (compacted (trie_index actions)) (passed_down (trie_index actions)) (ranks_ok actions)
      (domain_visit_spec actions) (fun n => proj1 (order_kids it n Hit)) (fun n => proj2 (order_kids it n Hit)) nodes no_cover Ht Hok (compacted_none _))
      as (nodes' & -> & _ & Ht' & Hv). exists nodes'. split; [done|]. split; [by right|done].
Qed.

(** A lookup sees the same best rank after compaction, as long as no rank covers the root. *)
Lemma compact_best_domain idx v ls : (v []).1 = None ->
  best_domain (fun p => compacted idx (arena.cov (passed_down idx) v no_cover p) (v p)) ls = best_domain v ls.
Proof.
  intros Hr. destruct ls as [|k ls]; [done|]. cbn [best_domain arena.cov]. assert (passed_down idx no_cover (v []) = no_cover) as -> by (unfold passed_down; by rewrite Hr).
  apply (compacted_best idx ls (fun q => v (k :: q)) no_cover None). intros a r. unfold no_cover. by rewrite vlookup_replicate.
Qed.

(** ** The bit trie *)

Lemma bit_insert_spec addr prefix max r nodes : trie_ok nodes -> exists nodes', bit_insert addr prefix max r nodes = Some nodes' /\ trie_ok nodes' /\
  forall p, arena.view nodes' p = if decide (p = bits addr (Z.min prefix max)) then (omin (arena.view nodes p).1 (Some r), (arena.view nodes p).2) else arena.view nodes p.
Proof.
  intros Hok. unfold bit_insert. cbv zeta. change (ensure_root nodes) with (rooted nodes).
  destruct (store_spec bit_blank nodes (bits addr (Z.min prefix max)) (fun n => n <| rank := Some (min_opt (rank n) r) |>) (fun x => (omin x.1 (Some r), x.2)) Hok) as (cur & n & nodes' & -> & -> & H); [by intros n []| |eauto].
  intros n. cbn. by rewrite min_opt_omin.
Qed.

Lemma view_bit (nodes : BitTrie) p : (arena.view nodes p).2 = None.
Proof. unfold arena.view. destruct (arena.reach nodes 0 p) as [i|]; [|done]. by destruct (nodes !! i). Qed.

Lemma bit_walk_spec nodes bs : arena.tree_ok nodes -> forall p cur best, arena.reach nodes 0 p = Some cur ->
  bit_walk bs cur best nodes = Some (omin best (match bs with [] => None | k :: bs => best_along (fun q => arena.view nodes (p ++ k :: q)) bs end)).
Proof.
  intros Ht. induction bs as [|k bs IH]; intros p cur best Hr; cbn [bit_walk]; [by rewrite omin_none_r|].
  pose proof (arena.reach_lt _ _ _ _ Ht (arena.tr_root _ Ht) Hr) as Hlt. destruct (lookup_lt_is_Some_2 nodes cur) as [n E]; [lia|]. rewrite E.
  destruct (child n k) as [next|] eqn:Ek.
  - assert (arena.reach nodes 0 (p ++ [k]) = Some next) as Hr' by (rewrite arena.reach_snoc, Hr, E; exact Ek).
    pose proof (arena.reach_lt _ _ _ _ Ht (arena.tr_root _ Ht) Hr') as Hlt'. destruct (lookup_lt_is_Some_2 nodes next) as [n' E']; [lia|]. rewrite E'.
    rewrite (IH (p ++ [k]) next) by done. f_equal. pose proof (view_child nodes (p ++ [k]) next n' Hr' E') as Hv.
    assert (forall b, match rank n' with Some r => Some (min_opt b r) | None => b end = omin b (rank n')) as -> by (intros b; destruct (rank n'); [apply min_opt_omin|by rewrite omin_none_r]).
    rewrite <- omin_assoc. f_equal. destruct bs as [|k' bs]; cbn [best_along]; rewrite Hv; cbn [payload BitNode_node fst snd]; [done|]. f_equal.
    apply (best_along_ext (K := bool)). intros q. by rewrite <- app_assoc.
  - f_equal. rewrite best_along_none, omin_none_r; [done|]. intros q. by eapply (view_absent bit_blank).
Qed.

Lemma bit_lookup_spec addr max nodes : trie_ok nodes -> bit_lookup addr max nodes = Some (best_along (arena.view nodes) (bits addr max)).
Proof.
  unfold bit_lookup. intros [->|Ht]; [rewrite best_along_none; [done|apply (view_nil bit_blank)]|].
  destruct nodes as [|n0 rest]; [destruct Ht; cbn in *; lia|]. rewrite (bit_walk_spec (n0 :: rest) _ Ht [] 0) by done. f_equal.
  destruct (bits addr max) as [|b bs]; cbn [best_along]; [|done]. by rewrite view_bit.
Qed.

Lemma bit_visit_spec actions c n : ranks_ok actions (payload n) -> exists n',
  bit_visit actions c n = Some (n', passed_down (trie_index actions) c (payload n)) /\
  payload n' = compacted (trie_index actions) c (payload n) /\ forall k, child n' k = child n k.
Proof.
  destruct n as [ch0 ch1 s]. unfold ranks_ok. cbn [payload BitNode_node fst snd rank child]. intros Hok.
  unfold bit_visit, passed_down, compacted, kept_exact, kept_cover, covered. cbn [rank fst snd]. destruct s as [r|].
  - destruct (Hok r) as [a Ea]; [by left|]. assert (trie_index actions r = action_index a) as Hi by (unfold trie_index; by rewrite Ea). rewrite Ea, Hi.
    destruct (is_covered (c !!! action_index a) r); cbn; rewrite ?Ea, ?Hi; eexists; (split; [reflexivity|done]).
  - eexists. split; [reflexivity|]. done.
Qed.
Lemma bit_kids_ok (n : BitNode) : (forall j, j ∈ bit_kids n <-> exists k, child n k = Some j) /\
  ((forall k k' j, child n k = Some j -> child n k' = Some j -> k = k') -> NoDup (bit_kids n)).
Proof.
  unfold bit_kids. split.
  - intros j. rewrite list_elem_of_omap. split.
    + intros (o & Ho & E). cbn in E. subst o. apply elem_of_cons in Ho as [Ho|Ho]; [by exists false|]. apply list_elem_of_singleton in Ho. by exists true.
    + intros [[] Hk]; cbn in Hk; exists (Some j); (split; [rewrite <- Hk; repeat constructor|done]).
  - intros Hinj. destruct n as [[a|] [b|] s]; cbn in *; try (by repeat constructor); try apply list.NoDup_singleton.
    constructor; [|apply list.NoDup_singleton]. intros ->%list_elem_of_singleton. by specialize (Hinj false true b eq_refl eq_refl).
Qed.

Lemma bit_compact_spec actions nodes : trie_ok nodes -> (forall p, ranks_ok actions (arena.view nodes p)) ->
  exists nodes', bit_compact actions nodes = Some nodes' /\ trie_ok nodes' /\
    forall bs, best_along (arena.view nodes') bs = best_along (arena.view nodes) bs.
Proof.
  intros [->|Ht] Hok; unfold bit_compact; [by exists []; split; [|split; [left|]]|].
  destruct nodes as [|n0 rest]; [destruct Ht; cbn in *; lia|]. set (nodes := n0 :: rest) in *.
  destruct (arena.dfs_spec (bit_visit actions) bit_kids (compacted (trie_index actions)) (passed_down (trie_index actions)) (ranks_ok actions)
    (bit_visit_spec actions) (fun n => proj1 (bit_kids_ok n)) (fun n => proj2 (bit_kids_ok n)) nodes no_cover Ht Hok (compacted_none _)) as (nodes' & -> & _ & Ht' & Hv).
  exists nodes'. split; [done|]. split; [by right|]. intros bs. rewrite (best_along_ext _ _ bs Hv).
  apply (compacted_best (trie_index actions) bs (arena.view nodes) no_cover None). intros a r. unfold no_cover. by rewrite vlookup_replicate.
Qed.
End cover.
