(* ===== verification/SrsSet.v ===== *)
(** [core/src/rules/srs.rs], the succinct domain set: rank and select over a bitmap, the
    walk that recovers every stored key, and the split of the keys into domain rules. *)

From stdpp Require Import base gmap list numbers.
From S2P Require Import Prelude RustStr BTree NetAddr RuleTrie.

Module srs.
Import net rules.

Inductive SrsError :=
| BadMagic
| Truncated
| UnsupportedVersion (v : Z)
| Inflate
| Malformed (what : string).

(** How a run of the parser ends.  [Exhausted] is the model's: the fuel of a loop ran out. *)
Inductive outcome (A : Type) :=
| Ret (a : A)
| Fail (e : SrsError)
| Panic
| Exhausted.
Arguments Ret {A} a.
Arguments Fail {A} e.
Arguments Panic {A}.
Arguments Exhausted {A}.

Notation "'let*' x := c 'in' k" :=
  (match c with Ret x => k | Fail e => Fail e | Panic => Panic | Exhausted => Exhausted end)
  (at level 10, x pattern, c at level 150, k at level 200, only parsing) : spark_scope.

Record RuleSet := mk_rules { domain : list bytes; domain_suffix : list bytes; domain_keyword : list bytes; ip_cidr : list IpCidr }.
#[export] Instance RuleSet_eta : Settable RuleSet := fun r => mk_rules (domain r) (domain_suffix r) (domain_keyword r) (ip_cidr r).
Definition rules_default : RuleSet := mk_rules [] [] [] [].
Definition ip_only (cidrs : list IpCidr) : RuleSet := mk_rules [] [] [] cidrs.

(** The addresses an [IpCidr] covers: those of its family with the same leading bits. *)
Definition width (a : IpAddr) : Z := match a with V4 _ => 32 | V6 _ => 128 end.
Definition cidr_contains (ip : IpAddr) (c : IpCidr) : bool :=
  Bool.eqb (is_v6 ip) (is_v6 (c_addr c)) &&
  (Z.shiftr (ip_value ip) (width ip - Z.min (c_prefix c) (width ip)) =? Z.shiftr (ip_value (c_addr c)) (width ip - Z.min (c_prefix c) (width ip))).
Definition cidr_ok (c : IpCidr) : Prop := ip_ok (c_addr c) /\ 0 <= c_prefix c.
Lemma ip_value_bound ip : ip_ok ip -> 0 <= ip_value ip < 2 ^ width ip.
Proof. intros [Hb Hl]. pose proof (from_be_bytes_bound _ Hb) as H. unfold ip_value. rewrite Hl in H. by destruct ip. Qed.

(** ** Rank and select *)

Definition count_ones (w : Z) : nat := length (filter (fun i => Z.testbit w i = true) (seqZ 0 64)).

Record BitRank := mk_rank { words : list Z; cum_ones : list nat }.
(** The running sums that [new] pushes. *)
Fixpoint running (acc : nat) (ws : list Z) : list nat :=
  match ws with [] => [] | w :: ws => let acc := (acc + count_ones w)%nat in acc :: running acc ws end.
Definition rank_new (ws : list Z) : BitRank := mk_rank ws (0%nat :: running 0 ws).

(** The indexings are in range whenever [rank_new] built the index. *)
Definition ones (r : BitRank) (i : nat) : nat :=
  let word := (i / 64)%nat in
  if (length (words r) <=? word)%nat then default 0%nat (list.last (cum_ones r))
  else
    let bit := (i mod 64)%nat in
    let partial := if (bit =? 0)%nat then 0%nat else count_ones (Z.land (default 0 (words r !! word)) (Z.shiftl 1 (Z.of_nat bit) - 1)) in
    (default 0%nat (cum_ones r !! word) + partial)%nat.
Definition zeros (r : BitRank) (i : nat) : nat := (i - ones r i)%nat.

(** [slice::partition_point]: where the predicate first fails. *)
Fixpoint partition_point {A} (p : A -> bool) (l : list A) : nat := match l with [] => 0 | x :: l => if p x then S (partition_point p l) else 0 end.

(** The scan of one word for its set bit of rank [need]. *)
Fixpoint scan_word (n : nat) (bit : nat) (w : Z) (need : nat) : option nat :=
  match n with
  | O => None
  | S n =>
      if Z.land (Z.shiftr w (Z.of_nat bit)) 1 =? 1
      then match need with O => Some bit | S need => scan_word n (S bit) w need end
      else scan_word n (S bit) w need
  end.
Definition select_one (r : BitRank) (i : nat) : nat :=
  let total_bits := (length (words r) * 64)%nat in
  let p := partition_point (fun c => (c <=? i)%nat) (cum_ones r) in
  if (p =? 0)%nat || (length (words r) <? p)%nat then total_bits
  else
    let widx := (p - 1)%nat in
    let need := (i - default 0 (cum_ones r !! widx))%nat in
    match scan_word 64 0 (default 0 (words r !! widx)) need with
    | Some bit => (widx * 64 + bit)%nat
    | None => total_bits
    end.

(** ** The keys of the set *)

Record SuccinctSet := mk_set { leaves : list Z; label_bitmap : list Z; s_labels : bytes }.

Definition get_bit (bm : list Z) (i : nat) : bool :=
  match bm !! (i / 64)%nat with Some w => negb (Z.land w (Z.shiftl 1 (Z.of_nat (i mod 64)%nat)) =? 0) | None => false end.

Record Frame := mk_frame { node_id : nat; bm_idx : nat; f_key : bytes }.

(** The loop over the outgoing edges of a node, pushing its children. *)
Fixpoint walk_edges (fuel : nat) (s : SuccinctSet) (rank : BitRank) (node bm : nat) (key : bytes) (stack : list Frame) : outcome (list Frame) :=
  match fuel with
  | O => Exhausted
  | S fuel =>
      if get_bit (label_bitmap s) bm then Ret stack
      else if (bm <? node)%nat then Fail (Malformed "succinct set: label index underflow")
      else
        match s_labels s !! (bm - node)%nat with
        | None => Fail (Malformed "succinct set: label out of range")
        | Some next_label =>
            let next_node_id := zeros rank (bm + 1) in
            if (next_node_id =? 0)%nat then Fail (Malformed "succinct set: node id underflow")
            else
              let next_bm_idx := (select_one rank (next_node_id - 1) + 1)%nat in
              walk_edges fuel s rank node (bm + 1) key (mk_frame next_node_id next_bm_idx (key ++ [next_label]) :: stack)
        end
  end.

Fixpoint keys_loop (fuel : nat) (s : SuccinctSet) (rank : BitRank) (stack : list Frame) (result : list bytes) : outcome (list bytes) :=
  match stack with
  | [] => Ret result
  | f :: stack =>
      match fuel with
      | O => Exhausted
      | S fuel =>
          let result := if get_bit (leaves s) (node_id f) then result ++ [f_key f] else result in
          let* stack := walk_edges (S (length (s_labels s))) s rank (node_id f) (bm_idx f) (f_key f) stack in
          keys_loop fuel s rank stack result
      end
  end.
Definition keys (s : SuccinctSet) : outcome (list bytes) :=
  keys_loop (S (length (s_labels s))) s (rank_new (label_bitmap s)) [mk_frame 0 0 []] [].

(** ** From keys to rules *)

Definition PREFIX_LABEL : Z := 13.
Definition ROOT_LABEL : Z := 10.
Definition reverse_bytes (b : bytes) : bytes := reverse b.

(** The sets and the list that the first loop of [dump_domains] fills; a [BTreeSet] is
    an ordered map to [unit]. *)
Record Dump := mk_dump { domain_map : list (bytes * unit); prefix_set : list (bytes * unit); suffix_list : list bytes }.
#[export] Instance Dump_eta : Settable Dump := fun d => mk_dump (domain_map d) (prefix_set d) (suffix_list d).

Definition sort_key (d : Dump) (key : bytes) : Dump :=
  let key := reverse_bytes key in
  let exact := if utf8_valid key then d <| domain_map := bt_insert key tt (domain_map d) |> else d in
  match key with
  | b :: rest =>
      if b =? PREFIX_LABEL then if utf8_valid rest then d <| prefix_set := bt_insert rest tt (prefix_set d) |> else d
      else if b =? ROOT_LABEL then if utf8_valid rest then d <| suffix_list := suffix_list d ++ [rest] |> else d
      else exact
  | [] => exact
  end.
Definition fold_prefix (d : Dump) (raw_prefix : bytes) : Dump :=
  match strip_prefix [DOT] raw_prefix with
  | Some root =>
      if bt_mem root (domain_map d)
      then d <| domain_map := bt_remove root (domain_map d) |> <| suffix_list := suffix_list d ++ [root] |>
      else d <| suffix_list := suffix_list d ++ [raw_prefix] |>
  | None => d <| suffix_list := suffix_list d ++ [raw_prefix] |>
  end.
Definition dump_domains (ks : list bytes) (out : RuleSet) : RuleSet :=
  let d := fold_left sort_key ks (mk_dump [] [] []) in
  let d := fold_left fold_prefix (bt_keys (prefix_set d)) d in
  out <| domain := domain out ++ bt_keys (domain_map d) |> <| domain_suffix := domain_suffix out ++ suffix_list d |>.

(** ** Rank and select count bits *)

(** How many of the first [n] positions satisfy [f]. *)
Fixpoint cnt (f : nat -> bool) (n : nat) : nat := match n with O => 0 | S n => cnt f n + Nat.b2n (f n) end.

Lemma cnt_add f n m : cnt f (n + m) = (cnt f n + cnt (fun j => f (n + j)%nat) m)%nat.
Proof. induction m as [|m IH]; [by rewrite !Nat.add_0_r|]. rewrite Nat.add_succ_r. cbn [cnt]. rewrite IH. lia. Qed.
Lemma cnt_ext f g n : (forall j, (j < n)%nat -> f j = g j) -> cnt f n = cnt g n.
Proof. induction n as [|n IH]; intros H; cbn [cnt]; [done|]. rewrite H by lia. f_equal. apply IH. intros j Hj. apply H. lia. Qed.
Lemma cnt_mono f n m : (n <= m)%nat -> (cnt f n <= cnt f m)%nat.
Proof. intros H. replace m with (n + (m - n))%nat by lia. rewrite cnt_add. lia. Qed.
Lemma cnt_le f n : (cnt f n <= n)%nat.
Proof. induction n as [|n IH]; cbn [cnt]; [lia|]. destruct (f n); cbn; lia. Qed.
Lemma cnt_lt f n m : f n = true -> (n < m)%nat -> (cnt f n < cnt f m)%nat.
Proof. intros Hn Hm. pose proof (cnt_mono f (S n) m Hm) as H. cbn [cnt] in H. rewrite Hn in H. cbn in H. lia. Qed.
Lemma cnt_zero f n : (forall j, (j < n)%nat -> f j = false) -> cnt f n = 0%nat.
Proof. induction n as [|n IH]; intros H; cbn [cnt]; [done|]. rewrite H, IH by (try intros; try apply H; lia). done. Qed.

(** A count is reached bit by bit. *)
Lemma cnt_hits f i n : (i < cnt f n)%nat -> exists p, (p < n)%nat /\ f p = true /\ cnt f p = i.
Proof.
  induction n as [|n IH]; cbn [cnt]; [lia|]. intros H. destruct (Nat.lt_ge_cases i (cnt f n)) as [Hl|Hg].
  - destruct (IH Hl) as (p & Hp & Hf & Hc). exists p. split; [lia|done].
  - exists n. destruct (f n); cbn in H; [|lia]. repeat split; lia.
Qed.

Definition wbit (w : Z) (j : nat) : bool := Z.testbit w (Z.of_nat j).
Lemma filter_cnt w n : length (filter (fun i => Z.testbit w i = true) (seqZ 0 (Z.of_nat n))) = cnt (wbit w) n.
Proof.
  induction n as [|n IH]; [done|]. replace (Z.of_nat (S n)) with (Z.of_nat n + 1) by lia. rewrite seqZ_app by lia. rewrite list.filter_app, length_app, IH. cbn [cnt].
  f_equal. rewrite Z.add_0_l. rewrite seqZ_cons by lia. rewrite (seqZ_nil _ (Z.pred 1)) by lia. rewrite list.filter_cons. unfold wbit. destruct (Z.testbit w (Z.of_nat n)); cbn; done.
Qed.
Lemma count_ones_cnt w : count_ones w = cnt (wbit w) 64.
Proof. apply (filter_cnt w 64). Qed.
Lemma count_ones_mask w b : (b <= 64)%nat -> count_ones (Z.land w (Z.shiftl 1 (Z.of_nat b) - 1)) = cnt (wbit w) b.
Proof.
  intros Hb. rewrite count_ones_cnt. assert (forall j, wbit (Z.land w (Z.shiftl 1 (Z.of_nat b) - 1)) j = wbit w j && (j <? b)%nat) as Hw.
  { intros j. unfold wbit. rewrite Z.shiftl_1_l. change (2 ^ Z.of_nat b - 1) with (Z.pred (2 ^ Z.of_nat b)). rewrite <- Z.ones_equiv, Z.land_spec. f_equal. destruct (Nat.ltb_spec j b); [apply Z.ones_spec_low; lia|apply Z.ones_spec_high; lia]. }
  replace 64%nat with (b + (64 - b))%nat at 1 by lia. rewrite cnt_add. rewrite (cnt_zero (fun j => _ (b + j)%nat)), Nat.add_0_r.
  - apply cnt_ext. intros j Hj. rewrite Hw. rewrite (proj2 (Nat.ltb_lt j b)) by done. apply andb_true_r.
  - intros j Hj. rewrite Hw. rewrite (proj2 (Nat.ltb_ge _ _)) by lia. apply andb_false_r.
Qed.
Lemma land_bit w j : 0 <= j -> negb (Z.land w (Z.shiftl 1 j) =? 0) = Z.testbit w j.
Proof.
  intros Hj. rewrite Z.shiftl_1_l. destruct (Z.testbit w j) eqn:E.
  - destruct (Z.eqb_spec (Z.land w (2 ^ j)) 0) as [H|]; [|done]. apply (f_equal (fun x => Z.testbit x j)) in H. rewrite Z.land_spec, Z.bits_0, E, Z.pow2_bits_true in H by lia. done.
  - assert (Z.land w (2 ^ j) = 0) as ->; [|done]. apply Z.bits_inj'. intros i Hi. rewrite Z.land_spec, Z.bits_0. destruct (decide (i = j)) as [->|Hn]; [by rewrite E|]. rewrite Z.pow2_bits_false by done. apply andb_false_r.
Qed.
Lemma get_bit_word ws k j : (j < 64)%nat -> get_bit ws (64 * k + j) = match ws !! k with Some w => wbit w j | None => false end.
Proof.
  intros Hj. unfold get_bit. replace ((64 * k + j) / 64)%nat with k by (rewrite Nat.mul_comm, Nat.div_add_l, Nat.div_small; lia).
  replace ((64 * k + j) mod 64)%nat with j by (rewrite Nat.mul_comm, Nat.add_comm, Nat.Div0.mod_add, Nat.mod_small; lia). destruct (ws !! k); [|done]. apply land_bit. lia.
Qed.
Lemma get_bit_beyond ws i : (64 * length ws <= i)%nat -> get_bit ws i = false.
Proof. intros H. unfold get_bit. rewrite lookup_ge_None_2; [done|]. apply Nat.div_le_lower_bound; lia. Qed.
Lemma word_cnt ws k w j : ws !! k = Some w -> (j <= 64)%nat -> cnt (fun j => get_bit ws (64 * k + j)) j = cnt (wbit w) j.
Proof. intros E Hj. apply cnt_ext. intros i Hi. rewrite get_bit_word by lia. by rewrite E. Qed.

Lemma running_lookup ws k acc : (k < length ws)%nat -> running acc ws !! k = Some (acc + cnt (get_bit ws) (64 * S k))%nat.
Proof.
  revert k acc. induction ws as [|w ws IH]; intros k acc Hk; cbn [length running] in *; [lia|].
  assert (forall i, get_bit (w :: ws) (64 + i) = get_bit ws i) as Hs.
  { intros i. rewrite (Nat.div_mod_eq i 64). replace (64 + (64 * (i / 64) + i mod 64))%nat with (64 * S (i / 64) + i mod 64)%nat by lia.
    rewrite !get_bit_word by (apply Nat.mod_upper_bound; lia). done. }
  assert (cnt (get_bit (w :: ws)) 64 = count_ones w) as Hw by (rewrite count_ones_cnt; apply (word_cnt (w :: ws) 0 w 64); done).
  destruct k as [|k]; cbn [lookup list_lookup]; [by rewrite <- Hw|]. cbv zeta. unfold list_lookup in IH. rewrite IH by lia. f_equal.
  replace (64 * S (S k))%nat with (64 + 64 * S k)%nat by lia. rewrite cnt_add, Hw. rewrite (cnt_ext (fun j => get_bit (w :: ws) (64 + j)) (get_bit ws)) by (intros; apply Hs). lia.
Qed.
Lemma length_running acc ws : length (running acc ws) = length ws.
Proof. revert acc. induction ws as [|w ws IH]; intros acc; cbn; [done|]. by rewrite IH. Qed.
Lemma cum_lookup ws k : (k <= length ws)%nat -> cum_ones (rank_new ws) !! k = Some (cnt (get_bit ws) (64 * k)).
Proof. intros H. destruct k as [|k]; [done|]. apply (running_lookup ws k 0). lia. Qed.
Lemma cum_length ws : length (cum_ones (rank_new ws)) = S (length ws).
Proof. cbn. by rewrite length_running. Qed.

(** [ones] is the number of set bits below a position. *)
Lemma ones_cnt ws i : ones (rank_new ws) i = cnt (get_bit ws) i.
Proof.
  unfold ones. cbv zeta. change (words (rank_new ws)) with ws. destruct (Nat.leb_spec (length ws) (i / 64)) as [Hge|Hlt].
  - rewrite list.last_lookup, cum_length. cbn [Nat.pred]. rewrite cum_lookup by lia. cbn [default].
    assert (64 * length ws <= i)%nat as Hi by (pose proof (Nat.div_mod_eq i 64); lia). replace i with (64 * length ws + (i - 64 * length ws))%nat by lia.
    rewrite cnt_add, (cnt_zero (fun j => get_bit ws (64 * length ws + j))), Nat.add_0_r; [done|]. intros j _. apply get_bit_beyond. lia.
  - destruct (lookup_lt_is_Some_2 ws _ Hlt) as [w Ew]. rewrite Ew, cum_lookup by lia. cbn [default].
    pose proof (Nat.mod_upper_bound i 64 ltac:(lia)) as Hb. transitivity (cnt (get_bit ws) (64 * (i / 64) + i mod 64)); [|by rewrite <- Nat.div_mod_eq]. rewrite cnt_add. f_equal. rewrite (word_cnt ws _ w) by (done || lia).
    destruct (Nat.eqb_spec (i mod 64) 0) as [->|_]; [done|]. apply count_ones_mask. lia.
Qed.

Lemma partition_point_at {A} (p : A -> bool) l n : (forall k x, (k < n)%nat -> l !! k = Some x -> p x = true) -> (n <= length l)%nat ->
  (forall x, l !! n = Some x -> p x = false) -> partition_point p l = n.
Proof.
  revert n. induction l as [|y l IH]; intros n Hlo Hn Hhi; cbn [length partition_point] in *; [lia|]. destruct n as [|n]; [by rewrite (Hhi y eq_refl)|].
  rewrite (Hlo 0%nat y ltac:(lia) eq_refl). f_equal. apply IH; [|lia|exact Hhi]. intros k x Hk Ex. apply (Hlo (S k) x); [lia|done].
Qed.

Lemma scan_word_at n bit w need j : (j < n)%nat -> wbit w (bit + j) = true -> cnt (fun i => wbit w (bit + i)) j = need ->
  scan_word n bit w need = Some (bit + j)%nat.
Proof.
  revert bit need j. induction n as [|n IH]; intros bit need j Hj Hb Hc; [lia|]. cbn [scan_word].
  assert ((Z.land (Z.shiftr w (Z.of_nat bit)) 1 =? 1) = wbit w (bit + 0)) as ->.
  { rewrite Nat.add_0_r. change 1 with (Z.ones 1) at 1. rewrite Z.land_ones by lia. change (2 ^ 1) with 2. rewrite Zmod_odd. unfold wbit.
    rewrite <- (Z.add_0_l (Z.of_nat bit)) at 2. rewrite <- Z.shiftr_spec, Z.bit0_odd by lia. by destruct (Z.odd _). }
  destruct j as [|j].
  - rewrite Hb. cbn in Hc. subst need. f_equal. lia.
  - change (S j) with (1 + j)%nat in Hc. rewrite cnt_add in Hc. cbn [cnt] in Hc.
    assert (scan_word n (S bit) w (cnt (fun i => wbit w (S bit + i)) j) = Some (S bit + j)%nat) as Hs by (apply IH; [lia|by rewrite <- Nat.add_succ_comm in Hb|done]).
    rewrite (cnt_ext (fun i => wbit w (bit + (1 + i))) (fun i => wbit w (S bit + i))) in Hc by (intros; f_equal; lia).
    set (c := cnt (fun i => wbit w (S bit + i)) j) in *.
    destruct (wbit w (bit + 0)); cbn [Nat.b2n] in Hc; [replace need with (S c) by lia|replace need with c by lia]; rewrite Hs; f_equal; lia.
Qed.

(** [select_one] is the position of the set bit of a given rank. *)
Lemma select_cnt ws i p : get_bit ws p = true -> cnt (get_bit ws) p = i -> select_one (rank_new ws) i = p.
Proof.
  intros Hp Hi. set (k := (p / 64)%nat). set (j := (p mod 64)%nat). assert (j < 64)%nat as Hj by (apply Nat.mod_upper_bound; lia).
  assert (p = 64 * k + j)%nat as Ep by apply Nat.div_mod_eq. assert (k < length ws)%nat as Hk. { destruct (Nat.lt_ge_cases k (length ws)); [done|]. rewrite get_bit_beyond in Hp by lia. done. }
  destruct (lookup_lt_is_Some_2 ws k Hk) as [w Ew]. rewrite Ep, get_bit_word, Ew in Hp by done. rewrite Ep, cnt_add, (word_cnt ws k w) in Hi by (done || lia).
  assert (cnt (get_bit ws) (64 * S k) = cnt (get_bit ws) (64 * k) + cnt (wbit w) 64)%nat as Hnext by (replace (64 * S k)%nat with (64 * k + 64)%nat by lia; rewrite cnt_add, (word_cnt ws k w); done).
  pose proof (cnt_lt (wbit w) j 64 Hp Hj) as Hlt.
  unfold select_one. cbv zeta. change (words (rank_new ws)) with ws. rewrite (partition_point_at _ _ (S k)).
  - cbn [Nat.eqb orb]. rewrite (proj2 (Nat.ltb_ge _ _)) by lia. replace (S k - 1)%nat with k by lia. rewrite cum_lookup, Ew by lia. cbn [default].
    rewrite (scan_word_at 64 0 w _ j); [lia|done|done|]. rewrite (cnt_ext _ (wbit w)) by done. cbn [id]. lia.
  - intros k' x Hk' Ex. rewrite cum_lookup in Ex by lia. apply (inj Some) in Ex as <-. apply Nat.leb_le. pose proof (cnt_mono (get_bit ws) (64 * k') (64 * k) ltac:(lia)). clearbody k j. lia.
  - rewrite cum_length. lia.
  - intros x Ex. rewrite cum_lookup in Ex by lia. apply (inj Some) in Ex as <-. apply Nat.leb_gt. lia.
Qed.
Lemma select_absent ws i : (cnt (get_bit ws) (64 * length ws) <= i)%nat -> select_one (rank_new ws) i = (64 * length ws)%nat.
Proof.
  intros Hi. unfold select_one. cbv zeta. change (words (rank_new ws)) with ws. rewrite (partition_point_at _ _ (S (length ws))).
  - rewrite (proj2 (Nat.ltb_lt _ _)) by lia. rewrite orb_true_r. lia.
  - intros k x Hk Ex. rewrite cum_lookup in Ex by lia. apply (inj Some) in Ex as <-. apply Nat.leb_le. pose proof (cnt_mono (get_bit ws) (64 * k) (64 * length ws) ltac:(lia)). lia.
  - by rewrite cum_length.
  - intros x Ex. apply lookup_lt_Some in Ex. rewrite cum_length in Ex. lia.
Qed.

(** the rank and select index agrees with counting bits one by one: [ones i] is the number
    of set bits below [i] and never more than [i], and [select_one i] is the position of the
    set bit with [i] set bits below it, or the bit length of the map when there is none. *)
Theorem rank_select_correct ws i :
  ones (rank_new ws) i = cnt (get_bit ws) i /\ (ones (rank_new ws) i <= i)%nat /\
  (forall p, get_bit ws p = true -> cnt (get_bit ws) p = i -> select_one (rank_new ws) i = p) /\
  ((forall p, get_bit ws p = true -> cnt (get_bit ws) p <> i) -> select_one (rank_new ws) i = (64 * length ws)%nat).
Proof.
  rewrite ones_cnt. split; [done|]. split; [apply cnt_le|]. split; [intros p; apply select_cnt|]. intros Hno. apply select_absent.
  destruct (Nat.le_gt_cases (cnt (get_bit ws) (64 * length ws)) i) as [|Hgt]; [done|]. destruct (cnt_hits (get_bit ws) i _ Hgt) as (p & _ & Hp & Hc). by destruct (Hno p Hp).
Qed.

(** ** The walk *)

Section Walk.
Context (s : SuccinctSet).
Abbreviation B := (get_bit (label_bitmap s)).
Abbreviation rk := (rank_new (label_bitmap s)).
Abbreviation labels_len := (length (s_labels s)).

(** The bits of the map are the nodes in order, each as a [0] for every edge that leaves it
    and a closing [1]: the edge at position [p] leaves the node that the set bits below [p]
    count, and enters the node that the clear bits up to [p] count. *)
Definition source (p : nat) : nat := cnt B p.
Definition target (p : nat) : nat := (p + 1 - cnt B p)%nat.

(** The keys of the nodes: the labels on the way from the root. *)
Inductive node_key : nat -> bytes -> Prop :=
| key_root : node_key 0 []
| key_edge p key l : node_key (source p) key -> B p = false -> s_labels s !! (p - source p)%nat = Some l -> node_key (target p) (key ++ [l]).

Lemma target_pos p : (0 < target p)%nat.
Proof. unfold target. pose proof (cnt_le B p). lia. Qed.
Lemma target_inj p q : B p = false -> B q = false -> target p = target q -> p = q.
Proof.
  assert (forall p q, B p = false -> (p < q)%nat -> (target p < target q)%nat) as Hlt.
  { intros p' q' Hp Hq. unfold target. replace q' with (S p' + (q' - S p'))%nat by lia. rewrite cnt_add. cbn [cnt]. rewrite Hp. cbn [Nat.b2n].
    pose proof (cnt_le B p'). pose proof (cnt_le (fun j => B (S p' + j)) (q' - S p')). lia. }
  intros Hp Hq E. destruct (Nat.lt_trichotomy p q) as [H|[H|H]]; [|done|]; [apply Hlt in H|apply Hlt in H]; lia || done.
Qed.
Lemma node_key_unique n key key' : node_key n key -> node_key n key' -> key = key'.
Proof.
  intros H. revert key'. induction H as [|p key l Hk IH Hp Hl]; intros key' H'.
  - inversion H' as [E|q key1 l1 _ _ _ E]; [done|]. pose proof (target_pos q). lia.
  - inversion H' as [E|q key1 l1 Hk1 Hq Hl1 E]; [pose proof (target_pos p); lia|]. apply target_inj in E; [|done..]. subst q. f_equal; [by apply IH|congruence].
Qed.

(** Where the edges of a node start. *)
Definition start (n : nat) : nat := match n with O => 0 | S n => select_one rk n + 1 end.
Lemma start_cnt n e : B e = true -> (start n <= e)%nat -> cnt B (start n) = n /\ forall p, B p = false -> source p = n -> (start n <= p)%nat.
Proof.
  intros He Hle. destruct n as [|n]; [split; [done|intros; cbn; lia]|]. cbn [start] in *.
  destruct (Nat.le_gt_cases (cnt B (64 * length (label_bitmap s))) n) as [Habs|Hin].
  - rewrite select_absent in Hle by done. rewrite get_bit_beyond in He by lia. done.
  - destruct (cnt_hits B n _ Hin) as (q & _ & Hq & Hc). rewrite (select_cnt _ n q Hq Hc) in *. rewrite Nat.add_1_r. cbn [cnt]. rewrite Hq, Hc. cbn [Nat.b2n]. split; [lia|].
    intros p Hp Hs. unfold source in Hs. destruct (Nat.le_gt_cases p q) as [H|H]; [|lia]. pose proof (cnt_mono B p q H). lia.
Qed.

Definition child_frame (key : bytes) (p : nat) : Frame := mk_frame (target p) (start (target p)) (key ++ [default 0 (s_labels s !! (p - source p)%nat)]).

(** The edges walked when the walk of a node returns. *)
Lemma walk_edges_ret fuel node key stack stack' : forall bm, walk_edges fuel s rk node bm key stack = Ret stack' ->
  exists n, B (bm + n) = true /\ (forall i, (i < n)%nat -> B (bm + i) = false /\ (node <= bm + i)%nat /\ is_Some (s_labels s !! (bm + i - node)%nat)) /\
    stack' = reverse ((fun p => mk_frame (target p) (start (target p)) (key ++ [default 0 (s_labels s !! (p - node)%nat)])) <$> seq bm n) ++ stack.
Proof.
  revert stack. induction fuel as [|fuel IH]; intros stack bm; cbn [walk_edges]; [done|].
  destruct (B bm) eqn:Eb. { intros [= <-]. exists 0%nat. rewrite Nat.add_0_r. split; [done|]. split; [lia|done]. }
  destruct (Nat.ltb_spec bm node) as [|Hn]; [done|]. destruct (s_labels s !! (bm - node)%nat) as [l|] eqn:El; [|done].
  assert (zeros rk (bm + 1) = target bm) as ->. { unfold zeros, target. rewrite ones_cnt, Nat.add_1_r. cbn [cnt]. rewrite Eb. cbn [Nat.b2n]. lia. }
  pose proof (target_pos bm) as Hpos. destruct (Nat.eqb_spec (target bm) 0) as [|_]; [lia|]. intros H. apply IH in H as (n & He & Hz & ->). exists (S n).
  split; [by rewrite <- He; f_equal; lia|]. split.
  - intros [|i] Hi; [rewrite Nat.add_0_r; rewrite El; eauto|]. replace (bm + S i)%nat with (bm + 1 + i)%nat by lia. apply Hz. lia.
  - cbn [seq fmap list_fmap]. rewrite reverse_cons, <- app_assoc. rewrite Nat.add_1_r. f_equal. cbn [app]. f_equal. rewrite El. f_equal. destruct (target bm) as [|k]; [lia|]. cbn. by rewrite Nat.sub_0_r.
Qed.
Lemma walk_edges_runs fuel node key stack bm : (labels_len < fuel + (bm - node))%nat -> (0 < fuel)%nat ->
  walk_edges fuel s rk node bm key stack <> Exhausted /\ walk_edges fuel s rk node bm key stack <> Panic.
Proof.
  revert stack bm. induction fuel as [|fuel IH]; intros stack bm Hf Hp; [lia|]. cbn [walk_edges]. destruct (B bm); [done|]. destruct (Nat.ltb_spec bm node); [done|].
  destruct (s_labels s !! (bm - node)%nat) as [l|] eqn:El; [|done]. apply lookup_lt_Some in El. destruct (_ =? 0)%nat; [done|]. apply IH; lia.
Qed.

Lemma walk_children f stack stack' fuel : bm_idx f = start (node_id f) -> walk_edges fuel s rk (node_id f) (bm_idx f) (f_key f) stack = Ret stack' ->
  exists ps, stack' = reverse (child_frame (f_key f) <$> ps) ++ stack /\ NoDup ps /\ (forall p, p ∈ ps <-> B p = false /\ source p = node_id f) /\
    forall p, p ∈ ps -> is_Some (s_labels s !! (p - source p)%nat).
Proof.
  intros Hf H. apply walk_edges_ret in H as (n & He & Hz & ->). rewrite Hf in *. set (node := node_id f) in *. set (a := start node) in *.
  destruct (start_cnt node (a + n) He ltac:(lia)) as [Ha Hge]. fold a in Ha, Hge.
  assert (forall i, (i <= n)%nat -> cnt B (a + i) = node) as Hc.
  { intros i Hi. rewrite cnt_add, (cnt_zero (fun j => B (a + j))); [lia|]. intros j Hj. apply Hz. lia. }
  assert (forall p, p ∈ seq a n <-> B p = false /\ source p = node) as Hin.
  { intros p. rewrite elem_of_seq. split.
    - intros Hp. replace p with (a + (p - a))%nat by lia. split; [apply Hz; lia|apply Hc; lia].
    - intros [Hp Hs]. pose proof (Hge p Hp Hs). split; [done|]. destruct (Nat.lt_trichotomy p (a + n)) as [|[->|Hgt]]; [done|congruence|].
      pose proof (cnt_lt B (a + n) p He Hgt) as Hlt. rewrite Hc in Hlt by done. unfold source in Hs. lia. }
  exists (seq a n). split; [|split; [apply NoDup_seq|split; [done|]]].
  - f_equal. f_equal. apply list_fmap_ext. intros k p Hk. unfold child_frame. apply list_elem_of_lookup_2, Hin in Hk as [_ ->]. done.
  - intros p Hp. pose proof (proj1 (Hin p) Hp) as [_ ->]. apply elem_of_seq in Hp. replace p with (a + (p - a))%nat by lia. apply Hz. lia.
Qed.

(** The state of the loop: the nodes popped so far, the frames that wait and the keys found. *)
Record walk_inv (popped : list nat) (stack : list Frame) (result : list bytes) : Prop := {
  wi_nodup : NoDup (popped ++ (node_id <$> stack));
  wi_frames : Forall (fun f => bm_idx f = start (node_id f) /\ node_key (node_id f) (f_key f)) stack;
  wi_parent : forall n, n ∈ popped ++ (node_id <$> stack) -> (n <= labels_len)%nat /\ (n = 0%nat \/ exists p, B p = false /\ source p ∈ popped /\ n = target p);
  wi_root : 0%nat ∈ popped ++ (node_id <$> stack);
  wi_closed : forall p, B p = false -> source p ∈ popped -> target p ∈ popped ++ (node_id <$> stack);
  wi_result : forall key, key ∈ result <-> exists n, n ∈ popped /\ get_bit (leaves s) n = true /\ node_key n key;
}.

Lemma walk_inv_bound popped f stack result : walk_inv popped (f :: stack) result -> (length popped <= labels_len)%nat.
Proof.
  intros [Hnd _ Hpar _ _ _]. assert (popped ++ (node_id <$> f :: stack) ⊆+ seq 0 (S labels_len)) as Hsub.
  { apply NoDup_submseteq; [done|]. intros n Hn. apply Hpar in Hn as [Hn _]. apply elem_of_seq. lia. }
  apply submseteq_length in Hsub. rewrite length_app, length_seq in Hsub. cbn in Hsub. lia.
Qed.

Lemma walk_inv_pop popped f stack result stack' fuel : walk_inv popped (f :: stack) result ->
  walk_edges fuel s rk (node_id f) (bm_idx f) (f_key f) stack = Ret stack' ->
  walk_inv (node_id f :: popped) stack' (if get_bit (leaves s) (node_id f) then result ++ [f_key f] else result).
Proof.
  intros [Hnd Hfr Hpar Hroot Hcl Hres] H. apply Forall_cons_iff in Hfr as [[Hbm Hkey] Hfr].
  apply walk_children in H as (ps & -> & Hps & Hin & Hlab); [|done]. set (node := node_id f) in *.
  assert (node_id <$> reverse (child_frame (f_key f) <$> ps) ++ stack ≡ₚ (target <$> ps) ++ (node_id <$> stack)) as Hids.
  { rewrite fmap_app, fmap_reverse, reverse_Permutation, <- list_fmap_compose. done. }
  assert (forall n, n ∈ node :: popped ++ (node_id <$> stack) <-> n ∈ popped ++ (node_id <$> f :: stack)) as Hsame.
  { intros n. cbn [fmap list_fmap]. fold node. rewrite elem_of_cons, !elem_of_app, elem_of_cons. tauto. }
  assert (NoDup (node :: popped ++ (node_id <$> stack))) as Hnd'. { cbn [fmap list_fmap] in Hnd. by rewrite (Permutation_middle popped (node_id <$> stack) node). }
  assert (forall p, p ∈ ps -> target p ∉ node :: popped ++ (node_id <$> stack)) as Hnew.
  { intros p [Hp Hs]%Hin Ht. apply Hsame, Hpar in Ht as [_ [Hz|(q & Hq & Hsq & Et)]]; [pose proof (target_pos p); lia|]. apply target_inj in Et; [|done..]. subst q.
    apply list.NoDup_cons in Hnd' as [Hnot _]. apply Hnot. rewrite Hs in Hsq. apply elem_of_app. by left. }
  assert (forall n, n ∈ (node :: popped) ++ (node_id <$> reverse (child_frame (f_key f) <$> ps) ++ stack) <-> n ∈ node :: popped ++ (node_id <$> stack) \/ n ∈ target <$> ps) as Hnow.
  { intros n. rewrite Hids. cbn [app]. rewrite !elem_of_cons, !elem_of_app. tauto. }
  constructor.
  - rewrite Hids. cbn [app]. rewrite (Permutation_app_comm (target <$> ps)), app_assoc, app_comm_cons. apply list.NoDup_app. split; [done|]. split.
    + intros n Hn (p & -> & Hp)%list_elem_of_fmap. by apply (Hnew p Hp).
    + apply NoDup_fmap_2_strong; [|done]. intros p q [Hp _]%Hin [Hq _]%Hin. by apply target_inj.
  - apply Forall_app. split; [|done]. apply Forall_reverse, Forall_fmap, list.Forall_forall. intros p Hp. cbn. split; [done|]. destruct (Hlab p Hp) as [l El]. rewrite El. apply Hin in Hp as [Hp Hs].
    apply key_edge; [by rewrite Hs|done|done].
  - intros n [Hn|Hn]%Hnow.
    + apply Hsame, Hpar in Hn as [Hl Hp]. split; [done|]. destruct Hp as [?|(p & ? & ? & ?)]; [by left|right]. exists p. split; [done|]. split; [by right|done].
    + apply list_elem_of_fmap in Hn as (p & -> & Hp). destruct (Hlab p Hp) as [l El]. apply lookup_lt_Some in El. apply Hin in Hp as [Hp Hs]. split; [unfold target, source in *; lia|].
      right. exists p. split; [done|]. split; [rewrite Hs; left|done].
  - apply Hnow. left. by apply Hsame.
  - intros p Hp Hs. apply Hnow. apply elem_of_cons in Hs as [Hs|Hs]; [right|left; by apply Hsame, Hcl].
    apply list_elem_of_fmap. exists p. split; [done|]. by apply Hin.
  - intros key. destruct (get_bit (leaves s) node) eqn:El.
    + rewrite elem_of_app, list_elem_of_singleton, Hres. split.
      * intros [(n & Hn & Hl & Hk)| ->]; [exists n; split; [by right|done]|exists node; split; [left|done]].
      * intros (n & Hn & Hl & Hk). apply elem_of_cons in Hn as [->|Hn]; [right; by eapply node_key_unique|left; by exists n].
    + rewrite Hres. split; intros (n & Hn & Hl & Hk); exists n; (split; [|done]); [by right|]. apply elem_of_cons in Hn as [->|]; [congruence|done].
Qed.

Lemma keys_loop_spec fuel : forall popped stack result, walk_inv popped stack result -> (labels_len < length popped + fuel)%nat ->
  keys_loop fuel s rk stack result <> Exhausted /\ keys_loop fuel s rk stack result <> Panic /\
  forall ks, keys_loop fuel s rk stack result = Ret ks -> exists popped', walk_inv popped' [] ks.
Proof.
  induction fuel as [|fuel IH]; intros popped [|f stack] result Hinv Hf; cbn [keys_loop]; try (split; [done|]; split; [done|]; intros ks [= <-]; by exists popped).
  - apply walk_inv_bound in Hinv. lia.
  - destruct (walk_edges_runs (S labels_len) (node_id f) (f_key f) stack (bm_idx f)) as [He Hp]; [lia..|].
    destruct (walk_edges _ _ _ _ _ _ _) as [stack'| | |] eqn:E; [|done..]. apply (IH (node_id f :: popped)); [by eapply walk_inv_pop|cbn; lia].
Qed.
End Walk.

Lemma keys_total s :
  keys s <> Exhausted /\ keys s <> Panic /\
  forall ks, keys s = Ret ks -> forall key, key ∈ ks <-> exists n, get_bit (leaves s) n = true /\ node_key s n key.
Proof.
  assert (walk_inv s [] [mk_frame 0 0 []] []) as Hinit.
  { constructor; cbn.
    - apply list.NoDup_singleton.
    - repeat constructor.
    - intros n ->%list_elem_of_singleton. split; [lia|by left].
    - by left.
    - intros p _ []%not_elem_of_nil.
    - intros key. split; [intros []%not_elem_of_nil|intros (n & []%not_elem_of_nil & _)]. }
  destruct (keys_loop_spec s (S (length (s_labels s))) [] _ _ Hinit ltac:(cbn; lia)) as (He & Hp & Hks). split; [done|]. split; [done|].
  intros ks E. destruct (Hks ks E) as (popped & [_ _ _ Hroot Hcl Hres]). rewrite app_nil_r in Hroot.
  intros key. rewrite Hres. split; intros (n & H); [exists n; tauto|]. exists n. split; [|done]. destruct H as [_ Hk]. clear -Hroot Hcl Hk. induction Hk; [done|]. rewrite <- (app_nil_r popped). by apply Hcl.
Qed.

(** recovering the keys of a domain set always ends and never panics, whatever the three
    arrays hold: each node is visited at most once, so one visit per label and one for the
    root suffice.  When it succeeds, the keys found are exactly the label strings on the
    paths from the root to the nodes marked as leaves. *)
Theorem keys_correct s :
  keys s <> Exhausted /\ keys s <> Panic /\
  forall ks, keys s = Ret ks -> forall key, key ∈ ks <-> exists n, get_bit (leaves s) n = true /\ node_key s n key.
Proof. apply keys_total. Qed.

(** The set that holds the one key [ab]. *)
Definition sample_set : SuccinctSet := mk_set [4] [26] (lit "ab").
Lemma sample_set_keys : keys sample_set = Ret [lit "ab"].
Proof. vm_compute. reflexivity. Qed.
Lemma keys_correct_witness : exists n, get_bit (leaves sample_set) n = true /\ node_key sample_set n (lit "ab").
Proof. apply (proj2 (proj2 (keys_correct sample_set)) [lit "ab"] sample_set_keys (lit "ab")). left. Defined.

Lemma rank_select_correct_witness : get_bit [26] 3 = true /\ select_one (rank_new [26]) 1 = 3%nat.
Proof. split; [reflexivity|]. apply (proj1 (proj2 (proj2 (rank_select_correct [26] 1))) 3%nat); reflexivity. Defined.
End srs.
