(* ===== verification/SrsRange.v ===== *)
(** [core/src/rules/srs.rs], address ranges as lists of prefixes. *)

From stdpp Require Import base list numbers.
From S2P Require Import Prelude NetAddr RuleTrie SrsSet.

Module range.
Import net rules srs.

(** [leading_zeros] of a [w]-bit integer. *)
Definition leading_zeros (w x : Z) : Z := if x =? 0 then w else w - 1 - Z.log2 x.
(** [(1 << n) - 1], the all-ones word when [n] is the width. *)
Definition low_mask (w n : Z) : Z := if w <=? n then 2 ^ w - 1 else Z.shiftl 1 n - 1.

(** The loop of [append_range_u32] and [append_range_u128], at the width [w]: the prefixes
    appended, as the first address and the length of each.  [None] when the fuel runs out. *)
Fixpoint append_range (w : Z) (fuel : nat) (a b : Z) : option (list (Z * Z)) :=
  match fuel with
  | O => None
  | S fuel =>
      let common := Z.min (leading_zeros w (Z.lxor a b)) w in
      let host_mask := low_mask w (w - common) in
      if (Z.land a host_mask =? 0) && (Z.land b host_mask =? host_mask) then Some [(a, common)]
      else
        let split_mask := low_mask w (w - (common + 1)) in
        let a_high := Z.lor a split_mask in
        let! lower := append_range w fuel a a_high in
        let! rest := append_range w fuel (wrap w (a_high + 1)) b in
        Some (lower ++ rest)
  end.
(** Enough for every pair of bounds: see [append_range_cyclic]. *)
Definition range_fuel (w : Z) : nat := Z.to_nat (2 * w + 3).

Definition append_range_u32 (a b : Z) : option (list IpCidr) :=
  let! l := append_range 32 (range_fuel 32) a b in Some ((fun c => mk_cidr (V4 (to_be_bytes 4 c.1)) c.2) <$> l).
Definition append_range_u128 (a b : Z) : option (list IpCidr) :=
  let! l := append_range 128 (range_fuel 128) a b in Some ((fun c => mk_cidr (V6 (to_be_bytes 16 c.1)) c.2) <$> l).

Definition append_range_prefixes (from to : IpAddr) (out : list IpCidr) : outcome (list IpCidr) :=
  match from, to with
  | V4 _, V4 _ => match append_range_u32 (ip_value from) (ip_value to) with Some l => Ret (out ++ l) | None => Exhausted end
  | V6 _, V6 _ => match append_range_u128 (ip_value from) (ip_value to) with Some l => Ret (out ++ l) | None => Exhausted end
  | _, _ => Fail (Malformed "ip set: mixed-family range")
  end.

(** ** Host bits and masks *)

Definition host_bits (w a b : Z) : Z := w - Z.min (leading_zeros w (Z.lxor a b)) w.

Lemma low_mask_ones w n : 0 <= n <= w -> low_mask w n = 2 ^ n - 1.
Proof. intros H. unfold low_mask. destruct (Z.leb_spec w n); [by replace n with w by lia|]. by rewrite Z.shiftl_1_l. Qed.

Lemma div_lxor a b k : 0 <= k -> a / 2 ^ k = b / 2 ^ k <-> Z.lxor a b / 2 ^ k = 0.
Proof. intros Hk. rewrite <- !Z.shiftr_div_pow2, Z.shiftr_lxor by done. rewrite Z.lxor_eq_0_iff. done. Qed.

(** [host_bits] is the least number of low bits outside of which the bounds agree. *)
Lemma host_bits_spec w a b : 0 <= w -> fits w a -> fits w b ->
  0 <= host_bits w a b <= w /\ a / 2 ^ host_bits w a b = b / 2 ^ host_bits w a b /\ forall k, 0 <= k -> a / 2 ^ k = b / 2 ^ k -> host_bits w a b <= k.
Proof.
  unfold fits. intros Hw Ha Hb. unfold host_bits, leading_zeros. set (x := Z.lxor a b). assert (0 <= x < 2 ^ w) as Hx.
  { assert (0 <= x) as Hx0 by (apply Z.lxor_nonneg; lia). split; [done|]. assert (x / 2 ^ w = 0) as E by (apply div_lxor; [done|]; rewrite !Z.div_small; lia). apply Z.div_small_iff in E; lia. }
  destruct (Z.eqb_spec x 0) as [E|Hn].
  - rewrite Z.min_id, Z.sub_diag. split; [lia|]. split; [apply div_lxor; [lia|]; fold x; by rewrite E|lia].
  - assert (Z.log2 x < w) as Hl by (apply Z.log2_lt_pow2; lia). pose proof (Z.log2_nonneg x). rewrite Z.min_l by lia. replace (w - (w - 1 - Z.log2 x)) with (Z.log2 x + 1) by lia.
    split; [lia|]. split.
    + apply div_lxor; [lia|]. fold x. apply Z.div_small. split; [lia|]. apply Z.log2_lt_pow2; lia.
    + intros k Hk E. apply div_lxor in E; [|done]. fold x in E. apply Z.div_small_iff in E; [|lia]. assert (Z.log2 x < k) by (apply Z.log2_lt_pow2; lia). lia.
Qed.

Lemma lor_low a k : 0 <= k -> Z.lor a (2 ^ k - 1) = a / 2 ^ k * 2 ^ k + (2 ^ k - 1).
Proof.
  intros Hk. rewrite <- lor_disjoint_add by lia. replace (2 ^ k - 1) with (Z.ones k) by (rewrite Z.ones_equiv; lia). apply Z.bits_inj'. intros i Hi. rewrite !Z.lor_spec.
  destruct (Z.lt_ge_cases i k) as [Hlt|Hge]; [by rewrite Z.ones_spec_low, !orb_true_r by lia|]. f_equal. rewrite Z.mul_pow2_bits, Z.div_pow2_bits by lia. f_equal. lia.
Qed.

(** ** Tilings *)

(** The prefixes follow one another, each on its own boundary, from [a] up to [e] (excluded,
    and beyond [2^w] when the range wraps around). *)
Fixpoint tiles (w a : Z) (l : list (Z * Z)) (e : Z) : Prop :=
  match l with
  | [] => a = e
  | (x, p) :: l => 0 <= p <= w /\ x = a mod 2 ^ w /\ x mod 2 ^ (w - p) = 0 /\ tiles w (a + 2 ^ (w - p)) l e
  end.
Lemma tiles_app w a l m l' e : tiles w a l m -> tiles w m l' e -> tiles w a (l ++ l') e.
Proof. revert a. induction l as [|[x p] l IH]; intros a; cbn; [by intros ->|]. intros (Hp & Hx & Hm & Ht) Ht'. eauto. Qed.
Lemma tiles_shift w a l e : 0 <= w -> tiles w a l e -> tiles w (a + 2 ^ w) l (e + 2 ^ w).
Proof.
  intros Hw. revert a. induction l as [|[x p] l IH]; intros a; cbn; [by intros ->|]. intros (Hp & Hx & Hm & Ht). split; [done|]. split; [rewrite Hx; symmetry; rewrite <- (Z.mul_1_l (2 ^ w)) at 1; apply Z_mod_plus_full|].
  split; [done|]. replace (a + 2 ^ w + 2 ^ (w - p)) with (a + 2 ^ (w - p) + 2 ^ w) by lia. by apply IH.
Qed.
Lemma tiles_le w a l e : 0 <= w -> tiles w a l e -> a <= e.
Proof. intros Hw. revert a. induction l as [|[x p] l IH]; intros a; cbn; [lia|]. intros (Hp & _ & _ & Ht). apply IH in Ht. pose proof (Z.pow_pos_nonneg 2 (w - p)). lia. Qed.

(** One round of the loop. *)
Lemma append_range_step w fuel a b (h := host_bits w a b) : 0 <= w -> fits w a -> fits w b ->
  append_range w (S fuel) a b =
    if (a mod 2 ^ h =? 0) && (b mod 2 ^ h =? 2 ^ h - 1) then Some [(a, w - h)]
    else let! lower := append_range w fuel a (Z.lor a (low_mask w (h - 1))) in
         let! rest := append_range w fuel (wrap w (Z.lor a (low_mask w (h - 1)) + 1)) b in Some (lower ++ rest).
Proof.
  intros Hw Ha Hb. destruct (host_bits_spec w a b Hw Ha Hb) as [Hh _]. fold h in Hh. cbn [append_range]. cbv zeta. unfold host_bits in h.
  set (common := Z.min (leading_zeros w (Z.lxor a b)) w) in *. replace (w - (common + 1)) with (h - 1) by lia. fold h. rewrite low_mask_ones by lia. rewrite !land_mask by lia.
  by replace (w - h) with common by lia.
Qed.

(** Where the loop splits: [a] and [b] fall into the two halves of their common block. *)
Lemma split_point w a b (h := host_bits w a b) (M := 2 ^ (h - 1)) : 0 <= w -> fits w a -> fits w b -> 1 <= h ->
  Z.lor a (low_mask w (h - 1)) = a / M * M + (M - 1) /\ a / M / 2 = b / M / 2 /\ a / M <> b / M /\ 0 < M /\ 2 ^ h = 2 * M.
Proof.
  intros Hw Ha Hb Hh. destruct (host_bits_spec w a b Hw Ha Hb) as (Hr & Heq & Hleast). fold h in Hr, Heq, Hleast.
  assert (2 ^ h = 2 * M) as HM by (unfold M; rewrite <- Z.pow_succ_r by lia; f_equal; lia). assert (0 < M) as Hpos by (apply Z.pow_pos_nonneg; lia).
  split; [rewrite low_mask_ones by lia; apply lor_low; lia|]. split; [|split; [|done]].
  - rewrite !Z.div_div by lia. by rewrite (Z.mul_comm M), <- HM.
  - intros E. apply Hleast in E; lia.
Qed.
Lemma host_bits_le w a b k : 0 <= w -> fits w a -> fits w b -> 0 <= k -> a / 2 ^ k = b / 2 ^ k -> host_bits w a b <= k.
Proof. intros Hw Ha Hb. by apply host_bits_spec. Qed.

Lemma block_bounds a M : 0 < M -> a / M * M <= a <= a / M * M + (M - 1).
Proof. intros HM. pose proof (Z.div_mod a M ltac:(lia)) as D. pose proof (Z.mod_pos_bound a M HM) as B. generalize dependent (a mod M). generalize (a / M). intros q r D B. lia. Qed.
Lemma block_top a M : 0 < M -> (a / M * M + (M - 1)) / M = a / M.
Proof. intros HM. rewrite Z.div_add_l, (Z.div_small (M - 1)) by lia. apply Z.add_0_r. Qed.
Lemma halves_ordered qa qb : qa / 2 = qb / 2 -> qa <> qb -> qa <= qb -> qb = qa + 1.
Proof. lia. Qed.
Lemma halves_reversed qa qb : qa / 2 = qb / 2 -> qa <> qb -> qb <= qa -> qa = qb / 2 * 2 + 1.
Proof. lia. Qed.

Lemma split_ordered a b M (m := a / M * M + (M - 1)) : 0 < M -> a / M / 2 = b / M / 2 -> a / M <> b / M -> a <= b ->
  a <= m /\ m + 1 <= b /\ m / M = a / M /\ (m + 1) / M = b / M.
Proof.
  intros HM Hq Hne Hab. pose proof (block_bounds a M HM) as Ba. pose proof (block_bounds b M HM) as Bb. pose proof (halves_ordered _ _ Hq Hne (Z.div_le_mono a b M HM Hab)) as Hn.
  assert (m + 1 = b / M * M) as Hm by (rewrite Hn; unfold m; ring). split; [apply Ba|]. split; [rewrite Hm; apply Bb|]. split; [by apply block_top|]. rewrite Hm. apply Z.div_mul. lia.
Qed.
Lemma split_reversed a b M (m := a / M * M + (M - 1)) : 0 < M -> a / M / 2 = b / M / 2 -> a / M <> b / M -> b < a ->
  a <= m /\ m / M = a / M /\ m + 1 = (b / (2 * M) + 1) * (2 * M).
Proof.
  intros HM Hq Hne Hab. pose proof (block_bounds a M HM) as Ba. pose proof (halves_reversed _ _ Hq Hne (Z.div_le_mono b a M HM ltac:(lia))) as Hn.
  split; [apply Ba|]. split; [by apply block_top|]. rewrite (Z.mul_comm 2 M), <- Z.div_div by lia. unfold m. rewrite Hn. ring.
Qed.

(** A block beyond that of [b] shares fewer leading bits with it. *)
Lemma host_bits_grow w x b h : 0 <= w -> fits w x -> fits w b -> 0 <= h -> x = (b / 2 ^ h + 1) * 2 ^ h -> h < host_bits w x b.
Proof.
  intros Hw Hx Hb Hh E. destruct (host_bits_spec w x b Hw Hx Hb) as (Hr & Heq & _). destruct (Z.le_gt_cases (host_bits w x b) h) as [Hle|]; [|done]. exfalso. set (k := host_bits w x b) in *.
  assert (x / 2 ^ h = b / 2 ^ h) as H. { replace h with (k + (h - k)) by lia. rewrite Z.pow_add_r, <- !Z.div_div by lia. by rewrite Heq. }
  rewrite E, Z.div_mul in H by lia. generalize dependent (b / 2 ^ h). lia.
Qed.

Lemma append_range_ordered w fuel : 0 <= w -> forall a b, fits w a -> fits w b -> a <= b -> host_bits w a b < Z.of_nat fuel ->
  exists l, append_range w fuel a b = Some l /\ tiles w a l (b + 1).
Proof.
  intros Hw. induction fuel as [|fuel IH]; intros a b Ha Hb Hab Hf; destruct (host_bits_spec w a b Hw Ha Hb) as (Hr & Heq & _); [lia|].
  rewrite append_range_step by done. cbv zeta. set (h := host_bits w a b) in *. destruct ((a mod 2 ^ h =? 0) && (b mod 2 ^ h =? 2 ^ h - 1)) eqn:E.
  - apply andb_true_iff in E as [Ea%Z.eqb_eq Eb%Z.eqb_eq]. eexists. split; [done|]. cbn [tiles]. replace (w - (w - h)) with h by lia. split; [lia|].
    split; [symmetry; apply Z.mod_small, Ha|]. split; [done|]. pose proof (Z.div_mod a (2 ^ h) ltac:(lia)). pose proof (Z.div_mod b (2 ^ h) ltac:(lia)). rewrite Heq in *. lia.
  - assert (1 <= h) as Hh. { destruct (Z.le_gt_cases 1 h) as [|Hlt]; [done|]. replace h with 0 in * by lia. rewrite !Z.pow_0_r, !Z.mod_1_r in E. done. }
    destruct (split_point w a b Hw Ha Hb Hh) as (Hlor & Hq & Hne & HM & _). fold h in Hlor, Hq, Hne, HM. rewrite Hlor. destruct (split_ordered a b _ HM Hq Hne Hab) as (Ham & Hmb & Em & Em1).
    set (m := a / 2 ^ (h - 1) * 2 ^ (h - 1) + (2 ^ (h - 1) - 1)) in *. clearbody m. clear Hlor Hq Hne HM Heq E.
    assert (fits w m /\ fits w (m + 1)) as [Hfm Hfm1] by (unfold fits in *; lia). rewrite wrap_small by done.
    pose proof (host_bits_le w a m (h - 1) Hw Ha Hfm ltac:(lia) (eq_sym Em)). pose proof (host_bits_le w (m + 1) b (h - 1) Hw Hfm1 Hb ltac:(lia) Em1). clear Em Em1.
    destruct (IH a m Ha Hfm Ham ltac:(lia)) as (l1 & -> & Ht1). destruct (IH (m + 1) b Hfm1 Hb Hmb ltac:(lia)) as (l2 & -> & Ht2).
    eexists. split; [done|]. by eapply tiles_app.
Qed.

Lemma append_range_reversed w fuel : 0 <= w -> forall a b, fits w a -> fits w b -> b < a -> 2 * w + 1 - host_bits w a b < Z.of_nat fuel ->
  exists l, append_range w fuel a b = Some l /\ tiles w a l (b + 1 + 2 ^ w).
Proof.
  intros Hw. induction fuel as [|fuel IH]; intros a b Ha Hb Hab Hf; destruct (host_bits_spec w a b Hw Ha Hb) as (Hr & Heq & _); [lia|].
  rewrite append_range_step by done. cbv zeta. set (h := host_bits w a b) in *. destruct ((a mod 2 ^ h =? 0) && (b mod 2 ^ h =? 2 ^ h - 1)) eqn:E.
  - apply andb_true_iff in E as [Ea%Z.eqb_eq Eb%Z.eqb_eq]. exfalso. pose proof (Z.div_mod a (2 ^ h) ltac:(lia)). pose proof (Z.div_mod b (2 ^ h) ltac:(lia)). rewrite Heq in *. lia.
  - assert (1 <= h) as Hh. { destruct (Z.le_gt_cases 1 h) as [|Hlt]; [done|]. replace h with 0 in * by lia. rewrite !Z.pow_0_r, !Z.mod_1_r in E. done. }
    destruct (split_point w a b Hw Ha Hb Hh) as (Hlor & Hq & Hne & HM & H2M). fold h in Hlor, Hq, Hne, HM, H2M. rewrite Hlor. destruct (split_reversed a b _ HM Hq Hne Hab) as (Ham & Em & Hm).
    rewrite <- H2M in Hm. set (m := a / 2 ^ (h - 1) * 2 ^ (h - 1) + (2 ^ (h - 1) - 1)) in *. clearbody m. clear Hlor Hq Hne HM H2M Heq E.
    assert (m + 1 <= 2 ^ w) as Hmw. { rewrite Hm. replace (2 ^ w) with (2 ^ (w - h) * 2 ^ h) by (rewrite <- Z.pow_add_r by lia; f_equal; lia).
      apply Z.mul_le_mono_nonneg_r; [lia|]. apply Z.le_succ_l, Z.div_lt_upper_bound; [lia|]. rewrite <- Z.pow_add_r by lia. replace (h + (w - h)) with w by lia. apply Hb. }
    assert (fits w m) as Hfm by (unfold fits in *; lia). pose proof (host_bits_le w a m (h - 1) Hw Ha Hfm ltac:(lia) (eq_sym Em)). clear Em.
    destruct (append_range_ordered w fuel Hw a m Ha Hfm Ham ltac:(lia)) as (l1 & -> & Ht1). destruct (Z.eq_dec (m + 1) (2 ^ w)) as [Ew|Hnw].
    + assert (wrap w (m + 1) = 0) as -> by (rewrite Ew; apply Z_mod_same_full). assert (fits w 0) as H0 by (unfold fits; lia). destruct (host_bits_spec w 0 b Hw H0 Hb) as (Hr0 & _).
      destruct (append_range_ordered w fuel Hw 0 b H0 Hb ltac:(unfold fits in Hb; lia) ltac:(lia)) as (l2 & -> & Ht2). eexists. split; [done|]. eapply tiles_app; [exact Ht1|]. rewrite Ew. apply (tiles_shift w 0); done.
    + assert (fits w (m + 1)) as Hf1 by (unfold fits in *; lia). rewrite wrap_small by done. pose proof (host_bits_grow w (m + 1) b h Hw Hf1 Hb ltac:(lia) Hm). clear Hm.
      destruct (IH (m + 1) b Hf1 Hb ltac:(lia) ltac:(lia)) as (l2 & -> & Ht2). eexists. split; [done|]. by eapply tiles_app.
Qed.

(** Every pair of bounds is tiled, within the fuel: an ordered pair from [a] up to [b], a
    reversed pair from [a] up to the top of the space and on from zero to [b]. *)
Lemma append_range_cyclic w a b : 0 <= w -> fits w a -> fits w b ->
  exists l, append_range w (range_fuel w) a b = Some l /\ tiles w a l (b + 1 + (if a <=? b then 0 else 2 ^ w)).
Proof.
  intros Hw Ha Hb. destruct (host_bits_spec w a b Hw Ha Hb) as (Hr & _). unfold range_fuel. destruct (Z.leb_spec a b).
  - rewrite Z.add_0_r. apply append_range_ordered; [done..|lia].
  - apply append_range_reversed; [done..|lia].
Qed.

(** ** Coverage *)

Definition covers (w x : Z) (c : Z * Z) : bool := Z.shiftr x (w - c.2) =? Z.shiftr c.1 (w - c.2).

Lemma covers_block w a x y p : 0 <= p <= w -> y = a mod 2 ^ w -> y mod 2 ^ (w - p) = 0 -> fits w x ->
  covers w x (y, p) = ((x - a) mod 2 ^ w <? 2 ^ (w - p)).
Proof.
  intros Hp Hy Hm Hx. unfold covers. cbn [fst snd]. rewrite !Z.shiftr_div_pow2 by lia. set (S := 2 ^ (w - p)) in *. assert (0 < S) as HS by (apply Z.pow_pos_nonneg; lia).
  assert (2 ^ w = 2 ^ p * S) as Hw by (unfold S; rewrite <- Z.pow_add_r by lia; f_equal; lia). assert (0 <= y < 2 ^ w) as Hyb by (rewrite Hy; apply Z.mod_pos_bound; lia).
  assert ((x - a) mod 2 ^ w = (x - y) mod 2 ^ w) as -> by (rewrite Hy; symmetry; apply Zminus_mod_idemp_r).
  pose proof (Z.div_mod y S ltac:(lia)) as Dy. rewrite Hm, Z.add_0_r in Dy. pose proof (block_bounds x S HS) as Bx. unfold fits in Hx.
  assert (y / S + 1 <= 2 ^ p) as Htop. { apply Z.le_succ_l. apply Z.div_lt_upper_bound; [lia|]. rewrite Z.mul_comm, <- Hw. lia. }
  assert (y + S <= 2 ^ w) as Hend. { rewrite Hw. apply (Z.mul_le_mono_nonneg_r _ _ S) in Htop; [|lia]. rewrite Z.mul_add_distr_r, Z.mul_1_l, (Z.mul_comm (y / S)), <- Dy in Htop. done. }
  clear Hy Hm Hw Htop. assert ((x - y) mod 2 ^ w = if y <=? x then x - y else x - y + 2 ^ w) as ->.
  { destruct (Z.leb_spec y x); [apply Z.mod_small; lia|]. rewrite <- (Z_mod_plus_full _ 1), Z.mul_1_l. apply Z.mod_small. lia. }
  destruct (Z.eqb_spec (x / S) (y / S)) as [E|Hn].
  - rewrite E, (Z.mul_comm (y / S)), <- Dy in Bx. clear -Bx. destruct (Z.leb_spec y x); symmetry; apply Z.ltb_lt; lia.
  - symmetry. apply Z.ltb_ge. destruct (Z.leb_spec y x) as [Hle|]; [|lia]. apply (Z.div_le_mono y x S HS) in Hle. assert (y / S + 1 <= x / S) as Hlt by (generalize dependent (x / S); generalize (y / S); intros; lia).
    apply (Z.mul_le_mono_nonneg_r _ _ S) in Hlt; [|lia]. rewrite Z.mul_add_distr_r, Z.mul_1_l, (Z.mul_comm (y / S)), <- Dy in Hlt. lia.
Qed.

Lemma tiles_cover w x : 0 <= w -> fits w x -> forall l a e, tiles w a l e -> e - a <= 2 ^ w -> existsb (covers w x) l = ((x - a) mod 2 ^ w <? e - a).
Proof.
  intros Hw Hx. induction l as [|[y p] l IH]; intros a e; cbn [tiles existsb].
  - intros -> _. symmetry. apply Z.ltb_ge. pose proof (Z.mod_pos_bound (x - e) (2 ^ w)). lia.
  - intros (Hp & Hy & Hm & Ht) Hn. rewrite (covers_block w a x y p) by done. pose proof (tiles_le _ _ _ _ Hw Ht) as Hle. set (S := 2 ^ (w - p)) in *. assert (0 < S) as HS by (apply Z.pow_pos_nonneg; lia).
    rewrite (IH (a + S) e Ht) by lia. replace (x - (a + S)) with (x - a - S) by lia. rewrite <- (Zminus_mod_idemp_l (x - a)).
    pose proof (Z.mod_pos_bound (x - a) (2 ^ w) ltac:(lia)) as Hd. set (d := (x - a) mod 2 ^ w) in *. clearbody d. destruct (Z.ltb_spec d S) as [Hlt|Hge]; cbn [orb].
    + symmetry. apply Z.ltb_lt. lia.
    + rewrite Z.mod_small by lia. destruct (Z.ltb_spec (d - S) (e - (a + S))), (Z.ltb_spec d (e - a)); lia.
Qed.

(** The addresses of an inclusive range; a reversed range wraps around the address space. *)
Definition in_range (from to v : Z) : bool := if from <=? to then (from <=? v) && (v <=? to) else (from <=? v) || (v <=? to).

Lemma append_range_covers w a b : 0 <= w -> fits w a -> fits w b -> exists l, append_range w (range_fuel w) a b = Some l /\
  Forall (fun c => fits w c.1 /\ 0 <= c.2 <= w) l /\ forall x, fits w x -> existsb (covers w x) l = in_range a b x.
Proof.
  intros Hw Ha Hb. destruct (append_range_cyclic w a b Hw Ha Hb) as (l & -> & Ht). exists l. split; [done|]. split.
  - clear -Hw Ht. revert Ht. generalize (b + 1 + (if a <=? b then 0 else 2 ^ w)). intros e. revert a. induction l as [|[y p] l IH]; intros a; cbn [tiles]; [by constructor|].
    intros (Hp & -> & _ & Ht). constructor; [|by eapply IH]. split; [apply wrap_fits; lia|done].
  - intros x Hx. unfold fits in Ha, Hb. rewrite (tiles_cover w x Hw Hx l a _ Ht) by (destruct (Z.leb_spec a b); lia). unfold fits in Hx. unfold in_range.
    assert ((x - a) mod 2 ^ w = if a <=? x then x - a else x - a + 2 ^ w) as ->.
    { destruct (Z.leb_spec a x); [apply Z.mod_small; lia|]. rewrite <- (Z_mod_plus_full _ 1), Z.mul_1_l. apply Z.mod_small. lia. }
    destruct (Z.leb_spec a b), (Z.leb_spec a x), (Z.leb_spec x b); cbn [andb orb]; (apply Z.ltb_lt || apply Z.ltb_ge); lia.
Qed.

Lemma existsb_fmap {A B} (f : B -> bool) (g : A -> B) l : existsb f (g <$> l) = existsb (fun x => f (g x)) l.
Proof. induction l as [|x l IH]; cbn; [done|]. by rewrite <- IH. Qed.
Lemma existsb_ext_Forall {A} (f g : A -> bool) l : Forall (fun x => f x = g x) l -> existsb f l = existsb g l.
Proof. induction 1 as [|x l E _ IH]; cbn; [done|]. by rewrite E, IH. Qed.

(** A prefix of [n] bytes covers what its leading bits say. *)
Lemma cidr_covers (six : bool) (mk := if six then V6 else V4) (n := if six then 16%nat else 4%nat) (w := if six then 128 else 32) ip c :
  is_v6 ip = six -> fits w c.1 -> 0 <= c.2 <= w -> cidr_contains ip (mk_cidr (mk (to_be_bytes n c.1)) c.2) = covers w (ip_value ip) c.
Proof.
  intros Hip Hc Hp. unfold cidr_contains, covers. cbn [c_addr c_prefix]. assert (is_v6 (mk (to_be_bytes n c.1)) = six) as -> by (unfold mk; by destruct six).
  assert (ip_value (mk (to_be_bytes n c.1)) = c.1) as -> by (unfold ip_value, mk, n; destruct six; apply from_to_be_bytes_small, Hc).
  assert (width ip = w) as -> by (unfold w; destruct ip; cbn in Hip; by subst six). rewrite Hip, Bool.eqb_reflx. cbn [andb]. by rewrite Z.min_l by lia.
Qed.

Lemma cidr_made_ok (six : bool) (mk := if six then V6 else V4) (n := if six then 16%nat else 4%nat) (w := if six then 128 else 32) c :
  0 <= c.2 <= w -> cidr_ok (mk_cidr (mk (to_be_bytes n c.1)) c.2) /\ c_prefix (mk_cidr (mk (to_be_bytes n c.1)) c.2) <= width (mk (to_be_bytes n c.1)).
Proof.
  intros Hp. unfold cidr_ok, ip_ok. cbn [c_addr c_prefix]. unfold mk, n, w in *. destruct six; cbn [octets width]; rewrite length_to_be_bytes; (split; [|lia]); (split; [|lia]); (split; [apply to_be_bytes_ok|done]).
Qed.

Lemma range_expansion from to out : ip_ok from -> ip_ok to -> is_v6 from = is_v6 to ->
  exists l, append_range_prefixes from to out = Ret (out ++ l) /\ Forall (fun c => cidr_ok c /\ c_prefix c <= width (c_addr c)) l /\
    forall ip, ip_ok ip -> is_v6 ip = is_v6 from -> existsb (cidr_contains ip) l = in_range (ip_value from) (ip_value to) (ip_value ip).
Proof.
  intros Hf Ht Hsame. pose proof (ip_value_bound _ Hf) as Bf. pose proof (ip_value_bound _ Ht) as Bt. unfold append_range_prefixes.
  destruct from as [f|f], to as [t|t]; try done; cbn [width] in Bf, Bt.
  - destruct (append_range_covers 32 _ _ ltac:(lia) Bf Bt) as (l & E & Hl & Hc). unfold append_range_u32. rewrite E. eexists. split; [done|]. split.
    + apply Forall_fmap. apply (list.Forall_impl _ _ _ Hl). intros c [_ H2]. exact (cidr_made_ok false c H2).
    + intros ip Hip Hs. rewrite <- Hc by (pose proof (ip_value_bound _ Hip); destruct ip; done). rewrite existsb_fmap. apply existsb_ext_Forall. apply (list.Forall_impl _ _ _ Hl). intros c [H1 H2]. exact (cidr_covers false ip c Hs H1 H2).
  - destruct (append_range_covers 128 _ _ ltac:(lia) Bf Bt) as (l & E & Hl & Hc). unfold append_range_u128. rewrite E. eexists. split; [done|]. split.
    + apply Forall_fmap. apply (list.Forall_impl _ _ _ Hl). intros c [_ H2]. exact (cidr_made_ok true c H2).
    + intros ip Hip Hs. rewrite <- Hc by (pose proof (ip_value_bound _ Hip); destruct ip; done). rewrite existsb_fmap. apply existsb_ext_Forall. apply (list.Forall_impl _ _ _ Hl). intros c [H1 H2]. exact (cidr_covers true ip c Hs H1 H2).
Qed.

(** C26: a stored address range becomes prefixes that cover it exactly: for bounds of one
    family the expansion ends, with every prefix within its family, and an address of the family lies
    in one of the prefixes iff it lies between the bounds.  Bounds given in the wrong
    order are read as the range that wraps around the top of the address space. *)
Theorem range_prefixes_exact from to out : ip_ok from -> ip_ok to -> is_v6 from = is_v6 to ->
  exists l, append_range_prefixes from to out = Ret (out ++ l) /\ Forall (fun c => cidr_ok c /\ c_prefix c <= width (c_addr c)) l /\
    forall ip, ip_ok ip -> is_v6 ip = is_v6 from -> existsb (cidr_contains ip) l = in_range (ip_value from) (ip_value to) (ip_value ip).
Proof. apply range_expansion. Qed.

Lemma range_prefixes_exact_witness : exists l, append_range_prefixes (V4 [10; 0; 0; 3]) (V4 [10; 0; 0; 9]) [] = Ret l /\
  existsb (cidr_contains (V4 [10; 0; 0; 9])) l = true /\ existsb (cidr_contains (V4 [10; 0; 0; 10])) l = false.
Proof.
  assert (forall b, b = 3 \/ b = 9 \/ b = 10 -> ip_ok (V4 [10; 0; 0; b])) as Hok by (intros b Hb; split; [repeat constructor; cbn; lia|reflexivity]).
  destruct (range_prefixes_exact (V4 [10; 0; 0; 3]) (V4 [10; 0; 0; 9]) [] (Hok 3 ltac:(lia)) (Hok 9 ltac:(lia)) eq_refl) as (l & E & _ & Hc).
  exists l. split; [exact E|]. split; [rewrite (Hc _ (Hok 9 ltac:(lia)) eq_refl); reflexivity|rewrite (Hc _ (Hok 10 ltac:(lia)) eq_refl); reflexivity].
Defined.
End range.
