(* ===== verification/Srs.v ===== *)
(** [core/src/rules/srs.rs]: the parser of compiled rule sets.  The reader is the unread part
    of the body; [usize] is 64 bits wide.  zlib is an argument. *)

From stdpp Require Import base list numbers.
From S2P Require Import Prelude RustStr NetAddr RuleTrie SrsSet SrsRange.

Module parser.
Import net rules srs range.

Definition MAGIC : bytes := [83; 82; 83].
Record Envelope := mk_envelope { version : Z; body : bytes }.

(** [inflate] is [flate2]'s zlib decoder, [None] on an I/O error. *)
Definition decode_envelope (inflate : bytes -> option bytes) (b : bytes) : outcome Envelope :=
  if (length b <? 4)%nat then Fail Truncated
  else if negb (bool_decide (take 3 b = MAGIC)) then Fail BadMagic
  else
    let v := default 0 (b !! 3%nat) in
    if negb ((1 <=? v) && (v <=? 3)) then Fail (UnsupportedVersion v)
    else match inflate (drop 4 b) with Some body => Ret (mk_envelope v body) | None => Fail Inflate end.

(** ** The reader *)

Definition u8 (r : bytes) : outcome (Z * bytes) := match r with [] => Fail Truncated | b :: r => Ret (b, r) end.
Definition read_bytes (n : Z) (r : bytes) : outcome (bytes * bytes) :=
  if n <=? Z.of_nat (length r) then Ret (take (Z.to_nat n) r, drop (Z.to_nat n) r) else Fail Truncated.
Definition u64_be (r : bytes) : outcome (Z * bytes) := let* (b, r) := read_bytes 8 r in Ret (from_be_bytes b, r).

(** The rounds [10 - n .. 10] of the loop of [uvarint]. *)
Fixpoint uvarint_loop (n : nat) (i result : Z) (r : bytes) : outcome (Z * bytes) :=
  match n with
  | O => Fail (Malformed "uvarint too long")
  | S n =>
      let* (b, r) := u8 r in
      if (i =? 9) && (1 <? b) then Fail (Malformed "uvarint overflows u64")
      else
        let result := Z.lor result (wrap64 (Z.shiftl (Z.land b 0x7f) (7 * i))) in
        if Z.land b 0x80 =? 0 then Ret (result, r) else uvarint_loop n (i + 1) result r
  end.
Definition uvarint (r : bytes) : outcome (Z * bytes) := uvarint_loop 10 0 0 r.
Definition uvarint_usize (r : bytes) : outcome (Z * bytes) := uvarint r.
Definition read_string (r : bytes) : outcome (bytes * bytes) :=
  let* (len, r) := uvarint r in
  let* (s, r) := read_bytes len r in
  if utf8_valid s then Ret (s, r) else Fail (Malformed "non-UTF-8 string").

(** [Vec::with_capacity] for elements of [size] bytes panics beyond [isize::MAX] bytes. *)
Definition with_capacity (n size : Z) : outcome unit := if n * size <=? 2 ^ 63 - 1 then Ret tt else Panic.

(** [for _ in 0..n], the fuel bounding the rounds. *)
Fixpoint times {A} (fuel : nat) (n : Z) (step : A -> bytes -> outcome (A * bytes)) (acc : A) (r : bytes) : outcome (A * bytes) :=
  if n <=? 0 then Ret (acc, r)
  else match fuel with
       | O => Exhausted
       | S fuel => let* (acc, r) := step acc r in times fuel (n - 1) step acc r
       end.
(** Each round reads at least one byte, so the bytes left bound the rounds. *)
Definition for_count {A} (n : Z) (step : A -> bytes -> outcome (A * bytes)) (acc : A) (r : bytes) : outcome (A * bytes) :=
  times (S (length r)) n step acc r.

Definition read_string_list (r : bytes) : outcome (list bytes * bytes) :=
  let* (n, r) := uvarint_usize r in
  let* _ := with_capacity n 16 in
  for_count n (fun v r => let* (s, r) := read_string r in Ret (v ++ [s], r)) [] r.
Definition skip_base_slice (item_size : Z) (r : bytes) : outcome (unit * bytes) :=
  let* (n, r) := uvarint_usize r in
  if 2 ^ 64 <=? n * item_size then Fail Truncated
  else let* (_, r) := read_bytes (n * item_size) r in Ret (tt, r).
Definition read_u64_slice (r : bytes) : outcome (list Z * bytes) :=
  let* (n, r) := uvarint_usize r in
  let* _ := with_capacity n 8 in
  for_count n (fun v r => let* (x, r) := u64_be r in Ret (v ++ [x], r)) [] r.

(** ** The items of a rule *)

Definition read_domain_item (r : bytes) (out : RuleSet) : outcome (RuleSet * bytes) :=
  let* (_, r) := u8 r in
  let* (lv, r) := read_u64_slice r in
  let* (bm, r) := read_u64_slice r in
  let* (n, r) := uvarint_usize r in
  let* (lb, r) := read_bytes n r in
  let* ks := keys (mk_set lv bm lb) in
  Ret (dump_domains ks out, r).
Definition read_adguard_domain (r : bytes) : outcome (unit * bytes) :=
  let* (_, r) := u8 r in
  let* (_, r) := read_u64_slice r in
  let* (_, r) := read_u64_slice r in
  let* (n, r) := uvarint_usize r in
  let* (_, r) := read_bytes n r in
  Ret (tt, r).

Definition read_ip_bytes (r : bytes) : outcome (IpAddr * bytes) :=
  let* (len, r) := uvarint_usize r in
  let* (b, r) := read_bytes len r in
  if len =? 4 then Ret (V4 b, r) else if len =? 16 then Ret (V6 b, r) else Fail (Malformed "ip set: bad address length").
Definition read_range (out : list IpCidr) (r : bytes) : outcome (list IpCidr * bytes) :=
  let* (from, r) := read_ip_bytes r in
  let* (to, r) := read_ip_bytes r in
  let* out := append_range_prefixes from to out in
  Ret (out, r).
Definition read_ip_set (r : bytes) : outcome (list IpCidr * bytes) :=
  let* (v, r) := u8 r in
  if negb (v =? 1) then Fail (Malformed "ip set: unsupported version")
  else
    let* (count, r) := u64_be r in
    for_count count read_range [] r.

Definition ITEM_QUERY_TYPE : Z := 0.
Definition ITEM_NETWORK : Z := 1.
Definition ITEM_DOMAIN : Z := 2.
Definition ITEM_DOMAIN_KEYWORD : Z := 3.
Definition ITEM_DOMAIN_REGEX : Z := 4.
Definition ITEM_SOURCE_IP_CIDR : Z := 5.
Definition ITEM_IP_CIDR : Z := 6.
Definition ITEM_SOURCE_PORT : Z := 7.
Definition ITEM_SOURCE_PORT_RANGE : Z := 8.
Definition ITEM_PORT : Z := 9.
Definition ITEM_PORT_RANGE : Z := 10.
Definition ITEM_PROCESS_NAME : Z := 11.
Definition ITEM_PROCESS_PATH : Z := 12.
Definition ITEM_PACKAGE_NAME : Z := 13.
Definition ITEM_WIFI_SSID : Z := 14.
Definition ITEM_WIFI_BSSID : Z := 15.
Definition ITEM_ADGUARD_DOMAIN : Z := 16.
Definition ITEM_PROCESS_PATH_REGEX : Z := 17.
Definition ITEM_NETWORK_TYPE : Z := 18.
Definition ITEM_NETWORK_IS_EXPENSIVE : Z := 19.
Definition ITEM_NETWORK_IS_CONSTRAINED : Z := 20.
Definition ITEM_FINAL : Z := 255.
Definition RULE_TYPE_DEFAULT : Z := 0.
Definition RULE_TYPE_LOGICAL : Z := 1.
(** The arms of [read_default_rule], [ITEM_FINAL] apart. *)
Definition read_item (item : Z) (r : bytes) (out : RuleSet) : outcome (RuleSet * bytes) :=
  if item =? ITEM_DOMAIN then read_domain_item r out
  else if item =? ITEM_DOMAIN_KEYWORD then
    let* (l, r) := read_string_list r in Ret (out <| domain_keyword := domain_keyword out ++ l |>, r)
  else if (item =? ITEM_IP_CIDR) || (item =? ITEM_SOURCE_IP_CIDR) then
    let* (cidrs, r) := read_ip_set r in
    Ret (if item =? ITEM_IP_CIDR then out <| ip_cidr := ip_cidr out ++ cidrs |> else out, r)
  else if item =? ITEM_QUERY_TYPE then let* (_, r) := skip_base_slice 2 r in Ret (out, r)
  else if (item =? ITEM_SOURCE_PORT) || (item =? ITEM_PORT) then let* (_, r) := skip_base_slice 2 r in Ret (out, r)
  else if item =? ITEM_NETWORK_TYPE then let* (_, r) := skip_base_slice 1 r in Ret (out, r)
  else if bool_decide (item ∈ [ITEM_NETWORK; ITEM_DOMAIN_REGEX; ITEM_SOURCE_PORT_RANGE; ITEM_PORT_RANGE; ITEM_PROCESS_NAME; ITEM_PROCESS_PATH; ITEM_PROCESS_PATH_REGEX; ITEM_PACKAGE_NAME; ITEM_WIFI_SSID; ITEM_WIFI_BSSID]) then let* (_, r) := read_string_list r in Ret (out, r)
  else if item =? ITEM_ADGUARD_DOMAIN then let* (_, r) := read_adguard_domain r in Ret (out, r)
  else if (item =? ITEM_NETWORK_IS_EXPENSIVE) || (item =? ITEM_NETWORK_IS_CONSTRAINED) then Ret (out, r)
  else Fail (Malformed "unknown rule item type").
Fixpoint read_items (fuel : nat) (r : bytes) (out : RuleSet) : outcome (RuleSet * bytes) :=
  match fuel with
  | O => Exhausted
  | S fuel =>
      let* (item, r) := u8 r in
      if item =? ITEM_FINAL then let* (_, r) := u8 r in Ret (out, r)
      else let* (out, r) := read_item item r out in read_items fuel r out
  end.
Definition read_default_rule (r : bytes) (out : RuleSet) : outcome (RuleSet * bytes) := read_items (S (length r)) r out.

(** [read_logical_rule], given the reader of its sub-rules. *)
Definition read_logical_rule (read_sub : RuleSet -> bytes -> outcome (RuleSet * bytes)) (r : bytes) (out : RuleSet) : outcome (RuleSet * bytes) :=
  let* (mode, r) := u8 r in
  if 1 <? mode then Fail (Malformed "unknown logical mode")
  else
    let* (sub_count, r) := uvarint_usize r in
    let* (out, r) := for_count sub_count read_sub out r in
    let* (_, r) := u8 r in
    Ret (out, r).
(** The fuel bounds the nesting of the rules. *)
Fixpoint read_rule (fuel : nat) (out : RuleSet) (r : bytes) : outcome (RuleSet * bytes) :=
  match fuel with
  | O => Exhausted
  | S fuel =>
      let* (ty, r) := u8 r in
      if ty =? RULE_TYPE_DEFAULT then read_default_rule r out
      else if ty =? RULE_TYPE_LOGICAL then read_logical_rule (read_rule fuel) r out
      else Fail (Malformed "unknown rule type")
  end.
Definition parse_body (b : bytes) : outcome RuleSet :=
  let* (rule_count, r) := uvarint_usize b in
  let* (out, _) := for_count rule_count (read_rule (S (length b))) rules_default r in
  Ret out.
Definition parse (inflate : bytes -> option bytes) (b : bytes) : outcome RuleSet :=
  let* env := decode_envelope inflate b in parse_body (body env).

(** ** What a reader does *)

(** A run that ends, has read at least [k] bytes when it returns, and returns a [P]. *)
Definition reads {A} (k : nat) (P : A -> Prop) (c : outcome (A * bytes)) (r : bytes) : Prop :=
  bytes_ok r -> c <> Exhausted /\ forall a r', c = Ret (a, r') -> (length r' + k <= length r)%nat /\ bytes_ok r' /\ P a.

Lemma reads_ret {A} (P : A -> Prop) a r : P a -> reads 0 P (Ret (a, r)) r.
Proof. intros Ha Hr. split; [done|]. intros a' r' [= <- <-]. split; [lia|done]. Qed.
Lemma reads_fail {A} k (P : A -> Prop) e r : reads k P (Fail e) r.
Proof. by split. Qed.
Lemma reads_panic {A} k (P : A -> Prop) r : reads k P Panic r.
Proof. by split. Qed.
Lemma reads_weaken {A} k k' (P Q : A -> Prop) c r : reads k P c r -> (k' <= k)%nat -> (forall a, P a -> Q a) -> reads k' Q c r.
Proof. intros H Hk HPQ Hr. destruct (H Hr) as [He Hc]. split; [done|]. intros a r' E. destruct (Hc a r' E) as (Hl & Hb & Ha). split; [lia|]. split; [done|by apply HPQ]. Qed.
Lemma reads_bind {A B} k1 k2 (P : A -> Prop) (Q : B -> Prop) c f r :
  reads k1 P c r -> (forall a r', P a -> (length r' + k1 <= length r)%nat -> reads k2 Q (f a r') r') ->
  reads (k1 + k2) Q (match c with Ret (a, r') => f a r' | Fail e => Fail e | Panic => Panic | Exhausted => Exhausted end) r.
Proof.
  intros Hc Hf Hr. destruct (Hc Hr) as [He Hret]. destruct c as [[a r']| | |]; [|done..]. destruct (Hret a r' eq_refl) as (Hl & Hb & Ha).
  destruct (Hf a r' Ha Hl Hb) as [He' Hret']. split; [done|]. intros b r'' E. destruct (Hret' b r'' E) as (Hl' & Hb' & Hq). split; [lia|done].
Qed.

Lemma u8_reads r : reads 1 (fits 8) (u8 r) r.
Proof. intros Hr. destruct r as [|b r]; [by split|]. split; [done|]. intros a r' [= <- <-]. apply Forall_cons_iff in Hr as [Hb Hr]. split; [cbn; lia|done]. Qed.
Lemma read_bytes_reads n r : reads 0 (fun b => bytes_ok b /\ length b = Z.to_nat n) (read_bytes n r) r.
Proof.
  intros Hr. unfold read_bytes. destruct (Z.leb_spec n (Z.of_nat (length r))); [|done]. split; [done|]. intros a r' [= <- <-]. rewrite length_drop, length_take.
  split; [lia|]. split; [by apply Forall_drop|]. split; [by apply Forall_take|lia].
Qed.
Lemma u64_be_reads r : reads 1 (fun _ => True) (u64_be r) r.
Proof.
  intros Hr. unfold u64_be, read_bytes. destruct (Z.leb_spec 8 (Z.of_nat (length r))); [|done]. split; [done|]. intros a r' [= <- <-]. rewrite length_drop. split; [lia|]. split; [by apply Forall_drop|done].
Qed.
Lemma uvarint_loop_reads n i res r : 0 <= i -> 0 <= res -> reads 1 (fun v => 0 <= v) (uvarint_loop n i res r) r.
Proof.
  revert i res r. induction n as [|n IH]; intros i res r Hi Hres; cbn [uvarint_loop]; [apply reads_fail|].
  apply (reads_bind 1 0 (fits 8) _ (u8 r) _ r (u8_reads r)). intros b r' Hb _. destruct ((i =? 9) && (1 <? b)); [apply reads_fail|]. cbv zeta.
  assert (0 <= Z.lor res (wrap64 (Z.shiftl (Z.land b 127) (7 * i)))) as Hn by (apply Z.lor_nonneg; split; [done|apply wrap_fits; lia]).
  destruct (_ =? 0); [by apply reads_ret|]. apply (reads_weaken 1 0 (fun v => 0 <= v) (fun v => 0 <= v)); [|lia|done]. apply IH; lia.
Qed.
Lemma uvarint_reads r : reads 1 (fun v => 0 <= v) (uvarint r) r.
Proof. by apply uvarint_loop_reads. Qed.
Lemma read_string_reads r : reads 1 (fun s => utf8_valid s = true) (read_string r) r.
Proof.
  apply (reads_bind 1 0 _ _ _ _ _ (uvarint_reads r)). intros n r1 _ _. apply (reads_bind 0 0 _ _ _ _ _ (read_bytes_reads n r1)). intros s r2 _ _.
  destruct (utf8_valid s) eqn:E; [by apply reads_ret|apply reads_fail].
Qed.

Lemma times_reads {A} (P : A -> Prop) step : forall fuel n acc r, P acc -> (length r < fuel)%nat ->
  (forall acc r', P acc -> (length r' <= length r)%nat -> reads 1 P (step acc r') r') -> reads 0 P (times fuel n step acc r) r.
Proof.
  induction fuel as [|fuel IH]; intros n acc r Hacc Hf Hstep; cbn [times]; [lia|]. destruct (n <=? 0); [by apply reads_ret|].
  intros Hr. revert Hr. apply (reads_weaken 1 0 P P); [|lia|done]. apply (reads_bind 1 0 P P (step acc r) (fun acc r => times fuel (n - 1) step acc r) r); [by apply Hstep|].
  intros acc' r' Hacc' Hl. apply IH; [done|lia|]. intros acc'' r'' H Hl'. apply Hstep; [done|lia].
Qed.
Lemma for_count_reads {A} (P : A -> Prop) n step acc r : P acc -> (forall acc r', P acc -> (length r' <= length r)%nat -> reads 1 P (step acc r') r') ->
  reads 0 P (for_count n step acc r) r.
Proof. intros. apply times_reads; [done|lia|done]. Qed.

(** The same for a step that does not read. *)
Lemma reads_seq {A B} k (Q : B -> Prop) (c : outcome A) (f : A -> outcome (B * bytes)) r : c <> Exhausted -> (forall a, c = Ret a -> reads k Q (f a) r) ->
  reads k Q (match c with Ret a => f a | Fail e => Fail e | Panic => Panic | Exhausted => Exhausted end) r.
Proof. intros He Hf. destruct c; [by apply Hf|apply reads_fail|apply reads_panic|done]. Qed.
Lemma with_capacity_runs n size : with_capacity n size <> Exhausted.
Proof. unfold with_capacity. by destruct (_ <=? _). Qed.

Lemma read_list_reads {A} (item : bytes -> outcome (A * bytes)) size r : (forall r, reads 1 (fun _ => True) (item r) r) ->
  reads 1 (fun _ => True) (let* (n, r) := uvarint_usize r in let* _ := with_capacity n size in
                           for_count n (fun v r => let* (x, r) := item r in Ret (v ++ [x], r)) [] r) r.
Proof.
  intros Hitem. apply (reads_bind 1 0 _ _ _ _ _ (uvarint_reads r)). intros n r1 _ _. apply (reads_seq 0 _ (with_capacity n size) (fun _ => _) r1 (with_capacity_runs n size)). intros _ _.
  apply for_count_reads; [done|]. intros v r2 _ _. apply (reads_bind 1 0 _ _ _ _ _ (Hitem r2)). intros x r3 _ _. by apply reads_ret.
Qed.
Lemma read_string_list_reads r : reads 1 (fun _ => True) (read_string_list r) r.
Proof. apply read_list_reads. intros r'. by apply (reads_weaken 1 1 _ _ _ _ (read_string_reads r')). Qed.
Lemma read_u64_slice_reads r : reads 1 (fun _ => True) (read_u64_slice r) r.
Proof. apply read_list_reads, u64_be_reads. Qed.
Lemma skip_base_slice_reads k r : reads 1 (fun _ => True) (skip_base_slice k r) r.
Proof.
  apply (reads_bind 1 0 _ _ _ _ _ (uvarint_reads r)). intros n r1 _ _. destruct (2 ^ 64 <=? n * k); [apply reads_fail|].
  apply (reads_bind 0 0 _ _ _ _ _ (read_bytes_reads _ r1)). intros x r2 _ _. by apply reads_ret.
Qed.

(** ** The items *)

Definition prefix_fits (c : IpCidr) : Prop := cidr_ok c /\ c_prefix c <= width (c_addr c).
Definition rules_fit (rs : RuleSet) : Prop := Forall prefix_fits (ip_cidr rs).

Lemma read_domain_item_reads r out : rules_fit out -> reads 1 rules_fit (read_domain_item r out) r.
Proof.
  intros Hout. apply (reads_bind 1 0 _ _ _ _ _ (u8_reads r)). intros _ r1 _ _. apply (reads_weaken 2 0 rules_fit rules_fit); [|lia|done].
  apply (reads_bind 1 1 _ _ _ _ _ (read_u64_slice_reads r1)). intros lv r2 _ _. apply (reads_weaken 2 1 rules_fit rules_fit); [|lia|done].
  apply (reads_bind 1 1 _ _ _ _ _ (read_u64_slice_reads r2)). intros bm r3 _ _. apply (reads_bind 1 0 _ _ _ _ _ (uvarint_reads r3)). intros n r4 _ _.
  apply (reads_bind 0 0 _ _ _ _ _ (read_bytes_reads n r4)). intros lb r5 _ _. apply reads_seq; [apply keys_total|]. intros ks _. by apply reads_ret.
Qed.
Lemma read_adguard_domain_reads r : reads 1 (fun _ => True) (read_adguard_domain r) r.
Proof.
  apply (reads_bind 1 0 _ _ _ _ _ (u8_reads r)). intros _ r1 _ _. apply (reads_weaken 2 0 (fun _ => True) (fun _ => True)); [|lia|done].
  apply (reads_bind 1 1 _ _ _ _ _ (read_u64_slice_reads r1)). intros lv r2 _ _. apply (reads_weaken 2 1 (fun _ => True) (fun _ => True)); [|lia|done].
  apply (reads_bind 1 1 _ _ _ _ _ (read_u64_slice_reads r2)). intros bm r3 _ _. apply (reads_bind 1 0 _ _ _ _ _ (uvarint_reads r3)). intros n r4 _ _.
  apply (reads_bind 0 0 _ _ _ _ _ (read_bytes_reads n r4)). intros lb r5 _ _. by apply reads_ret.
Qed.
Lemma read_ip_bytes_reads r : reads 1 ip_ok (read_ip_bytes r) r.
Proof.
  apply (reads_bind 1 0 _ _ _ _ _ (uvarint_reads r)). intros n r1 _ _. apply (reads_bind 0 0 _ _ _ _ _ (read_bytes_reads n r1)). intros b r2 [Hb Hl] _.
  destruct (Z.eqb_spec n 4) as [->|_]; [by apply reads_ret|]. destruct (Z.eqb_spec n 16) as [->|_]; [by apply reads_ret|apply reads_fail].
Qed.
Lemma append_range_prefixes_runs from to out : ip_ok from -> ip_ok to -> Forall prefix_fits out ->
  append_range_prefixes from to out <> Exhausted /\ forall l, append_range_prefixes from to out = Ret l -> Forall prefix_fits l.
Proof.
  intros Hf Ht Ho. destruct (bool_decide (is_v6 from = is_v6 to)) eqn:E.
  - apply bool_decide_eq_true in E. destruct (range_expansion from to out Hf Ht E) as (l & -> & Hl & _). split; [done|]. intros l' [= <-]. by apply Forall_app.
  - apply bool_decide_eq_false in E. unfold append_range_prefixes. by destruct from, to.
Qed.
Lemma read_range_reads out r : Forall prefix_fits out -> reads 1 (Forall prefix_fits) (read_range out r) r.
Proof.
  intros Ho. apply (reads_bind 1 0 _ _ _ _ _ (read_ip_bytes_reads r)). intros from r1 Hf _. apply (reads_weaken 1 0 (Forall prefix_fits) (Forall prefix_fits)); [|lia|done].
  apply (reads_bind 1 0 _ _ _ _ _ (read_ip_bytes_reads r1)). intros to r2 Ht _. destruct (append_range_prefixes_runs from to out Hf Ht Ho) as [He Hl].
  apply reads_seq; [done|]. intros l El. apply reads_ret. by apply Hl.
Qed.
Lemma read_ip_set_reads r : reads 1 (Forall prefix_fits) (read_ip_set r) r.
Proof.
  apply (reads_bind 1 0 _ _ _ _ _ (u8_reads r)). intros v r1 _ _. destruct (negb (v =? 1)); [apply reads_fail|]. apply (reads_weaken 1 0 (Forall prefix_fits) (Forall prefix_fits)); [|lia|done].
  apply (reads_bind 1 0 _ _ _ _ _ (u64_be_reads r1)). intros n r2 _ _. apply for_count_reads; [done|]. intros out r3 Ho _. by apply read_range_reads.
Qed.

Lemma read_item_reads item r out : rules_fit out -> reads 0 rules_fit (read_item item r out) r.
Proof.
  intros Hout.
  assert (forall A (c : outcome (A * bytes)), reads 1 (fun _ => True) c r -> reads 0 rules_fit (let* (_, r) := c in Ret (out, r)) r) as Hskip.
  { intros A c Hc. apply (reads_weaken 1 0 rules_fit rules_fit); [|lia|done]. apply (reads_bind 1 0 (fun _ => True) _ _ (fun _ r => Ret (out, r)) _ Hc). intros _ r' _ _. by apply reads_ret. }
  unfold read_item. destruct (item =? ITEM_DOMAIN). { apply (reads_weaken 1 0 rules_fit rules_fit); [by apply read_domain_item_reads|lia|done]. }
  destruct (item =? ITEM_DOMAIN_KEYWORD). { apply (reads_weaken 1 0 rules_fit rules_fit); [|lia|done]. apply (reads_bind 1 0 _ _ _ _ _ (read_string_list_reads r)). intros l r1 _ _. by apply reads_ret. }
  destruct ((item =? ITEM_IP_CIDR) || (item =? ITEM_SOURCE_IP_CIDR)).
  { apply (reads_weaken 1 0 rules_fit rules_fit); [|lia|done]. apply (reads_bind 1 0 _ _ _ _ _ (read_ip_set_reads r)). intros l r1 Hl _. apply reads_ret. destruct (item =? ITEM_IP_CIDR); [|done]. by apply Forall_app. }
  destruct (item =? ITEM_QUERY_TYPE); [apply Hskip, skip_base_slice_reads|]. destruct ((item =? ITEM_SOURCE_PORT) || (item =? ITEM_PORT)); [apply Hskip, skip_base_slice_reads|]. destruct (item =? ITEM_NETWORK_TYPE); [apply Hskip, skip_base_slice_reads|].
  destruct (bool_decide _); [apply Hskip, read_string_list_reads|]. destruct (item =? ITEM_ADGUARD_DOMAIN); [apply Hskip, read_adguard_domain_reads|]. destruct ((item =? ITEM_NETWORK_IS_EXPENSIVE) || (item =? ITEM_NETWORK_IS_CONSTRAINED)); [by apply reads_ret|apply reads_fail].
Qed.
Lemma read_items_reads fuel : forall r out, (length r < fuel)%nat -> rules_fit out -> reads 1 rules_fit (read_items fuel r out) r.
Proof.
  induction fuel as [|fuel IH]; intros r out Hf Hout; [lia|]. cbn [read_items]. apply (reads_bind 1 0 _ _ _ _ _ (u8_reads r)). intros item r1 _ Hl1. destruct (item =? ITEM_FINAL).
  - apply (reads_weaken 1 0 rules_fit rules_fit); [|lia|done]. apply (reads_bind 1 0 _ _ _ _ _ (u8_reads r1)). intros _ r2 _ _. by apply reads_ret.
  - apply (reads_weaken 1 0 rules_fit rules_fit); [|lia|done]. apply (reads_bind 0 1 rules_fit _ _ (fun out r => read_items fuel r out) _ (read_item_reads item r1 out Hout)). intros out' r2 Hout' Hl2. apply IH; [lia|done].
Qed.
Lemma read_rule_reads fuel : forall out r, (length r < fuel)%nat -> rules_fit out -> reads 1 rules_fit (read_rule fuel out r) r.
Proof.
  induction fuel as [|fuel IH]; intros out r Hf Hout; [lia|]. cbn [read_rule]. apply (reads_bind 1 0 _ _ _ _ _ (u8_reads r)). intros ty r1 _ Hl1. destruct (ty =? RULE_TYPE_DEFAULT).
  { apply (reads_weaken 1 0 rules_fit rules_fit); [|lia|done]. apply read_items_reads; [lia|done]. }
  destruct (ty =? RULE_TYPE_LOGICAL); [|apply reads_fail]. apply (reads_weaken 3 0 rules_fit rules_fit); [|lia|done]. apply (reads_bind 1 2 _ _ _ _ _ (u8_reads r1)). intros mode r2 _ Hl2.
  destruct (1 <? mode); [apply reads_fail|]. apply (reads_bind 1 1 _ _ _ _ _ (uvarint_reads r2)). intros n r3 _ Hl3.
  apply (reads_bind 0 1 rules_fit _ (for_count n (read_rule fuel) out r3) (fun out r => let* (_, r) := u8 r in Ret (out, r)) r3).
  - apply for_count_reads; [done|]. intros out' r4 Hout' Hl4. apply IH; [lia|done].
  - intros out' r4 Hout' _. apply (reads_bind 1 0 _ _ _ _ _ (u8_reads r4)). intros _ r5 _ _. by apply reads_ret.
Qed.

Lemma parse_total inflate b : (forall x y, inflate x = Some y -> bytes_ok y) ->
  parse inflate b <> Exhausted /\ forall rs, parse inflate b = Ret rs -> rules_fit rs.
Proof.
  intros Hinf. unfold parse, decode_envelope. repeat match goal with |- context [if ?c then _ else _] => destruct c; [by split|] end.
  destruct (inflate (drop 4 b)) as [y|] eqn:Ey; [|by split]. apply Hinf in Ey. cbn [body].
  assert (reads 1 rules_fit (let* (n, r) := uvarint_usize y in for_count n (read_rule (S (length y))) rules_default r) y) as H.
  { apply (reads_bind 1 0 _ _ _ _ _ (uvarint_reads y)). intros n r _ Hl. apply for_count_reads; [by apply Forall_nil|]. intros out r' Hout Hl'. apply read_rule_reads; [lia|done]. }
  destruct (H Ey) as [He Hret]. unfold parse_body. destruct (uvarint_usize y) as [[n r]| | |]; [|done..]. destruct (for_count _ _ _ _) as [[out r']| | |]; [|done..].
  split; [done|]. intros rs [= <-]. by apply (Hret out r').
Qed.

(** C25: parsing a rule set always ends, whatever bytes it is given, and what it returns is fit
    for the matcher: every prefix is an address of its family with a length within it. *)
Theorem parse_runs inflate b : (forall x y, inflate x = Some y -> bytes_ok y) ->
  parse inflate b <> Exhausted /\ forall rs, parse inflate b = Ret rs -> rules_fit rs.
Proof. apply parse_total. Qed.

Definition sample_srs : bytes := MAGIC ++ [1] ++ [1; 0; 3; 1; 2; 97; 100; 255; 0].
Lemma sample_srs_parses : parse Some sample_srs = Ret (mk_rules [] [] [lit "ad"] []).
Proof. vm_compute. reflexivity. Qed.
Lemma parse_runs_witness : parse (fun b => if bool_decide (bytes_ok b) then Some b else None) sample_srs <> Exhausted.
Proof.
  apply (parse_runs (fun b => if bool_decide (bytes_ok b) then Some b else None) sample_srs). intros x y. destruct (bool_decide (bytes_ok x)) eqn:E; [|intros [=]].
  intros [= <-]. exact (bool_decide_eq_true_1 _ E).
Defined.

(** A rule body of a dozen bytes makes the parser panic: the count of a string list sizes
    an allocation before any string is read. *)
Theorem parse_can_panic : parse Some (MAGIC ++ [1] ++ [1; 0; 3] ++ replicate 8 128 ++ [8]) = Panic.
Proof. vm_compute. reflexivity. Qed.
End parser.
