(* ===== verification/RuleMatcher.v ===== *)
(** [core/src/rules/matcher.rs], the [Matcher]: the rule lists of all precedences compiled
    into one domain trie, one keyword table and one pair of prefix tries, and its
    equivalence with scanning the lists in order of precedence. *)

From stdpp Require Import base gmap list numbers sorting.
From S2P Require Import Prelude RustStr BTree NetAddr Arena RuleTrie RuleCover SrsSet.

Module matcher.
Import net rules cover srs.

Record Matcher := mk_matcher { actions : list Action; domains : DomainTrie; keywords : list (bytes * Z); cidrs : CidrTrie }.

Definition normalize (d : bytes) : bytes := to_ascii_lowercase (default d (strip_suffix [DOT] d)).

(** [Rank::try_from(rank).unwrap_or(Rank::MAX)]. *)
Definition rank_of (i : Z) : Z := if i <? 2 ^ 16 then i else 2 ^ 16 - 1.

(** The order of the keyword table. *)
Definition keyword_le (a b : bytes * Z) : Prop := a.2 < b.2 \/ (a.2 = b.2 /\ kcmp a.1 b.1 <> Gt).
#[export] Instance keyword_le_dec : RelDecision keyword_le.
Proof. intros a b. unfold keyword_le. apply _. Defined.

(** What the loop of [build] accumulates. *)
Record Building := mk_building { b_actions : list Action; b_domains : DomainTrie; b_keywords : gmap bytes Z; b_cidrs : CidrTrie }.
#[export] Instance Building_eta : Settable Building := fun b => mk_building (b_actions b) (b_domains b) (b_keywords b) (b_cidrs b).

Fixpoint for_each {A S} (f : A -> S -> option S) (l : list A) (s : S) : option S :=
  match l with [] => Some s | x :: l => let! s := f x s in for_each f l s end.

Definition add_keyword (r : Z) (k : bytes) (m : gmap bytes Z) : gmap bytes Z := <[normalize k := min_opt (m !! normalize k) r]> m.

Definition build_entry (i : Z) (action : Action) (rs : RuleSet) (b : Building) : option Building :=
  let r := rank_of i in
  let b := b <| b_actions := b_actions b ++ [action] |> in
  let! d := for_each (fun x => domain_insert (normalize x) Exact r) (domain rs) (b_domains b) in
  let! d := for_each (fun x => domain_insert (normalize x) Suffix r) (domain_suffix rs) d in
  let kw := fold_left (fun m k => add_keyword r k m) (domain_keyword rs) (b_keywords b) in
  let! c := for_each (fun x => cidr_insert x r) (ip_cidr rs) (b_cidrs b) in
  Some (mk_building (b_actions b) d kw c).
Fixpoint build_entries (i : Z) (entries : list (Action * RuleSet)) (b : Building) : option Building :=
  match entries with
  | [] => Some b
  | (action, rs) :: entries => let! b := build_entry i action rs b in build_entries (i + 1) entries b
  end.

Definition build (it : Order) (entries : list (Action * RuleSet)) : option Matcher :=
  let! b := build_entries 0 entries (mk_building [] [] ∅ cidrs_default) in
  let! d := domain_compact it (b_actions b) (b_domains b) in
  let! c := cidr_compact (b_actions b) (b_cidrs b) in
  Some (mk_matcher (b_actions b) d (merge_sort keyword_le (map_to_list (b_keywords b))) c).

Definition keep_best (best : option Z) (r : option Z) : option Z := match r with Some r => Some (min_opt best r) | None => best end.
Definition scan_keywords (d : bytes) (kws : list (bytes * Z)) (best : option Z) : option Z :=
  fold_left (fun best kw => if contains kw.1 d then Some (min_opt best kw.2) else best) kws best.

(** The outer [option] is a panic. *)
Definition lookup (m : Matcher) (dom : option bytes) (ip : IpAddr) : option (option Action) :=
  let! best :=
    match dom with
    | Some d =>
        let d := normalize d in
        let! r := domain_lookup d (domains m) in
        Some (scan_keywords d (keywords m) (keep_best None r))
    | None => Some None
    end in
  let! r := cidr_lookup ip (cidrs m) in
  match keep_best best r with
  | Some r => let! a := action_of (actions m) r in Some (Some a)
  | None => Some None
  end.

(** ** The reference: scan the rule lists in order of precedence *)

Definition exact_match (d e : bytes) : bool := bool_decide (labels (normalize e) = labels d).
Definition suffix_match (d s : bytes) : bool := bool_decide (labels (normalize s) `prefix_of` labels d).
Definition keyword_match (d k : bytes) : bool := contains (normalize k) d.
Definition domain_rules_match (d : bytes) (rs : RuleSet) : bool :=
  existsb (exact_match d) (domain rs) || existsb (suffix_match d) (domain_suffix rs).
Definition rules_match (dom : option bytes) (ip : IpAddr) (rs : RuleSet) : bool :=
  match dom with
  | Some d => let d := normalize d in domain_rules_match d rs || existsb (keyword_match d) (domain_keyword rs)
  | None => false
  end || existsb (cidr_contains ip) (ip_cidr rs).

Fixpoint naive_lookup (entries : list (Action * RuleSet)) (dom : option bytes) (ip : IpAddr) : option Action :=
  match entries with
  | [] => None
  | (a, rs) :: entries => if rules_match dom ip rs then Some a else naive_lookup entries dom ip
  end.

(** ** Well-formed rule lists *)

(** No domain rule is empty: none of them names the root. *)
Record rules_ok (rs : RuleSet) : Prop := {
  ro_domain : Forall (fun e => labels (normalize e) <> []) (domain rs);
  ro_suffix : Forall (fun e => labels (normalize e) <> []) (domain_suffix rs);
  ro_cidr : Forall cidr_ok (ip_cidr rs);
}.
Definition entries_ok (entries : list (Action * RuleSet)) : Prop := Z.of_nat (length entries) <= 2 ^ 16 /\ Forall (fun e => rules_ok e.2) entries.

(** ** Insertion *)

(** The rank a rule contributes to a lookup. *)
Definition hit (b : bool) (r : Z) : option Z := if b then Some r else None.
Lemma hit_or a b r : omin (hit a r) (hit b r) = hit (a || b) r.
Proof. destruct a, b; cbn; f_equal; lia. Qed.

(** The ranks stored are positions in a list of [n] rule lists. *)
Definition ranks_lt (n : Z) (x : Ranks) : Prop := forall r, x.1 = Some r \/ x.2 = Some r -> 0 <= r < n.
Lemma ranks_lt_omin n a b r : ranks_lt n (a, b) -> 0 <= r < n -> ranks_lt n (omin a (Some r), b) /\ ranks_lt n (a, omin b (Some r)).
Proof.
  intros H Hr. split; intros x [Hx|Hx]; cbn in Hx; [|by apply H; right|by apply H; left|].
  - destruct a as [a|]; cbn in Hx; injection Hx as <-; [|done]. pose proof (H a (or_introl eq_refl)). lia.
  - destruct b as [b|]; cbn in Hx; injection Hx as <-; [|done]. pose proof (H b (or_intror eq_refl)). lia.
Qed.
Lemma ranks_lt_ok acts x : ranks_lt (Z.of_nat (length acts)) x -> ranks_ok acts x.
Proof. intros H r Hr. apply lookup_lt_is_Some. specialize (H r Hr). lia. Qed.

Lemma for_each_look {A S Q} (f : A -> S -> option S) (Inv : S -> Prop) (look : S -> Q -> option Z) (m : Q -> A -> bool) (Pok : A -> Prop) r l :
  (forall x s, Pok x -> Inv s -> exists s', f x s = Some s' /\ Inv s' /\ forall q, look s' q = omin (look s q) (hit (m q x) r)) ->
  forall s, Forall Pok l -> Inv s -> exists s', for_each f l s = Some s' /\ Inv s' /\ forall q, look s' q = omin (look s q) (hit (existsb (m q) l) r).
Proof.
  intros Hf. induction l as [|x l IH]; intros s Hl Hs; cbn [for_each existsb].
  - exists s. split; [done|]. split; [done|]. intros q. by rewrite omin_none_r.
  - apply Forall_cons_iff in Hl as [Hx Hl]. destruct (Hf x s Hx Hs) as (s1 & -> & Hs1 & Hq1). destruct (IH s1 Hl Hs1) as (s2 & -> & Hs2 & Hq2).
    exists s2. split; [done|]. split; [done|]. intros q. by rewrite Hq2, Hq1, <- omin_assoc, hit_or.
Qed.

Section Insert.
Context (n : Z).

Record domains_inv (t : DomainTrie) : Prop := {
  di_ok : trie_ok t;
  di_root : arena.view t [] = (None, None);
  di_ranks : forall p, ranks_lt n (arena.view t p);
}.
Definition domain_best (t : DomainTrie) (d : bytes) : option Z := best_domain (arena.view t) (labels d).

Lemma exact_insert_look e r t : labels (normalize e) <> [] -> 0 <= r < n -> domains_inv t ->
  exists t', domain_insert (normalize e) Exact r t = Some t' /\ domains_inv t' /\ forall d, domain_best t' d = omin (domain_best t d) (hit (exact_match d e) r).
Proof.
  intros Hne Hr [Hok Hroot Hlt]. destruct (domain_insert_spec (normalize e) Exact r t Hok) as (t' & -> & Hok' & Hv). exists t'. split; [done|]. split.
  - split; [done|rewrite Hv, decide_False by congruence; done|]. intros p. rewrite Hv. destruct (decide _); [|apply Hlt]. specialize (Hlt p). destruct (arena.view t p). by apply ranks_lt_omin.
  - intros d. unfold domain_best, exact_match. destruct (labels d) as [|k ls] eqn:Ed; cbn [best_domain]; [by rewrite bool_decide_false|].
    destruct (labels (normalize e)) as [|k' ks] eqn:Ee; [done|]. destruct (decide (k' = k)) as [->|Hn].
    + rewrite (best_along_exact (fun q => arena.view t (k :: q)) _ ks r).
      * f_equal. unfold hit. destruct (decide (ks = ls)) as [->|]; [by rewrite bool_decide_true|rewrite bool_decide_false; [done|congruence]].
      * intros p. rewrite Hv. destruct (decide (p = ks)) as [->|]; [by rewrite decide_True|rewrite decide_False; congruence].
    + rewrite bool_decide_false by congruence. rewrite omin_none_r. apply best_along_ext. intros p. rewrite Hv, decide_False; congruence.
Qed.
Lemma suffix_insert_look e r t : labels (normalize e) <> [] -> 0 <= r < n -> domains_inv t ->
  exists t', domain_insert (normalize e) Suffix r t = Some t' /\ domains_inv t' /\ forall d, domain_best t' d = omin (domain_best t d) (hit (suffix_match d e) r).
Proof.
  intros Hne Hr [Hok Hroot Hlt]. destruct (domain_insert_spec (normalize e) Suffix r t Hok) as (t' & -> & Hok' & Hv). exists t'. split; [done|]. split.
  - split; [done|rewrite Hv, decide_False by congruence; done|]. intros p. rewrite Hv. destruct (decide _); [|apply Hlt]. specialize (Hlt p). destruct (arena.view t p). by apply ranks_lt_omin.
  - intros d. unfold domain_best, suffix_match. destruct (labels (normalize e)) as [|k' ks] eqn:Ee; [done|].
    destruct (labels d) as [|k ls] eqn:Ed; cbn [best_domain]; [rewrite bool_decide_false; [done|by intros ?%prefix_nil_inv]|]. destruct (decide (k' = k)) as [->|Hn].
    + rewrite (best_along_cover (fun q => arena.view t (k :: q)) _ ks r).
      * f_equal. unfold hit. destruct (decide (ks `prefix_of` ls)) as [Hp|Hp]; [rewrite bool_decide_true by (by apply prefix_cons); done|rewrite bool_decide_false; [done|]]. intros Hp'. by apply prefix_cons_inv_2 in Hp'.
      * intros p. rewrite Hv. destruct (decide (p = ks)) as [->|]; [by rewrite decide_True|rewrite decide_False; congruence].
    + rewrite bool_decide_false by (intros Hp; by apply prefix_cons_inv_1 in Hp). rewrite omin_none_r. apply best_along_ext. intros p. rewrite Hv, decide_False; congruence.
Qed.
End Insert.

(** *** Keywords *)

Lemma scan_keywords_from d kws best : scan_keywords d kws best = omin best (scan_keywords d kws None).
Proof.
  unfold scan_keywords. revert best. induction kws as [|[k r] kws IH]; intros best; cbn [fold_left]; [by rewrite omin_none_r|].
  rewrite IH. symmetry. rewrite IH. symmetry. rewrite omin_assoc. f_equal. cbn [fst snd]. destruct (contains k d); [by rewrite min_opt_omin|by rewrite omin_none_r].
Qed.
Lemma scan_keywords_cons d k r kws : scan_keywords d ((k, r) :: kws) None = omin (hit (contains k d) r) (scan_keywords d kws None).
Proof. unfold scan_keywords at 1. cbn [fold_left fst snd]. fold (scan_keywords d kws (if contains k d then Some (min_opt None r) else None)). by rewrite scan_keywords_from. Qed.
#[export] Instance scan_keywords_perm d : Proper ((≡ₚ) ==> eq) (fun kws => scan_keywords d kws None).
Proof.
  intros l l' H. induction H as [|[k r] l l' _ IH|[k r] [k' r'] l|l l' l'' _ IH1 _ IH2]; [done| | |congruence].
  - by rewrite !scan_keywords_cons, IH.
  - rewrite !scan_keywords_cons, !omin_assoc. f_equal. apply omin_comm.
Qed.

Definition keyword_best (m : gmap bytes Z) (d : bytes) : option Z := scan_keywords d (map_to_list m) None.
Lemma keyword_best_insert m d k r : m !! k = None -> keyword_best (<[k := r]> m) d = omin (hit (contains k d) r) (keyword_best m d).
Proof. intros E. unfold keyword_best. rewrite <- scan_keywords_cons. apply (scan_keywords_perm d). by apply map_to_list_insert. Qed.
Lemma add_keyword_look r k m d : keyword_best (add_keyword r k m) d = omin (keyword_best m d) (hit (keyword_match d k) r).
Proof.
  unfold add_keyword, keyword_match. set (kk := normalize k). rewrite <- insert_delete_eq. rewrite keyword_best_insert by apply lookup_delete_eq. destruct (m !! kk) as [c|] eqn:E.
  - rewrite <- (insert_delete_id m kk c E) at 2. rewrite keyword_best_insert by apply lookup_delete_eq. rewrite (omin_comm (omin _ _)), omin_assoc. f_equal.
    destruct (contains kk d); [|done]. cbn. f_equal. lia.
  - rewrite delete_id by done. apply omin_comm.
Qed.
Lemma add_keywords_look r ks m d : keyword_best (fold_left (fun m k => add_keyword r k m) ks m) d = omin (keyword_best m d) (hit (existsb (keyword_match d) ks) r).
Proof.
  revert m. induction ks as [|k ks IH]; intros m; cbn [fold_left existsb]; [by rewrite omin_none_r|]. by rewrite IH, add_keyword_look, <- omin_assoc, hit_or.
Qed.

(** *** Prefixes *)

Lemma bit_at_testbit a i : i <= 127 -> bit_at a i = Z.testbit a (127 - i).
Proof.
  intros Hi. unfold bit_at. change 1 with (Z.ones 1). rewrite Z.land_ones by lia. change (2 ^ 1) with 2.
  replace (Z.testbit a (127 - i)) with (Z.odd (Z.shiftr a (127 - i))); [rewrite Zmod_odd; by destruct (Z.odd _)|]. by rewrite <- Z.bit0_odd, Z.shiftr_spec by lia.
Qed.
Lemma bit_above a j : 0 <= a < 2 ^ 128 -> 128 <= j -> Z.testbit a j = false.
Proof. intros Ha. apply (proj1 (Z.bounded_iff_bits_nonneg 128 a ltac:(lia) ltac:(lia))). lia. Qed.
Lemma bits_eq a b p : 0 <= p <= 128 -> 0 <= a < 2 ^ 128 -> 0 <= b < 2 ^ 128 -> bits a p = bits b p <-> Z.shiftr a (128 - p) = Z.shiftr b (128 - p).
Proof.
  intros Hp Ha Hb. unfold bits. split.
  - intros E. apply Z.bits_inj'. intros j Hj. rewrite !Z.shiftr_spec by lia. destruct (Z_lt_le_dec j p) as [Hlt|Hge].
    + apply (f_equal (fun l => l !! Z.to_nat (p - 1 - j))) in E. rewrite !list_lookup_fmap, !lookup_seqZ_lt in E by lia. injection E as E.
      rewrite !bit_at_testbit in E by lia. by replace (j + (128 - p)) with (127 - (0 + Z.of_nat (Z.to_nat (p - 1 - j)))) by lia.
    + by rewrite !bit_above by lia.
  - intros E. apply list_fmap_ext. intros k i [-> Hk]%lookup_seqZ. rewrite !bit_at_testbit by lia.
    apply (f_equal (fun x => Z.testbit x (p - 1 - Z.of_nat k))) in E. rewrite !Z.shiftr_spec in E by lia.
    by replace (127 - (0 + Z.of_nat k)) with (p - 1 - Z.of_nat k + (128 - p)) by lia.
Qed.
Lemma bits_prefix a b p m : 0 <= p <= m -> m <= 128 -> 0 <= a < 2 ^ 128 -> 0 <= b < 2 ^ 128 ->
  bits a p `prefix_of` bits b m <-> Z.shiftr b (128 - p) = Z.shiftr a (128 - p).
Proof.
  intros Hp Hm Ha Hb. rewrite (eq_comm (Z.shiftr b _) (Z.shiftr a _)), <- bits_eq by lia. assert (bits b m = bits b p ++ (bit_at b <$> seqZ (0 + p) (m - p))) as ->.
  { unfold bits. rewrite <- fmap_app, <- seqZ_app by lia. f_equal. f_equal. lia. }
  split; [|intros ->; by apply prefix_app_r]. intros [tl E]. apply app_inj_1 in E; [by destruct E|]. unfold bits. by rewrite !length_fmap, !length_seqZ.
Qed.

(** The address and the prefix trie of its family, as the lookup walks them. *)
Definition key_of (ip : IpAddr) : Z := if is_v6 ip then ip_value ip else Z.shiftl (ip_value ip) 96.
Definition half_of (ip : IpAddr) (t : CidrTrie) : BitTrie := if is_v6 ip then t_v6 t else t_v4 t.
Definition cidr_best (t : CidrTrie) (ip : IpAddr) : option Z := best_along (arena.view (half_of ip t)) (bits (key_of ip) (width ip)).
Record cidrs_inv (n : Z) (t : CidrTrie) : Prop := {
  ci_ok : trie_ok (t_v4 t) /\ trie_ok (t_v6 t);
  ci_ranks : forall p, ranks_lt n (arena.view (t_v4 t) p) /\ ranks_lt n (arena.view (t_v6 t) p);
}.

Lemma cidr_lookup_best t ip : trie_ok (t_v4 t) -> trie_ok (t_v6 t) -> cidr_lookup ip t = Some (cidr_best t ip).
Proof. intros H4 H6. destruct ip; by apply bit_lookup_spec. Qed.

Lemma key_bound ip : ip_ok ip -> 0 <= key_of ip < 2 ^ 128.
Proof.
  intros H%ip_value_bound. unfold key_of. destruct ip; cbn [is_v6 width] in *; [|lia]. rewrite Z.shiftl_mul_pow2 by lia.
  change (2 ^ 128) with (2 ^ 32 * 2 ^ 96). nia.
Qed.
Lemma key_shift ip p : 0 <= p <= width ip -> Z.shiftr (key_of ip) (128 - p) = Z.shiftr (ip_value ip) (width ip - p).
Proof.
  intros Hp. unfold key_of. destruct ip; cbn [is_v6 width] in *; [|done]. rewrite Z.shiftr_shiftl_r by lia. f_equal. lia.
Qed.
Lemma cidr_contains_bits ip c : ip_ok ip -> cidr_ok c -> is_v6 ip = is_v6 (c_addr c) ->
  bits (key_of (c_addr c)) (Z.min (c_prefix c) (width ip)) `prefix_of` bits (key_of ip) (width ip) <-> cidr_contains ip c = true.
Proof.
  intros Hip [Hc Hp] Hf. assert (width ip = width (c_addr c)) as Hw by (by destruct ip, (c_addr c)). assert (0 < width ip <= 128) as Hr by (destruct ip; cbn; lia).
  rewrite bits_prefix by (try lia; by apply key_bound). unfold cidr_contains. rewrite Hf, Bool.eqb_reflx. cbn [andb]. rewrite Z.eqb_eq.
  rewrite !key_shift by lia. by rewrite <- Hw.
Qed.

Lemma cidr_insert_look n c r t : cidr_ok c -> 0 <= r < n -> cidrs_inv n t ->
  exists t', cidr_insert c r t = Some t' /\ cidrs_inv n t' /\ forall ip : { ip | ip_ok ip }, cidr_best t' (proj1_sig ip) = omin (cidr_best t (proj1_sig ip)) (hit (cidr_contains (proj1_sig ip) c) r).
Proof.
  intros Hc Hr [[H4 H6] Hlt]. unfold cidr_insert.
  assert (forall six ip v v', is_v6 (c_addr c) = six -> is_v6 ip = six -> ip_ok ip ->
    (forall p, arena.view v' p = if decide (p = bits (key_of (c_addr c)) (Z.min (c_prefix c) (width ip))) then (omin (arena.view v p).1 (Some r), (arena.view v p).2) else arena.view v p) ->
    best_along (arena.view (v' : BitTrie)) (bits (key_of ip) (width ip)) = omin (best_along (arena.view (v : BitTrie)) (bits (key_of ip) (width ip))) (hit (cidr_contains ip c) r)) as Hsame.
  { intros six ip v v' Hs Hi Hip Hv. rewrite (best_along_cover _ _ _ _ _ Hv). f_equal. pose proof (cidr_contains_bits ip c Hip Hc ltac:(congruence)) as Hb. unfold hit.
    destruct (decide _) as [Hp|Hp]; [by rewrite (proj1 Hb Hp)|]. destruct (cidr_contains ip c); [by destruct Hp; apply Hb|done]. }
  assert (forall v v' ks, (forall p, ranks_lt n (arena.view v p)) ->
    (forall p, arena.view v' p = if decide (p = ks) then (omin (arena.view v p).1 (Some r), (arena.view v p).2) else arena.view v p) -> forall p, ranks_lt n (arena.view (v' : BitTrie) p)) as Hranks.
  { intros v v' ks Hn Hv p. rewrite Hv. destruct (decide _); [|apply Hn]. specialize (Hn p). destruct (arena.view v p). by apply ranks_lt_omin. }
  assert (forall ip, is_v6 ip <> is_v6 (c_addr c) -> hit (cidr_contains ip c) r = None) as Hother.
  { intros ip Hi. unfold cidr_contains. apply Bool.eqb_false_iff in Hi. by rewrite Hi. }
  destruct (c_addr c) as [o|o] eqn:Ec.
  - destruct (bit_insert_spec (Z.shiftl (ip_value (V4 o)) 96) (c_prefix c) 32 r (t_v4 t) H4) as (v & -> & Hok & Hv). eexists. split; [reflexivity|]. split.
    + split; [done|]. intros p. cbn. split; [|apply Hlt]. eapply Hranks; [|exact Hv]. apply Hlt.
    + intros [ip Hip]. cbn [proj1_sig]. unfold cidr_best. destruct ip as [i|i]; [apply (Hsame false); auto|]. rewrite Hother by done. by rewrite omin_none_r.
  - destruct (bit_insert_spec (ip_value (V6 o)) (c_prefix c) 128 r (t_v6 t) H6) as (v & -> & Hok & Hv). eexists. split; [reflexivity|]. split.
    + split; [done|]. intros p. cbn. split; [apply Hlt|]. eapply Hranks; [|exact Hv]. apply Hlt.
    + intros [ip Hip]. cbn [proj1_sig]. unfold cidr_best. destruct ip as [i|i]; [|apply (Hsame true); auto]. rewrite Hother by done. by rewrite omin_none_r.
Qed.

(** *** Building *)

(** The best rank among the rule lists that satisfy [f], the first at rank [i]. *)
Fixpoint best_of (f : RuleSet -> bool) (l : list (Action * RuleSet)) (i : Z) : option Z :=
  match l with [] => None | (_, rs) :: l => omin (hit (f rs) (rank_of i)) (best_of f l (i + 1)) end.
Lemma best_of_or f g l i : omin (best_of f l i) (best_of g l i) = best_of (fun rs => f rs || g rs) l i.
Proof.
  revert i. induction l as [|[a rs] l IH]; intros i; cbn; [done|]. rewrite <- IH, <- hit_or, <- !omin_assoc. f_equal. rewrite !omin_assoc. f_equal. apply omin_comm.
Qed.
Lemma best_of_false l i : best_of (fun _ => false) l i = None.
Proof. revert i. induction l as [|[a rs] l IH]; intros i; cbn; [done|apply IH]. Qed.

Record building_inv (n : Z) (b : Building) : Prop := { bi_domains : domains_inv n (b_domains b); bi_cidrs : cidrs_inv n (b_cidrs b) }.

Lemma rank_of_bound i n : 0 <= i < n -> 0 <= rank_of i < n.
Proof. unfold rank_of. destruct (Z.ltb_spec i (2 ^ 16)); lia. Qed.

Lemma build_entry_look n i a rs b : rules_ok rs -> 0 <= i < n -> building_inv n b -> exists b',
  build_entry i a rs b = Some b' /\ building_inv n b' /\ b_actions b' = b_actions b ++ [a] /\
  (forall d, domain_best (b_domains b') d = omin (domain_best (b_domains b) d) (hit (domain_rules_match d rs) (rank_of i))) /\
  (forall d, keyword_best (b_keywords b') d = omin (keyword_best (b_keywords b) d) (hit (existsb (keyword_match d) (domain_keyword rs)) (rank_of i))) /\
  (forall ip, ip_ok ip -> cidr_best (b_cidrs b') ip = omin (cidr_best (b_cidrs b) ip) (hit (existsb (cidr_contains ip) (ip_cidr rs)) (rank_of i))).
Proof.
  intros [Hd Hs Hc] Hi%rank_of_bound [Hdi Hci]. unfold build_entry. cbv zeta. cbn [b_domains b_keywords b_cidrs b_actions update_field Building_eta].
  destruct (for_each_look (fun x => domain_insert (normalize x) Exact (rank_of i)) (domains_inv n) domain_best exact_match _ (rank_of i) _ (fun x t Hx => exact_insert_look n x (rank_of i) t Hx Hi) (b_domains b) Hd Hdi) as (d1 & -> & Hd1 & Hq1).
  destruct (for_each_look (fun x => domain_insert (normalize x) Suffix (rank_of i)) (domains_inv n) domain_best suffix_match _ (rank_of i) _ (fun x t Hx => suffix_insert_look n x (rank_of i) t Hx Hi) d1 Hs Hd1) as (d2 & -> & Hd2 & Hq2).
  destruct (for_each_look (fun x => cidr_insert x (rank_of i)) (cidrs_inv n) (fun t (ip : { ip | ip_ok ip }) => cidr_best t (proj1_sig ip)) (fun ip => cidr_contains (proj1_sig ip)) _ (rank_of i) _ (fun x t Hx => cidr_insert_look n x (rank_of i) t Hx Hi) (b_cidrs b) Hc Hci) as (c & -> & Hc' & Hqc).
  eexists. split; [reflexivity|]. split; [by split|]. split; [done|]. split; [|split].
  - intros d. cbn. by rewrite Hq2, Hq1, <- omin_assoc, hit_or.
  - intros d. apply add_keywords_look.
  - intros ip Hip. apply (Hqc (exist _ ip Hip)).
Qed.

Lemma build_entries_look n l : forall i b, Forall (fun e => rules_ok e.2) l -> 0 <= i -> i + Z.of_nat (length l) <= n -> building_inv n b -> exists b',
  build_entries i l b = Some b' /\ building_inv n b' /\ b_actions b' = b_actions b ++ l.*1 /\
  (forall d, domain_best (b_domains b') d = omin (domain_best (b_domains b) d) (best_of (domain_rules_match d) l i)) /\
  (forall d, keyword_best (b_keywords b') d = omin (keyword_best (b_keywords b) d) (best_of (fun rs => existsb (keyword_match d) (domain_keyword rs)) l i)) /\
  (forall ip, ip_ok ip -> cidr_best (b_cidrs b') ip = omin (cidr_best (b_cidrs b) ip) (best_of (fun rs => existsb (cidr_contains ip) (ip_cidr rs)) l i)).
Proof.
  induction l as [|[a rs] l IH]; intros i b Hl Hi Hn Hb; cbn [build_entries best_of fmap list_fmap].
  - exists b. rewrite app_nil_r. repeat (split; [done|]). repeat split; intros; by rewrite omin_none_r.
  - apply Forall_cons_iff in Hl as [Hrs Hl]. cbn [length] in Hn. destruct (build_entry_look n i a rs b Hrs) as (b1 & -> & Hb1 & Ea1 & Hd1 & Hk1 & Hc1); [lia|done|].
    destruct (IH (i + 1) b1 Hl) as (b2 & -> & Hb2 & Ea2 & Hd2 & Hk2 & Hc2); [lia|lia|done|]. exists b2. split; [done|]. split; [done|].
    split; [rewrite Ea2, Ea1, <- app_assoc; done|]. repeat split; intros; [rewrite Hd2, Hd1|rewrite Hk2, Hk1|rewrite Hc2, Hc1 by done]; by rewrite omin_assoc.
Qed.

Lemma empty_building_inv n : building_inv n (mk_building [] [] ∅ cidrs_default).
Proof.
  split; split; cbn [b_domains b_cidrs cidrs_default t_v4 t_v6].
  - by left.
  - done.
  - intros p r. rewrite (view_nil trie_blank). by intros [|].
  - split; by left.
  - intros p. split; intros r; rewrite (view_nil bit_blank); by intros [|].
Qed.

(** What the finished matcher holds: the same best ranks, compacted. *)
Lemma build_look it l : order_ok it -> Forall (fun e => rules_ok e.2) l -> exists m,
  build it l = Some m /\ actions m = l.*1 /\ trie_ok (domains m) /\ trie_ok (t_v4 (cidrs m)) /\ trie_ok (t_v6 (cidrs m)) /\
  (forall d, domain_best (domains m) d = best_of (domain_rules_match d) l 0) /\
  (forall d, scan_keywords d (keywords m) None = best_of (fun rs => existsb (keyword_match d) (domain_keyword rs)) l 0) /\
  (forall ip, ip_ok ip -> cidr_best (cidrs m) ip = best_of (fun rs => existsb (cidr_contains ip) (ip_cidr rs)) l 0).
Proof.
  intros Hit Hl. set (n := Z.of_nat (length l)). destruct (build_entries_look n l 0 _ Hl ltac:(lia) ltac:(lia) (empty_building_inv n)) as (b & Eb & [[Hdok Hroot Hdr] [[H4 H6] Hcr]] & Ea & Hd & Hk & Hc).
  cbn [b_actions b_domains b_keywords b_cidrs app] in *. assert (n = Z.of_nat (length (b_actions b))) as Hn by (by rewrite Ea, length_fmap).
  assert (forall x, ranks_lt n x -> ranks_ok (b_actions b) x) as Hx by (intros x; rewrite Hn; apply ranks_lt_ok).
  unfold build. rewrite Eb. destruct (domain_compact_spec it (b_actions b) (b_domains b) Hit Hdok (fun p => Hx _ (Hdr p))) as (d & -> & Hd' & Hv).
  unfold cidr_compact. destruct (bit_compact_spec (b_actions b) (t_v4 (b_cidrs b)) H4 (fun p => Hx _ (proj1 (Hcr p)))) as (v4 & -> & Hv4 & Hq4).
  destruct (bit_compact_spec (b_actions b) (t_v6 (b_cidrs b)) H6 (fun p => Hx _ (proj2 (Hcr p)))) as (v6 & -> & Hv6 & Hq6).
  eexists. split; [reflexivity|]. cbn. repeat (split; [done|]). repeat split.
  - intros e. transitivity (domain_best (b_domains b) e).
    + unfold domain_best. rewrite <- (compact_best_domain (trie_index (b_actions b)) (arena.view (b_domains b)) (labels e)) by (by rewrite Hroot).
      unfold best_domain. destruct (labels e) as [|k ls]; [done|]. apply best_along_ext. intros p. apply Hv.
    + rewrite Hd. unfold domain_best, best_domain. destruct (labels e); [done|]. by rewrite best_along_none.
  - intros e. transitivity (keyword_best (b_keywords b) e); [|by rewrite Hk]. unfold keyword_best. apply (scan_keywords_perm e). apply merge_sort_Permutation.
  - intros ip Hip. transitivity (cidr_best (b_cidrs b) ip).
    + unfold cidr_best, half_of. destruct (is_v6 ip); cbn; [apply Hq6|apply Hq4].
    + rewrite Hc by done. unfold cidr_best. rewrite best_along_none; [done|]. intros p. destruct ip; apply (view_nil bit_blank).
Qed.

Lemma best_of_first f l i : 0 <= i -> i + Z.of_nat (length l) <= 2 ^ 16 ->
  match best_of f l i with
  | Some r => i <= r /\ exists a rs, l !! Z.to_nat (r - i) = Some (a, rs) /\ f rs = true /\ forall j e, (j < Z.to_nat (r - i))%nat -> l !! j = Some e -> f e.2 = false
  | None => forall j e, l !! j = Some e -> f e.2 = false
  end.
Proof.
  revert i. induction l as [|[a rs] l IH]; intros i Hi Hl; cbn [best_of]; [done|]. cbn [length] in Hl. specialize (IH (i + 1) ltac:(lia) ltac:(lia)).
  assert (rank_of i = i) as -> by (unfold rank_of; destruct (Z.ltb_spec i (2 ^ 16)); lia). destruct (f rs) eqn:E; cbn [hit].
  - assert (omin (Some i) (best_of f l (i + 1)) = Some i) as -> by (destruct (best_of f l (i + 1)) as [r|]; [cbn; f_equal; lia|done]).
    split; [lia|]. replace (Z.to_nat (i - i)) with 0%nat by lia. exists a, rs. split; [done|]. split; [done|lia].
  - cbn [omin]. destruct (best_of f l (i + 1)) as [r|].
    + destruct IH as (Hr & a' & rs' & El & Hf & Hmin). split; [lia|]. replace (Z.to_nat (r - i)) with (S (Z.to_nat (r - (i + 1)))) by lia.
      exists a', rs'. split; [done|]. split; [done|]. intros [|j] e Hj He; [by injection He as <-|]. by apply (Hmin j); [lia|].
    + intros [|j] e He; [by injection He as <-|by eapply IH].
Qed.
Lemma naive_lookup_first l dom ip k a rs : l !! k = Some (a, rs) -> rules_match dom ip rs = true -> (forall j e, (j < k)%nat -> l !! j = Some e -> rules_match dom ip e.2 = false) ->
  naive_lookup l dom ip = Some a.
Proof.
  revert k. induction l as [|[a' rs'] l IH]; intros k E Hf Hmin; [done|]. cbn. destruct k as [|k]; [injection E as -> ->; by rewrite Hf|].
  pose proof (Hmin 0%nat (a', rs') ltac:(lia) eq_refl) as H0. cbn in H0. rewrite H0. apply (IH k E Hf). intros j e Hj He. by apply (Hmin (S j)); [lia|].
Qed.
Lemma naive_lookup_none l dom ip : (forall j e, l !! j = Some e -> rules_match dom ip e.2 = false) -> naive_lookup l dom ip = None.
Proof. induction l as [|[a rs] l IH]; intros H; [done|]. cbn. pose proof (H 0%nat (a, rs) eq_refl) as H0. cbn in H0. rewrite H0. apply IH. intros j e He. by apply (H (S j)). Qed.

Lemma best_of_ext f g l i : (forall rs, f rs = g rs) -> best_of f l i = best_of g l i.
Proof. intros H. revert i. induction l as [|[a rs] l IH]; intros i; cbn; [done|]. by rewrite H, IH. Qed.
Lemma keep_best_omin best r : keep_best best r = omin best r.
Proof. destruct r; [apply min_opt_omin|by rewrite omin_none_r]. Qed.

Lemma lookup_best it l m dom ip : order_ok it -> Forall (fun e => rules_ok e.2) l -> ip_ok ip -> build it l = Some m ->
  lookup m dom ip = match best_of (rules_match dom ip) l 0 with Some r => let! a := action_of l.*1 r in Some (Some a) | None => Some None end.
Proof.
  intros Hit Hl Hip Hm. destruct (build_look it l Hit Hl) as (m' & Em & Ea & Hd & H4 & H6 & Hqd & Hqk & Hqc). rewrite Hm in Em. injection Em as <-.
  unfold lookup. rewrite cidr_lookup_best, Hqc, Ea by done. destruct dom as [d|].
  - cbv zeta. rewrite domain_lookup_spec by done. change (best_domain _ _) with (domain_best (domains m) (normalize d)). rewrite Hqd, !keep_best_omin, scan_keywords_from, Hqk. cbn [omin].
    rewrite !best_of_or. done.
  - cbn. rewrite keep_best_omin. cbn [omin]. erewrite (best_of_ext (rules_match None ip)); [done|]. done.
Qed.

Lemma lookup_scan it l dom ip : order_ok it -> entries_ok l -> ip_ok ip ->
  exists m, build it l = Some m /\ lookup m dom ip = Some (naive_lookup l dom ip).
Proof.
  intros Hit [Hlen Hl] Hip. destruct (build_look it l Hit Hl) as (m & Em & _). exists m. split; [done|]. rewrite (lookup_best it l m dom ip Hit Hl Hip Em).
  pose proof (best_of_first (rules_match dom ip) l 0 ltac:(lia) ltac:(lia)) as Hb. destruct (best_of _ l 0) as [r|].
  - destruct Hb as (Hr & a & rs & El & Hf & Hmin). rewrite Z.sub_0_r in El, Hmin. unfold action_of. rewrite list_lookup_fmap, El. cbn. by rewrite (naive_lookup_first l dom ip _ a rs El).
  - by rewrite naive_lookup_none.
Qed.

(** C6: the compiled matcher decides every flow as the scan of the rule lists does: with at
    most 2^16 rule lists and no empty domain rule, [build] does not panic whatever the
    iteration order of the hash maps, and [lookup] returns the action of the first rule list
    with a rule that matches the domain or the address, or none. *)
Theorem lookup_is_scan it l dom ip : order_ok it -> entries_ok l -> ip_ok ip ->
  exists m, build it l = Some m /\ lookup m dom ip = Some (naive_lookup l dom ip).
Proof. apply lookup_scan. Qed.

(** An iteration order, for evaluation. *)
Definition some_order : Order := fun m => (map_to_list m).*2.

Definition example_com : bytes := Eval vm_compute in lit "example.com".
Definition ads_example_com : bytes := Eval vm_compute in lit "ads.example.com".
Definition ten_net : IpCidr := mk_cidr (V4 [10; 0; 0; 0]) 8.
Definition sample_entries : list (Action * RuleSet) :=
  [(Reject, mk_rules [] [ads_example_com] [] []); (Direct, mk_rules [] [example_com] [] [ten_net]); (Reject, mk_rules [ads_example_com] [] [[97; 100]] [])].

Lemma sample_entries_ok : entries_ok sample_entries.
Proof.
  split; [discriminate|]. repeat (constructor || (intros [=])); discriminate.
Qed.

Lemma lookup_is_scan_witness : exists m, build some_order sample_entries = Some m /\
  lookup m (Some ads_example_com) (V4 [10; 1; 2; 3]) = Some (naive_lookup sample_entries (Some ads_example_com) (V4 [10; 1; 2; 3])).
Proof.
  assert (order_ok some_order) as Hit by (intros m; reflexivity).
  assert (ip_ok (V4 [10; 1; 2; 3])) as Hip by (split; [repeat constructor; unfold fits; cbn; lia|reflexivity]).
  exact (lookup_is_scan some_order sample_entries (Some ads_example_com) (V4 [10; 1; 2; 3]) Hit sample_entries_ok Hip).
Defined.

(** An empty suffix rule erases the rules beside it: a bypass list of [example.com] sends
    [example.com] direct, and the same list with the entry [.] added no longer matches it.
    The compaction takes the rank at the root for a cover that lookups never consult. *)
Theorem empty_suffix_erases :
  (exists m, build some_order [(Direct, mk_rules [] [example_com] [] [])] = Some m /\ lookup m (Some example_com) (V4 [0; 0; 0; 0]) = Some (Some Direct)) /\
  (exists m, build some_order [(Direct, mk_rules [] [[DOT]; example_com] [] [])] = Some m /\ lookup m (Some example_com) (V4 [0; 0; 0; 0]) = Some None).
Proof. split; eexists; (split; [vm_compute; reflexivity|vm_compute; reflexivity]). Qed.

(** A suffix rule with a leading dot also matches the bare domain. *)
Theorem dotted_suffix_matches_bare : exists m,
  build some_order [(Direct, mk_rules [] [DOT :: example_com] [] [])] = Some m /\ lookup m (Some example_com) (V4 [0; 0; 0; 0]) = Some (Some Direct).
Proof. eexists. split; [vm_compute; reflexivity|vm_compute; reflexivity]. Qed.
End matcher.
