(* ===== verification/SrsMatch.v ===== *)
(** [dump_domains] of [core/src/rules/srs.rs] against the matcher: splitting the keys of a
    domain set into rules keeps what they match. *)

From stdpp Require Import base gmap list numbers.
From S2P Require Import Prelude RustStr BTree NetAddr RuleTrie SrsSet RuleMatcher.

Module dump.
Import net rules srs matcher.

(** What one key of a domain set stands for. *)
Definition key_match (d key : bytes) : bool :=
  match reverse_bytes key with
  | b :: rest =>
      if (b =? PREFIX_LABEL) || (b =? ROOT_LABEL) then utf8_valid rest && suffix_match d rest
      else utf8_valid (b :: rest) && exact_match d (b :: rest)
  | [] => exact_match d []
  end.

Lemma labels_dot s : labels (DOT :: s) = labels s.
Proof. unfold labels. cbn [split_on]. rewrite Z.eqb_refl, reverse_cons, list.filter_app. cbn. apply app_nil_r. Qed.
Lemma normalize_dot s : labels (normalize (DOT :: s)) = labels (normalize s).
Proof.
  destruct (decide (s = [])) as [->|Hs]; [done|]. assert (normalize (DOT :: s) = DOT :: normalize s) as ->; [|apply labels_dot]. unfold normalize, strip_suffix. change (reverse [DOT]) with [DOT]. rewrite reverse_cons.
  destruct (reverse s) as [|x r] eqn:E; [by apply (f_equal reverse) in E; rewrite reverse_involutive in E|]. cbn [app strip_prefix]. destruct (DOT =? x); cbn [fmap option_fmap option_map default]; [|done].
  by rewrite reverse_app.
Qed.
Lemma suffix_match_dot d s : suffix_match d (DOT :: s) = suffix_match d s.
Proof. unfold suffix_match. by rewrite normalize_dot. Qed.
Lemma exact_suffix d s : exact_match d s = true -> suffix_match d s = true.
Proof. unfold exact_match, suffix_match. rewrite !bool_decide_eq_true. by intros ->. Qed.

(** ** Ordered sets as lists of keys *)

Lemma existsb_insert (f : bytes -> bool) k m : existsb f (bt_keys (bt_insert k tt m)) = f k || existsb f (bt_keys m).
Proof.
  induction m as [|[k' []] m IH]; [done|]. cbn [bt_insert]. destruct (kcmp k k') eqn:E; cbn [bt_keys fmap list_fmap existsb fst]; [|done|].
  - apply kcmp_eq in E as ->. by rewrite orb_assoc, orb_diag.
  - unfold bt_keys in IH. rewrite IH, !orb_assoc. f_equal. apply orb_comm.
Qed.
Lemma existsb_mem (f : bytes -> bool) k (m : list (bytes * unit)) : bt_mem k m = true -> existsb f (bt_keys m) = f k || existsb f (bt_keys m).
Proof.
  unfold bt_mem. induction m as [|[k' []] m IH]; [done|]. cbn [bt_get bt_keys fmap list_fmap existsb fst]. unfold bt_keys in IH.
  destruct (kcmp k k') eqn:E; [apply kcmp_eq in E as ->; by rewrite orb_assoc, orb_diag|..]; intros H; rewrite (IH H); by destruct (f k), (f k').
Qed.
Lemma existsb_delete (f : bytes -> bool) k (m : list (bytes * unit)) : f k || existsb f (bt_keys m) = f k || existsb f (bt_keys (bt_remove k m)).
Proof.
  induction m as [|[k' []] m IH]; [done|]. cbn [bt_remove bt_keys fmap list_fmap existsb fst]. unfold bt_keys in IH.
  destruct (kcmp k k') eqn:E; [apply kcmp_eq in E as ->; by rewrite <- IH, orb_assoc, orb_diag|..]; cbn [fmap list_fmap existsb fst]; rewrite !(orb_comm (f k)), <- !orb_assoc, !(orb_comm _ (f k)), IH; done.
Qed.
Lemma existsb_remove (f : bytes -> bool) k (m : list (bytes * unit)) : bt_mem k m = true -> existsb f (bt_keys m) = f k || existsb f (bt_keys (bt_remove k m)).
Proof. intros H. by rewrite (existsb_mem f k m H), existsb_delete. Qed.

(** What the collected keys match, the prefixes in [l] still to be folded in. *)
Definition dump_match (d : bytes) (l : list bytes) (x : Dump) : bool :=
  existsb (exact_match d) (bt_keys (domain_map x)) || existsb (suffix_match d) l || existsb (suffix_match d) (suffix_list x).

Lemma sort_key_match d x key : dump_match d (bt_keys (prefix_set (sort_key x key))) (sort_key x key) = dump_match d (bt_keys (prefix_set x)) x || key_match d key.
Proof.
  unfold sort_key, key_match, dump_match. cbv zeta. destruct (reverse_bytes key) as [|b rest].
  - change (utf8_valid []) with true. cbn [domain_map prefix_set suffix_list update_field Dump_eta]. rewrite existsb_insert. by destruct (exact_match d []), (existsb _ _), (existsb _ _), (existsb _ _).
  - destruct (b =? PREFIX_LABEL); cbn [orb].
    { destruct (utf8_valid rest); cbn [andb]; [|by rewrite orb_false_r]. cbn [domain_map prefix_set suffix_list update_field Dump_eta]. rewrite existsb_insert. by destruct (suffix_match d rest), (existsb _ _), (existsb _ _), (existsb _ _). }
    destruct (b =? ROOT_LABEL).
    { destruct (utf8_valid rest); cbn [andb]; [|by rewrite orb_false_r]. cbn [domain_map prefix_set suffix_list update_field Dump_eta]. rewrite existsb_app. cbn [existsb]. by rewrite orb_false_r, !orb_assoc. }
    destruct (utf8_valid (b :: rest)); cbn [andb]; [|by rewrite orb_false_r]. cbn [domain_map prefix_set suffix_list update_field Dump_eta]. rewrite existsb_insert. by destruct (exact_match d (b :: rest)), (existsb _ _), (existsb _ _), (existsb _ _).
Qed.
Lemma sort_keys_match d ks : forall x, dump_match d (bt_keys (prefix_set (fold_left sort_key ks x))) (fold_left sort_key ks x) = dump_match d (bt_keys (prefix_set x)) x || existsb (key_match d) ks.
Proof. induction ks as [|k ks IH]; intros x; cbn [fold_left existsb]; [by rewrite orb_false_r|]. by rewrite IH, sort_key_match, orb_assoc. Qed.

Lemma fold_prefix_match d l p x : dump_match d l (fold_prefix x p) = dump_match d (p :: l) x.
Proof.
  unfold fold_prefix. assert (forall x, dump_match d l (x <| suffix_list := suffix_list x ++ [p] |>) = dump_match d (p :: l) x) as Hpush.
  { intros y. unfold dump_match. cbn. rewrite existsb_app. cbn. by destruct (suffix_match d p), (existsb _ _), (existsb _ _), (existsb _ _). }
  destruct (strip_prefix [DOT] p) as [root|] eqn:E; [|apply Hpush]. apply strip_prefix_Some in E as ->. destruct (bt_mem root (domain_map x)) eqn:Em; [|apply Hpush].
  unfold dump_match. cbn [domain_map suffix_list update_field Dump_eta app existsb]. rewrite existsb_app, (existsb_remove _ _ _ Em), suffix_match_dot. cbn [existsb]. pose proof (exact_suffix d root) as Hs.
  destruct (exact_match d root); [rewrite Hs by done|]; by destruct (suffix_match d root), (existsb _ _), (existsb _ _), (existsb _ _).
Qed.
Lemma fold_prefixes_match d l : forall x, dump_match d [] (fold_left fold_prefix l x) = dump_match d l x.
Proof. induction l as [|p l IH]; intros x; cbn [fold_left]; [done|]. by rewrite IH, fold_prefix_match. Qed.

(** splitting the keys of a domain set into exact and suffix rules, with a dotted suffix folded
    into the exact rule of the same name, does not change what they match: the rules
    collected match a domain iff they did before or one of the keys does. *)
Theorem dump_domains_matches ks out d : domain_rules_match d (dump_domains ks out) = domain_rules_match d out || existsb (key_match d) ks.
Proof.
  unfold domain_rules_match, dump_domains. cbv zeta. cbn [domain domain_suffix update_field RuleSet_eta]. rewrite !existsb_app. set (x := fold_left sort_key ks (mk_dump [] [] [])).
  pose proof (fold_prefixes_match d (bt_keys (prefix_set x)) x) as H1. pose proof (sort_keys_match d ks (mk_dump [] [] [])) as H2. fold x in H2. rewrite H2 in H1. unfold dump_match in H1. cbn [existsb orb bt_keys domain_map prefix_set suffix_list fmap list_fmap] in H1.
  rewrite orb_false_r in H1. rewrite <- H1. repeat match goal with |- context [existsb ?f ?l] => destruct (existsb f l) end; done.
Qed.
End dump.
