(* ===== verification/RuleRouter.v ===== *)
(** [core/src/rules/router.rs] with [routing_mode.rs] and the rule configuration: the per-flow
    routing decision, the live switches and the reload, and their refinement of the
    rule lists themselves.  Each lock guards one field and is held for one access, so a
    call is a function of the router's state. *)

From stdpp Require Import base gmap list numbers.
From S2P Require Import Prelude RustStr RustNet NetAddr RuleTrie RuleCover SrsSet Srs RuleMatcher.

Module router.
Import net rules srs parser matcher text.

(** ** Configuration *)

(** [config::RouteAction] has the actions' constructors; [map_action] below. *)
Inductive RouteAction := RProxy | RDirect | RProxyless | RReject.
#[export] Instance RouteAction_eq_dec : EqDecision RouteAction.
Proof. solve_decision. Defined.
Record RuleSetRef := mk_ref { ref_action : RouteAction; tag : bytes; url : bytes; ref_ad_block : bool }.
Record InlineIpRule := mk_inline { cidr : bytes; inline_action : RouteAction }.
Record SmartRoutingConfig := mk_config { rule_sets : list RuleSetRef; inline_ip_rules : list InlineIpRule }.

Inductive RoutingMode := Smart | Full.
(** [routing_mode::parse]. *)
Definition parse_mode (s : bytes) : RoutingMode := if bool_decide (to_ascii_lowercase (trim s) = lit "full") then Full else Smart.

(** [split_tunnel::SplitTunnel]. *)
Record SplitTunnel := mk_split { enabled : bool; st_domains : list bytes; st_ips : list bytes }.
#[export] Instance SplitTunnel_eta : Settable SplitTunnel := fun s => mk_split (enabled s) (st_domains s) (st_ips s).
Definition is_empty (s : SplitTunnel) : bool := bool_decide (st_domains s = []) && bool_decide (st_ips s = []).

Inductive Protocol := Tcp | Udp.

Definition map_action (a : RouteAction) : Action :=
  match a with RProxy => Proxy | RDirect => Direct | RProxyless => Proxyless | RReject => Reject end.

Definition max_prefix (a : IpAddr) : Z := if is_v6 a then 128 else 32.
Definition parse_cidr (s : bytes) : option IpCidr :=
  let! (addr_s, prefix_s) := split_once 47 s in
  let! addr := parse_ip (trim addr_s) in
  let! prefix := parse_u8 (trim prefix_s) in
  if max_prefix addr <? prefix then None else Some (mk_cidr addr prefix).
Definition parse_ip_or_cidr (s : bytes) : option IpCidr :=
  let s := trim s in
  match split_once 47 s with
  | Some (addr_s, prefix_s) =>
      let! addr := parse_ip (trim addr_s) in
      let! prefix := parse_u8 (trim prefix_s) in
      if prefix <=? max_prefix addr then Some (mk_cidr addr prefix) else None
  | None => let! addr := parse_ip s in Some (mk_cidr addr (max_prefix addr))
  end.
Definition from_domains_and_ips (domains ips : list bytes) : RuleSet := mk_rules [] domains [] (omap parse_ip_or_cidr ips).

(** ** The router *)

Definition Resolver : Type := SocketAddr -> Protocol -> option bytes.
Record Router := mk_router {
  base : Matcher; ad_block : Matcher; ad_block_enabled : bool;
  user_bypass : option Matcher; mode : RoutingMode; app_bypass : option (list bytes); resolver : option Resolver }.
#[export] Instance Router_eta : Settable Router := fun r =>
  mk_router (base r) (ad_block r) (ad_block_enabled r) (user_bypass r) (mode r) (app_bypass r) (resolver r).

Section Router.
(** The iteration order of the hash maps, zlib, the loader of rule-set files with its
    state, and the file system's [canonicalize]. *)
Context (it : Order) (inflate : bytes -> option bytes).
Context {St : Type} (load : RuleSetRef -> St -> option bytes * St).
Context (canonicalize : bytes -> option bytes).

Definition new (b : Matcher) : option Router :=
  let! ads := build it [] in Some (mk_router b ads true None Smart None None).

Definition set_ad_block_enabled (on : bool) (r : Router) : Router := r <| ad_block_enabled := on |>.
Definition set_mode (m : RoutingMode) (r : Router) : Router := r <| mode := m |>.
Definition set_process_resolver (f : option Resolver) (r : Router) : Router := r <| resolver := f |>.
Definition set_user_bypass (st : option SplitTunnel) (r : Router) : option Router :=
  match st with
  | Some s =>
      if enabled s && negb (is_empty s)
      then let! m := build it [(Direct, from_domains_and_ips (st_domains s) (st_ips s))] in Some (r <| user_bypass := Some m |>)
      else Some (r <| user_bypass := None |>)
  | None => Some (r <| user_bypass := None |>)
  end.
Definition set_app_bypass (paths : list bytes) (r : Router) : Router :=
  let l := (fun p => default p (canonicalize p)) <$> filter (fun p => p <> []) (trim <$> paths) in
  r <| app_bypass := match l with [] => None | _ => Some l end |>.

(** The outer [option] is a panic of the parser. *)
Definition load_ruleset (r : RuleSetRef) (st : St) : option (option RuleSet * St) :=
  let (b, st) := load r st in
  match b with
  | None => Some (None, st)
  | Some b => match parse inflate b with Ret rs => Some (Some rs, st) | Fail _ => Some (None, st) | Panic | Exhausted => None end
  end.
Fixpoint load_all (act : RuleSetRef -> Action) (refs : list RuleSetRef) (st : St) : option (list (Action * RuleSet) * St) :=
  match refs with
  | [] => Some ([], st)
  | r :: refs =>
      let! (rs, st) := load_ruleset r st in
      let! (l, st) := load_all act refs st in
      Some (match rs with Some rs => (act r, rs) :: l | None => l end, st)
  end.
Definition inline_entries (sr : SmartRoutingConfig) : list (Action * RuleSet) :=
  mbind (fun a => match omap (fun ir => parse_cidr (cidr ir)) (filter (fun ir => inline_action ir = a) (inline_ip_rules sr)) with
                  | [] => []
                  | l => [(map_action a, ip_only l)]
                  end) [RReject; RDirect; RProxyless; RProxy].
(** The two rule lists of [build], highest precedence first: the ad-block lists, the others. *)
Definition rule_lists (sr : SmartRoutingConfig) (st : St) : option (list (Action * RuleSet) * list (Action * RuleSet) * St) :=
  let! (ads, st) := load_all (fun _ => Reject) (filter (fun r => ref_ad_block r = true) (rule_sets sr)) st in
  let! (others, st) := load_all (fun r => map_action (ref_action r)) (filter (fun r => ref_ad_block r = false) (rule_sets sr)) st in
  Some (ads, inline_entries sr ++ others, st).
Definition build_router (sr : SmartRoutingConfig) (st : St) : option (Router * St) :=
  let! (ads, entries, st) := rule_lists sr st in
  let! b := build it entries in
  let! a := build it ads in
  Some (mk_router b a true None Smart None None, st).
Definition reload_rules (sr : SmartRoutingConfig) (st : St) (r : Router) : option (Router * St) :=
  let! (fresh, st) := build_router sr st in
  Some (r <| base := base fresh |> <| ad_block := ad_block fresh |>, st).

(** The exe is a bundle root or lies under one. *)
Definition under (exe root : bytes) : bool :=
  bool_decide (exe = root) || match strip_prefix root exe with Some rest => starts_with [47] rest | None => false end.
Definition app_matches (r : Router) (src : SocketAddr) (proto : Protocol) : bool :=
  match app_bypass r, resolver r with
  | Some roots, Some f => if bool_decide (roots = []) then false else match f src proto with Some exe => existsb (under exe) roots | None => false end
  | _, _ => false
  end.
(** The outer [option] is a panic. *)
Definition decide (r : Router) (ip : IpAddr) (dom : option bytes) (src : SocketAddr) (proto : Protocol) : option Action :=
  let! bypassed := match user_bypass r with Some m => let! a := lookup m dom ip in Some (is_some a) | None => Some false end in
  if bypassed then Some Direct
  else if app_matches r src proto then Some Direct
  else
    let! blocked := if ad_block_enabled r then let! a := lookup (ad_block r) dom ip in Some (bool_decide (a = Some Reject)) else Some false in
    if blocked then Some Reject
    else
      let! a := lookup (base r) dom ip in
      Some (match a, mode r with
            | Some Reject, _ => Reject
            | Some a, Smart => a
            | _, _ => Proxy
            end).
(** [proxy::Decision] and [FlowRouter::decide]. *)
Inductive Decision := DProxy | DDirect | DProxyless | DReject.
Definition flow_decide (r : Router) (ip : IpAddr) (dom : option bytes) (src : SocketAddr) (proto : Protocol) : option Decision :=
  let! a := decide r ip dom src proto in
  Some (match a with Proxy => DProxy | Direct => DDirect | Proxyless => DProxyless | Reject => DReject end).
Definition UNSPECIFIED : IpAddr := V4 [0; 0; 0; 0].
Definition is_ad_blocked (r : Router) (d : bytes) : option bool :=
  if ad_block_enabled r then let! a := lookup (ad_block r) (Some d) UNSPECIFIED in Some (bool_decide (a = Some Reject)) else Some false.
End Router.

(** ** The specification: the rule lists, scanned *)

Record RouterSpec := mk_spec {
  sp_base : list (Action * RuleSet); sp_ads : list (Action * RuleSet); sp_ads_on : bool;
  sp_bypass : option RuleSet; sp_mode : RoutingMode; sp_roots : option (list bytes); sp_resolver : option Resolver }.
#[export] Instance RouterSpec_eta : Settable RouterSpec := fun s =>
  mk_spec (sp_base s) (sp_ads s) (sp_ads_on s) (sp_bypass s) (sp_mode s) (sp_roots s) (sp_resolver s).

Definition spec_bypassed (s : RouterSpec) (ip : IpAddr) (dom : option bytes) : bool :=
  match sp_bypass s with Some rs => rules_match dom ip rs | None => false end.
Definition spec_app (s : RouterSpec) (src : SocketAddr) (proto : Protocol) : bool :=
  match sp_roots s, sp_resolver s with
  | Some roots, Some f => match f src proto with Some exe => existsb (under exe) roots | None => false end
  | _, _ => false
  end.
Definition spec_blocked (s : RouterSpec) (ip : IpAddr) (dom : option bytes) : bool :=
  sp_ads_on s && bool_decide (naive_lookup (sp_ads s) dom ip = Some Reject).
Definition spec_decide (s : RouterSpec) (ip : IpAddr) (dom : option bytes) (src : SocketAddr) (proto : Protocol) : Action :=
  if spec_bypassed s ip dom || spec_app s src proto then Direct
  else if spec_blocked s ip dom then Reject
  else match naive_lookup (sp_base s) dom ip with
       | Some Reject => Reject
       | Some a => if sp_mode s is Smart then a else Proxy
       | None => Proxy
       end.

(** What a running router is told. *)
Inductive command :=
| SetAdBlock (on : bool)
| SetMode (m : RoutingMode)
| SetResolver (f : option Resolver)
| SetBypass (st : option SplitTunnel)
| SetApps (paths : list bytes)
| Reload (sr : SmartRoutingConfig).

(** ** Parsed entries are rules for the matcher *)

Lemma parse_cidr_ok s c : parse_cidr s = Some c -> cidr_ok c.
Proof.
  unfold parse_cidr. destruct (split_once 47 s) as [[a p]|]; [|done]. destruct (parse_ip (trim a)) as [addr|] eqn:Ea; [|done]. destruct (parse_u8 (trim p)) as [v|] eqn:Ep; [|done].
  destruct (_ <? v); [done|]. intros [= <-]. apply parse_ip_ok in Ea. apply parse_u8_byte in Ep. split; [done|]. apply Ep.
Qed.
Lemma parse_ip_or_cidr_ok s c : parse_ip_or_cidr s = Some c -> cidr_ok c.
Proof.
  unfold parse_ip_or_cidr. cbv zeta. destruct (split_once 47 (trim s)) as [[a p]|].
  - destruct (parse_ip (trim a)) as [addr|] eqn:Ea; [|done]. destruct (parse_u8 (trim p)) as [v|] eqn:Ep; [|done].
    destruct (v <=? _); [|done]. intros [= <-]. apply parse_ip_ok in Ea. apply parse_u8_byte in Ep. split; [done|]. apply Ep.
  - destruct (parse_ip (trim s)) as [addr|] eqn:Ea; [|done]. intros [= <-]. apply parse_ip_ok in Ea. split; [done|]. cbn. unfold max_prefix. destruct (is_v6 addr); lia.
Qed.
Lemma bypass_rules_ok ds ips : Forall (fun e => labels (normalize e) <> []) ds -> entries_ok [(Direct, from_domains_and_ips ds ips)].
Proof.
  intros Hd. split; [cbn; lia|]. repeat constructor; cbn; [done|]. apply list.Forall_forall. intros c (s & _ & E)%list_elem_of_omap. by eapply parse_ip_or_cidr_ok.
Qed.

Definition no_rules : RuleSet := mk_rules [] [] [] [].
Lemma no_rules_match dom ip : rules_match dom ip no_rules = false.
Proof. by destruct dom. Qed.

Section Refinement.
Context (it : Order) (inflate : bytes -> option bytes).
Context {St : Type} (load : RuleSetRef -> St -> option bytes * St).
Context (canonicalize : bytes -> option bytes).
Implicit Types st : St.

Definition exec (c : command) (x : Router * St) : option (Router * St) :=
  let (r, st) := x in
  match c with
  | SetAdBlock on => Some (set_ad_block_enabled on r, st)
  | SetMode m => Some (set_mode m r, st)
  | SetResolver f => Some (set_process_resolver f r, st)
  | SetBypass b => let! r := set_user_bypass it b r in Some (r, st)
  | SetApps paths => Some (set_app_bypass canonicalize paths r, st)
  | Reload sr => reload_rules it inflate load sr st r
  end.
Definition spec_exec (c : command) (x : RouterSpec * St) : option (RouterSpec * St) :=
  let (s, st) := x in
  match c with
  | SetAdBlock on => Some (s <| sp_ads_on := on |>, st)
  | SetMode m => Some (s <| sp_mode := m |>, st)
  | SetResolver f => Some (s <| sp_resolver := f |>, st)
  | SetBypass b =>
      Some (s <| sp_bypass := match b with
                              | Some b => if enabled b then Some (from_domains_and_ips (st_domains b) (st_ips b)) else None
                              | None => None
                              end |>, st)
  | SetApps paths => Some (s <| sp_roots := Some ((fun p => default p (canonicalize p)) <$> filter (fun p => p <> []) (trim <$> paths)) |>, st)
  | Reload sr => let! (ads, entries, st) := rule_lists inflate load sr st in Some (s <| sp_base := entries |> <| sp_ads := ads |>, st)
  end.
Fixpoint run {X} (step : command -> X -> option X) (cs : list command) (x : X) : option X :=
  match cs with [] => Some x | c :: cs => let! x := step c x in run step cs x end.
Definition router_run (sr : SmartRoutingConfig) (cs : list command) st : option (Router * St) :=
  let! x := build_router it inflate load sr st in run exec cs x.
Definition spec_run (sr : SmartRoutingConfig) (cs : list command) st : option (RouterSpec * St) :=
  let! (ads, entries, st) := rule_lists inflate load sr st in run spec_exec cs (mk_spec entries ads true None Smart None None, st).

(** ** Assumptions on what the router is given *)

(** No domain rule is empty, and rule sets are fewer than the ranks. *)
Definition no_empty (rs : RuleSet) : Prop := Forall (fun e => labels (normalize e) <> []) (domain rs) /\ Forall (fun e => labels (normalize e) <> []) (domain_suffix rs).
Definition files_ok : Prop := forall r st b st' rs, load r st = (Some b, st') -> parse inflate b = Ret rs -> no_empty rs.
Definition config_ok (sr : SmartRoutingConfig) : Prop := Z.of_nat (length (rule_sets sr)) + 4 <= 2 ^ 16.
Definition command_ok (c : command) : Prop :=
  match c with
  | SetBypass (Some b) => Forall (fun e => labels (normalize e) <> []) (st_domains b)
  | Reload sr => config_ok sr
  | _ => True
  end.

Hypothesis it_ok : order_ok it.
Hypothesis inflate_ok : forall x y, inflate x = Some y -> bytes_ok y.
Hypothesis load_ok : files_ok.

Lemma load_all_ok act refs : forall st l st', load_all inflate load act refs st = Some (l, st') -> (length l <= length refs)%nat /\ Forall (fun e => rules_ok e.2) l.
Proof.
  induction refs as [|r refs IH]; intros st l st'; cbn [load_all]; [by intros [= <- <-]|]. unfold load_ruleset. destruct (load r st) as [b st1] eqn:El.
  destruct b as [b|].
  - destruct (parse inflate b) as [rs|e| |] eqn:Ep; try done; destruct (load_all inflate load act refs st1) as [[l1 st2]|] eqn:E1; try done; intros [= <- <-]; apply IH in E1 as [Hl Hok]; [|split; [cbn; lia|done]].
    split; [cbn; lia|]. constructor; [|done]. cbn. destruct (load_ok r st b st1 rs El Ep) as [Hd Hs]. split; [done|done|].
    apply (list.Forall_impl prefix_fits); [by apply (parse_total inflate b inflate_ok)|]. intros c [Hc _]. done.
  - destruct (load_all inflate load act refs st1) as [[l1 st2]|] eqn:E1; try done. intros [= <- <-]. apply IH in E1 as [Hl Hok]. split; [cbn; lia|done].
Qed.
Lemma inline_entries_ok sr : (length (inline_entries sr) <= 4)%nat /\ Forall (fun e => rules_ok e.2) (inline_entries sr).
Proof.
  unfold inline_entries. set (f := fun a => _). assert (forall a, (length (f a) <= 1)%nat /\ Forall (fun e => rules_ok e.2) (f a)) as Hf.
  { intros a. unfold f. destruct (omap _ _) as [|c l] eqn:E; [by split; [cbn; lia|]|]. split; [cbn; lia|]. apply Forall_singleton. split; [by apply Forall_nil|by apply Forall_nil|].
    apply list.Forall_forall. intros c' Hc. rewrite <- E in Hc. apply list_elem_of_omap in Hc as (ir & _ & Hp). by eapply parse_cidr_ok. }
  cbn [mbind list_bind]. destruct (Hf RReject), (Hf RDirect), (Hf RProxyless), (Hf RProxy). rewrite !length_app, !Forall_app. cbn [length]. split; [lia|done].
Qed.
Lemma rule_lists_ok sr st ads entries st' : config_ok sr -> rule_lists inflate load sr st = Some (ads, entries, st') -> entries_ok ads /\ entries_ok entries.
Proof.
  unfold config_ok, rule_lists. intros Hc. destruct (load_all _ _ _ _ st) as [[l1 st1]|] eqn:E1; [|done]. destruct (load_all _ _ _ _ st1) as [[l2 st2]|] eqn:E2; [|done]. intros [= <- <- <-].
  apply load_all_ok in E1 as [H1 O1], E2 as [H2 O2]. destruct (inline_entries_ok sr) as [H3 O3].
  pose proof (length_filter (fun r => ref_ad_block r = true) (rule_sets sr)). pose proof (length_filter (fun r => ref_ad_block r = false) (rule_sets sr)).
  split; (split; [|]); [lia|done|rewrite length_app; lia|by apply Forall_app].
Qed.

(** ** The refinement *)

Definition compiled (m : Matcher) (l : list (Action * RuleSet)) : Prop := build it l = Some m /\ entries_ok l.
Lemma compiled_lookup m l dom ip : compiled m l -> ip_ok ip -> lookup m dom ip = Some (naive_lookup l dom ip).
Proof. intros [Hb Hok] Hip. destruct (lookup_scan it l dom ip it_ok Hok Hip) as (m' & Hb' & Hl). congruence. Qed.
Lemma compile l : entries_ok l -> exists m, build it l = Some m /\ compiled m l.
Proof. intros Hok. destruct (lookup_scan it l None UNSPECIFIED it_ok Hok) as (m & Hb & _); [split; [repeat constructor; cbn; lia|done]|]. exists m. split; [done|]. by split. Qed.

Record refines (r : Router) (s : RouterSpec) : Prop := {
  rf_base : compiled (base r) (sp_base s);
  rf_ads : compiled (ad_block r) (sp_ads s);
  rf_on : ad_block_enabled r = sp_ads_on s;
  rf_bypass : match user_bypass r with
              | Some m => exists rs, sp_bypass s = Some rs /\ compiled m [(Direct, rs)]
              | None => sp_bypass s = None \/ sp_bypass s = Some no_rules
              end;
  rf_mode : mode r = sp_mode s;
  rf_roots : app_bypass r = match sp_roots s with Some [] => None | o => o end;
  rf_resolver : resolver r = sp_resolver s;
}.

Lemma refines_app r s src proto : refines r s -> app_matches r src proto = spec_app s src proto.
Proof.
  intros H. unfold app_matches, spec_app. rewrite (rf_roots _ _ H), (rf_resolver _ _ H). destruct (sp_roots s) as [[|p roots]|]; [|done..].
  destruct (sp_resolver s) as [f|]; [|done]. by destruct (f src proto).
Qed.
Lemma refines_bypass r s dom ip : refines r s -> ip_ok ip ->
  match user_bypass r with Some m => let! a := lookup m dom ip in Some (is_some a) | None => Some false end = Some (spec_bypassed s ip dom).
Proof.
  intros H Hip. pose proof (rf_bypass _ _ H) as Hb. unfold spec_bypassed. destruct (user_bypass r) as [m|].
  - destruct Hb as (rs & -> & Hc). rewrite (compiled_lookup m _ dom ip Hc Hip). cbn. by destruct (rules_match dom ip rs).
  - destruct Hb as [->| ->]; [done|]. by rewrite no_rules_match.
Qed.
Lemma refines_blocked r s dom ip : refines r s -> ip_ok ip ->
  (if ad_block_enabled r then let! a := lookup (ad_block r) dom ip in Some (bool_decide (a = Some Reject)) else Some false) = Some (spec_blocked s ip dom).
Proof.
  intros H Hip. unfold spec_blocked. rewrite (rf_on _ _ H). destruct (sp_ads_on s); [|done]. by rewrite (compiled_lookup _ _ dom ip (rf_ads _ _ H) Hip).
Qed.
Lemma refines_decide r s ip dom src proto : refines r s -> ip_ok ip -> decide r ip dom src proto = Some (spec_decide s ip dom src proto).
Proof.
  intros H Hip. unfold decide, spec_decide. rewrite (refines_bypass r s dom ip H Hip). destruct (spec_bypassed s ip dom); [done|]. cbn [orb].
  rewrite (refines_app r s src proto H). destruct (spec_app s src proto); [done|]. rewrite (refines_blocked r s dom ip H Hip). destruct (spec_blocked s ip dom); [done|].
  rewrite (compiled_lookup _ _ dom ip (rf_base _ _ H) Hip), (rf_mode _ _ H). by destruct (naive_lookup (sp_base s) dom ip) as [[]|], (sp_mode s).
Qed.

Lemma exec_refines c r s st s' st' : refines r s -> command_ok c -> spec_exec c (s, st) = Some (s', st') ->
  exists r', exec c (r, st) = Some (r', st') /\ refines r' s'.
Proof.
  intros H Hc. destruct c as [on|m|f|b|paths|sr]; cbn [spec_exec exec]; try (intros [= <- <-]; eexists; split; [reflexivity|]; destruct H; by constructor).
  - intros [= <- <-]. unfold set_user_bypass. destruct b as [b|]; [|eexists; split; [reflexivity|]; destruct H; constructor; try done; by left]. cbn in Hc. destruct (enabled b); cbn [andb].
    + destruct (is_empty b) eqn:Ee; cbn [negb].
      * apply andb_true_iff in Ee as [Ed%bool_decide_eq_true Ei%bool_decide_eq_true]. eexists. split; [reflexivity|]. destruct H. constructor; try done. right. cbn. by rewrite Ed, Ei.
      * destruct (compile _ (bypass_rules_ok (st_domains b) (st_ips b) Hc)) as (m & -> & Hm). eexists. split; [reflexivity|]. destruct H. constructor; try done. cbn. eauto.
    + eexists. split; [reflexivity|]. destruct H. constructor; try done. by left.
  - intros [= <- <-]. eexists. split; [reflexivity|]. destruct H. constructor; try done. cbn. by destruct (_ <$> _).
  - unfold reload_rules, build_router. destruct (rule_lists inflate load sr st) as [[[ads entries] st1]|] eqn:E; [|done]. intros [= <- <-].
    destruct (rule_lists_ok _ _ _ _ _ Hc E) as [Ha He]. destruct (compile _ He) as (m & -> & Hm). destruct (compile _ Ha) as (a & -> & Hcm). eexists. split; [reflexivity|]. destruct H. by constructor.
Qed.
Lemma run_refines cs : forall r s st s' st', refines r s -> Forall command_ok cs -> run spec_exec cs (s, st) = Some (s', st') ->
  exists r', run exec cs (r, st) = Some (r', st') /\ refines r' s'.
Proof.
  induction cs as [|c cs IH]; intros r s st s' st' H Hcs; cbn [run]; [intros [= <- <-]; eauto|]. apply Forall_cons_iff in Hcs as [Hc Hcs].
  destruct (spec_exec c (s, st)) as [[s1 st1]|] eqn:E; [|done]. destruct (exec_refines c r s st s1 st1 H Hc E) as (r1 & -> & H1). by apply IH.
Qed.

(** C5: a router built from a configuration and told any sequence of commands decides every
    flow as the rule lists in force do when scanned one after another: the user's bypass
    first, then the bypassed apps, then the ad-block lists while they are on, then the
    base rules, of which a rejection always counts and the rest only in smart mode; the
    ad-block answer to the resolver is that of the ad-block lists.  A reload replaces
    the lists and nothing else.  No step panics that loading the rule lists does not. *)
Theorem router_refines sr cs st s st' : config_ok sr -> Forall command_ok cs -> spec_run sr cs st = Some (s, st') ->
  exists r, router_run sr cs st = Some (r, st') /\
    (forall ip dom src proto, ip_ok ip -> decide r ip dom src proto = Some (spec_decide s ip dom src proto)) /\
    (forall d, is_ad_blocked r d = Some (spec_blocked s UNSPECIFIED (Some d))).
Proof.
  intros Hsr Hcs. unfold spec_run, router_run, build_router. destruct (rule_lists inflate load sr st) as [[[ads entries] st1]|] eqn:E; [|done]. intros Hrun.
  destruct (rule_lists_ok _ _ _ _ _ Hsr E) as [Ha He]. destruct (compile _ He) as (m & -> & Hm). destruct (compile _ Ha) as (a & -> & Hcm).
  assert (refines (mk_router m a true None Smart None None) (mk_spec entries ads true None Smart None None)) as Hinit by (constructor; try done; by left).
  destruct (run_refines cs _ _ st1 s st' Hinit Hcs Hrun) as (r & -> & Hr).
  exists r. split; [done|]. split; [intros; by apply refines_decide|]. intros d. apply refines_blocked; [done|]. split; [repeat constructor; cbn; lia|done].
Qed.
End Refinement.

(** C21: in full-tunnel mode nothing leaves outside the tunnel but what the user bypasses: a flow
    that the router sends direct, with or without circumvention, matches the user's bypass
    list or belongs to a bypassed app. *)
Theorem full_mode_contains r ip dom src proto a : mode r = Full -> decide r ip dom src proto = Some a -> a = Direct \/ a = Proxyless ->
  (exists m b, user_bypass r = Some m /\ lookup m dom ip = Some (Some b)) \/ app_matches r src proto = true.
Proof.
  unfold decide. intros -> Hd Ha.
  assert (forall X : Prop, (Some Reject = Some a \/ Some Proxy = Some a) -> X) as Hno by (intros X [[= <-]|[= <-]]; by destruct Ha).
  assert (match user_bypass r with Some m => let! x := lookup m dom ip in Some (is_some x) | None => Some false end = Some true ->
    exists m b, user_bypass r = Some m /\ lookup m dom ip = Some (Some b)) as Hby.
  { destruct (user_bypass r) as [m|]; [|done]. destruct (lookup m dom ip) as [[b|]|] eqn:E; [|done..]. intros _. by exists m, b. }
  destruct (match user_bypass r with Some m => _ | None => _ end) as [[]|]; [left; by apply Hby| |done]. destruct (app_matches r src proto); [by right|].
  destruct (if ad_block_enabled r then _ else _) as [[]|]; [apply Hno; by left| |done]. destruct (lookup (base r) dom ip) as [x|]; [|done]. apply Hno. destruct x as [[]|]; auto.
Qed.

(** ** Witnesses *)

Definition checked_inflate (b : bytes) : option bytes := if bool_decide (bytes_ok b) then Some b else None.
Definition no_files (r : RuleSetRef) (st : unit) : option bytes * unit := (None, st).
Definition quad9 : SmartRoutingConfig := mk_config [] [mk_inline (lit "9.9.9.9/32") RDirect].
Definition sample_commands : list command := [SetBypass (Some (mk_split true [lit "example.com"] [])); SetMode Full; Reload quad9].
Definition nine : IpAddr := V4 [9; 9; 9; 9].
Definition sample_src : SocketAddr := mk_sock (V4 [10; 0; 0; 2]) 5000.

Lemma router_refines_witness : exists r s,
  spec_run checked_inflate no_files Some quad9 sample_commands tt = Some (s, tt) /\
  router_run some_order checked_inflate no_files Some quad9 sample_commands tt = Some (r, tt) /\
  decide r nine None sample_src Tcp = Some Proxy /\ decide r nine (Some (lit "www.example.com")) sample_src Tcp = Some Direct.
Proof.
  assert (order_ok some_order) as Hit by (intros m; reflexivity).
  assert (forall x y, checked_inflate x = Some y -> bytes_ok y) as Hinf.
  { intros x y. unfold checked_inflate. destruct (bool_decide (bytes_ok x)) eqn:E; [|intros [=]]. intros [= <-]. exact (bool_decide_eq_true_1 _ E). }
  assert (files_ok checked_inflate no_files) as Hfiles by (intros r st b st' rs [=]).
  assert (config_ok quad9) as Hc by (unfold config_ok; discriminate).
  assert (Forall command_ok sample_commands) as Hcs by (repeat constructor; discriminate).
  assert (ip_ok nine) as Hip by (split; [repeat constructor; discriminate|reflexivity]).
  destruct (spec_run checked_inflate no_files Some quad9 sample_commands tt) as [[s []]|] eqn:Es; [|vm_compute in Es; discriminate Es].
  destruct (router_refines some_order checked_inflate no_files Some Hit Hinf Hfiles quad9 sample_commands tt s tt Hc Hcs Es) as (r & Er & Hd & _).
  exists r, s. split; [reflexivity|]. split; [exact Er|]. rewrite !Hd by exact Hip.
  assert (s = mk_spec [(Direct, ip_only [mk_cidr nine 32])] [] true (Some (mk_rules [] [lit "example.com"] [] [])) Full None None) as -> by (vm_compute in Es; injection Es as <-; reflexivity).
  split; vm_compute; reflexivity.
Defined.

(** A matcher for the one suffix [example.com], with the action given. *)
Definition sample_matcher (a : Action) : Matcher := default (mk_matcher [] [] [] cidrs_default) (build some_order [(a, mk_rules [] [example_com] [] [])]).
Definition bypass_router : Router :=
  mk_router (mk_matcher [] [] [] cidrs_default) (sample_matcher Reject) true (Some (sample_matcher Direct)) Full None None.

Lemma full_mode_contains_witness : (exists m b, user_bypass bypass_router = Some m /\ lookup m (Some example_com) nine = Some (Some b)) \/ app_matches bypass_router sample_src Tcp = true.
Proof. apply (full_mode_contains bypass_router nine (Some example_com) sample_src Tcp Direct); [reflexivity|vm_compute; reflexivity|left; reflexivity]. Defined.

(** A domain that the user bypasses and an ad-block list names goes direct as a flow, and is
    still blocked at the resolver, which does not consult the bypass. *)
Theorem bypass_blocked_at_dns : decide bypass_router nine (Some example_com) sample_src Tcp = Some Direct /\ is_ad_blocked bypass_router example_com = Some true.
Proof. split; vm_compute; reflexivity. Qed.
End router.
