(* ===== verification/SplitTunnel.v ===== *)
(** [core/src/split_tunnel.rs]: editing the user's bypass list, and its effect on the router. *)

From stdpp Require Import base gmap list numbers.
From S2P Require Import Prelude RustStr RustNet NetAddr RuleTrie RuleCover SrsSet Srs RuleMatcher RuleRouter.

Module split.
Import net rules srs matcher text router.

Record AddOutcome := mk_added { added_domains : list bytes; added_ips : list bytes; rejected : list bytes }.
#[export] Instance AddOutcome_eta : Settable AddOutcome := fun o => mk_added (added_domains o) (added_ips o) (rejected o).

Definition is_ascii_digit (b : Z) : bool := (48 <=? b) && (b <=? 57).
Definition is_ascii_alphabetic (b : Z) : bool := ((65 <=? b) && (b <=? 90)) || ((97 <=? b) && (b <=? 122)).
Definition is_ascii_alphanumeric (b : Z) : bool := is_ascii_digit b || is_ascii_alphabetic b.

(** [e.truncate(e.find(p))]. *)
Fixpoint until (p : Z -> bool) (s : bytes) : bytes := match s with [] => [] | b :: s => if p b then [] else b :: until p s end.
(** [str::rsplit_once] at a character. *)
Definition rsplit_once (c : Z) (s : bytes) : option (bytes * bytes) := let! (b, a) := split_once c (reverse s) in Some (reverse a, reverse b).

Definition strip_scheme (e : bytes) : bytes :=
  match strip_prefix (lit "https://") e with Some rest => rest | None => default e (strip_prefix (lit "http://") e) end.
Definition strip_path (e : bytes) : bytes :=
  match split_once 47 e with Some (pre, _) => if is_some (parse_ip pre) then e else pre | None => e end.
Definition strip_port (e : bytes) : bytes :=
  if (length (filter (fun b : Z => b = 58%Z) e) =? 1)%nat then
    match rsplit_once 58 e with
    | Some (host, port) => if negb (bool_decide (port = [])) && forallb is_ascii_digit port then host else e
    | None => e
    end
  else e.
Definition normalize_one (entry : bytes) : bytes :=
  let e := to_ascii_lowercase (trim entry) in
  let e := strip_scheme e in
  let e := until (fun b => (b =? 63) || (b =? 35)) e in
  let e := strip_path e in
  let e := strip_port e in
  trim e.

Definition is_plausible_hostname (h : bytes) : bool :=
  negb (starts_with [DOT] h) && negb (is_some (strip_suffix [DOT] h)) && negb (contains [DOT; DOT] h) && contains [DOT] h &&
  existsb is_ascii_alphabetic h && forallb (fun c => is_ascii_alphanumeric c || (c =? 45) || (c =? DOT)) h.
Definition is_ip_or_cidr (s : bytes) : bool :=
  match split_once 47 s with
  | Some (addr, prefix) =>
      match parse_ip (trim addr) with
      | Some ip => match parse_u8 (trim prefix) with Some p => p <=? max_prefix ip | None => false end
      | None => false
      end
  | None => is_some (parse_ip s)
  end.

(** One round of the loop of [add_entries]. *)
Definition add_token (x : SplitTunnel * AddOutcome) (token : bytes) : SplitTunnel * AddOutcome :=
  let (s, out) := x in
  let host := normalize_one token in
  if bool_decide (host = []) then x
  else if is_ip_or_cidr host then
    if bool_decide (host ∈ st_ips s) then x
    else (s <| st_ips := st_ips s ++ [host] |>, out <| added_ips := added_ips out ++ [host] |>)
  else if is_plausible_hostname host then
    if bool_decide (host ∈ st_domains s) then x
    else (s <| st_domains := st_domains s ++ [host] |>, out <| added_domains := added_domains out ++ [host] |>)
  else (s, out <| rejected := rejected out ++ [trim token] |>).
Definition add_entries (raw : bytes) (s : SplitTunnel) : SplitTunnel * AddOutcome :=
  fold_left add_token (split_on 44 raw) (s, mk_added [] [] []).

(** ** The list stays well-formed *)

Record list_ok (s : SplitTunnel) : Prop := {
  lo_domains : Forall (fun h => is_plausible_hostname h = true) (st_domains s);
  lo_ips : Forall (fun e => is_ip_or_cidr e = true /\ trim e = e) (st_ips s);
  lo_nodup : NoDup (st_domains s) /\ NoDup (st_ips s);
}.

Lemma normalize_one_trimmed e : trim (normalize_one e) = normalize_one e.
Proof. apply trim_trim. Qed.
Lemma NoDup_snoc {A} (l : list A) x : NoDup l -> x ∉ l -> NoDup (l ++ [x]).
Proof. intros Hl Hx. apply list.NoDup_app. split; [done|]. split; [|apply list.NoDup_singleton]. intros y Hy ->%list_elem_of_singleton. done. Qed.
Lemma add_token_ok s out token : list_ok s -> list_ok (add_token (s, out) token).1.
Proof.
  intros [Hd Hi [Nd Ni]]. unfold add_token. set (h := normalize_one token). destruct (bool_decide (h = [])); [done|]. destruct (is_ip_or_cidr h) eqn:Ei.
  - destruct (bool_decide (h ∈ st_ips s)) eqn:Em; [done|]. apply bool_decide_eq_false in Em. split; cbn; [done| |by split; [|apply NoDup_snoc]]. apply Forall_app. split; [done|]. repeat constructor; [done|apply normalize_one_trimmed].
  - destruct (is_plausible_hostname h) eqn:Eh; [|done]. destruct (bool_decide (h ∈ st_domains s)) eqn:Em; [done|]. apply bool_decide_eq_false in Em.
    split; cbn; [|done|by split; [apply NoDup_snoc|]]. apply Forall_app. split; [done|]. by repeat constructor.
Qed.
Lemma add_tokens_ok l : forall s out, list_ok s -> list_ok (fold_left add_token l (s, out)).1.
Proof.
  induction l as [|t l IH]; intros s out H; [done|]. cbn [fold_left]. pose proof (add_token_ok s out t H) as H'. destruct (add_token (s, out) t) as [s' out']. by apply IH.
Qed.
Lemma add_entries_ok raw s : list_ok s -> list_ok (add_entries raw s).1.
Proof. apply add_tokens_ok. Qed.

(** ** Its entries take effect *)

Lemma split_on_both c a b : split_on c (a ++ c :: b) = split_on c a ++ split_on c b.
Proof.
  induction a as [|x a IH]; cbn [app split_on]; [by rewrite Z.eqb_refl|]. destruct (x =? c); [by rewrite IH|]. rewrite IH.
  destruct (split_on c a) as [|p ps] eqn:E; [|done]. destruct a as [|y a]; cbn in E; [done|]. destruct (y =? c); [done|]. by destruct (split_on c a).
Qed.
Lemma labels_app a b : labels (a ++ DOT :: b) = labels b ++ labels a.
Proof. unfold labels. by rewrite split_on_both, reverse_app, list.filter_app. Qed.
Lemma strip_suffix_app_None p a b : (length p <= length b)%nat -> strip_suffix p b = None -> strip_suffix p (a ++ b) = None.
Proof.
  unfold strip_suffix. intros Hl H. rewrite reverse_app. destruct (strip_prefix (reverse p) (reverse b ++ reverse a)) as [x|] eqn:E; [|done].
  apply strip_prefix_Some in E. assert (reverse p `prefix_of` reverse b) as [y Hy].
  { destruct (prefix_weak_total (reverse p) (reverse b) (reverse b ++ reverse a)) as [H1|H1]; [by exists x|by apply prefix_app_r|done|].
    assert (reverse b = reverse p) as ->; [|done]. apply prefix_length_eq; [done|]. rewrite !length_reverse. lia. }
  rewrite Hy in H. by rewrite (proj2 (strip_prefix_Some (reverse p) _ y) eq_refl) in H.
Qed.

Section Effect.
Context (h : bytes).
Hypothesis plausible : is_plausible_hostname h = true.

Lemma plausible_parts : strip_suffix [DOT] h = None /\ existsb is_ascii_alphabetic h = true.
Proof.
  unfold is_plausible_hostname in plausible. rewrite !andb_true_iff in plausible. destruct plausible as [[[[[_ Hs] _] _] Ha] _]. split; [|done]. by destruct (strip_suffix [DOT] h).
Qed.
Lemma plausible_nonempty : h <> [].
Proof. intros E. pose proof plausible_parts as [_ H]. by rewrite E in H. Qed.
Lemma plausible_normalize sub : normalize (sub ++ h) = to_ascii_lowercase sub ++ to_ascii_lowercase h.
Proof.
  unfold normalize. rewrite strip_suffix_app_None; [cbn; apply fmap_app| |apply plausible_parts]. destruct (length h) eqn:E; [by apply nil_length_inv, plausible_nonempty in E|cbn; lia].
Qed.
Lemma letter_not_dot b : is_ascii_alphabetic b = true -> ascii_lower b <> DOT.
Proof. unfold is_ascii_alphabetic, ascii_lower, DOT. intros H. destruct ((65 <=? b) && (b <=? 90)) eqn:E; lia. Qed.
Lemma labels_nil s : labels s = [] -> Forall (fun b => b = DOT) s.
Proof.
  unfold labels. intros H. assert (forall l : list bytes, filter (fun x => x <> []) l = [] -> Forall (fun x => x = []) l) as Hf.
  { induction l as [|x l IH]; [done|]. rewrite list.filter_cons. destruct (stdpp.base.decide (x <> [])) as [|Hx]; [done|]. intros E. constructor; [by apply dec_stable|by apply IH]. }
  apply Hf in H. apply Forall_reverse in H. rewrite reverse_involutive in H. revert H. clear. induction s as [|x s IH]; cbn; [done|]. destruct (Z.eqb_spec x DOT) as [->|Hn].
  - intros [_ H]%Forall_cons_iff. constructor; [done|by apply IH].
  - destruct (split_on DOT s) as [|p ps]; intros [H _]%Forall_cons_iff; done.
Qed.
Lemma plausible_labels : labels (normalize h) <> [].
Proof.
  change h with ([] ++ h). rewrite plausible_normalize. intros H%labels_nil. destruct plausible_parts as [_ [b [Hb Hl]]%existsb_exists].
  rewrite list.Forall_forall in H. apply (letter_not_dot b Hl). apply H. apply list_elem_of_fmap. exists b. split; [done|]. by apply list_elem_of_In.
Qed.
(** The host and its subdomains match. *)
Lemma plausible_match sub : suffix_match (normalize h) h = true /\ suffix_match (normalize (sub ++ DOT :: h)) h = true.
Proof.
  unfold suffix_match. rewrite !bool_decide_eq_true. split; [done|]. change (DOT :: h) with ([DOT] ++ h). rewrite app_assoc, plausible_normalize.
  change h with ([] ++ h) at 1. rewrite plausible_normalize. cbn [to_ascii_lowercase fmap list_fmap app]. unfold to_ascii_lowercase. rewrite fmap_app. cbn [fmap list_fmap]. rewrite <- app_assoc.
  change (ascii_lower DOT) with DOT. cbn [app]. rewrite labels_app. by apply prefix_app_r.
Qed.
End Effect.

Lemma ip_entry_parses e : is_ip_or_cidr e = true -> trim e = e -> is_Some (parse_ip_or_cidr e).
Proof.
  unfold is_ip_or_cidr, parse_ip_or_cidr. cbv zeta. intros H ->. destruct (split_once 47 e) as [[a p]|].
  - destruct (parse_ip (trim a)); [|done]. destruct (parse_u8 (trim p)); [|done]. rewrite H. eauto.
  - destruct (parse_ip e); [|done]. eauto.
Qed.

(** The list after a series of edits, the toggle on. *)
Definition edited (raws : list bytes) : SplitTunnel := fold_left (fun s raw => (add_entries raw s).1) raws (mk_split true [] []).
Lemma edits_ok raws s : list_ok s -> list_ok (fold_left (fun s raw => (add_entries raw s).1) raws s).
Proof. revert s. induction raws as [|raw raws IH]; intros s H; [done|]. cbn. by apply IH, add_entries_ok. Qed.
Lemma empty_list_ok b : list_ok (mk_split b [] []).
Proof. by repeat constructor; cbn; auto using NoDup_nil_2. Qed.
Lemma add_tokens_enabled l : forall s out, enabled (fold_left add_token l (s, out)).1 = enabled s.
Proof.
  induction l as [|t l IH]; intros s out; [done|]. cbn [fold_left]. destruct (add_token (s, out) t) as [s' out'] eqn:E. rewrite IH. unfold add_token in E.
  destruct (bool_decide (normalize_one t = [])); [by injection E as <- <-|]. destruct (is_ip_or_cidr _); [destruct (bool_decide _); by injection E as <- <-|].
  destruct (is_plausible_hostname _); [destruct (bool_decide _)|]; by injection E as <- <-.
Qed.
Lemma edited_enabled raws : enabled (edited raws) = true.
Proof.
  unfold edited. assert (forall s, enabled (fold_left (fun s raw => (add_entries raw s).1) raws s) = enabled s) as ->; [|done].
  induction raws as [|raw raws IH]; intros s; [done|]. cbn. rewrite IH. apply add_tokens_enabled.
Qed.

(** What the router does with a list of well-formed entries. *)
Lemma bypass_applies it s r : order_ok it -> list_ok s -> enabled s = true -> exists r', set_user_bypass it (Some s) r = Some r' /\
  forall ip dom src proto, ip_ok ip -> rules_match dom ip (from_domains_and_ips (st_domains s) (st_ips s)) = true -> decide r' ip dom src proto = Some Direct.
Proof.
  intros Hit [Hd _ _] He. unfold set_user_bypass. rewrite He. cbn [andb]. destruct (is_empty s) eqn:Ee; cbn [negb].
  - eexists. split; [reflexivity|]. intros ip dom src proto _ Hm. apply andb_true_iff in Ee as [E1%bool_decide_eq_true E2%bool_decide_eq_true].
    rewrite E1, E2 in Hm. by rewrite no_rules_match in Hm.
  - assert (entries_ok [(Direct, from_domains_and_ips (st_domains s) (st_ips s))]) as Hok by (apply bypass_rules_ok; apply (list.Forall_impl _ _ _ Hd); apply plausible_labels).
    destruct (lookup_scan it _ None UNSPECIFIED Hit Hok) as (m & Hb & _); [split; [repeat constructor; cbn; lia|done]|]. rewrite Hb. eexists. split; [reflexivity|].
    intros ip dom src proto Hip Hm. unfold decide. cbn [user_bypass update_field Router_eta]. destruct (lookup_scan it _ dom ip Hit Hok Hip) as (m' & Hb' & Hl). rewrite Hb in Hb'. injection Hb' as <-.
    cbn [naive_lookup] in Hl. rewrite Hm in Hl. cbn. by rewrite Hl.
Qed.

(** C20: every entry the user adds takes effect: whatever text the list was edited with, once it is applied
    to a router each domain on it and each of its subdomains goes direct, and each
    address entry parses and sends the addresses it covers direct. *)
Theorem bypass_effective it raws r : order_ok it -> exists r', set_user_bypass it (Some (edited raws)) r = Some r' /\
  (forall d sub ip src proto, d ∈ st_domains (edited raws) -> ip_ok ip ->
    decide r' ip (Some d) src proto = Some Direct /\ decide r' ip (Some (sub ++ DOT :: d)) src proto = Some Direct) /\
  (forall e, e ∈ st_ips (edited raws) -> exists c, parse_ip_or_cidr e = Some c /\
    forall ip dom src proto, ip_ok ip -> cidr_contains ip c = true -> decide r' ip dom src proto = Some Direct).
Proof.
  intros Hit. assert (list_ok (edited raws)) as Hok by apply edits_ok, empty_list_ok. destruct (bypass_applies it (edited raws) r Hit Hok (edited_enabled raws)) as (r' & Hr & Hdir).
  exists r'. split; [done|]. destruct Hok as [Hd Hi _]. rewrite list.Forall_forall in Hd, Hi. split.
  - intros d sub ip src proto Hin Hip. destruct (plausible_match d (Hd d Hin) sub) as [H1 H2].
    assert (forall q, suffix_match (normalize q) d = true -> decide r' ip (Some q) src proto = Some Direct) as Hq; [|by split; apply Hq].
    intros q Hq. apply Hdir; [done|]. unfold rules_match, domain_rules_match. apply orb_true_iff. left. apply orb_true_iff. left. apply orb_true_iff. right. apply existsb_exists. exists d. split; [by apply list_elem_of_In|done].
  - intros e Hin. destruct (Hi e Hin) as [He Ht]. destruct (ip_entry_parses e He Ht) as [c Hc]. exists c. split; [done|]. intros ip dom src proto Hip Hcov. apply Hdir; [done|].
    unfold rules_match. apply orb_true_iff. right. apply existsb_exists. exists c. split; [|done]. apply list_elem_of_In, list_elem_of_omap. by exists e.
Qed.

Lemma bypass_effective_witness : exists r', set_user_bypass some_order (Some (edited [lit " https://Mail.Example.com:443/inbox, 10.0.0.0/8,,bad host"])) bypass_router = Some r' /\
  decide r' nine (Some (lit "x.mail.example.com")) sample_src Udp = Some Direct.
Proof.
  assert (order_ok some_order) as Hit by (intros m; reflexivity). assert (ip_ok nine) as Hip by (split; [repeat constructor; discriminate|reflexivity]).
  destruct (bypass_effective some_order [lit " https://Mail.Example.com:443/inbox, 10.0.0.0/8,,bad host"] bypass_router Hit) as (r' & Hr & Hd & _).
  exists r'. split; [exact Hr|]. assert (lit "mail.example.com" ∈ st_domains (edited [lit " https://Mail.Example.com:443/inbox, 10.0.0.0/8,,bad host"])) as Hin by (apply (bool_decide_eq_true_1 _); vm_compute; reflexivity).
  exact (proj2 (Hd (lit "mail.example.com") (lit "x") nine sample_src Udp Hin Hip)).
Defined.
End split.
