(* ===== verification/Bip324Crypto.v ===== *)
(** [bip324-core/src/{lib,crypto,ecdh,side_door}.rs]: the constants and errors
    of the crate, the crypto provider as an interface, the shared secret and the
    side-door tag. *)

From S2P Require Import Prelude.

Module bip324.

Inductive Role := Initiator | Responder.

#[export] Instance role_eq_dec : EqDecision Role.
Proof. solve_decision. Defined.

Definition is_initiator (r : Role) : bool := match r with Initiator => true | Responder => false end.

Definition ELLSWIFT_LEN : nat := 64.
Definition ECDH_SHARED_LEN : nat := 32.
Definition GARBAGE_TERMINATOR_LEN : nat := 16.
Definition MAX_GARBAGE_LEN : nat := Z.to_nat 4095.
Definition REKEY_INTERVAL : Z := 224.
Definition LENGTH_FIELD_LEN : nat := 3.
Definition HEADER_LEN : nat := 1.
Definition AEAD_TAG_LEN : nat := 16.
Definition IGNORE_BIT : Z := 0x80.
(** As an integer: the model compares lengths with it in [Z]. *)
Definition MAX_CONTENTS_LEN : Z := 2 ^ 24 - 1.

Inductive Error :=
| NoGarbageTerminator
| V1Peer
| Decrypt
| ContentsTooLong
| GarbageTooLong
| WrongState.

(** [{u32,u64}::to_le_bytes]. *)
Definition to_le_bytes (n : nat) (v : Z) : bytes := reverse (to_be_bytes n v).

Lemma length_to_le_bytes n v : length (to_le_bytes n v) = n.
Proof. unfold to_le_bytes. by rewrite length_reverse, length_to_be_bytes. Qed.
#[export] Hint Rewrite length_to_le_bytes : spark_len.

(** ** The provider *)

(** The primitives of the trait. The ones that take [&self] are stateless, as the
    trait documents; the ones that take [&mut self] thread the provider. *)
Class Bip324Crypto := {
  Provider : Type;
  Ephemeral : Type;
  ellswift_generate : Provider -> (Ephemeral * bytes) * Provider;
  ellswift_ecdh : Provider -> Ephemeral -> bytes -> bytes * Provider;
  sha256 : bytes -> bytes;
  hkdf_extract : bytes -> bytes -> bytes;
  (** [hkdf_expand prk info out.len()]. *)
  hkdf_expand : bytes -> bytes -> nat -> bytes;
  chacha20_apply : bytes -> bytes -> Z -> bytes -> bytes;
  aead_seal : bytes -> bytes -> bytes -> bytes -> bytes;
  aead_open : bytes -> bytes -> bytes -> bytes -> option bytes;
  fill_random : Provider -> nat -> bytes * Provider;
}.

(** A key pair the provider has handed out. *)
Definition generated `{Bip324Crypto} (k : Ephemeral) (e : bytes) : Prop :=
  exists p p', ellswift_generate p = ((k, e), p').

(** What the crate relies on. The lengths are those of the trait's array types. *)
Class Bip324Laws (C : Bip324Crypto) := {
  generate_length k e : generated k e -> length e = ELLSWIFT_LEN;
  ecdh_agree k1 e1 k2 e2 p1 p2 : generated k1 e1 -> generated k2 e2 ->
    (ellswift_ecdh p1 k1 e2).1 = (ellswift_ecdh p2 k2 e1).1;
  extract_length salt ikm : length (hkdf_extract salt ikm) = 32%nat;
  expand_length prk info n : Z.of_nat n <= 8160 -> length (hkdf_expand prk info n) = n;
  chacha20_length k n c b : length (chacha20_apply k n c b) = length b;
  seal_length k n aad p : length (aead_seal k n aad p) = (length p + AEAD_TAG_LEN)%nat;
  open_seal k n aad p : aead_open k n aad (aead_seal k n aad p) = Some p;
  open_length k n aad c p : aead_open k n aad c = Some p -> length c = (length p + AEAD_TAG_LEN)%nat;
}.

Section ecdh.
Context {C : Bip324Crypto}.

Definition ECDH_TAG : bytes := lit "bip324_ellswift_xonly_ecdh".

Definition v2_ecdh (crypto : Provider) (ours_key : Ephemeral) (ellswift_ours ellswift_theirs : bytes) (role : Role)
  : bytes * Provider :=
  let '(x, crypto) := ellswift_ecdh crypto ours_key ellswift_theirs in
  let tag_hash := sha256 ECDH_TAG in
  let '(first, second) :=
    if is_initiator role then (ellswift_ours, ellswift_theirs) else (ellswift_theirs, ellswift_ours) in
  (sha256 (tag_hash ++ tag_hash ++ first ++ second ++ x), crypto).

(** Both peers of a connection compute one secret. *)
Lemma v2_ecdh_agree `{!Bip324Laws C} ki ei kr er pi pr : generated ki ei -> generated kr er ->
  (v2_ecdh pi ki ei er Initiator).1 = (v2_ecdh pr kr er ei Responder).1.
Proof.
  intros Hi Hr. unfold v2_ecdh. pose proof (ecdh_agree ki ei kr er pi pr Hi Hr) as E.
  destruct (ellswift_ecdh pi ki er), (ellswift_ecdh pr kr ei). simpl in *. by subst.
Qed.
End ecdh.

(** ** The side door *)

Section side_door.
Context {C : Bip324Crypto}.

Definition SIDE_DOOR_TAG_LEN : nat := 32.
Definition DOMAIN : bytes := lit "lantern/bip324-side-door/v1".

Definition side_door_tag_with (hmac_sha256 : bytes -> bytes -> bytes) (k_srv ellswift : bytes) : bytes :=
  hmac_sha256 k_srv (DOMAIN ++ ellswift).

Definition side_door_tag (k_srv ellswift : bytes) : bytes :=
  side_door_tag_with (fun salt ikm => hkdf_extract salt ikm) k_srv ellswift.

(** The loop [diff |= x ^ y] over the zipped slices. *)
Fixpoint ct_diff (a b : bytes) (diff : Z) : Z :=
  match a, b with
  | x :: a', y :: b' => ct_diff a' b' (Z.lor diff (Z.lxor x y))
  | _, _ => diff
  end.

Definition ct_eq (a b : bytes) : bool :=
  if negb (length a =? length b)%nat then false else ct_diff a b 0 =? 0.

Definition verify_side_door_tag_with (hmac_sha256 : bytes -> bytes -> bytes) (k_srv ellswift candidate : bytes) : bool :=
  if (length k_srv =? 0)%nat || (length candidate <? SIDE_DOOR_TAG_LEN)%nat then false
  else ct_eq (side_door_tag_with hmac_sha256 k_srv ellswift) (take SIDE_DOOR_TAG_LEN candidate).

Definition verify_side_door_tag (k_srv ellswift candidate : bytes) : bool :=
  verify_side_door_tag_with (fun salt ikm => hkdf_extract salt ikm) k_srv ellswift candidate.

Lemma ct_diff_0 a : forall b d, length a = length b -> ct_diff a b d = 0 <-> d = 0 /\ a = b.
Proof.
  induction a as [|x a IH]; intros [|y b] d L; simpl in *; try done.
  - by split; [|intros [? _]].
  - rewrite IH by lia. rewrite Z.lor_eq_0_iff, Z.lxor_eq_0_iff. split; [|intros [? [= ? ?]]; done].
    by intros [[-> ->] ->].
Qed.

Lemma ct_eq_spec a b : ct_eq a b = true <-> a = b.
Proof.
  unfold ct_eq. destruct (Nat.eqb_spec (length a) (length b)) as [L|L]; simpl.
  - rewrite Z.eqb_eq, ct_diff_0 by done. tauto.
  - split; [done|]. by intros ->.
Qed.

(** The splitter's test accepts the garbage of a client that has the same
    non-empty secret, and exactly the garbage that opens with the tag. *)
Theorem side_door_exact `{!Bip324Laws C} k_srv ellswift candidate :
  verify_side_door_tag k_srv ellswift candidate = true
  <-> k_srv <> [] /\ exists rest, candidate = side_door_tag k_srv ellswift ++ rest.
Proof.
  unfold verify_side_door_tag, verify_side_door_tag_with. fold (side_door_tag k_srv ellswift).
  assert (length (side_door_tag k_srv ellswift) = SIDE_DOOR_TAG_LEN) as L by apply extract_length.
  destruct (Nat.eqb_spec (length k_srv) 0) as [Z|Z]; simpl.
  { apply length_zero_iff_nil in Z as ->. split; [done|]. by intros [? _]. }
  assert (k_srv <> []) by (by intros ->).
  destruct (Nat.ltb_spec (length candidate) SIDE_DOOR_TAG_LEN) as [S|S].
  { split; [done|]. intros (_ & rest & ->). rewrite length_app in S. lia. }
  rewrite ct_eq_spec. split.
  - intros E. split; [done|]. exists (drop SIDE_DOOR_TAG_LEN candidate). rewrite E. by rewrite take_drop.
  - intros (_ & rest & ->). by rewrite take_app_length'.
Qed.
End side_door.

(** ** A provider that can be run *)

Definition toy_mac (n : nat) (key msg : bytes) : bytes := to_be_bytes n (from_be_bytes key * 31 + from_be_bytes msg * 7 + 1).

#[export] Instance toy_crypto : Bip324Crypto := {|
  Provider := Z;
  Ephemeral := Z;
  ellswift_generate p := ((p mod 256, replicate ELLSWIFT_LEN (p mod 256)), p + 1);
  ellswift_ecdh p k e := (replicate ECDH_SHARED_LEN (k * default 0 (head e) mod 256), p);
  sha256 m := toy_mac 32 [1] m;
  hkdf_extract salt ikm := toy_mac 32 salt ikm;
  hkdf_expand prk info n := toy_mac n prk info;
  chacha20_apply k n c b := zip_with Z.lxor b (toy_mac (length b) (k ++ n) (to_be_bytes 4 c));
  aead_seal k n aad p := p ++ toy_mac AEAD_TAG_LEN (k ++ n) (aad ++ p);
  aead_open k n aad c :=
    let p := take (length c - AEAD_TAG_LEN) c in
    if decide (c = p ++ toy_mac AEAD_TAG_LEN (k ++ n) (aad ++ p)) then Some p else None;
  fill_random p n := (to_be_bytes n p, p + 1);
|}.

Lemma length_toy_mac n k m : length (toy_mac n k m) = n.
Proof. apply length_to_be_bytes. Qed.

#[export] Instance toy_crypto_laws : Bip324Laws toy_crypto.
Proof.
  constructor; cbn [toy_crypto Provider Ephemeral ellswift_ecdh hkdf_extract hkdf_expand chacha20_apply aead_seal aead_open].
  - intros k e (p & p' & E). cbn in E. injection E as <- <- <-. done.
  - intros k1 e1 k2 e2 p1 p2 (q1 & q1' & E1) (q2 & q2' & E2). cbn in E1, E2. injection E1 as <- <- <-. injection E2 as <- <- <-.
    cbn [fst head replicate default ELLSWIFT_LEN]. f_equal. cbn. f_equal. lia.
  - intros. apply length_toy_mac.
  - intros. apply length_toy_mac.
  - intros. rewrite length_zip_with, length_toy_mac. lia.
  - intros. rewrite length_app, length_toy_mac. done.
  - intros k n aad p. rewrite length_app, length_toy_mac.
    replace (length p + AEAD_TAG_LEN - AEAD_TAG_LEN)%nat with (length p) by lia.
    rewrite take_app_length. by rewrite decide_True.
  - intros k n aad c p. case_decide as E; [|done]. intros H. apply (inj Some) in H as <-.
    rewrite E at 1. by rewrite length_app, length_toy_mac.
Qed.
End bip324.
