(* ===== verification/Bip324Session.v ===== *)
(** [bip324-core/src/session.rs]: the key schedule and the two rekeying ciphers,
    with the length cipher proved equal to its specification as a keystream. *)

From S2P Require Import Prelude Bip324Crypto.

Module session.
Import bip324.

Definition KEY_LEN : nat := 32.

Record FSChaCha20 := mk_FSChaCha20 {
  key : bytes;
  block_counter : Z;   (* u32 *)
  chunk_counter : Z;   (* u64 *)
  keystream : bytes;
  ks_pos : nat;
}.
#[export] Instance eta_FSChaCha20 : Settable FSChaCha20 :=
  fun s => mk_FSChaCha20 (key s) (block_counter s) (chunk_counter s) (keystream s) (ks_pos s).

Record FSChaCha20Poly1305 := mk_FSChaCha20Poly1305 {
  p_key : bytes;
  packet_counter : Z;  (* u64 *)
}.
#[export] Instance eta_FSChaCha20Poly1305 : Settable FSChaCha20Poly1305 :=
  fun s => mk_FSChaCha20Poly1305 (p_key s) (packet_counter s).

Record Keys := mk_Keys {
  session_id : bytes;
  send_l : FSChaCha20;
  send_p : FSChaCha20Poly1305;
  recv_l : FSChaCha20;
  recv_p : FSChaCha20Poly1305;
  send_garbage_terminator : bytes;
  recv_garbage_terminator : bytes;
}.
#[export] Instance eta_Keys : Settable Keys :=
  fun s => mk_Keys (session_id s) (send_l s) (send_p s) (recv_l s) (recv_p s) (send_garbage_terminator s) (recv_garbage_terminator s).

Definition FSChaCha20_new (key : bytes) : FSChaCha20 := mk_FSChaCha20 key 0 0 [] 0.
Definition FSChaCha20Poly1305_new (key : bytes) : FSChaCha20Poly1305 := mk_FSChaCha20Poly1305 key 0.

(** The in-place XOR of a slice with a zipped keystream. *)
Fixpoint xor_into (chunk ks : bytes) : bytes :=
  match chunk, ks with
  | b :: chunk', k :: ks' => Z.lxor b k :: xor_into chunk' ks'
  | _, _ => chunk
  end.

Section ciphers.
Context {C : Bip324Crypto}.

Definition derive (ecdh_secret network_magic : bytes) (role : Role) : Keys :=
  let salt := lit "bitcoin_v2_shared_secret" ++ network_magic in
  let prk := hkdf_extract salt ecdh_secret in
  let session_id := hkdf_expand prk (lit "session_id") 32 in
  let initiator_l := hkdf_expand prk (lit "initiator_L") KEY_LEN in
  let initiator_p := hkdf_expand prk (lit "initiator_P") KEY_LEN in
  let responder_l := hkdf_expand prk (lit "responder_L") KEY_LEN in
  let responder_p := hkdf_expand prk (lit "responder_P") KEY_LEN in
  let terminators := hkdf_expand prk (lit "garbage_terminators") (2 * GARBAGE_TERMINATOR_LEN) in
  let initiator_gt := take GARBAGE_TERMINATOR_LEN terminators in
  let responder_gt := drop GARBAGE_TERMINATOR_LEN terminators in
  if is_initiator role then
    mk_Keys session_id (FSChaCha20_new initiator_l) (FSChaCha20Poly1305_new initiator_p)
      (FSChaCha20_new responder_l) (FSChaCha20Poly1305_new responder_p) initiator_gt responder_gt
  else
    mk_Keys session_id (FSChaCha20_new responder_l) (FSChaCha20Poly1305_new responder_p)
      (FSChaCha20_new initiator_l) (FSChaCha20Poly1305_new initiator_p) responder_gt initiator_gt.

(** *** [FSChaCha20] *)

Definition l_nonce (s : FSChaCha20) : bytes := replicate 4 0 ++ to_le_bytes 8 (chunk_counter s / REKEY_INTERVAL).

(** One turn of the loop of [fill]. *)
Definition fill_block (s : FSChaCha20) : FSChaCha20 :=
  let block := chacha20_apply (key s) (l_nonce s) (block_counter s) (replicate 64 0) in
  s <| keystream := keystream s ++ block |> <| block_counter := wrap32 (block_counter s + 1) |>.

Fixpoint fill_loop (fuel n : nat) (s : FSChaCha20) : FSChaCha20 :=
  match fuel with
  | O => s
  | S fuel => if (length (keystream s) - ks_pos s <? n)%nat then fill_loop fuel n (fill_block s) else s
  end.
(** Every turn adds 64 bytes: [n] turns are enough ([fill_enough]). *)
Definition fill (n : nat) (s : FSChaCha20) : FSChaCha20 := fill_loop n n s.

Definition crypt (s : FSChaCha20) (chunk : bytes) : bytes * FSChaCha20 :=
  let s := fill (length chunk) s in
  let out := xor_into chunk (drop (ks_pos s) (keystream s)) in
  let s := s <| ks_pos := (ks_pos s + length chunk)%nat |> in
  let s :=
    if (wrap64 (chunk_counter s + 1) mod REKEY_INTERVAL =? 0) then
      let s := fill KEY_LEN s in
      s <| key := take KEY_LEN (drop (ks_pos s) (keystream s)) |>
        <| block_counter := 0 |> <| keystream := [] |> <| ks_pos := 0%nat |>
    else s in
  (out, s <| chunk_counter := wrap64 (chunk_counter s + 1) |>).

(** *** [FSChaCha20Poly1305] *)

Definition p_nonce (s : FSChaCha20Poly1305) : bytes :=
  to_le_bytes 4 (wrap32 (packet_counter s mod REKEY_INTERVAL)) ++ to_le_bytes 8 (packet_counter s / REKEY_INTERVAL).

Definition advance (s : FSChaCha20Poly1305) (nonce : bytes) : FSChaCha20Poly1305 :=
  let s :=
    if (wrap64 (packet_counter s + 1) mod REKEY_INTERVAL =? 0) then
      let rekey_nonce := replicate 4 0xFF ++ drop 4 nonce in
      s <| p_key := take KEY_LEN (aead_seal (p_key s) rekey_nonce [] (replicate KEY_LEN 0)) |>
    else s in
  s <| packet_counter := wrap64 (packet_counter s + 1) |>.

Definition encrypt (s : FSChaCha20Poly1305) (aad plaintext : bytes) : bytes * FSChaCha20Poly1305 :=
  let nonce := p_nonce s in
  (aead_seal (p_key s) nonce aad plaintext, advance s nonce).

Definition decrypt (s : FSChaCha20Poly1305) (aad ciphertext : bytes) : option (bytes * FSChaCha20Poly1305) :=
  let nonce := p_nonce s in
  let! pt := aead_open (p_key s) nonce aad ciphertext in
  Some (pt, advance s nonce).
End ciphers.
#[global] Arguments crypt {C} s chunk : simpl never.
#[global] Arguments encrypt {C} s aad plaintext : simpl never.
#[global] Arguments decrypt {C} s aad ciphertext : simpl never.

(** The send half of one side is the receive half of the other. *)
Definition mirrored (a b : Keys) : Prop :=
  session_id a = session_id b /\
  send_l a = recv_l b /\ send_p a = recv_p b /\ recv_l a = send_l b /\ recv_p a = send_p b /\
  send_garbage_terminator a = recv_garbage_terminator b /\ recv_garbage_terminator a = send_garbage_terminator b.

Lemma length_xor_into c : forall ks, length (xor_into c ks) = length c.
Proof. induction c as [|b c IH]; intros [|k ks]; simpl; auto. Qed.

Lemma xor_into_invol c : forall ks, xor_into (xor_into c ks) ks = c.
Proof.
  induction c as [|b c IH]; intros [|k ks]; simpl; try done. rewrite IH. f_equal.
  by rewrite Z.lxor_assoc, Z.lxor_nilpotent, Z.lxor_0_r.
Qed.
#[export] Hint Rewrite length_xor_into : spark_len.

Section laws.
Context {C : Bip324Crypto} {L : Bip324Laws C}.

Lemma derive_mirrored secret magic : mirrored (derive secret magic Initiator) (derive secret magic Responder).
Proof. repeat split. Qed.

Lemma derive_terminators secret magic role :
  length (send_garbage_terminator (derive secret magic role)) = GARBAGE_TERMINATOR_LEN /\
  length (recv_garbage_terminator (derive secret magic role)) = GARBAGE_TERMINATOR_LEN.
Proof.
  unfold derive. destruct role; cbn [is_initiator send_garbage_terminator recv_garbage_terminator];
    rewrite length_take, length_drop, expand_length by (unfold GARBAGE_TERMINATOR_LEN; lia); done.
Qed.

(** The cipher in one state undoes itself, and both directions move to one state. *)
Lemma crypt_sync s chunk : crypt s (crypt s chunk).1 = (chunk, (crypt s chunk).2).
Proof.
  unfold crypt. cbn [fst snd]. rewrite length_xor_into, xor_into_invol. done.
Qed.

Lemma length_crypt s chunk : length (crypt s chunk).1 = length chunk.
Proof. unfold crypt. cbn [fst]. apply length_xor_into. Qed.

Lemma decrypt_encrypt s aad pt : decrypt s aad (encrypt s aad pt).1 = Some (pt, (encrypt s aad pt).2).
Proof. unfold decrypt, encrypt. cbn [fst snd]. by rewrite open_seal. Qed.

Lemma length_encrypt s aad pt : length (encrypt s aad pt).1 = (length pt + AEAD_TAG_LEN)%nat.
Proof. unfold encrypt. cbn [fst]. apply seal_length. Qed.
End laws.

(** *** The length cipher as a keystream *)

Section reference.
Context {C : Bip324Crypto} {L : Bip324Laws C}.

(** Block [c] of the keystream of epoch [e] under key [k], and the first [n] blocks. *)
Definition ref_block (k : bytes) (e c : nat) : bytes :=
  chacha20_apply k (replicate 4 0 ++ to_le_bytes 8 (Z.of_nat e)) (Z.of_nat c) (replicate 64 0).
Definition ref_stream (k : bytes) (e n : nat) : bytes := concat (ref_block k e <$> seq 0 n).

(** 224 chunks of three bytes and the next key fill eleven blocks exactly. *)
Definition epoch_stream (k : bytes) (e : nat) : bytes := ref_stream k e 11.
Fixpoint epoch_key (k : bytes) (e : nat) : bytes :=
  match e with
  | O => k
  | S e => take KEY_LEN (drop 672 (epoch_stream (epoch_key k e) e))
  end.
(** The mask of the [i]th length field. *)
Definition ref_mask (k : bytes) (i : nat) : bytes :=
  let e := (i / 224)%nat in
  take LENGTH_FIELD_LEN (drop (3 * (i mod 224)) (epoch_stream (epoch_key k e) e)).

Fixpoint crypt_all (s : FSChaCha20) (chunks : list bytes) : list bytes * FSChaCha20 :=
  match chunks with
  | [] => ([], s)
  | c :: cs => let '(o, s) := crypt s c in let '(os, s) := crypt_all s cs in (o :: os, s)
  end.

Lemma length_ref_block k e c : length (ref_block k e c) = 64%nat.
Proof. unfold ref_block. by rewrite chacha20_length. Qed.

Lemma ref_stream_S k e n : ref_stream k e (S n) = ref_stream k e n ++ ref_block k e n.
Proof. unfold ref_stream. rewrite seq_S, fmap_app, concat_app. simpl. by rewrite app_nil_r. Qed.

Lemma length_ref_stream k e n : length (ref_stream k e n) = (64 * n)%nat.
Proof. induction n as [|n IH]; [done|]. rewrite ref_stream_S, length_app, IH, length_ref_block. lia. Qed.

Lemma ref_stream_slice k e n m pos w : (n <= m)%nat -> (pos + w <= 64 * n)%nat ->
  take w (drop pos (ref_stream k e n)) = take w (drop pos (ref_stream k e m)).
Proof.
  intros Hnm Hw. induction Hnm as [|m Hnm IH]; [done|]. rewrite IH, ref_stream_S.
  rewrite skipn_app, take_app_le; [done|]. rewrite length_drop, length_ref_stream. lia.
Qed.

Lemma xor_into_take c : forall ks, xor_into c ks = xor_into c (take (length c) ks).
Proof. induction c as [|b c IH]; intros [|k ks]; simpl; try done. by rewrite <- IH. Qed.

(** The state in which the cipher of key [k] has [n] blocks of epoch [e] buffered. *)
Definition epoch_at (k : bytes) (e n pos : nat) (ctr : Z) : FSChaCha20 :=
  mk_FSChaCha20 k (Z.of_nat n) ctr (ref_stream k e n) pos.

Lemma fill_block_at k e n pos ctr : (n < 11)%nat -> ctr / REKEY_INTERVAL = Z.of_nat e ->
  fill_block (epoch_at k e n pos ctr) = epoch_at k e (S n) pos ctr.
Proof.
  intros Hn He. unfold fill_block, epoch_at, l_nonce, update_field. simpl. rewrite He, ref_stream_S. f_equal.
  rewrite wrap_small; [lia|]. unfold fits. lia.
Qed.

Lemma fill_loop_at k e pos ctr w : ctr / REKEY_INTERVAL = Z.of_nat e -> (pos + w <= 704)%nat ->
  forall fuel n, (n <= 11)%nat -> (pos <= 64 * n)%nat -> (pos + w <= 64 * (n + fuel))%nat ->
  exists n', (n <= n' <= 11)%nat /\ (pos + w <= 64 * n')%nat /\
    fill_loop fuel w (epoch_at k e n pos ctr) = epoch_at k e n' pos ctr.
Proof.
  intros He Hw. induction fuel as [|fuel IH]; intros n Hn Hp Hf.
  - exists n. repeat split; simpl; lia.
  - simpl. rewrite length_ref_stream. destruct (Nat.ltb_spec (64 * n - pos) w) as [H|H].
    + rewrite fill_block_at by (done || lia). destruct (IH (S n)) as (n' & ? & ? & E); [lia..|].
      exists n'. split; [lia|]. by split.
    + exists n. repeat split; simpl; lia.
Qed.

Lemma fill_at k e n pos ctr w : ctr / REKEY_INTERVAL = Z.of_nat e -> (pos + w <= 704)%nat ->
  (n <= 11)%nat -> (pos <= 64 * n)%nat ->
  exists n', (n <= n' <= 11)%nat /\ (pos + w <= 64 * n')%nat /\ fill w (epoch_at k e n pos ctr) = epoch_at k e n' pos ctr.
Proof. intros He Hw Hn Hp. unfold fill. apply fill_loop_at; [done..|]. lia. Qed.

(** The state of the cipher after [i] length fields: never more than eleven
    blocks are buffered, and the read position is inside them. *)
Definition fs_at (k : bytes) (i : nat) (s : FSChaCha20) : Prop :=
  exists n, (n <= 11)%nat /\ (3 * (i mod 224) <= 64 * n)%nat /\
    s = epoch_at (epoch_key k (i / 224)) (i / 224) n (3 * (i mod 224)) (Z.of_nat i).

Lemma epoch_same i : ((i + 1) mod 224 <> 0)%nat -> ((S i) / 224 = i / 224)%nat /\ ((S i) mod 224 = S (i mod 224))%nat.
Proof. lia. Qed.
Lemma epoch_next i : ((i + 1) mod 224 = 0)%nat -> ((S i) / 224 = S (i / 224))%nat /\ ((S i) mod 224 = 0)%nat /\ (i mod 224 = 223)%nat.
Proof. lia. Qed.

Lemma crypt_at k i s chunk : fs_at k i s -> Z.of_nat i + 1 < 2 ^ 64 -> length chunk = LENGTH_FIELD_LEN ->
  (crypt s chunk).1 = xor_into chunk (ref_mask k i) /\ fs_at k (S i) (crypt s chunk).2.
Proof.
  intros (n & Hn & Hp & ->) Hi Hc. unfold crypt. rewrite Hc.
  assert (Z.of_nat i / REKEY_INTERVAL = Z.of_nat (i / 224)) as He by (unfold REKEY_INTERVAL; lia).
  destruct (fill_at (epoch_key k (i / 224)) (i / 224) n (3 * (i mod 224)) (Z.of_nat i) LENGTH_FIELD_LEN)
    as (n1 & Hn1 & Hp1 & ->); [done|unfold LENGTH_FIELD_LEN; lia|done..|].
  cbn [fst snd]. split.
  - rewrite xor_into_take, Hc. unfold ref_mask, epoch_stream. cbn [epoch_at ks_pos keystream].
    rewrite (ref_stream_slice _ _ n1 11) by lia. done.
  - set (s1 := (epoch_at _ _ n1 _ _) <| ks_pos := _ |>).
    assert (s1 = epoch_at (epoch_key k (i / 224)) (i / 224) n1 (3 * (i mod 224) + 3) (Z.of_nat i)) as -> by reflexivity.
    cbn [epoch_at chunk_counter]. fold (epoch_at (epoch_key k (i / 224)) (i / 224) n1 (3 * (i mod 224) + 3) (Z.of_nat i)).
    rewrite (wrap_small 64 (Z.of_nat i + 1)) by (unfold fits; lia). unfold LENGTH_FIELD_LEN in *.
    destruct (Z.eqb_spec ((Z.of_nat i + 1) mod REKEY_INTERVAL) 0) as [E|E]; unfold REKEY_INTERVAL in E.
    + destruct (epoch_next i) as (E1 & E2 & E3); [lia|].
      replace (3 * (i mod 224) + 3)%nat with 672%nat by lia.
      destruct (fill_at (epoch_key k (i / 224)) (i / 224) n1 672 (Z.of_nat i) KEY_LEN)
        as (n2 & Hn2 & Hp2 & ->); [done|unfold KEY_LEN; lia|lia..|].
      exists 0%nat. rewrite E1, E2. split; [lia|]. split; [lia|]. unfold epoch_at, update_field, KEY_LEN in *. simpl.
      rewrite (ref_stream_slice _ _ n2 11) by lia. rewrite wrap_small by (unfold fits; lia). f_equal. lia.
    + destruct (epoch_same i) as (E1 & E2); [lia|]. exists n1. rewrite E1, E2. split; [lia|]. split; [lia|].
      unfold epoch_at, update_field. simpl. rewrite wrap_small by (unfold fits; lia). f_equal; lia.
Qed.

Lemma crypt_all_at k : forall chunks i s, fs_at k i s -> Z.of_nat i + Z.of_nat (length chunks) < 2 ^ 64 ->
  Forall (fun c => length c = LENGTH_FIELD_LEN) chunks ->
  (crypt_all s chunks).1 = imap (fun j c => xor_into c (ref_mask k (i + j))) chunks /\
  fs_at k (i + length chunks) (crypt_all s chunks).2.
Proof.
  induction chunks as [|c cs IH]; intros i s Hs Hi Hc; cbn [crypt_all].
  - simpl. by rewrite Nat.add_0_r.
  - apply Forall_cons_iff in Hc as [Hc Hcs]. simpl in Hi.
    destruct (crypt_at k i s c) as [E1 E2]; [done|lia|done|]. destruct (crypt s c) as [o s1]. simpl in *.
    destruct (IH (S i) s1) as [F1 F2]; [done|lia|done|]. destruct (crypt_all s1 cs) as [os s2]. simpl in *.
    replace (i + S (length cs))%nat with (S (i + length cs)) by lia. split; [|done].
    rewrite E1, F1, Nat.add_0_r. f_equal. apply imap_ext. intros j x _. simpl. f_equal. f_equal. lia.
Qed.

(** for every sequence of fewer than 2^64 length fields, the incremental cipher with its buffered keystream, consumed offset and
    rekeying computes the specified function: field [i] is masked with bytes [3*(i mod 224)..] of the ChaCha20 keystream of
    epoch [i/224], whose key is bytes 672..704 of the keystream of the epoch before; at most eleven blocks are ever
    buffered, so neither the block counter nor the read offset leaves its range. *)
Theorem length_cipher_refines (k : bytes) (chunks : list bytes) :
  Z.of_nat (length chunks) < 2 ^ 64 -> Forall (fun c => length c = LENGTH_FIELD_LEN) chunks ->
  (crypt_all (FSChaCha20_new k) chunks).1 = imap (fun i c => xor_into c (ref_mask k i)) chunks /\
  (let s := (crypt_all (FSChaCha20_new k) chunks).2 in
   chunk_counter s = Z.of_nat (length chunks) /\ 0 <= block_counter s <= 11 /\
   Z.of_nat (length (keystream s)) = 64 * block_counter s /\ (ks_pos s <= length (keystream s))%nat).
Proof.
  intros Hn Hc. destruct (crypt_all_at k chunks 0 (FSChaCha20_new k)) as [E (n & Hn11 & Hp & ->)]; [|lia|done|].
  - exists 0%nat. split; [lia|]. split; [simpl; lia|reflexivity].
  - split; [done|]. cbn [epoch_at chunk_counter block_counter keystream ks_pos]. rewrite length_ref_stream.
    simpl in *. lia.
Qed.

(** no nonce is used twice under the packet cipher: the nonces of distinct packet counters differ, and none of them is the
    sentinel nonce of a rekeying. *)
Theorem packet_nonces_fresh (k : bytes) (c c' e : Z) : fits 64 c -> fits 64 c' ->
  (p_nonce (mk_FSChaCha20Poly1305 k c) = p_nonce (mk_FSChaCha20Poly1305 k c') -> c = c') /\
  p_nonce (mk_FSChaCha20Poly1305 k c) <> replicate 4 0xFF ++ drop 4 (p_nonce (mk_FSChaCha20Poly1305 k e)).
Proof.
  intros Hc Hc'. unfold p_nonce, fits, REKEY_INTERVAL in *. cbn [packet_counter].
  assert (forall x, wrap32 (x mod 224) = x mod 224) as W by (intros; apply wrap_small; unfold fits; lia). rewrite !W.
  split.
  - intros E. apply app_inj_1 in E as [E1 E2]; [|by rewrite !length_to_le_bytes].
    unfold to_le_bytes in *. apply (inj reverse), (f_equal from_be_bytes) in E1, E2.
    rewrite !from_to_be_bytes_small in E1, E2 by lia. lia.
  - intros E. apply app_inj_1 in E as [E1 _]; [|by rewrite length_to_le_bytes].
    apply (f_equal reverse) in E1. unfold to_le_bytes in E1. rewrite reverse_involutive in E1.
    apply (f_equal from_be_bytes) in E1. rewrite from_to_be_bytes_small in E1 by lia.
    assert (from_be_bytes (reverse (replicate 4 255)) = 4294967295) as F by reflexivity. lia.
Qed.
End reference.
Lemma length_cipher_refines_witness :
  (crypt_all (FSChaCha20_new (replicate 32 7)) [[1; 2; 3]; [4; 5; 6]]).1 =
  imap (fun i c => xor_into c (ref_mask (replicate 32 7) i)) [[1; 2; 3]; [4; 5; 6]].
Proof. refine (proj1 (length_cipher_refines (replicate 32 7) [[1; 2; 3]; [4; 5; 6]] _ _)); [simpl; lia|repeat constructor]. Defined.
End session.
