(* ===== verification/Bip324Packet.v ===== *)
(** [bip324-core/src/packet.rs]: packet framing and the established session. The
    wire of a sender is delivered message by message however it is cut. *)

From S2P Require Import Prelude Bip324Crypto Bip324Session.

Module packet.
Import bip324 session.

Section framing.
Context {C : Bip324Crypto}.

Definition encrypt_packet (l : FSChaCha20) (p : FSChaCha20Poly1305) (contents aad : bytes) (ignore : bool)
  : result Error (bytes * FSChaCha20 * FSChaCha20Poly1305) :=
  if MAX_CONTENTS_LEN <? Z.of_nat (length contents) then Err ContentsTooLong else
  let length := take LENGTH_FIELD_LEN (to_le_bytes 4 (wrap32 (Z.of_nat (length contents)))) in
  let '(length, l) := crypt l length in
  let plaintext := (if ignore then IGNORE_BIT else 0) :: contents in
  let '(aead, p) := session.encrypt p aad plaintext in
  Ok (length ++ aead, l, p).

Definition decrypt_length (l : FSChaCha20) (enc_len : bytes) : nat * FSChaCha20 :=
  let '(buf, l) := crypt l enc_len in
  (Z.to_nat (Z.lor (Z.lor (buf !!! 0%nat) (Z.shiftl (buf !!! 1%nat) 8)) (Z.shiftl (buf !!! 2%nat) 16)), l).

Record DecryptedPacket := mk_DecryptedPacket { ignore : bool; contents : bytes }.

(** On a failed authentication the cipher is left as it was; an authenticated
    empty plaintext is refused after the cipher has advanced. *)
Definition decrypt_packet (p : FSChaCha20Poly1305) (aead_ciphertext aad : bytes)
  : result Error DecryptedPacket * FSChaCha20Poly1305 :=
  match session.decrypt p aad aead_ciphertext with
  | None => (Err Decrypt, p)
  | Some (pt, p) =>
      match pt with
      | [] => (Err Decrypt, p)
      | header :: _ =>
          (Ok (mk_DecryptedPacket (negb (Z.land header IGNORE_BIT =? 0)) (drop HEADER_LEN pt)), p)
      end
  end.
End framing.

Record Session := mk_Session {
  role : Role;
  s_session_id : bytes;
  s_send_l : FSChaCha20;
  s_send_p : FSChaCha20Poly1305;
  s_recv_l : FSChaCha20;
  s_recv_p : FSChaCha20Poly1305;
  recv_buf : bytes;
  pending_len : option nat;
}.
#[export] Instance eta_Session : Settable Session :=
  fun s => mk_Session (role s) (s_session_id s) (s_send_l s) (s_send_p s) (s_recv_l s) (s_recv_p s) (recv_buf s) (pending_len s).

Definition Session_new (role : Role) (keys : Keys) (initial_recv : bytes) : Session :=
  mk_Session role (session_id keys) (send_l keys) (send_p keys) (recv_l keys) (recv_p keys) initial_recv None.

Section session.
Context {C : Bip324Crypto}.

(** [encrypt] and [encrypt_decoy], which differ in the ignore bit. *)
Definition seal (decoy : bool) (s : Session) (contents : bytes) : result Error bytes * Session :=
  match encrypt_packet (s_send_l s) (s_send_p s) contents [] decoy with
  | Err e => (Err e, s)
  | Ok (out, l, p) => (Ok out, s <| s_send_l := l |> <| s_send_p := p |>)
  end.
Definition encrypt : Session -> bytes -> result Error bytes * Session := seal false.
Definition encrypt_decoy : Session -> bytes -> result Error bytes * Session := seal true.

(** One turn of the loop of [decrypt]: it goes on, waits for bytes, or fails. *)
Inductive turn :=
| Continue (s : Session) (out : list bytes)
| Break
| Raise (s : Session) (e : Error).

Definition decrypt_turn (s : Session) (out : list bytes) : turn :=
  match pending_len s with
  | None =>
      if (length (recv_buf s) <? LENGTH_FIELD_LEN)%nat then Break else
      let '(len, l) := decrypt_length (s_recv_l s) (take LENGTH_FIELD_LEN (recv_buf s)) in
      Continue (s <| s_recv_l := l |> <| recv_buf := drop LENGTH_FIELD_LEN (recv_buf s) |> <| pending_len := Some len |>) out
  | Some len =>
      let need := (HEADER_LEN + len + AEAD_TAG_LEN)%nat in
      if (length (recv_buf s) <? need)%nat then Break else
      match decrypt_packet (s_recv_p s) (take need (recv_buf s)) [] with
      | (Err e, p) => Raise (s <| s_recv_p := p |>) e
      | (Ok packet, p) =>
          Continue (s <| s_recv_p := p |> <| recv_buf := drop need (recv_buf s) |> <| pending_len := None |>)
                   (if ignore packet then out else out ++ [contents packet])
      end
  end.

(** [None] is a loop that has not ended within its fuel. *)
Fixpoint decrypt_loop (fuel : nat) (s : Session) (out : list bytes) : option (result Error (list bytes) * Session) :=
  match fuel with
  | O => None
  | S fuel =>
      match decrypt_turn s out with
      | Continue s out => decrypt_loop fuel s out
      | Break => Some (Ok out, s)
      | Raise s e => Some (Err e, s)
      end
  end.

(** Every turn that goes on consumes bytes of the buffer ([decrypt_total]). *)
Definition decrypt (s : Session) (wire : bytes) : option (result Error (list bytes) * Session) :=
  let s := s <| recv_buf := recv_buf s ++ wire |> in
  decrypt_loop (S (length (recv_buf s))) s [].

(** A sequence of calls, stopped by the first error. *)
Fixpoint decrypt_all (s : Session) (wires : list bytes) : option (result Error (list bytes) * Session) :=
  match wires with
  | [] => Some (Ok [], s)
  | w :: wires =>
      match decrypt s w with
      | None => None
      | Some (Err e, s) => Some (Err e, s)
      | Some (Ok o, s) =>
          match decrypt_all s wires with
          | None => None
          | Some (Err e, s) => Some (Err e, s)
          | Some (Ok o', s) => Some (Ok (o ++ o'), s)
          end
      end
  end.

(** Packets sealed one after the other: a message is its contents and whether it is a decoy. *)
Fixpoint seal_all (s : Session) (msgs : list (bool * bytes)) : result Error bytes * Session :=
  match msgs with
  | [] => (Ok [], s)
  | (decoy, m) :: msgs =>
      match seal decoy s m with
      | (Err e, s) => (Err e, s)
      | (Ok w, s) => match seal_all s msgs with (Err e, s) => (Err e, s) | (Ok w', s) => (Ok (w ++ w'), s) end
      end
  end.
End session.

(** ** How the wire is cut does not matter *)

Definition feed (s : Session) (b : bytes) : Session := s <| recv_buf := recv_buf s ++ b |>.

Lemma feed_app s a b : feed (feed s a) b = feed s (a ++ b).
Proof. unfold feed, update_field. simpl. by rewrite app_assoc. Qed.
Lemma feed_nil s : feed s [] = s.
Proof. unfold feed, update_field. simpl. rewrite app_nil_r. by destruct s. Qed.

(** Put results in front of those of a later call. *)
Definition after (o : list bytes) (r : result Error (list bytes) * Session) : result Error (list bytes) * Session :=
  match r with (Ok o', s) => (Ok (o ++ o'), s) | (Err e, s) => (Err e, s) end.

Section cutting.
Context {C : Bip324Crypto}.

Lemma turn_shrinks s o s' o' : decrypt_turn s o = Continue s' o' -> (length (recv_buf s') < length (recv_buf s))%nat.
Proof.
  unfold decrypt_turn. destruct (pending_len s) as [len|].
  - destruct (Nat.ltb_spec (length (recv_buf s)) (HEADER_LEN + len + AEAD_TAG_LEN)) as [H|H]; [done|].
    destruct (decrypt_packet _ _ _) as [[pk|e] p]; [|done]. intros [= <- <-]. unfold update_field. cbn [eta_Session recv_buf].
    rewrite length_drop. unfold HEADER_LEN in *. lia.
  - destruct (Nat.ltb_spec (length (recv_buf s)) LENGTH_FIELD_LEN) as [H|H]; [done|].
    destruct (decrypt_length _ _) as [len l]. intros [= <- <-]. unfold update_field. cbn [eta_Session recv_buf].
    rewrite length_drop. unfold LENGTH_FIELD_LEN in *. lia.
Qed.

Lemma loop_total : forall fuel s o, (length (recv_buf s) < fuel)%nat -> is_Some (decrypt_loop fuel s o).
Proof.
  induction fuel as [|fuel IH]; intros s o Hf; [lia|]. simpl.
  destruct (decrypt_turn s o) as [s' o'| |s' e] eqn:E; [|by eexists..]. apply turn_shrinks in E. apply IH. lia.
Qed.

Lemma loop_fuel : forall f f' s o r, (f <= f')%nat -> decrypt_loop f s o = Some r -> decrypt_loop f' s o = Some r.
Proof.
  induction f as [|f IH]; intros [|f'] s o r Hf; simpl; try done; [lia|].
  destruct (decrypt_turn s o); [|done..]. apply IH. lia.
Qed.

(** The loop from a state, whatever the fuel. *)
Definition runs (s : Session) (o : list bytes) (r : result Error (list bytes) * Session) : Prop :=
  exists f, decrypt_loop f s o = Some r.

Lemma runs_total s o : exists r, runs s o r.
Proof. destruct (loop_total (S (length (recv_buf s))) s o) as [r Hr]; [lia|]. by exists r, (S (length (recv_buf s))). Qed.

Lemma runs_fun s o r r' : runs s o r -> runs s o r' -> r = r'.
Proof.
  intros [f Hf] [f' Hf']. apply (loop_fuel _ (f + f')) in Hf; [|lia]. apply (loop_fuel _ (f + f')) in Hf'; [|lia]. congruence.
Qed.

Lemma decrypt_runs s w r : decrypt s w = Some r <-> runs (feed s w) [] r.
Proof.
  unfold decrypt. fold (feed s w). split; [intros H; by eexists|]. intros H.
  destruct (loop_total (S (length (recv_buf (feed s w)))) (feed s w) []) as [r' Hr']; [lia|]. rewrite Hr'. f_equal.
  eapply runs_fun; [|done]. by eexists.
Qed.

Lemma runs_turn s o r : runs s o r <->
  match decrypt_turn s o with Continue s' o' => runs s' o' r | Break => r = (Ok o, s) | Raise s' e => r = (Err e, s') end.
Proof.
  split.
  - intros [[|f] Hf]; [done|]. simpl in Hf. destruct (decrypt_turn s o); [by exists f|congruence..].
  - destruct (decrypt_turn s o) as [s' o'| |s' e] eqn:E.
    + intros [f Hf]. exists (S f). simpl. by rewrite E.
    + intros ->. exists 1%nat. simpl. by rewrite E.
    + intros ->. exists 1%nat. simpl. by rewrite E.
Qed.

Lemma take_drop_feed {A} (l b : list A) n : (n <= length l)%nat -> take n (l ++ b) = take n l /\ drop n (l ++ b) = drop n l ++ b.
Proof. intros. by rewrite take_app_le, drop_app_le. Qed.

(** More bytes in the buffer change nothing about a turn that did not wait for them. *)
Lemma turn_feed s o b :
  match decrypt_turn s o with
  | Continue s' o' => decrypt_turn (feed s b) o = Continue (feed s' b) o'
  | Raise s' e => decrypt_turn (feed s b) o = Raise (feed s' b) e
  | Break => True
  end.
Proof.
  unfold decrypt_turn. replace (pending_len (feed s b)) with (pending_len s) by done.
  replace (recv_buf (feed s b)) with (recv_buf s ++ b) by done. rewrite length_app.
  destruct (pending_len s) as [len|].
  - set (need := (HEADER_LEN + len + AEAD_TAG_LEN)%nat). destruct (Nat.ltb_spec (length (recv_buf s)) need) as [H|H]; [done|].
    destruct (Nat.ltb_spec (length (recv_buf s) + length b) need); [lia|].
    destruct (take_drop_feed (recv_buf s) b need H) as [-> ->]. replace (s_recv_p (feed s b)) with (s_recv_p s) by done.
    by destruct (decrypt_packet _ _ _) as [[pk|e] p].
  - destruct (Nat.ltb_spec (length (recv_buf s)) LENGTH_FIELD_LEN) as [H|H]; [done|].
    destruct (Nat.ltb_spec (length (recv_buf s) + length b) LENGTH_FIELD_LEN); [lia|].
    destruct (take_drop_feed (recv_buf s) b LENGTH_FIELD_LEN H) as [-> ->]. replace (s_recv_l (feed s b)) with (s_recv_l s) by done.
    by destruct (decrypt_length _ _) as [len l].
Qed.

Lemma turn_after p s o : decrypt_turn s (p ++ o) =
  match decrypt_turn s o with Continue s' o' => Continue s' (p ++ o') | t => t end.
Proof.
  unfold decrypt_turn. destruct (pending_len s) as [len|].
  - destruct (_ <? _)%nat; [done|]. destruct (decrypt_packet _ _ _) as [[pk|e] q]; [|done].
    destruct (ignore pk); [done|]. by rewrite app_assoc.
  - destruct (_ <? _)%nat; [done|]. by destruct (decrypt_length _ _).
Qed.

Lemma runs_after p s o r : runs s o r -> runs s (p ++ o) (after p r).
Proof.
  intros [f Hf]. exists f. revert s o Hf. induction f as [|f IH]; intros s o Hf; [done|]. simpl in *.
  rewrite turn_after. destruct (decrypt_turn s o) as [s' o'| |s' e]; [by apply IH|..]; apply (inj Some) in Hf as <-; done.
Qed.

(** A run resumes where it waited. *)
Lemma runs_feed s o r b : runs s o r ->
  match r with
  | (Ok o1, s1) => forall r', runs (feed s1 b) o1 r' -> runs (feed s b) o r'
  | (Err e, s1) => runs (feed s b) o (Err e, feed s1 b)
  end.
Proof.
  intros [f Hf]. revert s o Hf. induction f as [|f IH]; intros s o Hf; [done|]. simpl in Hf.
  pose proof (turn_feed s o b) as T. destruct (decrypt_turn s o) as [s' o'| |s' e] eqn:E.
  - apply IH in Hf. destruct r as [[o1|e] s1].
    + intros r' Hr'. apply runs_turn. rewrite T. by apply Hf.
    + apply runs_turn. by rewrite T.
  - apply (inj Some) in Hf as <-. done.
  - apply (inj Some) in Hf as <-. apply runs_turn. by rewrite T.
Qed.

Lemma decrypt_app s a b o1 s1 : decrypt s a = Some (Ok o1, s1) -> decrypt s (a ++ b) = after o1 <$> decrypt s1 b.
Proof.
  intros H. destruct (runs_total (feed s1 b) []) as [r Hr]. assert (decrypt s1 b = Some r) as -> by by apply decrypt_runs.
  apply decrypt_runs in H. apply decrypt_runs. rewrite <- feed_app. apply (runs_feed _ _ _ b H).
  apply (runs_after o1) in Hr. by rewrite app_nil_r in Hr.
Qed.

Lemma decrypt_app_err s a b e s1 : decrypt s a = Some (Err e, s1) -> decrypt s (a ++ b) = Some (Err e, feed s1 b).
Proof.
  intros H. apply decrypt_runs in H. apply decrypt_runs. rewrite <- feed_app. apply (runs_feed _ _ _ b H).
Qed.

Lemma decrypt_total s w : is_Some (decrypt s w).
Proof. destruct (runs_total (feed s w) []) as [r Hr]. exists r. by apply decrypt_runs. Qed.

(** A session that waits for bytes. *)
Definition quiescent (s : Session) : Prop := decrypt s [] = Some (Ok [], s).

(** The calls on the pieces of a wire return together what one call on the whole returns. *)
Lemma decrypt_all_concat : forall ws s o s', quiescent s ->
  decrypt s (concat ws) = Some (Ok o, s') -> decrypt_all s ws = Some (Ok o, s').
Proof.
  induction ws as [|w ws IH]; intros s o s' Q H; simpl in *.
  - unfold quiescent in Q. congruence.
  - destruct (decrypt_total s w) as [[[o1|e] s1] Hw]; rewrite Hw.
    + rewrite (decrypt_app _ _ _ _ _ Hw) in H. destruct (decrypt_total s1 (concat ws)) as [[[o2|e2] s2] H2]; rewrite H2 in H; [|done].
      assert (quiescent s1) as Q1.
      { pose proof (decrypt_app _ _ [] _ _ Hw) as E. rewrite app_nil_r, Hw in E. unfold quiescent.
        destruct (decrypt_total s1 []) as [[[o3|e3] s3] H3]; rewrite H3 in E |- *; simpl in E; [|done].
        injection E as E1 E2. subst s3. apply (f_equal length) in E1. rewrite length_app in E1.
        by destruct o3; [|simpl in E1; lia]. }
      rewrite (IH _ _ _ Q1 H2). simpl in H. congruence.
    + rewrite (decrypt_app_err _ _ _ _ _ Hw) in H. done.
Qed.
End cutting.

(** ** Delivery *)

(** The contents of the messages that are not decoys, in order. *)
Definition genuine (msgs : list (bool * bytes)) : list bytes :=
  omap (fun m : bool * bytes => if m.1 then None else Some m.2) msgs.

(** [b] is ready to receive what [a] seals next. *)
Definition linked (a b : Session) : Prop :=
  s_send_l a = s_recv_l b /\ s_send_p a = s_recv_p b /\ recv_buf b = [] /\ pending_len b = None.

Definition sendable (m : bool * bytes) : Prop := Z.of_nat (length m.2) <= MAX_CONTENTS_LEN.

Lemma le3_bytes n : 0 <= n < 2 ^ 24 -> exists a b c, take LENGTH_FIELD_LEN (to_le_bytes 4 (wrap32 n)) = [a; b; c] /\
  Z.lor (Z.lor a (Z.shiftl b 8)) (Z.shiftl c 16) = n.
Proof.
  intros Hn. exists (n mod 256), (n / 256 mod 256), (n / 256 / 256 mod 256). rewrite wrap_small by (unfold fits; lia). split; [done|].
  rewrite (Z.lor_comm (n mod 256)), lor_shiftl_add by lia. rewrite Z.lor_comm, lor_shiftl_add by lia. lia.
Qed.

Section delivery.
Context {C : Bip324Crypto} {L : Bip324Laws C}.

(** A sealed packet splits into the length field and the ciphertext, each of which the receiver's cipher opens. *)
Lemma encrypt_packet_ok l p m aad decoy : Z.of_nat (length m) <= MAX_CONTENTS_LEN ->
  exists enc ct l' p', encrypt_packet l p m aad decoy = Ok (enc ++ ct, l', p') /\
    length enc = LENGTH_FIELD_LEN /\ length ct = (HEADER_LEN + length m + AEAD_TAG_LEN)%nat /\
    decrypt_length l enc = (length m, l') /\
    decrypt_packet p ct aad = (Ok (mk_DecryptedPacket decoy m), p').
Proof.
  intros Hm. unfold MAX_CONTENTS_LEN in Hm. unfold encrypt_packet, decrypt_length, decrypt_packet.
  destruct (Z.ltb_spec MAX_CONTENTS_LEN (Z.of_nat (length m))) as [H|_]; [unfold MAX_CONTENTS_LEN in H; lia|].
  destruct (le3_bytes (Z.of_nat (length m))) as (a & b & c & -> & E); [lia|].
  pose proof (crypt_sync l [a; b; c]) as S. pose proof (length_crypt l [a; b; c]) as S3. destruct (crypt l [a; b; c]) as [enc l'].
  set (pt := (if decoy then IGNORE_BIT else 0) :: m).
  pose proof (decrypt_encrypt p aad pt) as D. pose proof (length_encrypt p aad pt) as D3. destruct (session.encrypt p aad pt) as [ct p'].
  cbn [fst snd] in *. exists enc, ct, l', p'. split; [done|]. split; [done|]. split; [done|]. rewrite S, D. split.
  - f_equal. etransitivity; [|apply Nat2Z.id]. f_equal. exact E.
  - subst pt. unfold HEADER_LEN. by destruct decoy.
Qed.

Lemma quiescent_empty s : recv_buf s = [] -> pending_len s = None -> quiescent s.
Proof.
  intros H1 H2. unfold quiescent. apply decrypt_runs, runs_turn. rewrite feed_nil. unfold decrypt_turn. by rewrite H2, H1.
Qed.

(** One packet, whole. *)
Lemma deliver_one a b decoy m : linked a b -> sendable (decoy, m) ->
  exists w a' b', seal decoy a m = (Ok w, a') /\ decrypt b w = Some (Ok (genuine [(decoy, m)]), b') /\ linked a' b' /\
    s_recv_l a' = s_recv_l a /\ s_recv_p a' = s_recv_p a.
Proof.
  intros (Hl & Hp & Hb & Hn) Hm. unfold seal.
  destruct (encrypt_packet_ok (s_send_l a) (s_send_p a) m [] decoy Hm) as (enc & ct & l' & p' & -> & L1 & L2 & D1 & D2).
  exists (enc ++ ct). eexists _, _. split; [done|]. split.
  - apply decrypt_runs, runs_turn. unfold decrypt_turn. replace (pending_len (feed b (enc ++ ct))) with (pending_len b) by done. rewrite Hn.
    replace (recv_buf (feed b (enc ++ ct))) with (enc ++ ct) by (unfold feed, update_field; simpl; by rewrite Hb).
    destruct (Nat.ltb_spec (length (enc ++ ct)) LENGTH_FIELD_LEN) as [H|_]; [rewrite length_app in H; lia|].
    rewrite take_app_length', drop_app_length' by done. replace (s_recv_l (feed b (enc ++ ct))) with (s_recv_l b) by done.
    rewrite <- Hl, D1. apply runs_turn. unfold decrypt_turn, feed, update_field. cbn [eta_Session pending_len recv_buf s_recv_p].
    rewrite L2, Nat.ltb_irrefl. rewrite <- Hp. rewrite <- L2, firstn_all, drop_all, D2.
    apply runs_turn. cbn. unfold update_field. simpl. by destruct decoy.
  - unfold linked, update_field. simpl. done.
Qed.

(** The whole wire of a sequence of packets, in one call. *)
Lemma sealed_deliver_all : forall msgs a b, linked a b -> Forall sendable msgs ->
  exists w a' b', seal_all a msgs = (Ok w, a') /\ decrypt b w = Some (Ok (genuine msgs), b') /\ linked a' b'.
Proof.
  induction msgs as [|[decoy m] msgs IH]; intros a b Hl Hm; simpl.
  - exists [], a, b. split; [done|]. split; [|done]. destruct Hl as (_ & _ & H1 & H2). by apply quiescent_empty.
  - apply Forall_cons_iff in Hm as [Hm Hms].
    destruct (deliver_one a b decoy m Hl Hm) as (w & a1 & b1 & -> & H1 & L1 & _).
    destruct (IH a1 b1 L1 Hms) as (w' & a2 & b2 & -> & H2 & L2). exists (w ++ w'), a2, b2. split; [done|]. split; [|done].
    rewrite (decrypt_app _ _ _ _ _ H1), H2. simpl. by destruct decoy.
Qed.

(** C22: messages sealed by one side, decoys among them, reach the other exactly: however the wire is cut into the byte slices fed
    to [decrypt], across any number of rekeyings, the calls return together the genuine contents in order and leave the two
    ends linked for the messages after; while bytes are missing, they have returned a prefix of them and no error. *)
Theorem session_delivers (a b : Session) (msgs : list (bool * bytes)) : linked a b -> Forall sendable msgs ->
  exists w a', seal_all a msgs = (Ok w, a') /\
  forall wires rest, concat wires ++ rest = w ->
  exists got b', decrypt_all b wires = Some (Ok got, b') /\ got `prefix_of` genuine msgs /\
    (rest = [] -> got = genuine msgs /\ linked a' b').
Proof.
  intros Hl Hm. destruct (sealed_deliver_all msgs a b Hl Hm) as (w & a' & b' & Hs & Hd & Hl'). exists w, a'. split; [done|].
  intros wires rest <-. assert (quiescent b) as Q by (destruct Hl as (_ & _ & H1 & H2); by apply quiescent_empty).
  destruct (decrypt_total b (concat wires)) as [[[o1|e] s1] H1].
  - exists o1, s1. split; [by apply decrypt_all_concat|]. rewrite (decrypt_app _ _ _ _ _ H1) in Hd.
    destruct (decrypt_total s1 rest) as [[[o2|e] s2] H2]; rewrite H2 in Hd; simpl in Hd; [|done].
    injection Hd as E1 E2. split; [exists o2; done|]. intros ->. rewrite app_nil_r in *.
    pose proof (decrypt_app _ _ [] _ _ H1) as E. rewrite app_nil_r, H1, H2 in E. simpl in E. injection E as E3 E4.
    apply (f_equal length) in E3. rewrite length_app in E3. destruct o2; [|simpl in E3; lia]. rewrite app_nil_r in E1. subst. done.
  - rewrite (decrypt_app_err _ _ _ _ _ H1) in Hd. done.
Qed.

(** A turn that failed fails again in the state it left. *)
Lemma raise_stuck s o s' e o' : decrypt_turn s o = Raise s' e -> decrypt_turn s' o' = Raise s' e.
Proof.
  unfold decrypt_turn. destruct (pending_len s) as [len|] eqn:Ep.
  - destruct (Nat.ltb_spec (length (recv_buf s)) (HEADER_LEN + len + AEAD_TAG_LEN)) as [|Hlen]; [done|].
    unfold decrypt_packet at 1. destruct (session.decrypt _ _ _) as [[pt p]|] eqn:D.
    + destruct pt; [|done]. unfold session.decrypt in D. destruct (aead_open _ _ _ _) eqn:O; [|done].
      apply open_length in O. injection D as -> <-. rewrite length_take, length_nil in O. unfold HEADER_LEN, AEAD_TAG_LEN in *. lia.
    + intros [= <- <-]. unfold update_field. cbn [eta_Session pending_len recv_buf s_recv_p]. rewrite Ep.
      destruct (Nat.ltb_spec (length (recv_buf s)) (HEADER_LEN + len + AEAD_TAG_LEN)); [lia|].
      unfold decrypt_packet. by rewrite D.
  - destruct (_ <? _)%nat; [done|]. by destruct (decrypt_length _ _).
Qed.

Lemma runs_error s o e s' o' : runs s o (Err e, s') -> runs s' o' (Err e, s').
Proof.
  intros [f Hf]. revert s o Hf. induction f as [|f IH]; intros s o Hf; [done|]. simpl in Hf.
  destruct (decrypt_turn s o) as [s1 o1| |s1 e1] eqn:E; [by eapply IH|done|].
  apply (inj Some) in Hf. injection Hf as -> ->. apply runs_turn. by rewrite (raise_stuck _ _ _ _ o' E).
Qed.

(** an authentication failure ends a session: once [decrypt] has returned an error, every later call on whatever bytes returns
    that error as well, since neither the buffered packet nor the receiving cipher has moved. *)
Theorem session_error_terminal (s s' : Session) (w : bytes) (e : Error) : decrypt s w = Some (Err e, s') ->
  forall w', exists s'', decrypt s' w' = Some (Err e, s'').
Proof.
  intros H w'. apply decrypt_runs in H. exists (feed s' w'). apply decrypt_runs.
  apply (runs_feed _ _ _ w' (runs_error _ _ _ _ [] H)).
Qed.
End delivery.
Definition ex_session (r : Role) : Session := Session_new r (derive [9] [1; 2; 3; 4] r) [].

Lemma session_delivers_witness : exists w a', seal_all (ex_session Initiator) [(false, [1; 2]); (true, [3]); (false, [])] = (Ok w, a') /\
  exists b', decrypt_all (ex_session Responder) [take 5 w; drop 5 w] = Some (Ok [[1; 2]; []], b') /\ linked a' b'.
Proof.
  destruct (session_delivers (ex_session Initiator) (ex_session Responder) [(false, [1; 2]); (true, [3]); (false, [])]) as (w & a' & Hs & Hd).
  - repeat split.
  - repeat constructor; unfold sendable; simpl; unfold MAX_CONTENTS_LEN; lia.
  - exists w, a'. split; [exact Hs|]. destruct (Hd [take 5 w; drop 5 w] []) as (got & b' & H1 & _ & H2).
    + simpl. by rewrite !app_nil_r, take_drop.
    + destruct (H2 eq_refl) as [-> H3]. exists b'. split; [exact H1|exact H3].
Defined.

Lemma session_error_terminal_witness : exists s', decrypt (ex_session Responder) (replicate 300 0) = Some (Err Decrypt, s') /\
  exists s'', decrypt s' [1; 2; 3] = Some (Err Decrypt, s'').
Proof.
  destruct (decrypt (ex_session Responder) (replicate 300 0)) as [[[o|e] s']|] eqn:E.
  - exfalso. revert E. vm_compute. discriminate.
  - assert (e = Decrypt) as -> by (revert E; vm_compute; congruence).
    exists s'. split; [reflexivity|]. exact (session_error_terminal _ _ _ _ E [1; 2; 3]).
  - exfalso. revert E. vm_compute. discriminate.
Defined.
End packet.
