(* ===== verification/Bip324Handshake.v ===== *)
(** [bip324-core/src/handshake.rs]: the handshake of both roles as the state
    machine of the source, its loops, and the search for the garbage terminator. *)

From S2P Require Import Prelude Bip324Crypto Bip324Session Bip324Packet.

Module handshake.
Import bip324 session packet.

(** [b"version\x00\x00\x00\x00\x00"]. *)
Definition VERSION_SUFFIX : bytes := lit "version" ++ replicate 5 0.

(** The scan of the starts [pos..=max_pos]; [n] starts are left. *)
Fixpoint terminator_scan (buf term : bytes) (pos n : nat) : option nat :=
  match n with
  | O => None
  | S n => if decide (take GARBAGE_TERMINATOR_LEN (drop pos buf) = term) then Some pos
           else terminator_scan buf term (S pos) n
  end.

Definition find_terminator (buf term : bytes) : result Error (option nat) :=
  if (length buf <? GARBAGE_TERMINATOR_LEN)%nat then Ok None else
  let last_start := (length buf - GARBAGE_TERMINATOR_LEN)%nat in
  let max_pos := Nat.min MAX_GARBAGE_LEN last_start in
  match terminator_scan buf term 0 (S max_pos) with
  | Some pos => Ok (Some pos)
  | None => if (MAX_GARBAGE_LEN <=? last_start)%nat then Err NoGarbageTerminator else Ok None
  end.

Section machine.
Context {C : Bip324Crypto}.

Inductive State :=
| New
| AwaitPeerKey (key : Ephemeral) (ellswift_ours sent_garbage : bytes)
| AwaitPeerTerminator (keys : Keys)
| AwaitVersion (keys : Keys) (recv_garbage : bytes) (pending_len : option nat) (first_recv : bool)
| Done
| Poisoned.

Record Handshake := mk_Handshake {
  h_role : Role;
  magic : bytes;
  garbage : bytes;
  side_door_key : option bytes;
  buf : bytes;
  state : State;
}.
#[export] Instance eta_Handshake : Settable Handshake :=
  fun h => mk_Handshake (h_role h) (magic h) (garbage h) (side_door_key h) (buf h) (state h).

Record HandshakeStep := mk_HandshakeStep { outbound : bytes; session : option Session }.

Definition Handshake_new (role : Role) (network_magic garbage : bytes) : result Error Handshake :=
  if (MAX_GARBAGE_LEN <? length garbage)%nat then Err GarbageTooLong
  else Ok (mk_Handshake role network_magic garbage None [] New).

Definition with_side_door (h : Handshake) (k_srv : bytes) : Handshake :=
  if is_initiator (h_role h) && negb (length k_srv =? 0)%nat then h <| side_door_key := Some k_srv |> else h.

(** *** The inner loop of [AwaitVersion] *)

(** Its variables: the keys, the pending length, whether no packet has been
    received yet, and the buffer of the machine. *)
Record Version := mk_Version { v_keys : Keys; v_pending : option nat; v_first : bool; v_buf : bytes }.

(** A turn goes on, breaks with [done], or leaves by [?]. *)
Inductive version_turn_res :=
| VContinue (v : Version)
| VBreak (done : bool) (v : Version)
| VRaise (v : Version) (e : Error).

Definition version_turn (recv_garbage : bytes) (v : Version) : version_turn_res :=
  match v_pending v with
  | None =>
      if (length (v_buf v) <? LENGTH_FIELD_LEN)%nat then VBreak false v else
      let '(len, l) := decrypt_length (recv_l (v_keys v)) (take LENGTH_FIELD_LEN (v_buf v)) in
      VContinue (mk_Version ((v_keys v) <| recv_l := l |>) (Some len) (v_first v) (drop LENGTH_FIELD_LEN (v_buf v)))
  | Some len =>
      let need := (HEADER_LEN + len + AEAD_TAG_LEN)%nat in
      if (length (v_buf v) <? need)%nat then VBreak false v else
      let aad := if v_first v then recv_garbage else [] in
      match decrypt_packet (recv_p (v_keys v)) (take need (v_buf v)) aad with
      | (Err e, p) => VRaise (mk_Version ((v_keys v) <| recv_p := p |>) (v_pending v) (v_first v) (v_buf v)) e
      | (Ok packet, p) =>
          let v' := mk_Version ((v_keys v) <| recv_p := p |>) None false (drop need (v_buf v)) in
          if ignore packet then VContinue v' else VBreak true v'
      end
  end.

Fixpoint version_loop (fuel : nat) (recv_garbage : bytes) (v : Version) : option (result Error bool * Version) :=
  match fuel with
  | O => None
  | S fuel =>
      match version_turn recv_garbage v with
      | VContinue v => version_loop fuel recv_garbage v
      | VBreak done v => Some (Ok done, v)
      | VRaise v e => Some (Err e, v)
      end
  end.

(** *** The outer loop of [step] *)

Inductive turn :=
| Continue (h : Handshake) (crypto : Provider) (outbound : bytes)
| Break (h : Handshake) (crypto : Provider) (outbound : bytes) (session : option Session)
| Raise (h : Handshake) (crypto : Provider) (e : Error).

(** The arms of the match. Each starts from a machine whose state has been
    replaced by [Poisoned]. *)
Definition turn_new (h : Handshake) (crypto : Provider) (outbound : bytes) : turn :=
  let '((key, ellswift_ours), crypto) := ellswift_generate crypto in
  let sent_garbage := garbage h in
  if is_initiator (h_role h) then
    match side_door_key h with
    | Some k =>
        let tag := side_door_tag k ellswift_ours in
        if (MAX_GARBAGE_LEN <? length sent_garbage + length tag)%nat then Raise h crypto GarbageTooLong else
        let sent_garbage := tag ++ sent_garbage in
        Continue (h <| state := AwaitPeerKey key ellswift_ours sent_garbage |>) crypto
                 (outbound ++ ellswift_ours ++ sent_garbage)
    | None =>
        Continue (h <| state := AwaitPeerKey key ellswift_ours sent_garbage |>) crypto
                 (outbound ++ ellswift_ours ++ sent_garbage)
    end
  else Continue (h <| state := AwaitPeerKey key ellswift_ours sent_garbage |>) crypto outbound.

Definition turn_peer_key (h : Handshake) (crypto : Provider) (outbound : bytes)
    (key : Ephemeral) (ellswift_ours sent_garbage : bytes) : turn :=
  if (length (buf h) <? ELLSWIFT_LEN)%nat then
    Break (h <| state := AwaitPeerKey key ellswift_ours sent_garbage |>) crypto outbound None
  else
    let peer := take ELLSWIFT_LEN (buf h) in
    if decide (take 12 (drop 4 peer) = VERSION_SUFFIX) then Raise h crypto V1Peer else
    let h := h <| buf := drop ELLSWIFT_LEN (buf h) |> in
    let '(ecdh_secret, crypto) := v2_ecdh crypto key ellswift_ours peer (h_role h) in
    let keys := derive ecdh_secret (magic h) (h_role h) in
    let outbound := if negb (is_initiator (h_role h)) then outbound ++ ellswift_ours ++ sent_garbage else outbound in
    let outbound := outbound ++ send_garbage_terminator keys in
    match encrypt_packet (send_l keys) (send_p keys) [] sent_garbage false with
    | Err e => Raise h crypto e
    | Ok (version, l, p) =>
        let keys := keys <| send_l := l |> <| send_p := p |> in
        Continue (h <| state := AwaitPeerTerminator keys |>) crypto (outbound ++ version)
    end.

Definition turn_terminator (h : Handshake) (crypto : Provider) (outbound : bytes) (keys : Keys) : turn :=
  match find_terminator (buf h) (recv_garbage_terminator keys) with
  | Err e => Raise h crypto e
  | Ok (Some pos) =>
      Continue (h <| buf := drop (pos + GARBAGE_TERMINATOR_LEN) (buf h) |>
                  <| state := AwaitVersion keys (take pos (buf h)) None true |>) crypto outbound
  | Ok None => Break (h <| state := AwaitPeerTerminator keys |>) crypto outbound None
  end.

(** [None]: the inner loop has not ended within its fuel. *)
Definition turn_version (h : Handshake) (crypto : Provider) (outbound : bytes)
    (keys : Keys) (recv_garbage : bytes) (pending_len : option nat) (first_recv : bool) : option turn :=
  let! (r, v) := version_loop (S (length (buf h))) recv_garbage (mk_Version keys pending_len first_recv (buf h)) in
  Some match r with
  | Err e => Raise (h <| buf := v_buf v |>) crypto e
  | Ok true => Break (h <| buf := [] |> <| state := Done |>) crypto outbound (Some (Session_new (h_role h) (v_keys v) (v_buf v)))
  | Ok false =>
      Break (h <| buf := v_buf v |> <| state := AwaitVersion (v_keys v) recv_garbage (v_pending v) (v_first v) |>)
            crypto outbound None
  end.

Definition step_turn (h : Handshake) (crypto : Provider) (outbound : bytes) : option turn :=
  let h' := h <| state := Poisoned |> in
  match state h with
  | New => Some (turn_new h' crypto outbound)
  | AwaitPeerKey key ours sent => Some (turn_peer_key h' crypto outbound key ours sent)
  | AwaitPeerTerminator keys => Some (turn_terminator h' crypto outbound keys)
  | AwaitVersion keys g pending first => turn_version h' crypto outbound keys g pending first
  | Done => Some (Break (h' <| state := Done |>) crypto outbound None)
  | Poisoned => Some (Raise h' crypto WrongState)
  end.

Fixpoint step_loop (fuel : nat) (h : Handshake) (crypto : Provider) (out : bytes)
  : option (result Error HandshakeStep * Handshake * Provider) :=
  match fuel with
  | O => None
  | S fuel =>
      match step_turn h crypto out with
      | None => None
      | Some (Continue h crypto out) => step_loop fuel h crypto out
      | Some (Break h crypto out session) => Some (Ok (mk_HandshakeStep out session), h, crypto)
      | Some (Raise h crypto e) => Some (Err e, h, crypto)
      end
  end.

(** Every turn that goes on moves to a later state: four turns at most ([step_total]). *)
Definition step (h : Handshake) (crypto : Provider) (inbound : bytes)
  : option (result Error HandshakeStep * Handshake * Provider) :=
  step_loop 4 (h <| buf := buf h ++ inbound |>) crypto [].
End machine.

(** ** The terminator *)

(** [term] stands in [buf] at [p]. *)
Definition occurs (buf term : bytes) (p : nat) : Prop := take GARBAGE_TERMINATOR_LEN (drop p buf) = term.

Lemma scan_spec buf term : forall n pos,
  match terminator_scan buf term pos n with
  | Some p => (pos <= p < pos + n)%nat /\ occurs buf term p /\ forall q, (pos <= q < p)%nat -> ~ occurs buf term q
  | None => forall q, (pos <= q < pos + n)%nat -> ~ occurs buf term q
  end.
Proof.
  induction n as [|n IH]; intros pos; simpl; [lia|]. unfold occurs in *. case_decide as E.
  - split; [lia|]. split; [done|]. lia.
  - specialize (IH (S pos)). destruct (terminator_scan buf term (S pos) n) as [p|].
    + destruct IH as (H1 & H2 & H3). split; [lia|]. split; [done|]. intros q Hq.
      destruct (decide (q = pos)) as [->|]; [done|]. apply H3. lia.
    + intros q Hq. destruct (decide (q = pos)) as [->|]; [done|]. apply IH. lia.
Qed.

(** What the search returns: the first offset of the terminator in the window, a
    verdict only when no later byte could change it. *)
Lemma find_terminator_spec buf term :
  match find_terminator buf term with
  | Ok (Some p) => (p <= MAX_GARBAGE_LEN)%nat /\ (p + GARBAGE_TERMINATOR_LEN <= length buf)%nat /\
      occurs buf term p /\ forall q, (q < p)%nat -> ~ occurs buf term q
  | Ok None => (length buf < MAX_GARBAGE_LEN + GARBAGE_TERMINATOR_LEN)%nat /\
      forall q, (q + GARBAGE_TERMINATOR_LEN <= length buf)%nat -> ~ occurs buf term q
  | Err e => e = NoGarbageTerminator /\ (MAX_GARBAGE_LEN + GARBAGE_TERMINATOR_LEN <= length buf)%nat /\
      forall q, (q <= MAX_GARBAGE_LEN)%nat -> ~ occurs buf term q
  end.
Proof.
  unfold find_terminator. generalize MAX_GARBAGE_LEN as M. intros M.
  destruct (Nat.ltb_spec (length buf) GARBAGE_TERMINATOR_LEN) as [H|H]; [split; lia|].
  pose proof (scan_spec buf term (S (Nat.min M (length buf - GARBAGE_TERMINATOR_LEN))) 0) as S.
  destruct (terminator_scan _ _ _ _) as [p|].
  - destruct S as (H1 & H2 & H3). split; [lia|]. split; [lia|]. split; [done|]. intros q Hq. apply H3. lia.
  - destruct (Nat.leb_spec M (length buf - GARBAGE_TERMINATOR_LEN)).
    + split; [done|]. split; [lia|]. intros q Hq. apply S. lia.
    + split; [lia|]. intros q Hq. apply S. lia.
Qed.

Lemma occurs_feed buf b term p : (p + GARBAGE_TERMINATOR_LEN <= length buf)%nat -> occurs (buf ++ b) term p <-> occurs buf term p.
Proof.
  intros H. unfold occurs. rewrite drop_app_le by lia. rewrite take_app_le; [done|]. rewrite length_drop. lia.
Qed.

Lemma find_terminator_feed buf b term :
  match find_terminator buf term with
  | Ok None => True
  | r => find_terminator (buf ++ b) term = r
  end.
Proof.
  pose proof (find_terminator_spec buf term) as S. pose proof (find_terminator_spec (buf ++ b) term) as S'.
  rewrite length_app in S'. revert S S'. generalize MAX_GARBAGE_LEN as M. intros M S S'.
  destruct (find_terminator buf term) as [[p|]|e]; [|done|].
  - destruct S as (H1 & H2 & H3 & H4). destruct (find_terminator (buf ++ b) term) as [[q|]|e].
    + destruct S' as (G1 & G2 & G3 & G4). f_equal. f_equal. destruct (decide (q < p)%nat) as [Hq|].
      * exfalso. apply (H4 q Hq). by apply (occurs_feed _ b); [lia|].
      * destruct (decide (p < q)%nat) as [Hp|]; [|lia]. exfalso. apply (G4 p Hp). by apply occurs_feed.
    + destruct S' as [_ G]. exfalso. apply (G p); [lia|]. by apply occurs_feed.
    + destruct S' as (_ & _ & G). exfalso. apply (G p); [lia|]. by apply occurs_feed.
  - destruct S as (-> & H2 & H3). destruct (find_terminator (buf ++ b) term) as [[q|]|e].
    + destruct S' as (G1 & G2 & G3 & G4). exfalso. apply (H3 q G1). apply (occurs_feed _ b); [lia|done].
    + lia.
    + by destruct S' as (-> & _).
Qed.

(** ** How the inbound bytes are cut does not matter *)

Section cutting.
Context {C : Bip324Crypto}.

Definition vfeed (v : Version) (b : bytes) : Version := mk_Version (v_keys v) (v_pending v) (v_first v) (v_buf v ++ b).

Lemma version_turn_feed g v b :
  match version_turn g v with
  | VContinue v' => version_turn g (vfeed v b) = VContinue (vfeed v' b) /\ (length (v_buf v') < length (v_buf v))%nat
  | VBreak true v' => version_turn g (vfeed v b) = VBreak true (vfeed v' b)
  | VBreak false v' => v' = v
  | VRaise v' e => version_turn g (vfeed v b) = VRaise (vfeed v' b) e
  end.
Proof.
  unfold version_turn, vfeed. cbn [v_keys v_pending v_first v_buf]. rewrite length_app.
  destruct (v_pending v) as [len|].
  - set (need := (HEADER_LEN + len + AEAD_TAG_LEN)%nat). destruct (Nat.ltb_spec (length (v_buf v)) need) as [H|H]; [done|].
    destruct (Nat.ltb_spec (length (v_buf v) + length b) need); [lia|].
    destruct (take_drop_feed (v_buf v) b need H) as [-> ->].
    destruct (decrypt_packet _ _ _) as [[pk|e] p]; [|done]. destruct (ignore pk); cbn [v_keys v_pending v_first v_buf]; [|done].
    split; [done|]. rewrite length_drop. assert (1 <= need)%nat by (unfold need, HEADER_LEN; lia). lia.
  - destruct (Nat.ltb_spec (length (v_buf v)) LENGTH_FIELD_LEN) as [H|H]; [done|].
    destruct (Nat.ltb_spec (length (v_buf v) + length b) LENGTH_FIELD_LEN); [lia|].
    destruct (take_drop_feed (v_buf v) b LENGTH_FIELD_LEN H) as [-> ->].
    destruct (decrypt_length _ _) as [len l]. split; [done|]. cbn [v_buf]. rewrite length_drop. unfold LENGTH_FIELD_LEN in *. lia.
Qed.

(** The inner loop, whatever the fuel. *)
Definition vruns (g : bytes) (v : Version) (r : result Error bool * Version) : Prop := exists f, version_loop f g v = Some r.

Lemma version_loop_total g : forall f v, (length (v_buf v) < f)%nat -> is_Some (version_loop f g v).
Proof.
  induction f as [|f IH]; intros v Hf; [lia|]. simpl. pose proof (version_turn_feed g v []) as T.
  destruct (version_turn g v) as [v'|[] v'|v' e]; [|by eexists..]. apply IH. lia.
Qed.

Lemma version_loop_fuel g : forall f f' v r, (f <= f')%nat -> version_loop f g v = Some r -> version_loop f' g v = Some r.
Proof.
  induction f as [|f IH]; intros [|f'] v r Hf; simpl; try done; [lia|].
  destruct (version_turn g v); [|done..]. apply IH. lia.
Qed.

Lemma vruns_loop g v r : vruns g v r -> version_loop (S (length (v_buf v))) g v = Some r.
Proof.
  intros [f Hf]. destruct (version_loop_total g (S (length (v_buf v))) v) as [r' Hr']; [lia|].
  rewrite Hr'. apply (version_loop_fuel g _ (f + S (length (v_buf v)))) in Hf; [|lia].
  apply (version_loop_fuel g _ (f + S (length (v_buf v)))) in Hr'; [|lia]. congruence.
Qed.

Lemma vruns_turn g v r : vruns g v r <->
  match version_turn g v with VContinue v' => vruns g v' r | VBreak d v' => r = (Ok d, v') | VRaise v' e => r = (Err e, v') end.
Proof.
  split.
  - intros [[|f] Hf]; [done|]. simpl in Hf. destruct (version_turn g v); [by exists f|congruence..].
  - destruct (version_turn g v) as [v'|d v'|v' e] eqn:E.
    + intros [f Hf]. exists (S f). simpl. by rewrite E.
    + intros ->. exists 1%nat. simpl. by rewrite E.
    + intros ->. exists 1%nat. simpl. by rewrite E.
Qed.

Lemma vruns_feed g v r b : vruns g v r ->
  match r with
  | (Ok false, v1) => forall r', vruns g (vfeed v1 b) r' <-> vruns g (vfeed v b) r'
  | (Ok true, v1) => vruns g (vfeed v b) (Ok true, vfeed v1 b)
  | (Err e, v1) => vruns g (vfeed v b) (Err e, vfeed v1 b)
  end.
Proof.
  intros [f Hf]. revert v Hf. induction f as [|f IH]; intros v Hf; [done|]. simpl in Hf.
  pose proof (version_turn_feed g v b) as T. destruct (version_turn g v) as [v'|[] v'|v' e] eqn:E.
  - destruct T as [T _]. apply IH in Hf. destruct r as [[[]|e] v1].
    + apply vruns_turn. by rewrite T.
    + intros r'. rewrite (vruns_turn g (vfeed v b)), T. apply Hf.
    + apply vruns_turn. by rewrite T.
  - apply (inj Some) in Hf as <-. apply vruns_turn. by rewrite T.
  - apply (inj Some) in Hf as <-. by subst.
  - apply (inj Some) in Hf as <-. apply vruns_turn. by rewrite T.
Qed.

(** *** The outer loop *)

Definition hfeed (h : Handshake) (b : bytes) : Handshake := h <| buf := buf h ++ b |>.

Lemma hfeed_app h a b : hfeed (hfeed h a) b = hfeed h (a ++ b).
Proof. unfold hfeed, update_field. simpl. by rewrite app_assoc. Qed.
Lemma hfeed_nil h : hfeed h [] = h.
Proof. unfold hfeed, update_field. simpl. rewrite app_nil_r. by destruct h. Qed.

Definition after (p : bytes) (r : result Error HandshakeStep * Handshake * Provider) : result Error HandshakeStep * Handshake * Provider :=
  match r with
  | (Ok s, h, c) => (Ok (mk_HandshakeStep (p ++ outbound s) (session s)), h, c)
  | (Err e, h, c) => (Err e, h, c)
  end.

(** How far the machine is from its last turn. *)
Definition rank (st : State) : nat :=
  match st with New => 4 | AwaitPeerKey _ _ _ => 3 | AwaitPeerTerminator _ => 2 | _ => 1 end.

Definition put (p : bytes) (t : turn) : turn :=
  match t with
  | Continue h c o => Continue h c (p ++ o)
  | Break h c o s => Break h c (p ++ o) s
  | Raise h c e => Raise h c e
  end.

Lemma turn_version_runs h c o keys g pending first r v bb : buf h = bb -> vruns g (mk_Version keys pending first bb) (r, v) ->
  turn_version h c o keys g pending first = Some
    match r with
    | Err e => Raise (h <| buf := v_buf v |>) c e
    | Ok true => Break (h <| buf := [] |> <| state := Done |>) c o (Some (Session_new (h_role h) (v_keys v) (v_buf v)))
    | Ok false => Break (h <| buf := v_buf v |> <| state := AwaitVersion (v_keys v) g (v_pending v) (v_first v) |>) c o None
    end.
Proof. intros <- H. unfold turn_version. apply vruns_loop in H. cbn [v_buf] in H. by rewrite H. Qed.

Lemma vruns_total g v : exists r v', vruns g v (r, v').
Proof. destruct (version_loop_total g (S (length (v_buf v))) v) as [[r v'] H]; [lia|]. exists r, v'. by eexists. Qed.

(** A turn always ends, writes behind what is written, and moves on when it continues. *)
Lemma step_turn_shape h c o : exists t, step_turn h c [] = Some t /\ step_turn h c o = Some (put o t) /\
  match t with Continue h' _ _ => (rank (state h') < rank (state h))%nat | Break _ _ _ _ | Raise _ _ _ => True end.
Proof.
  unfold step_turn. destruct (state h) as [|key ours sent|keys|keys g pending first| |].
  - unfold turn_new. destruct (ellswift_generate c) as [[key ours] c']. eexists; split; [done|].
    destruct (is_initiator _); [|simpl; rewrite app_nil_r; split; [done|lia]].
    destruct (side_door_key _); [|split; [done|simpl; lia]]. destruct (_ <? _)%nat; split; try done. simpl; lia.
  - unfold turn_peer_key. destruct (_ <? _)%nat; [eexists; split; [done|]; simpl; by rewrite app_nil_r|].
    case_decide; [by eexists|]. destruct (v2_ecdh _ _ _ _ _) as [x c']. destruct (encrypt_packet _ _ _ _ _) as [[[w l] p]|e]; [|by eexists].
    eexists; split; [done|]. simpl. split; [|lia]. destruct (is_initiator _); simpl; by rewrite <- !app_assoc.
  - unfold turn_terminator. destruct (find_terminator _ _) as [[pos|]|e]; eexists; (split; [done|]); simpl; rewrite ?app_nil_r; split; try done; lia.
  - destruct (vruns_total g (mk_Version keys pending first (buf (h <| state := Poisoned |>)))) as (r & v & R).
    rewrite !(turn_version_runs _ _ _ _ _ _ _ _ _ _ eq_refl R). eexists; split; [done|]. destruct r as [[]|e]; simpl; by rewrite ?app_nil_r.
  - eexists; split; [done|]. simpl. by rewrite app_nil_r.
  - by eexists.
Qed.

(** More inbound bytes change nothing about a turn that did not wait for them. *)
Lemma step_turn_feed h c o b :
  match step_turn h c o with
  | None => False
  | Some (Continue h' c' o') => step_turn (hfeed h b) c o = Some (Continue (hfeed h' b) c' o')
  | Some (Raise h' c' e) => step_turn (hfeed h b) c o = Some (Raise (hfeed h' b) c' e)
  | Some (Break h' c' o' (Some s)) => step_turn (hfeed h b) c o = Some (Break h' c' o' (Some (feed s b)))
  | Some (Break h' c' o' None) => c' = c /\ o' = o /\ step_turn (hfeed h b) c o = step_turn (hfeed h' b) c o
  end.
Proof.
  unfold step_turn. cbv zeta. replace (state (hfeed h b)) with (state h) by done.
  destruct (state h) as [|key ours sent|keys|keys g pending first| |] eqn:Es.
  - unfold turn_new, hfeed, update_field. cbn [eta_Handshake h_role magic garbage side_door_key buf state].
    destruct (ellswift_generate c) as [[key ours] c']. destruct (is_initiator _); [|done].
    destruct (side_door_key h); [|done]. by destruct (_ <? _)%nat.
  - unfold turn_peer_key, hfeed, update_field. cbn [eta_Handshake h_role magic garbage side_door_key buf state].
    rewrite length_app. destruct (Nat.ltb_spec (length (buf h)) ELLSWIFT_LEN) as [H|H]; [by rewrite length_app|].
    destruct (Nat.ltb_spec (length (buf h) + length b) ELLSWIFT_LEN); [lia|].
    destruct (take_drop_feed (buf h) b ELLSWIFT_LEN H) as [-> ->]. case_decide; [done|].
    destruct (v2_ecdh _ _ _ _ _) as [x c']. by destruct (encrypt_packet _ _ _ _ _) as [[[w l] p]|e].
  - unfold turn_terminator. replace (buf ((hfeed h b) <| state := Poisoned |>)) with (buf h ++ b) by done.
    replace (buf (h <| state := Poisoned |>)) with (buf h) by done.
    pose proof (find_terminator_feed (buf h) b (recv_garbage_terminator keys)) as T.
    pose proof (find_terminator_spec (buf h) (recv_garbage_terminator keys)) as S.
    destruct (find_terminator (buf h) _) as [[pos|]|e].
    + rewrite T. destruct S as (_ & S & _). rewrite take_app_le by lia. rewrite drop_app_le by lia. done.
    + done.
    + by rewrite T.
  - set (v := mk_Version keys pending first (buf h)).
    destruct (vruns_total g v) as (r & v1 & R). pose proof (vruns_feed g v _ b R) as F.
    erewrite turn_version_runs by (reflexivity || exact R).
    destruct r as [[]|e].
    + by erewrite turn_version_runs by (reflexivity || exact F).
    + split; [done|]. split; [done|].
      destruct (vruns_total g (vfeed v1 b)) as (r2 & v2 & R2). pose proof (proj1 (F (r2, v2)) R2) as R3.
      erewrite turn_version_runs by (reflexivity || exact R3). symmetry.
      etransitivity; [by eapply (turn_version_runs _ c o _ g _ _ _ _ (v_buf v1 ++ b))|]. by destruct r2 as [[]|e2].
    + by erewrite turn_version_runs by (reflexivity || exact F).
  - done.
  - done.
Qed.

(** The outer loop, whatever the fuel. *)
Definition hruns (h : Handshake) (c : Provider) (o : bytes) (r : result Error HandshakeStep * Handshake * Provider) : Prop :=
  exists f, step_loop f h c o = Some r.

Lemma step_loop_total : forall f h c o, (rank (state h) <= f)%nat -> is_Some (step_loop f h c o).
Proof.
  induction f as [|f IH]; intros h c o Hf; [destruct (state h); simpl in Hf; lia|]. simpl.
  destruct (step_turn_shape h c o) as (t & _ & -> & R). destruct t; simpl; [|by eexists..]. apply IH. lia.
Qed.

Lemma step_loop_fuel : forall f f' h c o r, (f <= f')%nat -> step_loop f h c o = Some r -> step_loop f' h c o = Some r.
Proof.
  induction f as [|f IH]; intros [|f'] h c o r Hf; simpl; try done; [lia|].
  destruct (step_turn h c o) as [[]|]; [|done..]. apply IH. lia.
Qed.

Lemma hruns_fun h c o r r' : hruns h c o r -> hruns h c o r' -> r = r'.
Proof.
  intros [f Hf] [f' Hf']. apply (step_loop_fuel _ (f + f')) in Hf; [|lia]. apply (step_loop_fuel _ (f + f')) in Hf'; [|lia]. congruence.
Qed.

Lemma rank_bound st : (rank st <= 4)%nat.
Proof. destruct st; simpl; lia. Qed.

Lemma step_runs h c a r : step h c a = Some r <-> hruns (hfeed h a) c [] r.
Proof.
  unfold step. fold (hfeed h a). split; [intros H; by eexists|]. intros H.
  destruct (step_loop_total 4 (hfeed h a) c []) as [r' Hr']; [apply rank_bound|]. rewrite Hr'. f_equal.
  eapply hruns_fun; [|done]. by eexists.
Qed.

Lemma step_total h c a : is_Some (step h c a).
Proof. apply step_loop_total, rank_bound. Qed.

Lemma hruns_turn h c o r : hruns h c o r <->
  match step_turn h c o with
  | None => False
  | Some (Continue h' c' o') => hruns h' c' o' r
  | Some (Break h' c' o' s) => r = (Ok (mk_HandshakeStep o' s), h', c')
  | Some (Raise h' c' e) => r = (Err e, h', c')
  end.
Proof.
  split.
  - intros [[|f] Hf]; [done|]. simpl in Hf. destruct (step_turn h c o) as [[]|]; [by exists f|congruence..].
  - destruct (step_turn h c o) as [[h' c' o'|h' c' o' s|h' c' e]|] eqn:E; [|intros -> |intros ->|done].
    + intros [f Hf]. exists (S f). simpl. by rewrite E.
    + exists 1%nat. simpl. by rewrite E.
    + exists 1%nat. simpl. by rewrite E.
Qed.

Lemma hruns_after h c r p : hruns h c [] r -> hruns h c p (after p r).
Proof.
  intros [f Hf]. exists f. revert h c p r Hf.
  assert (forall f h c o p r, step_loop f h c o = Some r -> step_loop f h c (p ++ o) = Some (after p r)) as G.
  { induction f0 as [|f0 IH]; intros h c o p r Hf; [done|]. simpl in *.
    destruct (step_turn_shape h c o) as (t & E0 & E1 & _). destruct (step_turn_shape h c (p ++ o)) as (t' & E0' & E1' & _).
    assert (t' = t) as -> by congruence. rewrite E1 in Hf. rewrite E1'. destruct t; simpl in *; rewrite <- ?app_assoc.
    - by apply IH.
    - apply (inj Some) in Hf as <-. done.
    - apply (inj Some) in Hf as <-. done. }
  intros h c p r Hf. apply (G _ _ _ _ p) in Hf. by rewrite app_nil_r in Hf.
Qed.

Lemma hruns_feed h c o r b : hruns h c o r ->
  match r with
  | (Ok (mk_HandshakeStep o1 None), h1, c1) => forall r', hruns (hfeed h1 b) c1 o1 r' -> hruns (hfeed h b) c o r'
  | (Ok (mk_HandshakeStep o1 (Some s)), h1, c1) => hruns (hfeed h b) c o (Ok (mk_HandshakeStep o1 (Some (feed s b))), h1, c1)
  | (Err e, h1, c1) => hruns (hfeed h b) c o (Err e, hfeed h1 b, c1)
  end.
Proof.
  intros [f Hf]. revert h c o Hf. induction f as [|f IH]; intros h c o Hf; [done|]. simpl in Hf.
  pose proof (step_turn_feed h c o b) as T. destruct (step_turn h c o) as [[h' c' o'|h' c' o' s|h' c' e]|] eqn:E; [| | |done].
  - apply IH in Hf. destruct r as [[[[o1 [s|]]|e] h1] c1]; [..|]; try intros r' Hr'; apply hruns_turn; rewrite T; auto.
  - apply (inj Some) in Hf as <-. destruct s as [s|].
    + apply hruns_turn. by rewrite T.
    + destruct T as (-> & -> & T). intros r' Hr'. apply hruns_turn. rewrite T. by apply hruns_turn.
  - apply (inj Some) in Hf as <-. apply hruns_turn. by rewrite T.
Qed.

(** The three ways a call continues an earlier one. *)
Lemma step_app h c a b o1 h1 c1 : step h c a = Some (Ok (mk_HandshakeStep o1 None), h1, c1) ->
  step h c (a ++ b) = after o1 <$> step h1 c1 b.
Proof.
  intros H. destruct (step_total h1 c1 b) as [r Hr]. rewrite Hr. apply step_runs in H, Hr. apply step_runs. rewrite <- hfeed_app.
  apply (hruns_feed _ _ _ _ b H). by apply hruns_after.
Qed.
Lemma step_app_done h c a b o1 s h1 c1 : step h c a = Some (Ok (mk_HandshakeStep o1 (Some s)), h1, c1) ->
  step h c (a ++ b) = Some (Ok (mk_HandshakeStep o1 (Some (feed s b))), h1, c1).
Proof. intros H. apply step_runs in H. apply step_runs. rewrite <- hfeed_app. apply (hruns_feed _ _ _ _ b H). Qed.
Lemma step_app_err h c a b e h1 c1 : step h c a = Some (Err e, h1, c1) -> step h c (a ++ b) = Some (Err e, hfeed h1 b, c1).
Proof. intros H. apply step_runs in H. apply step_runs. rewrite <- hfeed_app. apply (hruns_feed _ _ _ _ b H). Qed.
End cutting.
End handshake.
