(* ===== verification/Bip324Module.v ===== *)
(** [modules/bip324/src/lib.rs]: the guest module over the crate, the calls of its
    host ([core/src/transport/wasm/mod.rs]) and the classification of a connection
    by the splitting egress ([core/src/transport/wasm/splitter.rs]). *)

From S2P Require Import Prelude Bip324Crypto Bip324Session Bip324Packet Bip324Handshake.

Module guest.
Import bip324 session packet handshake.

(** A wasm trap: the [abort] of the guest, or an input outside its arena. *)
Inductive trap := Unreachable.

(** 1 MiB, compared with lengths in [Z]. *)
Definition ARENA : Z := Z.shiftl 1 20.

Section exports.
Context {C : Bip324Crypto}.

Inductive ModuleState :=
| Handshaking (h : Handshake)
| Established (s : Session).

(** The statics of the module, and the state of the host functions its provider
    forwards to. *)
Record Guest := mk_Guest { STATE : option ModuleState; host : Provider }.

(** A call of an export: [None] is a loop of the crate without enough fuel. *)
Abbreviation call A := (option (result trap A * Guest)).

(** [alloc] and [input]: the host writes into the arena, a longer input traps. *)
Definition in_arena (data : bytes) : bool := Z.of_nat (length data) <=? ARENA.

Definition role_of (b : Z) : option Role :=
  if b =? 0 then Some Initiator else if b =? 1 then Some Responder else None.

(** The parse of the configuration in [init]. *)
Definition init_handshake (cfg : bytes) : option Handshake :=
  if (length cfg <? 7)%nat then None else
  let! role := role_of (cfg !!! 0%nat) in
  let magic := take 4 (drop 1 cfg) in
  let k_srv_len := Z.to_nat (from_be_bytes (take 2 (drop 5 cfg))) in
  let ks_end := (7 + k_srv_len)%nat in
  if (length cfg <? ks_end)%nat then None else
  let k_srv := take k_srv_len (drop 7 cfg) in
  let garbage := drop ks_end cfg in
  match Handshake_new role magic garbage with
  | Ok h => Some (with_side_door h k_srv)
  | Err _ => None
  end.

Definition init (g : Guest) (cfg : bytes) : call unit :=
  if negb (in_arena cfg) then Some (Err Unreachable, g) else
  match init_handshake cfg with
  | None => Some (Err Unreachable, g)
  | Some h => Some (Ok tt, mk_Guest (Some (Handshaking h)) (host g))
  end.

(** The output is framed [status :: outbound]. *)
Definition handshake_step (g : Guest) (inbound : bytes) : call bytes :=
  if negb (in_arena inbound) then Some (Err Unreachable, g) else
  match STATE g with
  | Some (Handshaking hs) =>
      let! (r, hs, crypto) := step hs (host g) inbound in
      Some match r with
      | Err _ => (Err Unreachable, mk_Guest (Some (Handshaking hs)) crypto)
      | Ok st =>
          match session st with
          | Some s => (Ok (1 :: outbound st), mk_Guest (Some (Established s)) crypto)
          | None => (Ok (0 :: outbound st), mk_Guest (Some (Handshaking hs)) crypto)
          end
      end
  | _ => Some (Err Unreachable, g)
  end.

Definition transform_out (g : Guest) (app : bytes) : call bytes :=
  if negb (in_arena app) then Some (Err Unreachable, g) else
  match STATE g with
  | Some (Established s) =>
      match encrypt s app with
      | (Ok wire, s) => Some (Ok wire, mk_Guest (Some (Established s)) (host g))
      | (Err _, s) => Some (Err Unreachable, mk_Guest (Some (Established s)) (host g))
      end
  | _ => Some (Err Unreachable, g)
  end.

Definition transform_in (g : Guest) (wire : bytes) : call bytes :=
  if negb (in_arena wire) then Some (Err Unreachable, g) else
  match STATE g with
  | Some (Established s) =>
      let! (r, s) := packet.decrypt s wire in
      Some match r with
      | Ok messages => (Ok (concat messages), mk_Guest (Some (Established s)) (host g))
      | Err _ => (Err Unreachable, mk_Guest (Some (Established s)) (host g))
      end
  | _ => Some (Err Unreachable, g)
  end.
End exports.

(** ** The host's side of a call *)

Inductive WasmError :=
| InputTooLarge (len : nat)
| BadOutputLen (len : nat)
| Trap
| HandshakeFrame.

Definition MAX_TRANSFORM_LEN : Z := Z.shiftl 1 20.

Section calls.
Context {C : Bip324Crypto}.

(** [Transform::call_io] on this module: the bounds on both lengths. *)
Definition call_io (func : Guest -> bytes -> option (result trap bytes * Guest)) (g : Guest) (input : bytes)
  : option (result WasmError bytes * Guest) :=
  if MAX_TRANSFORM_LEN <? Z.of_nat (length input) then Some (Err (InputTooLarge (length input)), g) else
  let! (r, g) := func g input in
  Some match r with
  | Err Unreachable => (Err Trap, g)
  | Ok out => if MAX_TRANSFORM_LEN <? Z.of_nat (length out) then (Err (BadOutputLen (length out)), g) else (Ok out, g)
  end.

(** [Transform::handshake_step]: the outbound bytes and whether the handshake is done. *)
Definition host_handshake_step (g : Guest) (inbound : bytes) : option (result WasmError (bytes * bool) * Guest) :=
  let! (r, g) := call_io handshake_step g inbound in
  Some match r with
  | Err e => (Err e, g)
  | Ok [] => (Err HandshakeFrame, g)
  | Ok (status :: out) =>
      if status =? 0 then (Ok (out, false), g)
      else if status =? 1 then (Ok (out, true), g)
      else (Err HandshakeFrame, g)
  end.
End calls.

(** ** The splitting egress *)

Definition PEEK_LEN : nat := ELLSWIFT_LEN + SIDE_DOOR_TAG_LEN.

(** What arrives on a connection: bytes, its half-close, an error of the socket (with its code); and the deadline of the peek. *)
Inductive read := Data (b : bytes) | Closed | Failed (code : Z) | Elapsed.

(** The bytes of a sequence of reads. *)
Fixpoint stream (events : list read) : bytes :=
  match events with
  | Data b :: events => b ++ stream events
  | _ :: events => stream events
  | [] => []
  end.

(** The loop of [peek_up_to]: a read returns at most what is missing, and what it
    leaves is read later. [None]: the call is still waiting. *)
Fixpoint peek_up_to (want : nat) (filled : bytes) (events : list read) : option (result Z bytes) * list read :=
  if (want <=? length filled)%nat then (Some (Ok filled), events) else
  match events with
  | [] => (None, [])
  | Data b :: events' =>
      let room := (want - length filled)%nat in
      if (room <? length b)%nat then (Some (Ok (filled ++ take room b)), Data (drop room b) :: events')
      else if (length b =? 0)%nat then (Some (Ok filled), events')
      else peek_up_to want (filled ++ b) events'
  | Closed :: _ => (Some (Ok filled), events)
  | Failed code :: events' => (Some (Err code), events')
  | Elapsed :: events' => (Some (Ok filled), events')
  end.

(** A read of the connection itself, into [room] bytes; [None] while nothing has arrived. *)
Fixpoint conn_read (room : nat) (events : list read) : option (result Z bytes) * list read :=
  match events with
  | [] => (None, [])
  | Data b :: events' => if (room <? length b)%nat then (Some (Ok (take room b)), Data (drop room b) :: events') else (Some (Ok b), events')
  | Closed :: _ => (Some (Ok []), events)
  | Failed code :: events' => (Some (Err code), events')
  | Elapsed :: events' => conn_read room events'
  end.

(** [PrefixedStream]: the peeked bytes, then the connection. *)
Record PrefixedStream := mk_prefixed { prefix : bytes; inner : list read }.
Definition poll_read (room : nat) (s : PrefixedStream) : option (result Z bytes) * PrefixedStream :=
  if negb (length (prefix s) =? 0)%nat then
    let n := Nat.min (length (prefix s)) room in (Some (Ok (take n (prefix s))), mk_prefixed (drop n (prefix s)) (inner s))
  else let '(r, events) := conn_read room (inner s) in (r, mk_prefixed (prefix s) events).

Inductive Opening := Untagged | Short (n : nat).

(** How a connection leaves [handle]: dropped, or to one of the branches with the replaying stream. *)
Inductive Verdict := Dropped | Tunnel (conn : PrefixedStream) | Proxied (opening : Opening) (conn : PrefixedStream).

(** The test on the [n] bytes of the peek. *)
Definition is_tunnel (hmac_sha256 : bytes -> bytes -> bytes) (k_srv peek : bytes) (n : nat) : bool :=
  (n =? PEEK_LEN)%nat && verify_side_door_tag_with hmac_sha256 k_srv (take ELLSWIFT_LEN peek) (drop ELLSWIFT_LEN peek).

(** [SplittingServer::handle], up to the branch it takes. *)
Definition handle (hmac_sha256 : bytes -> bytes -> bytes) (k_srv : bytes) (events : list read) : option (result Z Verdict) :=
  match peek_up_to PEEK_LEN [] events with
  | (None, _) => None
  | (Some (Err code), _) => Some (Err code)
  | (Some (Ok peek), conn) =>
      let n := length peek in
      if (n =? 0)%nat then Some (Ok Dropped) else
      let replayed := mk_prefixed peek conn in
      Some (Ok (if is_tunnel hmac_sha256 k_srv peek n then Tunnel replayed
                else Proxied (if (n =? PEEK_LEN)%nat then Untagged else Short n) replayed))
  end.

(** *** The peek and the replay *)

Definition brings (ev : read) : Prop := exists x b, ev = Data (x :: b).

(** The bytes a stream still has to yield. *)
Definition content (s : PrefixedStream) : bytes := prefix s ++ stream (inner s).

(** How the peek ends. *)
Lemma peek_spec want : forall events filled, (length filled <= want)%nat ->
  match peek_up_to want filled events with
  | (None, rest) => Forall brings events /\ (length filled + length (stream events) < want)%nat
  | (Some (Err code), rest) => Failed code ∈ events
  | (Some (Ok p), rest) => p ++ stream rest = filled ++ stream events /\ (length p <= want)%nat /\
      (length p < want -> exists pre ev post, events = pre ++ ev :: post /\ Forall brings pre /\ ~ brings ev /\ p = filled ++ stream pre)%nat
  end.
Proof.
  induction events as [|ev events IH]; intros filled Hf; cbn [peek_up_to]; (destruct (Nat.leb_spec want (length filled)) as [Hw|Hw];
    [split; [done|]; split; [done|]; lia|]); [split; [constructor|cbn; lia]|].
  assert (forall ev', ~ brings ev' -> (length filled < want)%nat -> exists pre ev0 post, ev' :: events = pre ++ ev0 :: post /\ Forall brings pre /\ ~ brings ev0 /\ filled = filled ++ stream pre) as Hend.
  { intros ev' Hn _. exists [], ev', events. split; [done|]. split; [constructor|]. split; [done|]. by rewrite app_nil_r. }
  destruct ev as [b| |code|].
  - destruct (Nat.ltb_spec (want - length filled) (length b)) as [Hb|Hb].
    { cbn [stream]. rewrite <- !app_assoc. rewrite (app_assoc (take _ b)), take_drop, length_app, length_take. split; [done|]. split; lia. }
    destruct b as [|x b]; cbn [length Nat.eqb].
    { split; [done|]. split; [lia|]. intros _. apply Hend; [by intros (? & ? & [=])|done]. }
    specialize (IH (filled ++ x :: b)). rewrite length_app in IH. specialize (IH ltac:(cbn in *; lia)).
    destruct (peek_up_to want (filled ++ x :: b) events) as [[[p|code]|] rest].
    + destruct IH as (H1 & H2 & H3). split; [by rewrite H1, <- app_assoc|]. split; [done|]. intros Hl.
      destruct (H3 Hl) as (pre & ev & post & -> & Hpre & Hev & ->). exists (Data (x :: b) :: pre), ev, post. split; [done|].
      split; [constructor; [by exists x, b|done]|]. split; [done|]. cbn [stream]. by rewrite <- app_assoc.
    + by right.
    + destruct IH as [H1 H2]. split; [constructor; [by exists x, b|done]|]. cbn [stream]. rewrite length_app. lia.
  - split; [done|]. split; [lia|]. intros _. apply Hend; [by intros (? & ? & [=])|done].
  - left.
  - split; [done|]. split; [lia|]. intros _. apply Hend; [by intros (? & ? & [=])|done].
Qed.

(** Reads that bring enough bytes fill the peek. *)
Lemma peek_full want pre post : forall filled, (length filled <= want)%nat -> Forall brings pre -> (want <= length filled + length (stream pre))%nat ->
  exists p rest, peek_up_to want filled (pre ++ post) = (Some (Ok p), rest) /\ length p = want.
Proof.
  induction pre as [|ev pre IH]; intros filled Hf Hb Hl.
  - cbn in Hl. exists filled, post. destruct post; cbn [app peek_up_to]; rewrite (proj2 (Nat.leb_le _ _)) by lia; (split; [done|lia]).
  - apply Forall_cons_iff in Hb as [(x & b & ->) Hb]. cbn [app peek_up_to]. destruct (Nat.leb_spec want (length filled)); [eexists _, _; split; [done|lia]|].
    destruct (Nat.ltb_spec (want - length filled) (length (x :: b))); [eexists _, _; split; [done|rewrite length_app, length_take; lia]|].
    cbn [length Nat.eqb]. apply IH; [rewrite length_app; cbn in *; lia|done|]. cbn [stream] in Hl. rewrite length_app in *. lia.
Qed.

Lemma conn_read_content room events : (0 < room)%nat ->
  match conn_read room events with
  | (Some (Ok b), rest) => b ++ stream rest = stream events
  | (_, rest) => stream rest = stream events
  end.
Proof.
  intros Hr. induction events as [|ev events IH]; [done|]. destruct ev as [b| |code|]; cbn [conn_read stream]; try done.
  destruct (_ <? _)%nat; cbn [stream]; [by rewrite app_assoc, take_drop|done].
Qed.

(** Successive reads of the replaying stream, whatever the rooms: the bytes they return and the stream left. *)
Fixpoint reads (rooms : list nat) (s : PrefixedStream) : bytes * PrefixedStream :=
  match rooms with
  | [] => ([], s)
  | room :: rooms => let '(r, s) := poll_read room s in let '(out, s) := reads rooms s in
      (match r with Some (Ok b) => b ++ out | _ => out end, s)
  end.

Lemma poll_read_content room s : (0 < room)%nat ->
  match poll_read room s with
  | (Some (Ok b), s') => b ++ content s' = content s /\ (prefix s <> [] -> b <> [])
  | (_, s') => content s' = content s /\ prefix s = []
  end.
Proof.
  intros Hr. unfold poll_read, content. destruct (prefix s) as [|x pr] eqn:E; cbn [length Nat.eqb negb].
  - pose proof (conn_read_content room (inner s) Hr) as H. destruct (conn_read room (inner s)) as [[[b|]|] rest]; cbn [prefix inner app] in *; by split.
  - cbn [prefix inner]. rewrite app_assoc, take_drop. split; [done|]. intros _. destruct room; [lia|]. cbn. done.
Qed.

Lemma reads_content rooms : forall s, Forall (fun n => 0 < n)%nat rooms -> (reads rooms s).1 ++ content (reads rooms s).2 = content s.
Proof.
  induction rooms as [|room rooms IH]; intros s Hr; [done|]. apply Forall_cons_iff in Hr as [Hr Hrs]. cbn [reads].
  pose proof (poll_read_content room s Hr) as H. destruct (poll_read room s) as [r s']. specialize (IH s' Hrs). destruct (reads rooms s') as [out s'']. cbn [fst snd] in *.
  destruct r as [[b|]|]; [|by rewrite IH; apply H..]. destruct H as [H _]. by rewrite <- app_assoc, IH.
Qed.

(** An open connection: bytes keep arriving, and the deadline of the peek may pass. *)
Definition flowing (ev : read) : Prop := brings ev \/ ev = Elapsed.

Lemma conn_read_flows room events : (0 < room)%nat -> Forall flowing events ->
  Forall flowing (conn_read room events).2 /\ (stream events <> [] -> exists x b, (conn_read room events).1 = Some (Ok (x :: b))).
Proof.
  intros Hr Hf. induction Hf as [|ev events Hev Hf IH]; [by split; [constructor|]|]. destruct Hev as [(x & b & ->)| ->]; [|exact IH].
  destruct room as [|room]; [lia|]. cbn [conn_read]. destruct (Nat.ltb_spec (S room) (length (x :: b))) as [Hl|Hl]; cbn [fst snd].
  - split; [|intros _; by eexists _, _]. constructor; [|done]. left. cbn [drop] in *. destruct (drop room b) as [|y b'] eqn:E; [|by exists y, b'].
    apply (f_equal length) in E. rewrite length_drop in E. cbn in *. lia.
  - split; [done|]. intros _. by exists x, b.
Qed.

(** On an open connection every read brings a byte while there is one: as many reads as bytes return them all. *)
Lemma reads_all rooms : forall s, Forall (fun n => 0 < n)%nat rooms -> Forall flowing (inner s) -> (length (content s) <= length rooms)%nat ->
  (reads rooms s).1 = content s.
Proof.
  induction rooms as [|room rooms IH]; intros s Hr Hf Hl; [cbn in Hl; destruct (content s); [done|cbn in Hl; lia]|].
  apply Forall_cons_iff in Hr as [Hr Hrs]. cbn [reads]. pose proof (poll_read_content room s Hr) as H.
  assert (Forall flowing (inner (poll_read room s).2) /\ (content s <> [] -> exists x b, (poll_read room s).1 = Some (Ok (x :: b)))) as [Hf' Hx].
  { unfold poll_read, content. destruct (prefix s) as [|x pr] eqn:E; cbn [length Nat.eqb negb].
    - destruct (conn_read_flows room (inner s) Hr Hf) as [H1 H2]. destruct (conn_read room (inner s)) as [r rest]. by split.
    - split; [done|]. intros _. destruct room; [lia|]. by eexists _, _. }
  destruct (poll_read room s) as [r s']. cbn [fst snd] in *. specialize (IH s' Hrs Hf').
  destruct (reads rooms s') as [out s'']. cbn [fst snd] in *. destruct (content s) as [|y c] eqn:Ec.
  - destruct r as [[b|]|]; [destruct H as [H _]; apply app_nil in H as [-> H]|destruct H as [H _]..]; cbn [app]; rewrite H in IH; apply IH; cbn; lia.
  - destruct Hx as (x & b & ->); [done|]. destruct H as [H _]. rewrite <- H. f_equal. apply IH. apply (f_equal length) in H.
    rewrite length_app in H. cbn in H, Hl. lia.
Qed.

(** Nothing is lost, repeated or reordered by reads of the stream, and on an open connection they return everything. *)
Definition replays (conn : PrefixedStream) (events : list read) : Prop :=
  forall rooms, Forall (fun n => 0 < n)%nat rooms ->
    (reads rooms conn).1 ++ content (reads rooms conn).2 = stream events /\
    (Forall flowing events -> (length (stream events) <= length rooms)%nat -> (reads rooms conn).1 = stream events).

(** What the peek leaves flows if the connection does. *)
Lemma peek_flows want : forall events filled, Forall flowing events -> Forall flowing (peek_up_to want filled events).2.
Proof.
  induction events as [|ev events IH]; intros filled Hf; cbn [peek_up_to]; (destruct (_ <=? _)%nat; [done|]); [done|].
  apply Forall_cons_iff in Hf as [[(x & b & ->)| ->] Hf]; [|done]. destruct (Nat.ltb_spec (want - length filled) (length (x :: b))); cbn [snd].
  - constructor; [|done]. left. destruct (drop _ (x :: b)) as [|y b'] eqn:E; [|by exists y, b'].
    apply (f_equal length) in E. rewrite length_drop in E. cbn in *. lia.
  - cbn [length Nat.eqb]. by apply IH.
Qed.

Section egress.
Context {C : Bip324Crypto} {L : Bip324Laws C}.
(** HKDF-Extract is HMAC-SHA256 (RFC 5869): the egress computes one, the client's provider the other. *)
Context (hmac_sha256 : bytes -> bytes -> bytes) (Hhmac : forall k m, hmac_sha256 k m = hkdf_extract k m).

(** The test, exactly: a key and the tag of that key under the server's secret. *)
Lemma is_tunnel_spec k_srv p : is_tunnel hmac_sha256 k_srv p (length p) = true <->
  length p = PEEK_LEN /\ k_srv <> [] /\ p = take ELLSWIFT_LEN p ++ side_door_tag k_srv (take ELLSWIFT_LEN p).
Proof.
  unfold is_tunnel.
  assert (verify_side_door_tag_with hmac_sha256 k_srv (take ELLSWIFT_LEN p) (drop ELLSWIFT_LEN p) =
    verify_side_door_tag k_srv (take ELLSWIFT_LEN p) (drop ELLSWIFT_LEN p)) as ->.
  { unfold verify_side_door_tag, verify_side_door_tag_with, side_door_tag_with. by rewrite Hhmac. }
  rewrite andb_true_iff, Nat.eqb_eq, side_door_exact.
  assert (length (side_door_tag k_srv (take ELLSWIFT_LEN p)) = SIDE_DOOR_TAG_LEN) as Ht by apply extract_length.
  split.
  - intros (Hl & Hk & rest & Hr). split; [done|]. split; [done|].
    assert (length rest = 0%nat) as Hz by (apply (f_equal length) in Hr; rewrite length_app, length_drop, Hl, Ht in Hr; unfold PEEK_LEN in Hr; lia).
    apply length_zero_iff_nil in Hz as ->. rewrite app_nil_r in Hr. rewrite <- Hr. by rewrite take_drop.
  - intros (Hl & Hk & E). split; [done|]. split; [done|]. exists []. rewrite app_nil_r.
    rewrite E at 1. rewrite drop_app_length'; [done|]. rewrite length_take. unfold PEEK_LEN in Hl. lia.
Qed.

(** The bytes open with 64 bytes and their tag under the secret. *)
Definition tagged (k_srv s : bytes) : Prop := k_srv <> [] /\ exists e more, length e = ELLSWIFT_LEN /\ s = e ++ side_door_tag k_srv e ++ more.

(** A full peek passes the test just when the connection is tagged. *)
Lemma tagged_peek k_srv p more : length p = PEEK_LEN -> tagged k_srv (p ++ more) <-> is_tunnel hmac_sha256 k_srv p (length p) = true.
Proof.
  intros Hl. rewrite is_tunnel_spec. split.
  - intros (Hk & e & m & He & E). split; [done|]. split; [done|].
    assert (length (side_door_tag k_srv e) = SIDE_DOOR_TAG_LEN) as Ht by apply extract_length.
    rewrite app_assoc in E. apply app_inj_1 in E as [-> _]; [by rewrite take_app_length'|]. by rewrite Hl, length_app, He, Ht.
  - intros (_ & Hk & E). split; [done|]. exists (take ELLSWIFT_LEN p), more. split; [rewrite length_take; unfold PEEK_LEN in Hl; lia|].
    rewrite E at 1. by rewrite <- app_assoc.
Qed.

(** The first bytes of a client with a secret: its key, and the tag of the key. *)
Lemma opening_tagged k_srv h c out h' c' : state h = New -> buf h = [] -> h_role h = Initiator -> side_door_key h = Some k_srv ->
  step h c [] = Some (Ok (mk_HandshakeStep out None), h', c') ->
  exists e g, length e = ELLSWIFT_LEN /\ out = e ++ side_door_tag k_srv e ++ g.
Proof.
  intros Hn Hb Hr Hk Hst. apply step_runs, hruns_turn in Hst. rewrite hfeed_nil in Hst. unfold step_turn in Hst. rewrite Hn in Hst.
  unfold turn_new, update_field in Hst. cbn [eta_Handshake h_role magic garbage side_door_key buf state] in Hst.
  destruct (ellswift_generate c) as [[k e] c1] eqn:Eg. rewrite Hr, Hk in Hst. cbn [is_initiator] in Hst. destruct (_ <? _)%nat; [done|].
  apply hruns_turn in Hst. unfold step_turn in Hst. cbn [state] in Hst. unfold turn_peer_key, update_field in Hst.
  cbn [eta_Handshake h_role magic garbage side_door_key buf state] in Hst. rewrite Hb in Hst. simpl in Hst.
  injection Hst as -> _ _. exists e, (garbage h). split; [|done]. eapply generate_length. by eexists _, _.
Qed.

End egress.

(** ** Limits *)

Section limits.
Context {C : Bip324Crypto} {L : Bip324Laws C}.

(** The bound on the output refuses the packet of a write that the bound on the input admits: a write of the last twenty
    lengths below the bound fails, and the sending cipher has moved past a packet that is never sent. *)
Theorem full_write_refused (s : Session) (c : Provider) (app : bytes) :
  MAX_TRANSFORM_LEN - 20 < Z.of_nat (length app) <= MAX_TRANSFORM_LEN ->
  exists s', call_io transform_out (mk_Guest (Some (Established s)) c) app =
      Some (Err (BadOutputLen (length app + 20)), mk_Guest (Some (Established s')) c) /\
    packet_counter (s_send_p s') = wrap64 (packet_counter (s_send_p s) + 1).
Proof.
  unfold MAX_TRANSFORM_LEN. rewrite Z.shiftl_mul_pow2 by lia. intros H. unfold call_io, MAX_TRANSFORM_LEN. rewrite Z.shiftl_mul_pow2 by lia.
  destruct (Z.ltb_spec (1 * 2 ^ 20) (Z.of_nat (length app))); [lia|]. unfold transform_out, in_arena, ARENA. rewrite Z.shiftl_mul_pow2 by lia.
  destruct (Z.leb_spec (Z.of_nat (length app)) (1 * 2 ^ 20)); [|lia]. cbn [negb STATE host]. unfold packet.encrypt, seal.
  assert (Z.of_nat (length app) <= MAX_CONTENTS_LEN) as Hm by (unfold MAX_CONTENTS_LEN; lia).
  destruct (encrypt_packet_ok (s_send_l s) (s_send_p s) app [] false Hm) as (enc & ct & l & p & E & L1 & L2 & _). rewrite E.
  rewrite length_app, L1, L2. unfold LENGTH_FIELD_LEN, HEADER_LEN, AEAD_TAG_LEN.
  destruct (Z.ltb_spec (1 * 2 ^ 20) (Z.of_nat (3 + (1 + length app + 16)))); [|lia].
  eexists. split; [by replace (3 + (1 + length app + 16))%nat with (length app + 20)%nat by lia|].
  unfold update_field. cbn [eta_Session s_send_p]. unfold encrypt_packet in E. destruct (_ <? _); [done|].
  destruct (crypt _ _) as [enc' l']. unfold session.encrypt in E. injection E as _ _ <-. unfold advance, update_field.
  by destruct (_ =? 0).
Qed.
End limits.
(** A client's configuration, and one of a responder. *)
Definition ex_client_cfg : bytes := [0; 249; 190; 180; 217; 0; 2; 11; 12; 5; 6; 7].
Definition ex_server_cfg : bytes := [1; 249; 190; 180; 217; 0; 0; 8; 9].
Definition ex_client : Handshake := mk_Handshake Initiator [249; 190; 180; 217] [5; 6; 7] (Some [11; 12]) [] New.
Definition ex_server : Handshake := mk_Handshake Responder [249; 190; 180; 217] [8; 9] None [] New.

Definition ex_opening : bytes := replicate 64 5 ++ toy_mac 32 [11; 12] (DOMAIN ++ replicate 64 5) ++ [5; 6; 7].

End guest.
