(* ===== verification/Bip324Link.v ===== *)
(** Two modules over a connection: the handshake and the session as one system,
    with the bytes in flight in both directions and every interleaving of reads
    and writes. *)

From S2P Require Import Prelude Bip324Crypto Bip324Session Bip324Packet Bip324Handshake Bip324Module.

Module link.
Import bip324 session packet handshake guest.

Section opened.
Context {C : Bip324Crypto} {L : Bip324Laws C}.

(** The garbage of a peer does not contain its terminator early. *)
Definition clean (garbage term : bytes) : Prop := forall q, (q < length garbage)%nat -> ~ occurs (garbage ++ term) term q.

Definition looks_v1 (peer : bytes) : Prop := take 12 (drop 4 peer) = VERSION_SUFFIX.

Lemma find_clean garbage term rest : length term = GARBAGE_TERMINATOR_LEN -> (length garbage <= MAX_GARBAGE_LEN)%nat ->
  clean garbage term -> find_terminator (garbage ++ term ++ rest) term = Ok (Some (length garbage)).
Proof.
  intros Ht Hg Hc. pose proof (find_terminator_feed (garbage ++ term) rest term) as F. rewrite app_assoc.
  pose proof (find_terminator_spec (garbage ++ term) term) as S. rewrite length_app, Ht in S.
  assert (occurs (garbage ++ term) term (length garbage)) as O by (unfold occurs; rewrite drop_app_length, <- Ht; apply firstn_all).
  revert S Hg. generalize MAX_GARBAGE_LEN as M. intros M S Hg.
  destruct (find_terminator (garbage ++ term) term) as [[p|]|e].
  - rewrite F. f_equal. f_equal. destruct S as (_ & H2 & H3 & H4). destruct (decide (p < length garbage)%nat) as [Hp|]; [by destruct (Hc p Hp)|].
    destruct (decide (length garbage < p)%nat) as [Hp|]; [by destruct (H4 _ Hp)|lia].
  - destruct S as [_ S]. by destruct (S (length garbage)).
  - destruct S as (_ & _ & S). by destruct (S (length garbage)).
Qed.

(** The version packet of the peer takes the inner loop to its end. *)
Lemma version_received K g w l p rest : encrypt_packet (recv_l K) (recv_p K) [] g false = Ok (w, l, p) ->
  vruns g (mk_Version K None true (w ++ rest)) (Ok true, mk_Version (K <| recv_l := l |> <| recv_p := p |>) None false rest).
Proof.
  intros E. destruct (encrypt_packet_ok (recv_l K) (recv_p K) [] g false) as (enc & ct & l' & p' & E' & L1 & L2 & D1 & D2); [done|].
  rewrite E in E'. injection E' as -> -> ->. rewrite <- app_assoc. apply vruns_turn. unfold version_turn. cbn [v_keys v_pending v_first v_buf].
  destruct (Nat.ltb_spec (length (enc ++ ct ++ rest)) LENGTH_FIELD_LEN) as [H|_]; [rewrite length_app in H; lia|].
  rewrite take_app_length', drop_app_length' by done. rewrite D1. apply vruns_turn. unfold version_turn. cbn [v_keys v_pending v_first v_buf length].
  destruct (Nat.ltb_spec (length (ct ++ rest)) (HEADER_LEN + 0 + AEAD_TAG_LEN)) as [H|_]; [rewrite length_app, L2 in H; cbn [length] in H; lia|].
  rewrite take_app_length', drop_app_length' by done. unfold update_field at 1. cbn [eta_Keys recv_p]. by rewrite D2.
Qed.

(** A machine that has its key out and has received nothing. *)
Definition awaiting (h : Handshake) (role : Role) (mg : bytes) (key : Ephemeral) (ours sent : bytes) : Prop :=
  h_role h = role /\ magic h = mg /\ buf h = [] /\ state h = AwaitPeerKey key ours sent.

(** The turn that receives the peer's key and answers. *)
Lemma key_turn h c role mg key ours sent peer rest secret c' w l p :
  awaiting h role mg key ours sent -> length peer = ELLSWIFT_LEN -> ~ looks_v1 peer ->
  v2_ecdh c key ours peer role = (secret, c') ->
  let K := derive secret mg role in
  encrypt_packet (send_l K) (send_p K) [] sent false = Ok (w, l, p) ->
  step_turn (hfeed h (peer ++ rest)) c [] = Some (Continue
    (mk_Handshake role mg (garbage h) (side_door_key h) rest (AwaitPeerTerminator (K <| send_l := l |> <| send_p := p |>))) c'
    (((if is_initiator role then [] else ours ++ sent) ++ send_garbage_terminator K) ++ w)).
Proof.
  intros (<- & <- & Hb & Hs) Hp Hv He K Hw. unfold step_turn. replace (state (hfeed h (peer ++ rest))) with (state h) by done. rewrite Hs.
  unfold turn_peer_key, hfeed, update_field. cbn [eta_Handshake h_role magic garbage side_door_key buf state]. rewrite Hb. cbn [app].
  destruct (Nat.ltb_spec (length (peer ++ rest)) ELLSWIFT_LEN) as [H|_]; [rewrite length_app in H; lia|].
  rewrite take_app_length', drop_app_length' by done. destruct (decide _) as [E|_]; [done|]. rewrite He. fold K. rewrite Hw.
  by destruct (is_initiator (h_role h)).
Qed.

(** The whole opening of the peer takes the machine to a session, and what it read past the opening is in its buffer. *)
Lemma step_opened h c role mg key ours sent peer pg secret c' w l p w' l' p' :
  awaiting h role mg key ours sent -> length peer = ELLSWIFT_LEN -> ~ looks_v1 peer ->
  v2_ecdh c key ours peer role = (secret, c') ->
  let K := derive secret mg role in
  encrypt_packet (send_l K) (send_p K) [] sent false = Ok (w, l, p) ->
  encrypt_packet (recv_l K) (recv_p K) [] pg false = Ok (w', l', p') ->
  (length pg <= MAX_GARBAGE_LEN)%nat -> clean pg (recv_garbage_terminator K) ->
  exists h', step h c (peer ++ pg ++ recv_garbage_terminator K ++ w') = Some (Ok (mk_HandshakeStep
    (((if is_initiator role then [] else ours ++ sent) ++ send_garbage_terminator K) ++ w)
    (Some (mk_Session role (session_id K) l p l' p' [] None))), h', c').
Proof.
  intros A Hp Hv He K Hw Hw' Hg Hc. eexists. apply step_runs, hruns_turn.
  rewrite (key_turn _ _ _ _ _ _ _ _ _ _ _ _ _ _ A Hp Hv He Hw). apply hruns_turn. unfold step_turn. cbn [state].
  unfold turn_terminator, update_field. cbn [eta_Handshake eta_Keys h_role magic garbage side_door_key buf state recv_garbage_terminator].
  fold K. rewrite find_clean by (done || apply derive_terminators). apply hruns_turn. unfold step_turn. cbn [state].
  assert (drop (length pg + GARBAGE_TERMINATOR_LEN) (pg ++ recv_garbage_terminator K ++ w') = w') as ->.
  { rewrite app_assoc, drop_app_length'; [done|]. rewrite length_app. f_equal. symmetry. apply derive_terminators. }
  rewrite take_app_length. set (K1 := mk_Keys _ _ _ _ _ _ _).
  erewrite turn_version_runs; [|reflexivity|]; [|rewrite <- (app_nil_r w'); apply version_received; exact Hw'].
  unfold Session_new, update_field. cbn. reflexivity.
Qed.

(** From 64 bytes on, the answer is out. *)
Lemma step_answered h c role mg key ours sent peer rest secret c' w l p r :
  awaiting h role mg key ours sent -> length peer = ELLSWIFT_LEN -> ~ looks_v1 peer ->
  v2_ecdh c key ours peer role = (secret, c') ->
  let K := derive secret mg role in
  encrypt_packet (send_l K) (send_p K) [] sent false = Ok (w, l, p) ->
  step h c (peer ++ rest) = Some r ->
  match r with
  | (Ok st, _, _) => outbound st = ((if is_initiator role then [] else ours ++ sent) ++ send_garbage_terminator K) ++ w
  | (Err _, _, _) => True
  end.
Proof.
  intros A Hp Hv He K Hw H. apply step_runs, hruns_turn in H. rewrite (key_turn _ _ _ _ _ _ _ _ _ _ _ _ _ _ A Hp Hv He Hw) in H.
  apply hruns_turn in H. unfold step_turn in H. cbn [state] in H. unfold turn_terminator in H.
  destruct (find_terminator _ _) as [[pos|]|e]; [|by subst r|by subst r]. apply hruns_turn in H. unfold step_turn, update_field in H.
  cbn [eta_Handshake state h_role magic garbage side_door_key buf] in H. unfold turn_version in H. destruct (version_loop _ _ _) as [[[[]|e] v]|]; [..|done]; by subst r.
Qed.
End opened.

(** ** The two halves of a session *)

(** The session [s] with the sending half of [t]. *)
Definition with_send (s t : Session) : Session := s <| s_send_l := s_send_l t |> <| s_send_p := s_send_p t |>.

Section halves.
Context {C : Bip324Crypto}.

Lemma turn_with_send s t o : decrypt_turn (with_send s t) o =
  match decrypt_turn s o with
  | packet.Continue s' o' => packet.Continue (with_send s' t) o'
  | packet.Break => packet.Break
  | packet.Raise s' e => packet.Raise (with_send s' t) e
  end.
Proof.
  unfold decrypt_turn. replace (pending_len (with_send s t)) with (pending_len s) by done.
  replace (recv_buf (with_send s t)) with (recv_buf s) by done. destruct (pending_len s) as [len|].
  - destruct (_ <? _)%nat; [done|]. replace (s_recv_p (with_send s t)) with (s_recv_p s) by done. by destruct (decrypt_packet _ _ _) as [[pk|e] p].
  - destruct (_ <? _)%nat; [done|]. replace (s_recv_l (with_send s t)) with (s_recv_l s) by done. by destruct (decrypt_length _ _).
Qed.

Lemma decrypt_with_send s t w r s' : packet.decrypt s w = Some (r, s') -> packet.decrypt (with_send s t) w = Some (r, with_send s' t).
Proof.
  intros H. apply decrypt_runs in H as [f Hf]. apply decrypt_runs. exists f. replace (feed (with_send s t) w) with (with_send (feed s w) t) by done.
  revert Hf. generalize (feed s w), (@nil bytes). induction f as [|f IH]; intros s0 o Hf; [done|]. simpl in *. rewrite turn_with_send.
  destruct (decrypt_turn s0 o); [by apply IH|..]; apply (inj Some) in Hf; congruence.
Qed.

Lemma turn_session_id s o : match decrypt_turn s o with packet.Continue s' _ | packet.Raise s' _ => s_session_id s' = s_session_id s | packet.Break => True end.
Proof.
  unfold decrypt_turn. destruct (pending_len s) as [len|].
  - destruct (_ <? _)%nat; [done|]. by destruct (decrypt_packet _ _ _) as [[pk|e] p].
  - destruct (_ <? _)%nat; [done|]. by destruct (decrypt_length _ _).
Qed.

Lemma decrypt_session_id s w r s' : packet.decrypt s w = Some (r, s') -> s_session_id s' = s_session_id s.
Proof.
  intros H. apply decrypt_runs in H as [f Hf]. change (s_session_id s) with (s_session_id (feed s w)). revert Hf.
  generalize (feed s w), (@nil bytes). induction f as [|f IH]; intros s0 o Hf; [done|]. simpl in *. pose proof (turn_session_id s0 o) as E.
  destruct (decrypt_turn s0 o); [rewrite <- E; by eapply IH|..]; apply (inj Some) in Hf; congruence.
Qed.

(** What has reached a session that started as [s0] and was fed [x]: nothing yet if it has not been
    called since, and otherwise what one call would have returned. *)
Definition received (s0 : Session) (x : bytes) (s : Session) (got : list bytes) : Prop :=
  (got = [] /\ s = feed s0 x) \/ packet.decrypt s0 x = Some (Ok got, s).

Lemma decrypt_feed s x w : packet.decrypt (feed s x) w = packet.decrypt s (x ++ w).
Proof. unfold packet.decrypt, feed, update_field. cbn [eta_Session recv_buf]. by rewrite app_assoc. Qed.

Lemma received_progress s0 x s got a y ms s' : received s0 x s got -> packet.decrypt s0 (x ++ a ++ y) = Some (Ok ms, s') ->
  exists got' s1, packet.decrypt s a = Some (Ok got', s1) /\ packet.decrypt s0 (x ++ a) = Some (Ok (got ++ got'), s1) /\
    got ++ got' `prefix_of` ms /\ (y = [] -> got ++ got' = ms).
Proof.
  intros R D. rewrite app_assoc in D. destruct (decrypt_total s0 (x ++ a)) as [[[o|e] s1] H1].
  - exists (drop (length got) o), s1. pose proof (decrypt_app _ _ y _ _ H1) as E. rewrite D in E.
    destruct (decrypt_total s1 y) as [[[o2|e] s2] H2]; rewrite H2 in E; simpl in E; [|done]. injection E as E1 E2.
    assert (packet.decrypt s a = Some (Ok (drop (length got) o), s1) /\ got ++ drop (length got) o = o) as [F1 F2].
    { destruct R as [[-> ->]|R]; [by rewrite decrypt_feed|]. rewrite (decrypt_app _ _ a _ _ R) in H1.
      destruct (decrypt_total s a) as [[[o3|e] s3] H3]; rewrite H3 in H1; simpl in H1; [|done]. injection H1 as <- <-.
      by rewrite drop_app_length. }
    split; [done|]. rewrite F2. split; [done|]. split; [by exists o2|]. intros ->. rewrite app_nil_r in D. congruence.
  - rewrite (decrypt_app_err _ _ y _ _ H1) in D. done.
Qed.

Lemma seal_with_send s t m decoy : seal decoy (with_send s t) m = ((seal decoy t m).1, with_send s (seal decoy t m).2).
Proof.
  unfold seal. replace (s_send_l (with_send s t)) with (s_send_l t) by done. replace (s_send_p (with_send s t)) with (s_send_p t) by done.
  by destruct (encrypt_packet _ _ _ _ _) as [[[w l] p]|e].
Qed.

Lemma seal_all_snoc : forall ms s m decoy w t, seal_all s ms = (Ok w, t) ->
  seal_all s (ms ++ [(decoy, m)]) = match seal decoy t m with (Ok w', t') => (Ok (w ++ w'), t') | (Err e, t') => (Err e, t') end.
Proof.
  induction ms as [|[d m0] ms IH]; intros s m decoy w t H; simpl in *.
  - injection H as <- <-. destruct (seal decoy s m) as [[w'|e] t']; [|done]. by rewrite app_nil_r.
  - destruct (seal d s m0) as [[w0|e] s1]; [|done]. destruct (seal_all s1 ms) as [[w1|e] s2] eqn:E; [|done]. injection H as <- <-.
    rewrite (IH _ _ _ _ _ E). destruct (seal decoy s2 m) as [[w'|e] t']; [|done]. by rewrite app_assoc.
Qed.

(** A machine that reaches the session [s0] on the bytes [hs] and whatever follows: fed a prefix of such bytes it waits or is done. *)
Lemma handshake_progress h0 c0 hs ans s0 hf cf h c o IN a y W :
  step h0 c0 hs = Some (Ok (mk_HandshakeStep ans (Some s0)), hf, cf) -> recv_buf s0 = [] ->
  step h0 c0 IN = Some (Ok (mk_HandshakeStep o None), h, c) -> (IN ++ a) ++ y = hs ++ W ->
  exists o' so h' c', step h c a = Some (Ok (mk_HandshakeStep o' so), h', c') /\
  match so with
  | None => step h0 c0 (IN ++ a) = Some (Ok (mk_HandshakeStep (o ++ o') None), h', c') /\ o ++ o' `prefix_of` ans
  | Some s => exists x, IN ++ a = hs ++ x /\ s = feed s0 x /\ o ++ o' = ans
  end.
Proof.
  intros F Hb H E. pose proof (step_app_done _ _ _ W _ _ _ _ F) as FW. rewrite <- E in FW.
  destruct (step_total h c a) as [[[[[o' so]|e] h'] c'] Ha]; pose proof (step_app _ _ _ a _ _ _ H) as Hin; rewrite Ha in Hin; simpl in Hin.
  - exists o', so, h', c'. split; [done|]. destruct so as [s|].
    + assert (IN ++ a `prefix_of` hs \/ hs `prefix_of` IN ++ a) as [[z Hz]|[z Hz]].
      { destruct (prefix_weak_total (IN ++ a) hs (hs ++ W)); [by exists y|by exists W|by left|by right]. }
      * rewrite Hz in F. rewrite (step_app_done _ _ _ z _ _ _ _ Hin) in F. injection F as F1 F2 _ _.
        assert (z = []) as ->. { rewrite <- F2 in Hb. unfold feed, update_field in Hb. simpl in Hb. by apply app_eq_nil in Hb as [_ ?]. }
        exists []. rewrite app_nil_r in Hz |- *. rewrite feed_nil in *. by subst.
      * exists z. split; [done|]. rewrite Hz in Hin. rewrite (step_app_done _ _ _ z _ _ _ _ F) in Hin. by injection Hin as <- <- _ _.
    + split; [done|]. rewrite (step_app _ _ _ y _ _ _ Hin) in FW. destruct (step_total h' c' y) as [[[[[o2 so2]|e] h2] c2] Hy]; rewrite Hy in FW; simpl in FW; [|done].
      injection FW as FW _ _ _. by exists o2.
  - rewrite (step_app_err _ _ _ y _ _ _ Hin) in FW. done.
Qed.
End halves.

(** ** The system *)

Definition other (r : Role) : Role := match r with Initiator => Responder | Responder => Initiator end.
Definition by_role {A} (i r : A) (x : Role) : A := match x with Initiator => i | Responder => r end.
Definition upd {A} (r : Role) (v : A) (f : Role -> A) : Role -> A := fun x => if decide (x = r) then v else f x.

Section system.
Context {C : Bip324Crypto}.

(** One end: its module, whether its handshake is done, and the application bytes received and sent. *)
Record Endpoint := mk_Endpoint { guest_of : Guest; up : bool; app_in : bytes; app_out : bytes }.

(** [wire s r] holds the bytes [r] has sent and the other end has not read. *)
Record System := mk_System { ends : Role -> Endpoint; wire : Role -> bytes }.

(** Both hosts call [handshake_step] on no bytes when they connect. *)
Definition start (gi gr : Guest) : option (result trap System) :=
  let! (fi, gi) := handshake_step gi [] in
  let! (fr, gr) := handshake_step gr [] in
  Some (let? fi := fi in let? fr := fr in
        Ok (mk_System (by_role (mk_Endpoint gi false [] []) (mk_Endpoint gr false [] []))
                      (by_role (tail fi) (tail fr)))).

(** A read during the handshake, a read of the session (of no bytes to drain what came with the
    handshake), and a write. *)
Inductive act : System -> result trap System -> Prop :=
| act_handshake s r a b res g :
    up (ends s r) = false -> wire s (other r) = a ++ b -> a <> [] -> in_arena a = true ->
    handshake_step (guest_of (ends s r)) a = Some (res, g) ->
    act s (let? frame := res in
           Ok (mk_System (upd r (mk_Endpoint g (default 0 (head frame) =? 1) (app_in (ends s r)) (app_out (ends s r))) (ends s))
                         (upd r (wire s r ++ tail frame) (upd (other r) b (wire s)))))
| act_read s r a b res g :
    up (ends s r) = true -> wire s (other r) = a ++ b -> in_arena a = true ->
    transform_in (guest_of (ends s r)) a = Some (res, g) ->
    act s (let? data := res in
           Ok (mk_System (upd r (mk_Endpoint g true (app_in (ends s r) ++ data) (app_out (ends s r))) (ends s))
                         (upd (other r) b (wire s))))
| act_write s r app res g :
    up (ends s r) = true -> in_arena app = true ->
    transform_out (guest_of (ends s r)) app = Some (res, g) ->
    act s (let? out := res in
           Ok (mk_System (upd r (mk_Endpoint g true (app_in (ends s r)) (app_out (ends s r) ++ app)) (ends s))
                         (upd r (wire s r ++ out) (wire s)))).

Definition acts (s s' : System) : Prop := act s (Ok s').

(** The garbage a machine sends behind its key. *)
Definition opening_garbage (h : Handshake) (ours : bytes) : bytes :=
  match side_door_key h with
  | Some k => if is_initiator (h_role h) then side_door_tag k ours ++ garbage h else garbage h
  | None => garbage h
  end.

(** What holds but for a negligible share of the keys: neither key looks like a v1
    opening, and no garbage contains the terminator derived later. *)
Definition usual (hi : Handshake) (ci : Provider) (hr : Handshake) (cr : Provider) : Prop :=
  let '((ki, ei), ci') := ellswift_generate ci in
  let '((kr, er), _) := ellswift_generate cr in
  let secret := (v2_ecdh ci' ki ei er Initiator).1 in
  ~ looks_v1 ei /\ ~ looks_v1 er /\
  clean (opening_garbage hi ei) (send_garbage_terminator (derive secret (magic hi) Initiator)) /\
  clean (opening_garbage hr er) (send_garbage_terminator (derive secret (magic hr) Responder)).

Lemma step_connect h c k e c' : state h = New -> buf h = [] -> ellswift_generate c = ((k, e), c') ->
  (length (opening_garbage h e) <= MAX_GARBAGE_LEN)%nat ->
  exists h', step h c [] = Some (Ok (mk_HandshakeStep (if is_initiator (h_role h) then e ++ opening_garbage h e else []) None), h', c') /\
    awaiting h' (h_role h) (magic h) k e (opening_garbage h e).
Proof.
  intros Hs Hb Hg Hl.
  assert (exists h1, step_turn h c [] = Some (Continue h1 c' (if is_initiator (h_role h) then e ++ opening_garbage h e else [])) /\
    awaiting h1 (h_role h) (magic h) k e (opening_garbage h e)) as (h1 & T & A).
  { unfold step_turn. rewrite Hs. unfold turn_new, opening_garbage, update_field in *. cbn [eta_Handshake h_role magic garbage side_door_key buf state].
    rewrite Hg. destruct (side_door_key h) as [sk|]; destruct (is_initiator (h_role h)); eexists; try done.
    rewrite length_app in Hl. destruct (Nat.ltb_spec MAX_GARBAGE_LEN (length (garbage h) + length (side_door_tag sk e))); [lia|]. done. }
  destruct A as (A1 & A2 & A3 & A4). eexists. split.
  - apply step_runs, hruns_turn. rewrite hfeed_nil, T. apply hruns_turn. unfold step_turn. rewrite A4. unfold turn_peer_key.
    replace (buf (h1 <| state := Poisoned |>)) with (buf h1) by done. rewrite A3. reflexivity.
  - by repeat split.
Qed.
Lemma transform_in_total g a : is_Some (transform_in g a).
Proof.
  unfold transform_in. destruct (negb _); [by eexists|]. destruct (STATE g) as [[|ses]|]; [by eexists| |by eexists].
  destruct (decrypt_total ses a) as [[r0 s0] ->]. by eexists.
Qed.

(** A read of the first byte in flight is always possible. *)
Lemma act_exists s r : wire s (other r) <> [] -> exists res, act s res.
Proof.
  intros H. destruct (wire s (other r)) as [|x b] eqn:E; [done|]. destruct (up (ends s r)) eqn:U.
  - destruct (transform_in_total (guest_of (ends s r)) [x]) as [[res g] Ht].
    eexists. by apply (act_read s r [x] b res g).
  - assert (is_Some (handshake_step (guest_of (ends s r)) [x])) as [[res g] Ht].
    { unfold handshake_step. simpl. destruct (STATE _) as [[h|]|]; [|by eexists..].
      destruct (step_total h (host (guest_of (ends s r))) [x]) as [[[r0 h0] c0] ->]. by eexists. }
    eexists. by apply (act_handshake s r [x] b res g).
Qed.
End system.

Lemma other_other r : other (other r) = r.
Proof. by destruct r. Qed.
Lemma upd_same {A} r (v : A) f : upd r v f r = v.
Proof. by destruct r. Qed.
Lemma upd_other {A} r (v : A) f : upd r v f (other r) = f (other r).
Proof. by destruct r. Qed.
Lemma upd_this {A} r (v : A) f : upd (other r) v f r = f r.
Proof. by destruct r. Qed.

(** *** The invariant *)

Section invariant.
Context {C : Bip324Crypto} {L : Bip324Laws C}.
Context (mg secret : bytes) (h0 : Role -> Handshake) (c0 c1 : Role -> Provider) (key : Role -> Ephemeral).
Context (ours sent w : Role -> bytes) (l : Role -> FSChaCha20) (p : Role -> FSChaCha20Poly1305).
Let K (r : Role) : Keys := derive secret mg r.

Hypothesis Haw : forall r, awaiting (h0 r) r mg (key r) (ours r) (sent r).
Hypothesis Hours : forall r, length (ours r) = ELLSWIFT_LEN.
Hypothesis Hv1 : forall r, ~ looks_v1 (ours r).
Hypothesis Hsec : forall r, v2_ecdh (c0 r) (key r) (ours r) (ours (other r)) r = (secret, c1 r).
Hypothesis Hw : forall r, encrypt_packet (send_l (K r)) (send_p (K r)) [] (sent r) false = Ok (w r, l r, p r).
Hypothesis Hmax : forall r, (length (sent r) <= MAX_GARBAGE_LEN)%nat.
Hypothesis Hclean : forall r, clean (sent r) (send_garbage_terminator (K r)).

(** The bytes of a whole handshake, those sent at once and those sent in answer, and the session at its end. *)
Definition hello (r : Role) : bytes := ours r ++ sent r ++ send_garbage_terminator (K r) ++ w r.
Definition opening (r : Role) : bytes := if is_initiator r then ours r ++ sent r else [].
Definition answer (r : Role) : bytes :=
  ((if is_initiator r then [] else ours r ++ sent r) ++ send_garbage_terminator (K r)) ++ w r.
Definition sess (r : Role) : Session := mk_Session r (session_id (K r)) (l r) (p r) (l (other r)) (p (other r)) [] None.

Lemma opening_answer r : opening r ++ answer r = hello r.
Proof. unfold opening, answer, hello. destruct (is_initiator r); simpl; by rewrite <- ?app_assoc. Qed.

Lemma full r : exists hf, step (h0 r) (c0 r) (hello (other r)) = Some (Ok (mk_HandshakeStep (answer r) (Some (sess r))), hf, c1 r).
Proof.
  assert (recv_garbage_terminator (K r) = send_garbage_terminator (K (other r)) /\ recv_l (K r) = send_l (K (other r)) /\
    recv_p (K r) = send_p (K (other r))) as (E1 & E2 & E3) by (by destruct r).
  pose proof (Hw (other r)) as Hw'. rewrite <- E2, <- E3 in Hw'. pose proof (Hclean (other r)) as Hc. rewrite <- E1 in Hc.
  destruct (step_opened _ _ _ _ _ _ _ _ _ _ _ _ _ _ _ _ _ (Haw r) (Hours _) (Hv1 _) (Hsec r) (Hw r) Hw' (Hmax _) Hc) as [hf F].
  exists hf. unfold hello. rewrite <- E1. exact F.
Qed.

Lemma sess_linked r : linked (sess r) (sess (other r)).
Proof. by destruct r. Qed.

Definition plain (ms : list bytes) : list (bool * bytes) := (fun m => (false, m)) <$> ms.

Lemma genuine_plain ms : genuine (plain ms) = ms.
Proof. unfold genuine, plain. induction ms as [|m ms IH]; [done|]. simpl. f_equal. exact IH. Qed.

(** The end [r] after it has received [IN] and sent [T]. *)
Inductive phase (r : Role) (e : Endpoint) (IN T : bytes) : Prop :=
| shaking h c o :
    e = mk_Endpoint (mk_Guest (Some (Handshaking h)) c) false [] [] ->
    step (h0 r) (c0 r) IN = Some (Ok (mk_HandshakeStep o None), h, c) ->
    o `prefix_of` answer r -> T = opening r ++ o -> phase r e IN T
| running t s c x W ms got :
    e = mk_Endpoint (mk_Guest (Some (Established (with_send s t))) c) true (concat got) (concat ms) ->
    IN = hello (other r) ++ x -> received (sess r) x s got ->
    seal_all (sess r) (plain ms) = (Ok W, t) -> Forall sendable (plain ms) -> T = hello r ++ W -> phase r e IN T.

Definition inv_at (r : Role) (s : System) : Prop :=
  exists IN T IN' T', phase r (ends s r) IN T /\ phase (other r) (ends s (other r)) IN' T' /\
    T' = IN ++ wire s (other r) /\ T = IN' ++ wire s r.

Lemma inv_other r s : inv_at r s -> inv_at (other r) s.
Proof.
  intros (IN & T & IN' & T' & H1 & H2 & H3 & H4). exists IN', T', IN, T. rewrite other_other. done.
Qed.
Lemma inv_any r r' s : inv_at r s -> inv_at r' s.
Proof. intros H. destruct r, r'; try done; by apply inv_other in H. Qed.

(** What an end has sent is the start of its handshake and its packets, which the other end can open. *)
Lemma phase_stream r e IN T : phase r e IN T -> exists W ms s',
  T `prefix_of` hello r ++ W /\ (up e = true -> T = hello r ++ W) /\ app_out e = concat ms /\
  packet.decrypt (sess (other r)) W = Some (Ok ms, s').
Proof.
  intros [h c o -> Hs Ho ->|t s c x W ms got -> -> Hr Hs Hf ->].
  - exists [], [], (sess (other r)). rewrite app_nil_r. split; [|split; [done|split; [done|by apply quiescent_empty]]].
    destruct Ho as [z Hz]. exists z. rewrite <- app_assoc, <- Hz. symmetry. apply opening_answer.
  - destruct (sealed_deliver_all (plain ms) _ _ (sess_linked r) Hf) as (W' & t' & s' & Hs' & Hd & _). rewrite Hs in Hs'. injection Hs' as <- <-.
    rewrite genuine_plain in Hd. by exists W, ms, s'.
Qed.

Lemma act_handshake_ok r s a b res g : inv_at r s -> up (ends s r) = false -> wire s (other r) = a ++ b -> in_arena a = true ->
  handshake_step (guest_of (ends s r)) a = Some (res, g) ->
  exists frame e, res = Ok frame /\ e = mk_Endpoint g (default 0 (head frame) =? 1) (app_in (ends s r)) (app_out (ends s r)) /\
  forall s', ends s' r = e -> ends s' (other r) = ends s (other r) -> wire s' r = wire s r ++ tail frame -> wire s' (other r) = b -> inv_at r s'.
Proof.
  intros (IN & T & IN' & T' & P & P' & E & E') Hup Hwire Ha Hstep. destruct (phase_stream _ _ _ _ P') as (W & ms & s1 & [z Hz] & _).
  destruct P as [h c o He Hs Ho ->|t s0 c x W0 ms0 got He]; [|by rewrite He in Hup]. rewrite He in *. cbn [guest_of app_in app_out] in *.
  destruct (full r) as [hf F]. rewrite E, Hwire in Hz.
  assert ((IN ++ a) ++ (b ++ z) = hello (other r) ++ W) as Hin by (rewrite Hz, <- !app_assoc; done).
  destruct (handshake_progress _ _ _ _ _ _ _ _ _ _ _ _ _ _ F eq_refl Hs Hin) as (o' & so & h' & c' & Hst & Hso).
  unfold handshake_step in Hstep. rewrite Ha in Hstep. cbn [negb STATE host] in Hstep. rewrite Hst in Hstep.
  destruct so as [s2|]; cbn [session outbound] in Hstep; injection Hstep as <- <-; eexists _, _; (split; [done|]); (split; [done|]);
    intros s' S1 S2 S3 S4; cbn [tail] in S3; cbn [head default] in S1.
  - destruct Hso as (x & Hx & -> & Hans). exists (IN ++ a), (hello r), IN', T'. rewrite S1, S2, S3, S4.
    split; [|split; [done|split]].
    + apply (running _ _ _ _ (sess r) (feed (sess r) x) c' x [] [] []); [done|done|by left|done|by constructor|by rewrite app_nil_r].
    + by rewrite E, Hwire, app_assoc.
    + by rewrite app_assoc, <- E', <- app_assoc, Hans, opening_answer.
  - destruct Hso as [Hst' Hpre]. exists (IN ++ a), (opening r ++ o ++ o'), IN', T'. rewrite S1, S2, S3, S4.
    split; [|split; [done|split]].
    + by apply (shaking _ _ _ _ h' c' (o ++ o')).
    + by rewrite E, Hwire, app_assoc.
    + by rewrite !app_assoc, <- E'.
Qed.

Lemma act_read_ok r s a b res g : inv_at r s -> up (ends s r) = true -> wire s (other r) = a ++ b -> in_arena a = true ->
  transform_in (guest_of (ends s r)) a = Some (res, g) ->
  exists data e, res = Ok data /\ e = mk_Endpoint g true (app_in (ends s r) ++ data) (app_out (ends s r)) /\
  (forall s', ends s' r = e -> ends s' (other r) = ends s (other r) -> wire s' r = wire s r -> wire s' (other r) = b -> inv_at r s') /\
  app_in (ends s r) ++ data `prefix_of` app_out (ends s (other r)) /\
  (b = [] -> up (ends s (other r)) = true -> app_in (ends s r) ++ data = app_out (ends s (other r))).
Proof.
  intros (IN & T & IN' & T' & P & P' & E & E') Hup Hwire Ha Hin. destruct (phase_stream _ _ _ _ P') as (W & ms & s1 & [z Hz] & Hfull & Hout & Hdec).
  destruct P as [h c o He|t s0 c x W0 ms0 got He -> Hr Hs Hf HT]; [by rewrite He in Hup|]. rewrite He in *. cbn [guest_of app_in app_out] in *.
  rewrite other_other in Hdec. rewrite E, Hwire in Hz, Hfull. assert (W = x ++ a ++ (b ++ z)) as HW.
  { rewrite <- !app_assoc in Hz. by apply (inj (app (hello (other r)))) in Hz. }
  rewrite HW in Hdec. destruct (received_progress _ _ _ _ _ _ _ _ Hr Hdec) as (got' & s2 & D1 & D2 & [gz Hpre] & Hall).
  unfold transform_in in Hin. rewrite Ha in Hin. cbn [negb STATE host] in Hin. rewrite (decrypt_with_send _ t _ _ _ D1) in Hin.
  injection Hin as <- <-. eexists _, _. split; [done|]. split; [done|]. rewrite <- concat_app. split; [|split].
  - intros s' S1 S2 S3 S4. exists (hello (other r) ++ x ++ a), T, IN', T'. rewrite S1, S2, S3, S4. split; [|split; [done|split; [|done]]].
    + apply (running _ _ _ _ t s2 c (x ++ a) W0 ms0 (got ++ got')); try done. by right.
    + by rewrite E, Hwire, <- !app_assoc.
  - rewrite Hout, Hpre. exists (concat gz). by rewrite <- concat_app.
  - intros -> Hup'. rewrite Hout. f_equal. apply Hall. specialize (Hfull Hup'). rewrite HW, app_nil_r in Hfull.
    rewrite <- !app_assoc in Hfull. do 2 apply app_inv_head in Hfull.
    apply (f_equal length) in Hfull. rewrite length_app in Hfull. destruct z; [done|simpl in Hfull; lia].
Qed.

Lemma in_arena_sendable app : in_arena app = true -> sendable (false, app).
Proof. unfold in_arena, sendable, ARENA, MAX_CONTENTS_LEN. rewrite Z.leb_le, Z.shiftl_mul_pow2 by lia. simpl snd. lia. Qed.

Lemma act_write_ok r s app res g : inv_at r s -> up (ends s r) = true -> in_arena app = true ->
  transform_out (guest_of (ends s r)) app = Some (res, g) ->
  exists out e, res = Ok out /\ e = mk_Endpoint g true (app_in (ends s r)) (app_out (ends s r) ++ app) /\
  forall s', ends s' r = e -> ends s' (other r) = ends s (other r) -> wire s' r = wire s r ++ out -> wire s' (other r) = wire s (other r) -> inv_at r s'.
Proof.
  intros (IN & T & IN' & T' & P & P' & E & E') Hup Ha Hout.
  destruct P as [h c o He|t s0 c x W0 ms0 got He -> Hr Hs Hf HT]; [by rewrite He in Hup|]. rewrite He in *. cbn [guest_of app_in app_out] in *.
  pose proof (in_arena_sendable app Ha) as Hm. unfold transform_out in Hout. rewrite Ha in Hout. cbn [negb STATE host] in Hout.
  unfold packet.encrypt in Hout. rewrite seal_with_send in Hout. pose proof (seal_all_snoc _ _ app false _ _ Hs) as Hsn.
  assert (exists out t', seal false t app = (Ok out, t')) as (out & t' & Hseal).
  { unfold seal. destruct (encrypt_packet_ok (s_send_l t) (s_send_p t) app [] false Hm) as (enc & ct & l' & p' & -> & _). by eexists _, _. }
  rewrite Hseal in Hout, Hsn. cbn [fst snd] in Hout. injection Hout as <- <-. eexists _, _. split; [done|]. split; [done|].
  intros s' S1 S2 S3 S4. exists (hello (other r) ++ x), (T ++ out), IN', T'. rewrite S1, S2, S3, S4. split; [|split; [done|split; [done|]]].
  - apply (running _ _ _ _ t' s0 c x (W0 ++ out) (ms0 ++ [app]) got); try done.
    + by rewrite concat_app, concat_cons, app_nil_r.
    + unfold plain in *. by rewrite fmap_app.
    + unfold plain in *. rewrite fmap_app. apply Forall_app_2; [done|]. by constructor.
    + by rewrite HT, app_assoc.
  - by rewrite E', app_assoc.
Qed.

(** No action traps, and every action keeps the invariant. *)
Lemma inv_act s res : inv_at Initiator s -> act s res -> exists s', res = Ok s' /\ inv_at Initiator s'.
Proof.
  intros I A. destruct A as [s r a b res g H1 H2 H3 H4 H5|s r a b res g H1 H2 H3 H4|s r app res g H1 H2 H3]; apply (inv_any _ r) in I.
  - destruct (act_handshake_ok r s a b res g I H1 H2 H4 H5) as (frame & e & -> & -> & P). eexists. split; [done|].
    apply (inv_any r). apply P; simpl; by rewrite ?upd_same, ?upd_other, ?upd_same, ?upd_this.
  - destruct (act_read_ok r s a b res g I H1 H2 H3 H4) as (data & e & -> & -> & P & _). eexists. split; [done|].
    apply (inv_any r). apply P; simpl; by rewrite ?upd_same, ?upd_other, ?upd_this.
  - destruct (act_write_ok r s app res g I H1 H2 H3) as (out & e & -> & -> & P). eexists. split; [done|].
    apply (inv_any r). apply P; simpl; by rewrite ?upd_same, ?upd_other, ?upd_this.
Qed.

Lemma inv_prefix r s : inv_at r s -> app_in (ends s r) `prefix_of` app_out (ends s (other r)).
Proof.
  intros (IN & T & IN' & T' & P & P' & E & E'). destruct (phase_stream _ _ _ _ P') as (W & ms & s1 & [z Hz] & _ & Hout & Hdec).
  destruct P as [h c o He|t s0 c x W0 ms0 got He -> Hr Hs Hf HT]; rewrite He; cbn [app_in]; [apply prefix_nil|].
  rewrite Hout, E in *. rewrite other_other in Hdec. rewrite <- !app_assoc in Hz. apply app_inv_head in Hz.
  assert (W = x ++ [] ++ (wire s (other r) ++ z)) as HW by exact Hz.
  rewrite HW in Hdec. destruct (received_progress _ _ _ _ _ _ _ _ Hr Hdec) as (got' & s2 & _ & _ & [gz Hpre] & _).
  rewrite Hpre. exists (concat (got' ++ gz)). by rewrite <- !concat_app, app_assoc.
Qed.

(** A handshake whose peer has sent everything is over. *)
Lemma phase_done r e IN T z : phase r e IN T -> IN = hello (other r) ++ z -> up e = true.
Proof.
  intros [h c o -> Hs _ _|t s c x W ms got ->] HI; [|done]. destruct (full r) as [hf F]. rewrite HI in Hs.
  rewrite (step_app_done _ _ _ z _ _ _ _ F) in Hs. done.
Qed.

Lemma phase_sent r e IN T : phase r e IN T -> up e = true -> exists z, T = hello r ++ z.
Proof. intros [h c o -> _ _ _|t s c x W ms got -> _ _ _ _ ->] H; [done|]. by exists W. Qed.

(** The responder has answered once it has the initiator's key. *)
Lemma phase_answer e IN T z : phase Responder e IN T -> IN = ours Initiator ++ z -> exists y, T = hello Responder ++ y.
Proof.
  intros P HI. pose proof P as P0. destruct P as [h c o -> Hs _ ->|t s c x W ms got -> _ _ _ _ ->]; [|by exists W].
  rewrite HI in Hs. pose proof (step_answered _ _ _ _ _ _ _ _ _ _ _ _ _ _ _ (Haw Responder) (Hours _) (Hv1 _) (Hsec Responder) (Hw Responder) Hs) as A.
  simpl in A. exists []. rewrite app_nil_r, <- opening_answer. f_equal. exact A.
Qed.

Lemma inv_settled s : inv_at Initiator s -> wire s Initiator = [] -> wire s Responder = [] ->
  forall r, up (ends s r) = true.
Proof.
  intros (IN & T & IN' & T' & P & P' & E & E') W1 W2. simpl in *. rewrite W2, app_nil_r in E. rewrite W1, app_nil_r in E'. subst IN IN'.
  assert (exists z, T = ours Initiator ++ z) as [z Hz].
  { destruct P as [h c o _ _ _ ->|t s0 c x W ms got _ _ _ _ _ ->]; unfold opening, hello; simpl; rewrite <- ?app_assoc; by eexists. }
  destruct (phase_answer _ _ _ _ P' Hz) as [y Hy]. pose proof (phase_done _ _ _ _ _ P Hy) as U.
  destruct (phase_sent _ _ _ _ P U) as [z' Hz']. pose proof (phase_done Responder _ _ _ _ P' Hz') as U'. by intros [].
Qed.

Lemma inv_session_id r s : inv_at r s -> up (ends s r) = true ->
  exists ses, STATE (guest_of (ends s r)) = Some (Established ses) /\ s_session_id ses = session_id (derive secret mg Initiator).
Proof.
  intros (IN & T & IN' & T' & P & _) U. destruct P as [h c o He|t s0 c x W0 ms0 got He -> Hr Hs Hf HT]; rewrite He in *; [done|].
  eexists. split; [done|]. change (s_session_id (with_send s0 t)) with (s_session_id s0).
  transitivity (s_session_id (sess r)); [|by destruct r]. destruct Hr as [[_ ->]|Hr]; [done|]. by eapply decrypt_session_id.
Qed.
(** What the theorem says of a state. *)
Definition settles (s : System) : Prop :=
  (forall res, act s res -> exists s', res = Ok s') /\
  (forall r, wire s r <> [] -> exists s', acts s s') /\
  (forall r, app_in (ends s r) `prefix_of` app_out (ends s (other r))) /\
  (wire s Initiator = [] -> wire s Responder = [] -> exists sid, forall r,
     up (ends s r) = true /\
     (exists ses, STATE (guest_of (ends s r)) = Some (Established ses) /\ s_session_id ses = sid) /\
     exists data g, transform_in (guest_of (ends s r)) [] = Some (Ok data, g) /\
       app_in (ends s r) ++ data = app_out (ends s (other r))).

Lemma inv_settles s : inv_at Initiator s -> settles s.
Proof.
  intros I. split; [|split; [|split]].
  - intros res A. destruct (inv_act s res I A) as (s' & E & _). by exists s'.
  - intros r Hr. rewrite <- (other_other r) in Hr. destruct (act_exists s (other r) Hr) as [res A].
    destruct (inv_act s res I A) as (s' & -> & _). by exists s'.
  - intros r. by apply inv_prefix, (inv_any Initiator).
  - intros W1 W2. exists (session_id (derive secret mg Initiator)). intros r. pose proof (inv_settled s I W1 W2) as U.
    apply (inv_any _ r) in I. split; [done|]. split; [by apply inv_session_id|].
    destruct (transform_in_total (guest_of (ends s r)) []) as [[res g] Ht].
    destruct (act_read_ok r s [] [] res g I (U r)) as (data & e & -> & _ & _ & _ & Hall); [by destruct r|done|done|].
    exists data, g. split; [done|]. by apply Hall.
Qed.

Lemma inv_reach s0 s : inv_at Initiator s0 -> rtc acts s0 s -> inv_at Initiator s.
Proof.
  intros I R. induction R as [s|s s1 s2 A _ IH]; [done|]. apply IH. destruct (inv_act s _ I A) as (s' & E & I'). by apply Ok_inj in E as <-.
Qed.

Lemma step_nothing r : step (h0 r) (c0 r) [] = Some (Ok (mk_HandshakeStep [] None), h0 r, c0 r).
Proof.
  destruct (Haw r) as (H1 & H2 & H3 & H4). apply step_runs, hruns_turn. rewrite hfeed_nil. unfold step_turn. rewrite H4.
  unfold turn_peer_key. 
  destruct (Nat.ltb_spec (length (buf ((h0 r) <| state := Poisoned |>))) ELLSWIFT_LEN) as [_|H].
  - unfold update_field. simpl. rewrite <- H4. by destruct (h0 r).
  - unfold update_field in H. cbn [eta_Handshake buf] in H. rewrite H3 in H. unfold ELLSWIFT_LEN in H. simpl in H. lia.
Qed.

Lemma link_start : inv_at Initiator (mk_System
  (by_role (mk_Endpoint (mk_Guest (Some (Handshaking (h0 Initiator))) (c0 Initiator)) false [] [])
           (mk_Endpoint (mk_Guest (Some (Handshaking (h0 Responder))) (c0 Responder)) false [] []))
  (by_role (opening Initiator) (opening Responder))).
Proof.
  exists [], (opening Initiator), [], (opening Responder). split; [|split; [|done]].
  - apply (shaking _ _ _ _ (h0 Initiator) (c0 Initiator) []); [done|apply step_nothing|apply prefix_nil|by rewrite app_nil_r].
  - apply (shaking _ _ _ _ (h0 Responder) (c0 Responder) []); [done|apply step_nothing|apply prefix_nil|by rewrite app_nil_r].
Qed.
End invariant.

Section theorem.
Context {C : Bip324Crypto} {L : Bip324Laws C}.

Lemma init_fresh cfg h : init_handshake cfg = Some h -> state h = New /\ buf h = [] /\ (length (garbage h) <= MAX_GARBAGE_LEN)%nat.
Proof.
  unfold init_handshake. destruct (_ <? _)%nat; [done|]. destruct (role_of _); [|done]. destruct (_ <? _)%nat; [done|].
  unfold Handshake_new. destruct (Nat.ltb_spec MAX_GARBAGE_LEN (length (drop (7 + Z.to_nat (from_be_bytes (take 2 (drop 5 cfg)))) cfg))); [done|].
  intros E. apply (inj Some) in E as <-. unfold with_side_door. cbn [h_role]. by destruct (is_initiator _ && _).
Qed.

Lemma opening_garbage_max h e : (length (garbage h) + SIDE_DOOR_TAG_LEN <= MAX_GARBAGE_LEN)%nat ->
  (length (opening_garbage h e) <= MAX_GARBAGE_LEN)%nat.
Proof.
  unfold opening_garbage. intros H. destruct (side_door_key h); [|lia]. destruct (is_initiator _); [|lia].
  rewrite length_app. unfold side_door_tag, side_door_tag_with. rewrite extract_length. unfold SIDE_DOOR_TAG_LEN in H. lia.
Qed.

Lemma handshake_step_connect h c h' c' o : step h c [] = Some (Ok (mk_HandshakeStep o None), h', c') ->
  handshake_step (mk_Guest (Some (Handshaking h)) c) [] = Some (Ok (0 :: o), mk_Guest (Some (Handshaking h')) c').
Proof. intros H. unfold handshake_step. cbn [STATE host]. by rewrite H. Qed.

(** C7: two modules that are configured with the two roles and one network magic, over reliable byte streams. Whatever the
    garbage and the side-door secret, and however the reads of both ends cut and interleave the bytes in flight: no export ever
    traps; bytes in flight can always be read; each end has received a prefix of what the other has written; and once
    nothing is in flight both handshakes are done, under one session id, and a drain completes what was received. *)
Theorem connection_correct (cfg_i cfg_r : bytes) (hi hr : Handshake) (ci cr : Provider) :
  init_handshake cfg_i = Some hi -> init_handshake cfg_r = Some hr ->
  h_role hi = Initiator -> h_role hr = Responder -> magic hi = magic hr ->
  (length (garbage hi) + SIDE_DOOR_TAG_LEN <= MAX_GARBAGE_LEN)%nat -> usual hi ci hr cr ->
  exists s0, start (mk_Guest (Some (Handshaking hi)) ci) (mk_Guest (Some (Handshaking hr)) cr) = Some (Ok s0) /\
  forall s, rtc acts s0 s -> settles s.
Proof.
  intros Ii Ir Ri Rr Hm Hg U. apply init_fresh in Ii as (Ni & Bi & _). apply init_fresh in Ir as (Nr & Br & Gr). unfold usual in U.
  destruct (ellswift_generate ci) as [[ki ei] ci'] eqn:Gi. destruct (ellswift_generate cr) as [[kr er] cr'] eqn:Gr'.
  destruct U as (Vi & Vr & Ci & Cr). assert (generated ki ei) as GI by (by eexists _, _). assert (generated kr er) as GR by (by eexists _, _).
  pose proof (v2_ecdh_agree ki ei kr er ci' cr' GI GR) as Hag. set (secret := (v2_ecdh ci' ki ei er Initiator).1) in *. rewrite <- Hm in Cr.
  assert (length (opening_garbage hr er) <= MAX_GARBAGE_LEN)%nat as Mr by (unfold opening_garbage; rewrite Rr; by destruct (side_door_key hr)).
  destruct (step_connect hi ci ki ei ci' Ni Bi Gi (opening_garbage_max _ _ Hg)) as (hi' & Si & Ai).
  destruct (step_connect hr cr kr er cr' Nr Br Gr' Mr) as (hr' & Sr & Ar). rewrite Ri, Rr in *. cbn [is_initiator] in *. rewrite <- Hm in Ar.
  set (K := derive secret (magic hi)).
  destruct (encrypt_packet_ok (send_l (K Initiator)) (send_p (K Initiator)) [] (opening_garbage hi ei) false) as (ni & wi & li & pi & Wi & _); [done|].
  destruct (encrypt_packet_ok (send_l (K Responder)) (send_p (K Responder)) [] (opening_garbage hr er) false) as (nr & wr & lr & pr & Wr & _); [done|].
  eexists. split. { unfold start. rewrite (handshake_step_connect _ _ _ _ _ Si), (handshake_step_connect _ _ _ _ _ Sr). done. }
  intros s R.
  assert (forall r, awaiting (by_role hi' hr' r) r (magic hi) (by_role ki kr r) (by_role ei er r) (by_role (opening_garbage hi ei) (opening_garbage hr er) r)) as H1 by (by intros []).
  assert (forall r, length (by_role ei er r) = ELLSWIFT_LEN) as H2 by (by intros []; eapply generate_length).
  assert (forall r, ~ looks_v1 (by_role ei er r)) as H3 by (by intros []).
  assert (forall r, v2_ecdh (by_role ci' cr' r) (by_role ki kr r) (by_role ei er r) (by_role ei er (other r)) r =
    (secret, by_role (v2_ecdh ci' ki ei er Initiator).2 (v2_ecdh cr' kr er ei Responder).2 r)) as H4.
  { intros []; simpl; [apply surjective_pairing|]. rewrite Hag. apply surjective_pairing. }
  assert (forall r, encrypt_packet (send_l (K r)) (send_p (K r)) [] (by_role (opening_garbage hi ei) (opening_garbage hr er) r) false =
    Ok (by_role (ni ++ wi) (nr ++ wr) r, by_role li lr r, by_role pi pr r)) as H5 by (by intros []).
  assert (forall r, (length (by_role (opening_garbage hi ei) (opening_garbage hr er) r) <= MAX_GARBAGE_LEN)%nat) as H6
    by (intros []; [by apply opening_garbage_max|done]).
  assert (forall r, clean (by_role (opening_garbage hi ei) (opening_garbage hr er) r) (send_garbage_terminator (K r))) as H7 by (by intros []).
  apply (inv_settles _ _ _ _ _ _ _ _ _ _ _ H1 H2 H3 H4 H5 H6 H7).
  eapply (inv_reach _ _ _ _ _ _ _ _ _ _ _ H1 H2 H3 H4 H5 H6 H7); [|exact R].
  exact (link_start _ secret _ _ _ _ _ _ _ _ H1).
Qed.
End theorem.
(** The conditions on a garbage can be decided. *)
Lemma clean_seq garbage term : Forall (fun q => take GARBAGE_TERMINATOR_LEN (drop q (garbage ++ term)) <> term) (seq 0 (length garbage)) -> clean garbage term.
Proof. intros H q Hq. rewrite Forall_forall in H. apply H. apply in_seq. lia. Qed.

Lemma connection_correct_witness : exists s0,
  start (mk_Guest (Some (Handshaking ex_client)) 5) (mk_Guest (Some (Handshaking ex_server)) 9) = Some (Ok s0) /\ settles s0.
Proof.
  assert (init_handshake ex_client_cfg = Some ex_client) as H1 by reflexivity.
  assert (init_handshake ex_server_cfg = Some ex_server) as H2 by reflexivity.
  assert (length (garbage ex_client) + SIDE_DOOR_TAG_LEN <= MAX_GARBAGE_LEN)%nat as H3 by (simpl; unfold MAX_GARBAGE_LEN, SIDE_DOOR_TAG_LEN; lia).
  assert (usual ex_client 5 ex_server 9) as H4.
  { unfold usual, looks_v1. cbn [toy_crypto ellswift_generate]. repeat split; [vm_compute; discriminate|vm_compute; discriminate|apply clean_seq; decided..]. }
  destruct (connection_correct ex_client_cfg ex_server_cfg ex_client ex_server 5 9 H1 H2 eq_refl eq_refl eq_refl H3 H4) as (s0 & S0 & Hr).
  exists s0. split; [exact S0|]. apply Hr. apply rtc_refl.
Defined.
End link.
