(* ===== verification/HysteriaUdp.v ===== *)
(** [core/src/transport/hysteria2/{tcp,udp}.rs]: QUIC varints, the TCP request, the
    datagrams of a UDP association with their fragmentation and reassembly, and the
    receive pump and sink of [hysteria2/mod.rs]. *)

From S2P Require Import Prelude RustStr.

Module hysteria2.

(** ** QUIC varints *)

Definition write_varint (v : Z) : bytes :=
  if v <? 64 then [wrap8 v]
  else if v <? 16384 then to_be_bytes 2 (Z.lor (wrap16 v) 0x4000)
  else if v <? 1073741824 then to_be_bytes 4 (Z.lor (wrap32 v) 0x80000000)
  else to_be_bytes 8 (Z.lor v 0xc000000000000000).

Definition varint_len (v : Z) : nat :=
  if v <? 64 then 1 else if v <? 16384 then 2 else if v <? 1073741824 then 4 else 8.

Definition read_varint (buf : bytes) : option (Z * bytes) :=
  let! first := head buf in
  let len := Z.to_nat (Z.shiftl 1 (Z.shiftr first 6)) in
  let! bs := slice_get buf 0 len in
  let v := fold_left (fun v b => wrap64 (Z.lor (Z.shiftl v 8) b)) (tail bs) (Z.land first 0x3f) in
  Some (v, drop len buf).

Definition TCP_REQUEST_ID : Z := 0x401.

Definition encode_tcp_request (addr : bytes) : bytes :=
  write_varint TCP_REQUEST_ID ++ write_varint (Z.of_nat (length addr)) ++ addr ++ write_varint 0.

(** ** UDP messages *)

Record UdpMessage := mk_UdpMessage {
  session_id : Z;
  packet_id : Z;
  frag_id : Z;
  frag_count : Z;
  addr : bytes;
  payload : bytes;
}.

Definition header_len (addr : bytes) : nat := 4 + 2 + 1 + 1 + varint_len (Z.of_nat (length addr)) + length addr.

(** [usize::div_ceil]. *)
Definition div_ceil (a b : nat) : nat := (a / b + (if (a mod b =? 0)%nat then 0 else 1))%nat.

(** One turn of the loop over [frag_id]. *)
Definition encode_fragment (sid pid : Z) (addr payload : bytes) (room : nat) (frag_count : Z) (frag_id : nat) : bytes :=
  let start := (frag_id * room)%nat in
  let stop := Nat.min (start + room) (length payload) in
  let chunk := if (start <? length payload)%nat then take (stop - start) (drop start payload) else [] in
  to_be_bytes 4 sid ++ to_be_bytes 2 pid ++ [wrap8 (Z.of_nat frag_id)] ++ [frag_count] ++
  write_varint (Z.of_nat (length addr)) ++ addr ++ chunk.

Definition encode_udp_message (sid pid : Z) (addr payload : bytes) (max_datagram : nat) : list bytes :=
  let hlen := header_len addr in
  let room := (max_datagram - hlen)%nat in
  if (room =? 0)%nat then [] else
  let needed := Nat.max (div_ceil (length payload) room) 1 in
  if (255 <? needed)%nat then [] else
  let frag_count := wrap8 (Z.of_nat needed) in
  encode_fragment sid pid addr payload room frag_count <$> seq 0 (Z.to_nat frag_count).

Definition decode_udp_message (buf : bytes) : option UdpMessage :=
  let! sid := slice_get buf 0 4 in
  let! pid := slice_get buf 4 6 in
  let! frag_id := buf !! 6%nat in
  let! frag_count := buf !! 7%nat in
  if (frag_count =? 0) || (frag_count <=? frag_id) then None else
  let! tail := slice_get buf 8 (length buf) in
  let! (alen, rest) := read_varint tail in
  let alen := Z.to_nat alen in
  let! a := slice_get rest 0 alen in
  if negb (utf8_valid a) then None else
  Some (mk_UdpMessage (from_be_bytes sid) (from_be_bytes pid) frag_id frag_count a (drop alen rest)).

(** ** Reassembly *)

Abbreviation key := (Z * Z)%type.
(** [UdpReassembler { partial }]. *)
Abbreviation UdpReassembler := (gmap key (list (option bytes))).
Definition UDP_MAX_PARTIAL : nat := 256.

(** The payloads of the slots, if all are there ([c?] of the source). *)
Fixpoint collect (slot : list (option bytes)) : option bytes :=
  match slot with
  | [] => Some []
  | c :: slot => let! b := c in let! r := collect slot in Some (b ++ r)
  end.

Definition accept (self : UdpReassembler) (m : UdpMessage) : option bytes * UdpReassembler :=
  if frag_count m <=? 1 then (Some (payload m), self) else
  let k := (session_id m, packet_id m) in
  let self := if (UDP_MAX_PARTIAL <=? size self)%nat && bool_decide (self !! k = None) then ∅ else self in
  let slot := default (replicate (Z.to_nat (frag_count m)) None) (self !! k) in
  if negb (length slot =? Z.to_nat (frag_count m))%nat then (None, delete k self) else
  match slot !! Z.to_nat (frag_id m) with
  | None => (None, delete k self)
  | Some cell =>
      let slot := match cell with
                  | None => <[Z.to_nat (frag_id m) := Some (payload m)]> slot
                  | Some _ => slot
                  end in
      if forallb is_some slot then (collect slot, delete k self) else (None, <[k := slot]> self)
  end.

(** *** The connection *)

(** [tokio::sync::mpsc::channel(256)]: the payloads that wait in it. *)
Definition CHANNEL_CAP : nat := 256.

(** [Sender::try_send]: a payload for a full channel is dropped. *)
Definition try_send (q : list bytes) (p : bytes) : list bytes := if (length q <? CHANNEL_CAP)%nat then q ++ [p] else q.

(** The registry of delivery channels, by session id, and the reassembler of the pump. *)
Record ConnState := mk_Conn { sessions : gmap Z (list bytes); reasm : UdpReassembler }.

(** One turn of the pump's loop: a completed payload goes to its session if that is registered. *)
Definition pump_turn (st : ConnState) (d : bytes) : ConnState :=
  match decode_udp_message d with
  | None => st
  | Some m =>
      let '(r, reasm) := accept (reasm st) m in
      mk_Conn (match r with
               | Some p => match sessions st !! session_id m with
                           | Some q => <[session_id m := try_send q p]> (sessions st)
                           | None => sessions st
                           end
               | None => sessions st
               end) reasm
  end.

Definition udp_receive_pump (st : ConnState) (datagrams : list bytes) : ConnState := fold_left pump_turn datagrams st.

(** The sink: its counter wraps. *)
Record Hysteria2UdpSink := mk_Sink { sink_session : Z; target : bytes; next_packet : Z; max_datagram : nat }.

Definition send (s : Hysteria2UdpSink) (p : bytes) : list bytes * Hysteria2UdpSink :=
  (encode_udp_message (sink_session s) (next_packet s) (target s) p (max_datagram s),
   mk_Sink (sink_session s) (target s) (wrap16 (next_packet s + 1)) (max_datagram s)).

(** The loop that registers a channel: the first random candidate no live association has. [draws] are the candidates up to a
    failure of the random generator. *)
Fixpoint register (draws : list Z) (ss : gmap Z (list bytes)) : option (Z * gmap Z (list bytes)) :=
  match draws with
  | [] => None
  | c :: draws => match ss !! c with None => Some (c, <[c := []]> ss) | Some _ => register draws ss end
  end.

Inductive UdpError := Unsupported | RngFailure.

Definition dial_udp_addr (udp_ok : bool) (max_datagram_size : option nat) (target : bytes) (draws : list Z) (st : ConnState) :
    (Hysteria2UdpSink + UdpError) * ConnState :=
  match udp_ok, max_datagram_size with
  | true, Some max_datagram =>
      match register draws (sessions st) with
      | Some (sid, ss) => (inl (mk_Sink sid target 0 max_datagram), mk_Conn ss (reasm st))
      | None => (inr RngFailure, st)
      end
  | _, _ => (inr Unsupported, st)
  end.

(** [Hysteria2UdpSource::recv] with a buffer of [n] bytes: the next payload, cut to it; [None] while there is none. *)
Definition recv (sid : Z) (n : nat) (st : ConnState) : option bytes * ConnState :=
  match sessions st !! sid with
  | Some (p :: q) => (Some (take (Nat.min (length p) n) p), mk_Conn (<[sid := q]> (sessions st)) (reasm st))
  | _ => (None, st)
  end.

(** Dropping the source removes its registration, and with it the channel. *)
Definition drop_source (sid : Z) (st : ConnState) : ConnState := mk_Conn (delete sid (sessions st)) (reasm st).

(** What happens on a connection: a datagram arrives, an association is dialed, its source read or dropped. *)
Inductive event :=
| Datagram (d : bytes)
| Dial (udp_ok : bool) (max_datagram_size : option nat) (target : bytes) (draws : list Z)
| Recv (sid : Z) (n : nat)
| DropSource (sid : Z).

(** The payloads returned by the reads of an event. *)
Definition step (st : ConnState) (ev : event) : list (Z * nat * bytes) * ConnState :=
  match ev with
  | Datagram d => ([], pump_turn st d)
  | Dial ok md target draws => ([], (dial_udp_addr ok md target draws st).2)
  | Recv sid n => let '(r, st) := recv sid n st in (match r with Some b => [(sid, n, b)] | None => [] end, st)
  | DropSource sid => ([], drop_source sid st)
  end.

Fixpoint run (st : ConnState) (evs : list event) : list (Z * nat * bytes) * ConnState :=
  match evs with
  | [] => ([], st)
  | ev :: evs => let '(o, st) := step st ev in let '(os, st) := run st evs in (o ++ os, st)
  end.

Definition datagrams (evs : list event) : list bytes := omap (fun ev => match ev with Datagram d => Some d | _ => None end) evs.

(** ** Varints *)

Lemma fold_be bs : forall acc, bytes_ok bs -> 0 <= acc -> (acc + 1) * 256 ^ Z.of_nat (length bs) <= 2 ^ 64 ->
  fold_left (fun v b => wrap64 (Z.lor (Z.shiftl v 8) b)) bs acc = fold_left (fun v b => v * 256 + b) bs acc.
Proof.
  induction bs as [|b bs IH]; intros acc Hb Ha Hm; [done|]. apply Forall_cons_iff in Hb as [Hb Hbs]. cbn [fold_left].
  rewrite lor_shiftl_add by (unfold fits in Hb; lia). change (2 ^ 8) with 256. cbn [length] in Hm. rewrite Nat2Z.inj_succ, Z.pow_succ_r in Hm by lia.
  assert (1 <= 256 ^ Z.of_nat (length bs)) as Hp by (apply Z.lt_pred_le; apply Z.pow_pos_nonneg; lia).
  unfold fits in Hb. assert (fits 64 (acc * 256 + b)) as Hf by (unfold fits; nia). rewrite (wrap_small _ _ Hf). apply IH; [done|lia|nia].
Qed.

Lemma fold_be_value bs : forall acc, fold_left (fun v b => v * 256 + b) bs acc = acc * 256 ^ Z.of_nat (length bs) + from_be_bytes bs.
Proof.
  unfold from_be_bytes. induction bs as [|b bs IH]; intros acc; cbn [fold_left length]; [lia|].
  rewrite IH, (IH (0 * 256 + b)), Nat2Z.inj_succ, Z.pow_succ_r by lia. ring.
Qed.

Lemma head_tag h t : 0 <= t <= 3 -> 0 <= h - t * 64 < 64 -> Z.shiftr h 6 = t /\ Z.land h 0x3f = h - t * 64.
Proof.
  intros Ht Hh. rewrite shiftr_div by lia. change 0x3f with (2 ^ 6 - 1). rewrite land_mask by lia. change (2 ^ 6) with 64. lia.
Qed.

(** A value under a two-bit tag, in [n = 2^t] bytes. *)
Lemma read_tagged t n v rest : 0 <= t <= 3 -> Z.of_nat n = 2 ^ t -> 0 <= v < 64 * 256 ^ Z.of_nat (n - 1) ->
  read_varint (to_be_bytes n (t * (64 * 256 ^ Z.of_nat (n - 1)) + v) ++ rest) = Some (v, rest).
Proof.
  intros Ht Hn Hv. assert (1 <= 2 ^ t <= 8) as Hn8 by (assert (2 ^ 0 <= 2 ^ t <= 2 ^ 3) by (split; apply Z.pow_le_mono_r; lia); lia).
  set (P := 256 ^ Z.of_nat (n - 1)) in *. assert (0 < P) as HP by (apply Z.pow_pos_nonneg; lia).
  set (X := t * (64 * P) + v). pose proof (to_be_bytes_ok n X) as Hok. pose proof (length_to_be_bytes n X) as Hl.
  assert (from_be_bytes (to_be_bytes n X) = X) as HX.
  { apply from_to_be_bytes_small. replace (Z.of_nat n) with (Z.succ (Z.of_nat (n - 1))) by lia. rewrite Z.pow_succ_r by lia. fold P. unfold X. nia. }
  revert HX Hok Hl. generalize (to_be_bytes n X) as bs. intros [|h tl] HX Hok Hl; [simpl in Hl; lia|].
  apply Forall_cons_iff in Hok as [Hh Htl]. simpl in Hl. assert (length tl = n - 1)%nat as Hl' by lia.
  assert (h * P + from_be_bytes tl = X) as HX'. { rewrite <- HX. unfold from_be_bytes at 2. cbn [fold_left]. rewrite fold_be_value, Hl'. fold P. lia. }
  pose proof (from_be_bytes_bound tl Htl) as Hb. rewrite Hl' in Hb. fold P in Hb.
  assert (0 <= h - t * 64 < 64) as Hd by (unfold X in HX'; nia). destruct (head_tag h t Ht Hd) as [E1 E2].
  unfold read_varint. cbn [app head]. rewrite E1, E2, Z.shiftl_1_l, <- Hn, Nat2Z.id, slice_get_0.
  change (h :: tl ++ rest) with ((h :: tl) ++ rest). rewrite length_app, <- Hl at 1.
  destruct (Nat.leb_spec (S (length tl)) (length (h :: tl) + length rest)) as [_|H]; [|simpl in H; lia].
  rewrite <- Hl, take_app_length', drop_app_length' by done. cbn [tail].
  rewrite fold_be; [|done|lia|]. { rewrite fold_be_value, Hl'. fold P. f_equal. f_equal. unfold X in HX'. nia. }
  rewrite Hl'. fold P. assert (64 * P <= 2 ^ 62) as HP62; [|nia].
  change (2 ^ 62) with (64 * 256 ^ 7). apply Z.mul_le_mono_nonneg_l; [lia|]. apply Z.pow_le_mono_r; lia.
Qed.

Lemma tag_add a k v : 0 <= k -> 0 <= v < 2 ^ k -> Z.lor v (a * 2 ^ k) = a * 2 ^ k + v.
Proof. intros. rewrite Z.lor_comm. by apply lor_disjoint_add. Qed.

(** A varint is read back, and takes the announced room. *)
Lemma varint_roundtrip v rest : 0 <= v < 2 ^ 62 ->
  read_varint (write_varint v ++ rest) = Some (v, rest) /\ length (write_varint v) = varint_len v.
Proof.
  intros Hv. unfold write_varint, varint_len.
  destruct (Z.ltb_spec v 64); [|destruct (Z.ltb_spec v 16384); [|destruct (Z.ltb_spec v 1073741824)]].
  - split; [|done]. rewrite wrap_small by (unfold fits; lia). pose proof (read_tagged 0 1 v rest) as R. cbn in R.
    rewrite Z.mod_small in R by lia. apply R; lia.
  - rewrite wrap_small by (unfold fits; lia). change 0x4000 with (1 * 2 ^ 14). rewrite tag_add by lia. split; [|apply length_to_be_bytes].
    apply (read_tagged 1 2 v rest); simpl; lia.
  - rewrite wrap_small by (unfold fits; lia). change 0x80000000 with (2 * 2 ^ 30). rewrite tag_add by lia. split; [|apply length_to_be_bytes].
    apply (read_tagged 2 4 v rest); simpl; lia.
  - change 0xc000000000000000 with (3 * 2 ^ 62). rewrite tag_add by lia. split; [|apply length_to_be_bytes].
    apply (read_tagged 3 8 v rest); simpl; lia.
Qed.

(** ** Fragments *)

(** The payloads of the fragments, of at most [room] bytes each. *)
Definition frag (room : nat) (p : bytes) (i : nat) : bytes := take room (drop (i * room) p).
Definition frags_needed (room : nat) (p : bytes) : nat := Nat.max (div_ceil (length p) room) 1.
Definition frags (room : nat) (p : bytes) : list bytes := frag room p <$> seq 0 (frags_needed room p).

Lemma div_ceil_le a b : (0 < b)%nat -> (a <= div_ceil a b * b)%nat.
Proof.
  intros Hb. unfold div_ceil. pose proof (Nat.div_mod_eq a b) as E. pose proof (Nat.mod_upper_bound a b) as M.
  destruct (Nat.eqb_spec (a mod b) 0); nia.
Qed.

(** Never more fragments than the payload needs. *)
Lemma div_ceil_gt a b k : (0 < b)%nat -> (k < div_ceil a b)%nat <-> (k * b < a)%nat.
Proof.
  intros Hb. unfold div_ceil. pose proof (Nat.div_mod_eq a b) as E. pose proof (Nat.mod_upper_bound a b) as M.
  revert E M. generalize (a / b)%nat, (a mod b)%nat. intros q m E M. destruct (Nat.eqb_spec m 0); split; nia.
Qed.

Lemma concat_frags room p : forall n i, concat (frag room p <$> seq i n) = take (n * room) (drop (i * room) p).
Proof.
  induction n as [|n IH]; intros i; [done|]. rewrite <- cons_seq, fmap_cons, concat_cons, IH. unfold frag.
  replace (S i * room)%nat with (i * room + room)%nat by lia. rewrite <- drop_drop.
  replace (S n * room)%nat with (room + n * room)%nat by lia. by rewrite take_take_drop.
Qed.

Lemma frags_payload room p : (0 < room)%nat -> concat (frags room p) = p.
Proof.
  intros Hr. unfold frags. rewrite concat_frags. rewrite drop_0. apply take_ge.
  pose proof (div_ceil_le (length p) room Hr). unfold frags_needed. nia.
Qed.

Lemma frags_lookup room p i : (i < frags_needed room p)%nat -> frags room p !! i = Some (frag room p i).
Proof. intros H. unfold frags. rewrite list_lookup_fmap, lookup_seq_lt by done. done. Qed.

Lemma length_frags room p : length (frags room p) = frags_needed room p.
Proof. unfold frags. by rewrite length_fmap, length_seq. Qed.

Section association.
Context (sid : Z) (a : bytes) (md : nat).
Context (Hsid : fits 32 sid) (Ha : utf8_valid a = true) (Hal : Z.of_nat (length a) < 2 ^ 62).
Let room : nat := (md - header_len a)%nat.

Definition fragment (pid : Z) (p : bytes) (i : nat) : UdpMessage :=
  mk_UdpMessage sid pid (Z.of_nat i) (Z.of_nat (frags_needed room p)) a (frag room p i).

Lemma encode_fragment_eq pid p n i :
  encode_fragment sid pid a p room n i =
  to_be_bytes 4 sid ++ to_be_bytes 2 pid ++ [wrap8 (Z.of_nat i)] ++ [n] ++ write_varint (Z.of_nat (length a)) ++ a ++ frag room p i.
Proof.
  unfold encode_fragment, frag. do 6 f_equal. destruct (Nat.ltb_spec (i * room) (length p)) as [H|H].
  - destruct (decide (i * room + room <= length p)%nat).
    + f_equal. lia.
    + rewrite !take_ge; [done|rewrite length_drop; lia|rewrite length_drop; lia].
  - by rewrite drop_ge, take_nil.
Qed.

Lemma decode_fragment pid p i : fits 16 pid -> (i < frags_needed room p)%nat -> (frags_needed room p <= 255)%nat ->
  decode_udp_message (encode_fragment sid pid a p room (Z.of_nat (frags_needed room p)) i) = Some (fragment pid p i).
Proof.
  intros Hp Hi Hn. rewrite encode_fragment_eq. rewrite wrap_small by (unfold fits; lia).
  destruct (varint_roundtrip (Z.of_nat (length a)) (a ++ frag room p i)) as [Hv _]; [lia|].
  unfold decode_udp_message. set (B := write_varint (Z.of_nat (length a)) ++ a ++ frag room p i) in *.
  pose proof (length_to_be_bytes 4 sid) as L4. pose proof (length_to_be_bytes 2 pid) as L2.
  rewrite (slice_at _ [] (to_be_bytes 4 sid) (to_be_bytes 2 pid ++ [Z.of_nat i] ++ [Z.of_nat (frags_needed room p)] ++ B)) by (done || simpl; lia).
  rewrite (slice_at _ (to_be_bytes 4 sid) (to_be_bytes 2 pid) ([Z.of_nat i] ++ [Z.of_nat (frags_needed room p)] ++ B)) by (done || lia).
  assert ((to_be_bytes 4 sid ++ to_be_bytes 2 pid ++ [Z.of_nat i] ++ [Z.of_nat (frags_needed room p)] ++ B) =
    (to_be_bytes 4 sid ++ to_be_bytes 2 pid) ++ Z.of_nat i :: Z.of_nat (frags_needed room p) :: B) as -> by (by rewrite <- app_assoc).
  assert (length (to_be_bytes 4 sid ++ to_be_bytes 2 pid) = 6%nat) as L6 by (by rewrite length_app, L4, L2).
  rewrite !lookup_app_r by lia. rewrite L6. cbn [Nat.sub lookup list_lookup].
  destruct (Z.eqb_spec (Z.of_nat (frags_needed room p)) 0); [lia|]. destruct (Z.leb_spec (Z.of_nat (frags_needed room p)) (Z.of_nat i)); [lia|]. cbn [orb].
  rewrite (slice_at _ ((to_be_bytes 4 sid ++ to_be_bytes 2 pid) ++ [Z.of_nat i; Z.of_nat (frags_needed room p)]) B []); cycle 1.
  { rewrite app_nil_r, <- app_assoc. done. } { rewrite length_app, L6. done. } { rewrite length_app, L6. simpl. lia. }
  rewrite Hv. rewrite Nat2Z.id, slice_get_0, length_app. destruct (Nat.leb_spec (length a) (length a + length (frag room p i))); [|lia].
  rewrite take_app_length, drop_app_length, Ha. cbn [negb].
  rewrite !from_to_be_bytes_small by (unfold fits in *; simpl; lia). done.
Qed.

(** What a send puts on the connection: nothing if the header leaves no room or more than 255 fragments were needed, and otherwise
    datagrams of at most [md] bytes that decode to the fragments. *)
Lemma encode_spec pid p : fits 16 pid ->
  (encode_udp_message sid pid a p md = [] <-> room = 0%nat \/ (255 * room < length p)%nat) /\
  (encode_udp_message sid pid a p md <> [] -> (0 < room)%nat /\ (frags_needed room p <= 255)%nat /\
     encode_udp_message sid pid a p md = encode_fragment sid pid a p room (Z.of_nat (frags_needed room p)) <$> seq 0 (frags_needed room p)) /\
  Forall (fun d => length d <= md)%nat (encode_udp_message sid pid a p md).
Proof.
  intros Hp. unfold encode_udp_message. fold room. destruct (Nat.eqb_spec room 0) as [H0|H0]; [split; [split; [by left|done]|by split]|].
  fold (frags_needed room p). pose proof (div_ceil_gt (length p) room 255 ltac:(lia)) as G.
  destruct (Nat.ltb_spec 255 (frags_needed room p)) as [H|H].
  - split; [|by split]. split; [|done]. intros _. right. apply G. unfold frags_needed in H. lia.
  - rewrite wrap_small by (unfold fits; lia). rewrite Nat2Z.id.
    assert (frags_needed room p <> 0%nat) as Hn by (unfold frags_needed; lia). split; [|split].
    + split; [destruct (frags_needed room p); [done|discriminate]|]. intros [?|Hl]; [done|]. apply G in Hl. unfold frags_needed in H. lia.
    + intros _. split; [lia|]. by split.
    + apply Forall_fmap, Forall_seq. intros i _. unfold compose. rewrite encode_fragment_eq, !length_app, !length_to_be_bytes.
      destruct (varint_roundtrip (Z.of_nat (length a)) []) as [_ ->]; [lia|]. unfold frag. rewrite length_take. simpl length.
      unfold room in *. unfold header_len in *. lia.
Qed.

(** *** Reassembly *)

(** The packets of the association whose datagrams the network still holds, by packet id. *)
Context (sent : Z -> option bytes).

Definition in_network (d : bytes) : Prop := exists pid p, sent pid = Some p /\ fits 16 pid /\ d ∈ encode_udp_message sid pid a p md.

(** The datagrams that arrive for the association are ones it was sent. *)
Definition honest (ds : list bytes) : Prop :=
  Forall (fun d => forall m, decode_udp_message d = Some m -> session_id m = sid -> in_network d) ds.

Lemma in_network_decode d m : in_network d -> decode_udp_message d = Some m ->
  exists pid p i, sent pid = Some p /\ fits 16 pid /\ (0 < room)%nat /\ (i < frags_needed room p)%nat /\ m = fragment pid p i.
Proof.
  intros (pid & p & Hs & Hf & Hd) Hm. destruct (encode_spec pid p Hf) as (_ & E & _).
  destruct E as (Hr & Hn & E); [intros E; by rewrite E in Hd; apply not_elem_of_nil in Hd|]. rewrite E in Hd.
  apply list_elem_of_fmap in Hd as (i & -> & Hi). apply elem_of_seq in Hi. rewrite decode_fragment in Hm by (done || lia).
  exists pid, p, i. apply (inj Some) in Hm as <-. split; [done|]. split; [done|]. split; [done|]. split; [lia|done].
Qed.

(** The slots hold fragments of [p], and not all of them. *)
Definition slots_of (p : bytes) (slots : list (option bytes)) : Prop :=
  length slots = frags_needed room p /\ (forall i b, slots !! i = Some (Some b) -> b = frag room p i) /\ forallb is_some slots = false.

Definition consistent (r : UdpReassembler) : Prop :=
  forall pid slots, r !! (sid, pid) = Some slots -> exists p, sent pid = Some p /\ slots_of p slots.

Lemma collect_full (slots : list (option bytes)) (l : list bytes) : slots = Some <$> l -> collect slots = Some (concat l).
Proof. intros ->. induction l as [|b l IH]; [done|]. rewrite fmap_cons. cbn [collect concat]. by rewrite IH. Qed.

Lemma slots_complete p slots : (0 < room)%nat -> length slots = frags_needed room p ->
  (forall i b, slots !! i = Some (Some b) -> b = frag room p i) -> forallb is_some slots = true -> collect slots = Some p.
Proof.
  intros Hr Hl Hs Hf. rewrite <- (frags_payload room p Hr). apply collect_full. apply list_eq. intros i. rewrite list_lookup_fmap.
  destruct (decide (i < frags_needed room p)%nat) as [Hi|Hi].
  - rewrite frags_lookup by done. simpl. destruct (lookup_lt_is_Some_2 slots i) as [c Hc]; [lia|]. rewrite Hc.
    assert (is_some c = true) as Hsome by (eapply forallb_forall; [exact Hf|]; apply list_elem_of_In; by eapply list_elem_of_lookup_2).
    destruct c as [b|]; [|done]. f_equal. f_equal. by apply Hs.
  - rewrite !lookup_ge_None_2; [done|rewrite length_frags; lia|lia].
Qed.

Lemma forallb_replicate_None n : (0 < n)%nat -> forallb is_some (replicate n (@None bytes)) = false.
Proof. by destruct n; [lia|]. Qed.

(** The slots after the fragment [i], whatever they held before. *)
Definition fill_slot (p : bytes) (i : nat) (slots : list (option bytes)) : list (option bytes) :=
  match slots !! i with Some None => <[i := Some (frag room p i)]> slots | _ => slots end.

Lemma fill_slot_ok p i slots : length slots = frags_needed room p -> (forall j b, slots !! j = Some (Some b) -> b = frag room p j) ->
  length (fill_slot p i slots) = frags_needed room p /\ (forall j b, fill_slot p i slots !! j = Some (Some b) -> b = frag room p j).
Proof.
  intros Hl Hs. unfold fill_slot. destruct (slots !! i) as [[b|]|] eqn:E; [done| |done]. rewrite length_insert. split; [done|].
  intros j b. destruct (decide (i = j)) as [->|Hn]; [rewrite list_lookup_insert_eq by (by eapply lookup_lt_Some); congruence|].
  rewrite list_lookup_insert_ne by done. apply Hs.
Qed.

Lemma fill_slot_mono p i slots j b : slots !! j = Some (Some b) -> fill_slot p i slots !! j = Some (Some b).
Proof.
  intros H. unfold fill_slot. destruct (slots !! i) as [[c|]|] eqn:E; [done| |done]. rewrite list_lookup_insert_ne; [done|]. congruence.
Qed.

Lemma fill_slot_at p i slots : (i < length slots)%nat -> exists b, fill_slot p i slots !! i = Some (Some b).
Proof.
  intros H. unfold fill_slot. destruct (lookup_lt_is_Some_2 slots i H) as [[b|] E]; rewrite E; [by exists b|].
  eexists. by rewrite list_lookup_insert_eq.
Qed.

(** The table after the eviction a message may cause. *)
Definition evicted (r : UdpReassembler) (k : key) : UdpReassembler :=
  if (UDP_MAX_PARTIAL <=? size r)%nat && bool_decide (r !! k = None) then ∅ else r.

Lemma evicted_consistent r k : consistent r -> consistent (evicted r k).
Proof. intros Hc. unfold evicted. destruct (_ && _); [|done]. intros pid slots. by rewrite lookup_empty. Qed.

(** A fragment of [p]: its slot is filled, and the payload returned when it was the last. *)
Lemma accept_fragment r pid p i : consistent r -> sent pid = Some p -> (0 < room)%nat -> (i < frags_needed room p)%nat ->
  (frags_needed room p = 1%nat /\ accept r (fragment pid p i) = (Some p, r)) \/
  (exists slots, length slots = frags_needed room p /\ (forall j b, slots !! j = Some (Some b) -> b = frag room p j) /\
    (forall s0, evicted r (sid, pid) !! (sid, pid) = Some s0 -> slots = s0) /\
    if forallb is_some (fill_slot p i slots) then accept r (fragment pid p i) = (Some p, delete (sid, pid) (evicted r (sid, pid)))
    else accept r (fragment pid p i) = (None, <[(sid, pid) := fill_slot p i slots]> (evicted r (sid, pid)))).
Proof.
  intros Hc Hs Hr Hi. unfold accept. cbn [fragment frag_count session_id packet_id payload frag_id].
  destruct (Z.leb_spec (Z.of_nat (frags_needed room p)) 1) as [H1|H1].
  - left. split; [lia|]. f_equal. f_equal. transitivity (concat (frags room p)); [|by apply frags_payload]. unfold frags.
    replace (frags_needed room p) with 1%nat by lia. simpl. replace i with 0%nat by lia. by rewrite app_nil_r.
  - right. fold (evicted r (sid, pid)). rewrite !Nat2Z.id.
    set (slots := default (replicate (frags_needed room p) None) (evicted r (sid, pid) !! (sid, pid))).
    assert (length slots = frags_needed room p /\ forall j b, slots !! j = Some (Some b) -> b = frag room p j) as [Hl Hf].
    { subst slots. destruct (evicted r (sid, pid) !! (sid, pid)) as [s0|] eqn:E; simpl.
      - apply (evicted_consistent _ _ Hc) in E as (p' & Hs' & H & H' & _). rewrite Hs in Hs'. injection Hs' as <-. done.
      - rewrite length_replicate. split; [done|]. intros j b Hj. apply lookup_replicate in Hj as [Hj _]. done. }
    exists slots. split; [done|]. split; [done|]. split; [intros s0 E; subst slots; by rewrite E|].
    rewrite Hl, Nat.eqb_refl. cbn [negb]. destruct (fill_slot_ok p i slots Hl Hf) as [Gl Gf].
    unfold fill_slot in *. destruct (lookup_lt_is_Some_2 slots i) as [cell E]; [lia|]. rewrite E in *.
    destruct cell; (destruct (forallb _ _) eqn:Ef; [|done]); f_equal; by apply slots_complete.
Qed.

Lemma accept_consistent r pid p i : consistent r -> sent pid = Some p -> (0 < room)%nat -> (i < frags_needed room p)%nat ->
  consistent (accept r (fragment pid p i)).2 /\ forall q, (accept r (fragment pid p i)).1 = Some q -> q = p.
Proof.
  intros Hc Hs Hr Hi. destruct (accept_fragment r pid p i Hc Hs Hr Hi) as [[_ ->]|(slots & Hl & Hf & _ & A)]; simpl; [split; [done|congruence]|].
  pose proof (evicted_consistent _ (sid, pid) Hc) as Hc'. destruct (fill_slot_ok p i slots Hl Hf) as [Gl Gf].
  destruct (forallb is_some (fill_slot p i slots)) eqn:Ef; rewrite A; cbn [fst snd]; (split; [|congruence]).
  - intros pid' s'. rewrite lookup_delete_Some. intros [_ E]. by apply Hc'.
  - intros pid' s'. destruct (decide (pid' = pid)) as [->|Hn].
    + rewrite lookup_insert_eq. intros [= <-]. exists p. split; [done|]. by split.
    + rewrite lookup_insert_ne by congruence. apply Hc'.
Qed.

(** A message of another association touches no entry of this one, unless it evicts them all. *)
Lemma accept_entry r m k : k <> (session_id m, packet_id m) ->
  (accept r m).2 !! k = if frag_count m <=? 1 then r !! k else evicted r (session_id m, packet_id m) !! k.
Proof.
  intros Hk. unfold accept. destruct (_ <=? 1); [done|]. fold (evicted r (session_id m, packet_id m)).
  destruct (negb _); [by cbn [snd]; rewrite lookup_delete_ne|]. destruct (_ !! Z.to_nat _) as [[|]|]; [| |by cbn [snd]; rewrite lookup_delete_ne];
    (destruct (forallb _ _); cbn [snd]; [by rewrite lookup_delete_ne|by rewrite lookup_insert_ne]).
Qed.

Lemma accept_other r m : session_id m <> sid -> consistent r -> consistent (accept r m).2.
Proof.
  intros Hm Hc pid slots. rewrite accept_entry by congruence. destruct (_ <=? 1); [apply Hc|]. by apply evicted_consistent.
Qed.

Lemma evicted_id r k : (size r < UDP_MAX_PARTIAL)%nat -> evicted r k = r.
Proof. intros H. unfold evicted. destruct (Nat.leb_spec UDP_MAX_PARTIAL (size r)); [lia|done]. Qed.

Lemma size_delete_le (r : UdpReassembler) k : (size (delete k r) <= size r)%nat.
Proof. destruct (r !! k) eqn:E; [rewrite map_size_delete_Some by eauto; lia|by rewrite map_size_delete_None]. Qed.
Lemma size_insert_le (r : UdpReassembler) k v : (size (<[k := v]> r) <= S (size r))%nat.
Proof. rewrite map_size_insert. destruct (r !! k); cbn; lia. Qed.

Lemma accept_size r m : (size (accept r m).2 <= S (size r))%nat.
Proof.
  assert (size (evicted r (session_id m, packet_id m)) <= size r)%nat as Hev
    by (unfold evicted; destruct (_ && _); [rewrite map_size_empty; lia|lia]).
  unfold accept. destruct (_ <=? 1); [simpl; lia|]. fold (evicted r (session_id m, packet_id m)) in *.
  destruct (negb _); [cbn [snd]; etransitivity; [apply size_delete_le|lia]|].
  destruct (_ !! Z.to_nat _) as [[|]|]; [| |cbn [snd]; etransitivity; [apply size_delete_le|lia]];
    (destruct (forallb _ _); cbn [snd]; [etransitivity; [apply size_delete_le|lia]|etransitivity; [apply size_insert_le|lia]]).
Qed.

(** *** The connection *)

(** The channel of the association holds payloads that were sent. *)
Definition channel_ok (st : ConnState) : Prop :=
  forall q, sessions st !! sid = Some q -> Forall (fun p => exists pid, sent pid = Some p) q.

Lemma channel_ok_same st st' : sessions st' !! sid = sessions st !! sid \/ sessions st' !! sid = None \/ sessions st' !! sid = Some [] ->
  channel_ok st -> channel_ok st'.
Proof. intros [E|[E|E]] H q Hq; rewrite E in Hq; [by apply H|done|]. injection Hq as <-. constructor. Qed.

Lemma try_send_ok P q p : P p -> Forall P q -> Forall P (try_send q p).
Proof. intros Hp Hq. unfold try_send. destruct (_ <? _)%nat; [|done]. apply Forall_app. by split; [|apply Forall_singleton]. Qed.

(** What the pump does to the channel of the association. *)
Lemma pump_turn_channel st d : (exists m p q, decode_udp_message d = Some m /\ session_id m = sid /\ (accept (reasm st) m).1 = Some p /\
    sessions st !! sid = Some q /\ sessions (pump_turn st d) !! sid = Some (try_send q p)) \/
  sessions (pump_turn st d) !! sid = sessions st !! sid.
Proof.
  unfold pump_turn. destruct (decode_udp_message d) as [m|] eqn:Em; [|by right]. destruct (accept (reasm st) m) as [[p|] r'] eqn:Ea; [|by right].
  cbn [sessions]. destruct (decide (session_id m = sid)) as [E|E].
  - rewrite E. destruct (sessions st !! sid) as [q|] eqn:Eq; [|by right; rewrite Eq]. left. exists m, p, q.
    rewrite lookup_insert_eq, Ea. done.
  - right. destruct (sessions st !! session_id m); [|done]. by rewrite lookup_insert_ne.
Qed.

Lemma pump_turn_reasm st d : reasm (pump_turn st d) = match decode_udp_message d with Some m => (accept (reasm st) m).2 | None => reasm st end.
Proof. unfold pump_turn. destruct (decode_udp_message d); [|done]. by destruct (accept _ _). Qed.

Lemma register_fresh draws : forall ss c ss', register draws ss = Some (c, ss') -> ss !! c = None /\ ss' = <[c := []]> ss.
Proof.
  induction draws as [|x draws IH]; intros ss c ss'; cbn [register]; [done|]. destruct (ss !! x) eqn:E; [apply IH|]. by intros [= -> <-].
Qed.

Lemma dial_state ok md' tg draws st : reasm (dial_udp_addr ok md' tg draws st).2 = reasm st /\
  (sessions (dial_udp_addr ok md' tg draws st).2 !! sid = sessions st !! sid \/
   sessions st !! sid = None /\ sessions (dial_udp_addr ok md' tg draws st).2 !! sid = Some []).
Proof.
  unfold dial_udp_addr. destruct ok, md'; try (split; [done|by left]). destruct (register draws (sessions st)) as [[c ss]|] eqn:E; [|split; [done|by left]].
  apply register_fresh in E as [E ->]. split; [done|]. cbn. destruct (decide (c = sid)) as [->|]; [right; by rewrite lookup_insert_eq|left; by rewrite lookup_insert_ne].
Qed.

Lemma accept_any r d m : consistent r -> decode_udp_message d = Some m -> (forall m, decode_udp_message d = Some m -> session_id m = sid -> in_network d) ->
  consistent (accept r m).2 /\ forall p, (accept r m).1 = Some p -> session_id m = sid -> exists pid, sent pid = Some p.
Proof.
  intros Hc Em Hd. destruct (decide (session_id m = sid)) as [E|E]; [|split; [by apply accept_other|done]].
  destruct (in_network_decode d m (Hd m Em E) Em) as (pid' & p' & i & Hs' & _ & Hr & Hi & ->).
  destruct (accept_consistent r pid' p' i Hc Hs' Hr Hi) as [A B]. split; [done|]. intros p Hp _. exists pid'. by rewrite (B p Hp).
Qed.

Lemma pump_turn_ok st d : consistent (reasm st) -> channel_ok st -> (forall m, decode_udp_message d = Some m -> session_id m = sid -> in_network d) ->
  consistent (reasm (pump_turn st d)) /\ channel_ok (pump_turn st d).
Proof.
  intros Hc Hq Hd. split.
  - rewrite pump_turn_reasm. destruct (decode_udp_message d) as [m|] eqn:Em; [|done]. rewrite <- Em in Hd. by apply (accept_any _ d m).
  - destruct (pump_turn_channel st d) as [(m & p & q & Em & Es & Ea & Eq & E)|E]; [|apply (channel_ok_same st); auto].
    intros q' Hq'. rewrite E in Hq'. injection Hq' as <-. apply try_send_ok; [|by apply Hq].
    destruct (accept_any (reasm st) d m Hc Em Hd) as [_ H]. by apply H.
Qed.

Lemma take_min (p : bytes) n : take (Nat.min (length p) n) p = take n p.
Proof. rewrite <- take_take. apply take_ge. rewrite length_take. lia. Qed.

Lemma udp_step_ok st ev : consistent (reasm st) -> channel_ok st -> honest (datagrams [ev]) ->
  consistent (reasm (step st ev).2) /\ channel_ok (step st ev).2 /\
  forall n b, (sid, n, b) ∈ (step st ev).1 -> exists pid p, sent pid = Some p /\ b = take n p.
Proof.
  intros Hc Hq Hd. destruct ev as [d|ok md' tg draws|s n|s]; cbn [step].
  - apply Forall_cons_iff in Hd as [Hd _]. destruct (pump_turn_ok st d Hc Hq Hd) as [? ?]. split; [done|]. split; [done|]. intros n b Hin. by apply not_elem_of_nil in Hin.
  - destruct (dial_state ok md' tg draws st) as [E1 E2]. cbn [fst snd]. rewrite E1. split; [done|].
    split; [apply (channel_ok_same st); tauto|]. intros n b H. by apply not_elem_of_nil in H.
  - unfold recv. destruct (sessions st !! s) as [[|p q]|] eqn:E; cbn [fst snd]; try (split; [done|]; split; [done|]; intros m b H; by apply not_elem_of_nil in H).
    split; [done|]. destruct (decide (s = sid)) as [->|Hn].
    + apply Hq in E as HE. apply Forall_cons_iff in HE as [[pid Hp] HE]. split; [intros q'; cbn; rewrite lookup_insert_eq; by intros [= <-]|].
      intros m b H. apply list_elem_of_singleton in H as [= -> ->]. exists pid, p. split; [done|]. apply take_min.
    + split; [intros q'; cbn; rewrite lookup_insert_ne by done; apply Hq|]. intros m b H. apply list_elem_of_singleton in H as [= -> _ _]. done.
  - split; [done|]. split; [|intros n b H; by apply not_elem_of_nil in H]. apply (channel_ok_same st); [|done]. cbn.
    destruct (decide (s = sid)) as [->|]; [rewrite lookup_delete_eq; auto|rewrite lookup_delete_ne by done; auto].
Qed.

Lemma honest_cons ev evs : honest (datagrams (ev :: evs)) -> honest (datagrams [ev]) /\ honest (datagrams evs).
Proof.
  unfold honest, datagrams. cbn. destruct ev; cbn; try (intros H; split; [constructor|exact H]).
  intros H. apply Forall_cons_iff in H as [H1 H2]. split; [by constructor|done].
Qed.

Lemma run_sound evs : forall st, consistent (reasm st) -> channel_ok st -> honest (datagrams evs) ->
  forall n b, (sid, n, b) ∈ (run st evs).1 -> exists pid p, sent pid = Some p /\ b = take n p.
Proof.
  induction evs as [|ev evs IH]; intros st Hc Hq Hd n b; cbn [run]; [intros H; by apply not_elem_of_nil in H|].
  apply honest_cons in Hd as [Hd Hds]. destruct (udp_step_ok st ev Hc Hq Hd) as (Hc' & Hq' & Ho). destruct (step st ev) as [o st']. cbn [fst snd] in *.
  specialize (IH st' Hc' Hq' Hds n b). destruct (run st' evs) as [os st'']. cbn [fst] in *. intros [H|H]%elem_of_app; auto.
Qed.

(** Each fragment of the packet has arrived or is yet to come. *)
Definition covered (pid : Z) (p : bytes) (r : UdpReassembler) (ds : list bytes) : Prop :=
  forall i, (i < frags_needed room p)%nat ->
  (exists slots b, r !! (sid, pid) = Some slots /\ slots !! i = Some (Some b)) \/
  encode_fragment sid pid a p room (Z.of_nat (frags_needed room p)) i ∈ ds.

Lemma covered_nil pid p r : consistent r -> sent pid = Some p -> ~ covered pid p r [].
Proof.
  intros Hc Hs Hcov. destruct (Hcov 0%nat) as [(slots & b & Hk & _)|H]; [unfold frags_needed; lia| |by apply not_elem_of_nil in H].
  destruct (Hc _ _ Hk) as (p' & Hs' & Hl & _ & Hfull). rewrite Hs in Hs'. injection Hs' as <-. apply not_true_iff_false in Hfull. apply Hfull.
  apply forallb_forall. intros c Hin. apply list_elem_of_In, list_elem_of_lookup_1 in Hin as [j Hj].
  destruct (Hcov j) as [(slots' & b' & Hk' & Hb)|H]; [rewrite <- Hl; by eapply lookup_lt_Some| |by apply not_elem_of_nil in H].
  rewrite Hk in Hk'. injection Hk' as <-. rewrite Hj in Hb. by injection Hb as ->.
Qed.

Lemma covered_skip pid p r r' d ds : covered pid p r (d :: ds) ->
  (forall i, (i < frags_needed room p)%nat -> decode_udp_message d <> Some (fragment pid p i)) ->
  fits 16 pid -> (frags_needed room p <= 255)%nat -> r' !! (sid, pid) = r !! (sid, pid) -> covered pid p r' ds.
Proof.
  intros Hcov Hd Hf Hn Hk i Hi. rewrite Hk. destruct (Hcov i Hi) as [H|H]; [by left|right]. apply elem_of_cons in H as [<-|H]; [|done].
  destruct (Hd i Hi). by apply decode_fragment.
Qed.

Lemma covered_fill pid p r slots i d ds : covered pid p r (d :: ds) -> decode_udp_message d = Some (fragment pid p i) ->
  (i < length slots)%nat -> (forall s0, r !! (sid, pid) = Some s0 -> slots = s0) ->
  fits 16 pid -> (frags_needed room p <= 255)%nat -> covered pid p (<[(sid, pid) := fill_slot p i slots]> r) ds.
Proof.
  intros Hcov Hd Hl Hold Hf Hn j Hj. rewrite lookup_insert_eq. destruct (decide (j = i)) as [->|Hji].
  { left. destruct (fill_slot_at p i slots Hl) as [b Hb]. by eexists _, _. }
  destruct (Hcov j Hj) as [(s0 & b & Hk & Hb)|H].
  { left. apply Hold in Hk as ->. eexists _, _. split; [done|]. by apply fill_slot_mono. }
  right. apply elem_of_cons in H as [<-|H]; [|done]. rewrite decode_fragment in Hd by done. apply (inj Some) in Hd. injection Hd as Hd _. lia.
Qed.

(** At every moment the association is registered and its channel has room. *)
Fixpoint roomy (st : ConnState) (evs : list event) : Prop :=
  (exists q, sessions st !! sid = Some q /\ (length q < CHANNEL_CAP)%nat) /\
  match evs with [] => True | ev :: evs => roomy (step st ev).2 evs end.

(** The payload was read from the association, as far as the buffer went, or waits in its channel. *)
Definition delivered (p : bytes) (os : list (Z * nat * bytes)) (st : ConnState) : Prop :=
  (exists n, (sid, n, take n p) ∈ os) \/ exists q, sessions st !! sid = Some q /\ p ∈ q.

Lemma udp_step_queue st ev q p : sessions st !! sid = Some q -> p ∈ q -> is_Some (sessions (step st ev).2 !! sid) -> delivered p (step st ev).1 (step st ev).2.
Proof.
  intros Hq Hp [q' Hq']. destruct ev as [d|ok md' tg draws|s n|s]; cbn [step] in *; unfold delivered.
  - right. destruct (pump_turn_channel st d) as [(m & p' & q0 & _ & _ & _ & E1 & E2)|E]; cbn [snd]; [|rewrite E; by exists q].
    rewrite Hq in E1. injection E1 as <-. rewrite E2. eexists. split; [done|]. unfold try_send. destruct (_ <? _)%nat; [|done]. apply elem_of_app. by left.
  - right. cbn [snd]. destruct (dial_state ok md' tg draws st) as [_ [E|[E _]]]; [rewrite E; by exists q|congruence].
  - unfold recv in *. destruct (sessions st !! s) as [[|p0 q0]|] eqn:E; cbn [fst snd] in *; try (right; by exists q).
    destruct (decide (s = sid)) as [->|Hn].
    + rewrite Hq in E. injection E as ->. apply elem_of_cons in Hp as [<-|Hp].
      * left. exists n. rewrite take_min. left.
      * right. exists q0. cbn. by rewrite lookup_insert_eq.
    + right. exists q. cbn. by rewrite lookup_insert_ne.
  - cbn [snd drop_source sessions] in *. destruct (decide (s = sid)) as [->|]; [by rewrite lookup_delete_eq in Hq'|]. right. exists q. by rewrite lookup_delete_ne.
Qed.

Lemma delivered_run p st ev evs : delivered p (step st ev).1 (step st ev).2 ->
  (forall q, sessions (step st ev).2 !! sid = Some q -> p ∈ q -> delivered p (run (step st ev).2 evs).1 (run (step st ev).2 evs).2) ->
  delivered p (run st (ev :: evs)).1 (run st (ev :: evs)).2.
Proof.
  cbn [run]. destruct (step st ev) as [o st']. cbn [snd]. destruct (run st' evs) as [os st'']. cbn [fst snd]. intros [[n H]|(q & Hq & Hp)] H2.
  - left. exists n. apply elem_of_app. by left.
  - destruct (H2 q Hq Hp) as [[n H]|H]; [|by right]. left. exists n. apply elem_of_app. by right.
Qed.

Lemma roomy_here st evs : roomy st evs -> is_Some (sessions st !! sid).
Proof. destruct evs; intros [(q & -> & _) _]; eauto. Qed.

Lemma kept evs : forall st p q, sessions st !! sid = Some q -> p ∈ q -> roomy st evs -> delivered p (run st evs).1 (run st evs).2.
Proof.
  induction evs as [|ev evs IH]; intros st p q Hq Hp Hr; [right; by exists q|]. destruct Hr as [_ Hr].
  apply delivered_run; [by eapply udp_step_queue, roomy_here|]. intros q' Hq' Hp'. by eapply IH.
Qed.

Lemma run_later p st ev evs : delivered p (run (step st ev).2 evs).1 (run (step st ev).2 evs).2 -> delivered p (run st (ev :: evs)).1 (run st (ev :: evs)).2.
Proof.
  cbn [run]. destruct (step st ev) as [o st']. cbn [snd]. destruct (run st' evs) as [os st'']. cbn [fst snd].
  intros [[n H]|H]; [left; exists n; apply elem_of_app; by right|by right].
Qed.

(** The fragment that completes the packet puts it into the channel. *)
Lemma pump_turn_completes st d m p q : decode_udp_message d = Some m -> session_id m = sid -> (accept (reasm st) m).1 = Some p ->
  sessions st !! sid = Some q -> (length q < CHANNEL_CAP)%nat -> sessions (pump_turn st d) !! sid = Some (q ++ [p]).
Proof.
  intros Em Es Ea Eq Hl. unfold pump_turn. rewrite Em. destruct (accept (reasm st) m) as [r r']. cbn [fst] in Ea. subst r. cbn [sessions].
  rewrite Es, Eq, lookup_insert_eq. unfold try_send. by destruct (Nat.ltb_spec (length q) CHANNEL_CAP); [|lia].
Qed.

(** A datagram that is not of the packet leaves its slots alone, while the table is not full. *)
Lemma pump_turn_other st d pid : (size (reasm st) < UDP_MAX_PARTIAL)%nat ->
  (forall m, decode_udp_message d = Some m -> (session_id m, packet_id m) <> (sid, pid)) -> reasm (pump_turn st d) !! (sid, pid) = reasm st !! (sid, pid).
Proof.
  intros Hs Hd. rewrite pump_turn_reasm. destruct (decode_udp_message d) as [m|] eqn:Em; [|done].
  rewrite accept_entry by (intros E; by destruct (Hd m)). rewrite evicted_id by done. by destruct (_ <=? 1).
Qed.

Lemma pump_turn_size st d : (size (reasm (pump_turn st d)) <= S (size (reasm st)))%nat.
Proof. rewrite pump_turn_reasm. destruct (decode_udp_message d); [apply accept_size|lia]. Qed.

Section Complete.
Context (pid : Z) (p : bytes) (Hs : sent pid = Some p) (Hf : fits 16 pid) (Hr : (0 < room)%nat) (Hn : (frags_needed room p <= 255)%nat).

(** One turn: the packet reaches the channel, or its fragments are still covered. *)
Lemma pump_turn_progress st d ds : consistent (reasm st) -> (forall m, decode_udp_message d = Some m -> session_id m = sid -> in_network d) ->
  (size (reasm st) < UDP_MAX_PARTIAL)%nat -> (exists q, sessions st !! sid = Some q /\ (length q < CHANNEL_CAP)%nat) -> covered pid p (reasm st) (d :: ds) ->
  (exists q, sessions (pump_turn st d) !! sid = Some q /\ p ∈ q) \/ covered pid p (reasm (pump_turn st d)) ds.
Proof.
  intros Hc Hd Hsz (q & Hq & Hl) Hcov.
  assert ((exists i, (i < frags_needed room p)%nat /\ decode_udp_message d = Some (fragment pid p i)) \/
    forall m, decode_udp_message d = Some m -> (session_id m, packet_id m) <> (sid, pid)) as [(i & Hi & Em)|Hno].
  { destruct (decode_udp_message d) as [m|] eqn:Em; [|by right]. rewrite <- Em in Hd.
    destruct (decide ((session_id m, packet_id m) = (sid, pid))) as [[E1 E2]%pair_eq|]; [left|right; by intros ? [= <-]].
    destruct (in_network_decode d m (Hd m Em E1) Em) as (pid' & p' & i & Hs' & _ & _ & Hi & ->).
    cbn in E2. subst pid'. rewrite Hs in Hs'. injection Hs' as <-. by exists i. }
  - destruct (accept_fragment (reasm st) pid p i Hc Hs Hr Hi) as [[_ A]|(slots & Hls & _ & Hold & A)].
    { left. eexists. split; [eapply pump_turn_completes; try done; by rewrite A|]. apply elem_of_app. right. left. }
    rewrite evicted_id in * by done. destruct (forallb is_some (fill_slot p i slots)).
    { left. eexists. split; [eapply pump_turn_completes; try done; by rewrite A|]. apply elem_of_app. right. left. }
    right. rewrite pump_turn_reasm, Em, A. eapply covered_fill; [exact Hcov|exact Em|lia|done..].
  - right. eapply covered_skip; [exact Hcov|intros i Hi E; by apply Hno in E|done|done|]. by apply pump_turn_other.
Qed.

Lemma run_complete evs : forall st, consistent (reasm st) -> channel_ok st -> honest (datagrams evs) ->
  (size (reasm st) + length (datagrams evs) <= UDP_MAX_PARTIAL)%nat -> roomy st evs -> covered pid p (reasm st) (datagrams evs) ->
  delivered p (run st evs).1 (run st evs).2.
Proof.
  induction evs as [|ev evs IH]; intros st Hc Hq Hd Hsz Hroom Hcov; [by destruct (covered_nil pid p _ Hc Hs)|].
  apply honest_cons in Hd as [Hd Hds]. destruct (udp_step_ok st ev Hc Hq Hd) as (Hc' & Hq' & _). destruct Hroom as [Hroom Hrest].
  destruct ev as [d|ok md' tg draws|s n|s]; [|apply run_later, IH; try done..].
  - apply Forall_cons_iff in Hd as [Hd _]. change (datagrams (Datagram d :: evs)) with (d :: datagrams evs) in *. cbn [length] in Hsz.
    destruct (pump_turn_progress st d (datagrams evs) Hc Hd ltac:(lia) Hroom Hcov) as [(q & Hqd & Hp)|Hcov'].
    { apply run_later. by apply (kept evs _ p q). }
    apply run_later, IH; try done. pose proof (pump_turn_size st d). cbn [step snd]. lia.
  - destruct (dial_state ok md' tg draws st) as [E _]. cbn [step snd]. by rewrite E.
  - destruct (dial_state ok md' tg draws st) as [E _]. cbn [step snd]. by rewrite E.
  - cbn [step]. unfold recv. destruct (sessions st !! s) as [[|]|]; done.
  - cbn [step]. unfold recv. destruct (sessions st !! s) as [[|]|]; done.
Qed.
End Complete.

(** C8: a UDP association on a connection that carries others, over datagrams that are lost, duplicated, reordered and mixed
    with theirs, while associations are dialed, read and dropped. As long as no packet id is in use for two packets of the
    association: every read of it returns a payload that was sent to it, whole up to the size of the buffer; and a packet all of
    whose datagrams arrive while the association is registered, its channel of 256 payloads has room, and the
    datagrams and the packets then in reassembly are at most 256 together, is read or waits in the channel. No datagram exceeds the
    limit it was cut for, and a dial takes no session id that is in use. *)
Theorem udp_association_correct (st : ConnState) (evs : list event) : consistent (reasm st) -> channel_ok st -> honest (datagrams evs) ->
  (forall n b, (sid, n, b) ∈ (run st evs).1 -> exists pid p, sent pid = Some p /\ b = take n p) /\
  (forall pid p, sent pid = Some p -> fits 16 pid -> encode_udp_message sid pid a p md <> [] ->
     (forall d, d ∈ encode_udp_message sid pid a p md -> d ∈ datagrams evs) -> roomy st evs ->
     (size (reasm st) + length (datagrams evs) <= UDP_MAX_PARTIAL)%nat ->
     (exists n, (sid, n, take n p) ∈ (run st evs).1) \/ exists q, sessions (run st evs).2 !! sid = Some q /\ p ∈ q) /\
  (forall pid p, fits 16 pid -> Forall (fun d => length d <= md)%nat (encode_udp_message sid pid a p md)) /\
  (forall ok size tg draws s st', dial_udp_addr ok size tg draws st = (inl s, st') -> sessions st !! sink_session s = None /\
     sessions st' = <[sink_session s := []]> (sessions st)).
Proof.
  intros Hc Hq Hd. split; [by apply run_sound|]. split; [|split].
  - intros pid p Hs Hf Hne Hall Hroom Hsz. destruct (encode_spec pid p Hf) as (_ & E & _). destruct (E Hne) as (Hr & Hn & Henc).
    apply (run_complete pid p Hs Hf Hr Hn); try done. intros i Hi. right. apply Hall. rewrite Henc. apply list_elem_of_fmap. exists i.
    split; [done|]. apply elem_of_seq. lia.
  - intros pid p Hf. by apply encode_spec.
  - intros ok size tg draws s st'. unfold dial_udp_addr. destruct ok, size; try discriminate.
    destruct (register draws (sessions st)) as [[c ss]|] eqn:E; [|discriminate]. intros [= <- <-]. by apply register_fresh in E.
Qed.
End association.

Definition ex_addr : bytes := lit "a:1".
Definition ex_md : nat := header_len ex_addr + 2.

(** The two datagrams of a packet, out of order and one of them twice. *)
Definition ex_datagrams : list bytes :=
  let ds := encode_udp_message 7 0 ex_addr [10; 11; 12] ex_md in [ds !!! 1%nat; ds !!! 1%nat; ds !!! 0%nat].

(** The association is dialed on a connection without any, the datagrams arrive, and it is read into two bytes. *)
Definition ex_conn : ConnState := (dial_udp_addr true (Some ex_md) ex_addr [7] (mk_Conn ∅ ∅)).2.
Definition ex_events : list event := (Datagram <$> ex_datagrams) ++ [Recv 7 2].

Lemma udp_association_correct_witness :
  (run ex_conn ex_events).1 = [(7, 2%nat, [10; 11])] /\
  ((exists n, (7, n, take n [10; 11; 12]) ∈ (run ex_conn ex_events).1) \/ exists q, sessions (run ex_conn ex_events).2 !! 7 = Some q /\ [10; 11; 12] ∈ q).
Proof.
  split; [vm_compute; reflexivity|].
  set (sent := fun pid => if pid =? 0 then Some [10; 11; 12] else None).
  assert (fits 32 7) as H1 by (unfold fits; lia). assert (Z.of_nat (length ex_addr) < 2 ^ 62) as H2 by (simpl; lia).
  assert (fits 16 0) as H3 by (unfold fits; lia).
  assert (forall d, d ∈ ex_datagrams -> d ∈ encode_udp_message 7 0 ex_addr [10; 11; 12] ex_md) as Hin.
  { intros d Hd. unfold ex_datagrams in Hd. cbv zeta in Hd. rewrite !elem_of_cons, elem_of_nil in Hd. destruct Hd as [->|[->|[->|[]]]]; decided. }
  assert (honest 7 ex_addr ex_md sent (datagrams ex_events)) as Hh.
  { change (datagrams ex_events) with ex_datagrams. apply list.Forall_forall. intros d Hd m _ _. exists 0, [10; 11; 12].
    split; [reflexivity|]. split; [exact H3|]. by apply Hin. }
  destruct (udp_association_correct 7 ex_addr ex_md H1 eq_refl H2 sent ex_conn ex_events) as (_ & H & _);
    [intros pid slots E; change (reasm ex_conn) with (∅ : UdpReassembler) in E; by rewrite lookup_empty in E|intros q Hq; vm_compute in Hq; injection Hq as <-; constructor|exact Hh|].
  apply (H 0); [reflexivity|exact H3|discriminate| |repeat (split; [eexists; split; [vm_compute; reflexivity|vm_compute; lia]|]); exact I|vm_compute; lia].
  intros d. vm_compute (encode_udp_message _ _ _ _ _). rewrite !elem_of_cons, elem_of_nil. intros [->|[->|[]]]; decided.
Defined.

(** *** Packet ids in use twice *)

Fixpoint send_all (s : Hysteria2UdpSink) (ps : list bytes) : Hysteria2UdpSink :=
  match ps with [] => s | p :: ps => send_all (send s p).2 ps end.

Lemma send_all_id ps : forall s, next_packet s = wrap16 (next_packet s) -> send_all s ps =
  mk_Sink (sink_session s) (target s) (wrap16 (next_packet s + Z.of_nat (length ps))) (max_datagram s).
Proof.
  induction ps as [|p ps IH]; intros s Hs; cbn [send_all length].
  - rewrite Z.add_0_r, <- Hs. by destruct s.
  - rewrite IH; cbn [send snd next_packet sink_session target max_datagram]; [|by rewrite wrap_idemp].
    rewrite wrap_add_l. f_equal. f_equal. lia.
Qed.

(** A fragment left by a packet whose other fragment was lost is taken for one of the packet that has its id 65536 sends
    later: the payload handed over is half of the one and half of the other. *)
Theorem reused_id_mixes (ps : list bytes) : Z.of_nat (length ps) = 65535 ->
  let s := mk_Sink 7 ex_addr 0 ex_md in
  let '(d, s1) := send s [1; 2; 3] in
  let '(e, _) := send (send_all s1 ps) [4; 5; 6] in
  udp_receive_pump (mk_Conn {[7 := []]} ∅) (take 1 d ++ e) = mk_Conn {[7 := [[1; 2; 6]]]} ∅.
Proof.
  intros Hl s. destruct (send s [1; 2; 3]) as [d s1] eqn:E. assert (next_packet s1 = 1) as H1 by (injection E as _ <-; reflexivity).
  rewrite send_all_id by (rewrite H1; reflexivity). rewrite H1, Hl. injection E as <- <-. vm_compute. reflexivity.
Qed.
End hysteria2.
