(* ===== verification/Balancer.v ===== *)
(** [core/src/transport/dns_tunnel/balancer.rs]: the resolver pool of the DNS-tunnel
    client: its parsing, the choice of resolvers for a query, the health statistics
    and the failover of the sticky resolver. *)

From Stdlib Require Import Floats.SpecFloat.
From S2P Require Import Prelude Lists RustStr F64 NetAddr RustNet.

Module balancer.
Import net text.

(** [SocketAddr], with the scope an IPv6 text may carry. *)
Record Target := mk_target { sock : SocketAddr; scope_id : Z }.
#[export] Instance Target_eq_dec : EqDecision Target.
Proof. solve_decision. Defined.

Record PoolConfig := mk_config {
  duplication : nat;
  max_hosts : nat;
  loss_decay : f64.t;
  min_samples : f64.t;
  disable_loss : f64.t;
  reenable_after_ms : Z;   (* u64 *)
  failover_streak : Z;     (* u32 *)
}.

(** [0.98] and [0.9] as the nearest doubles. *)
Definition PoolConfig_default : PoolConfig :=
  mk_config 1 (Z.to_nat 4096) (f64.of_dyadic 2206763817411543 (-51)) (f64.of_int 5)
    (f64.of_dyadic 8106479329266893 (-53)) 30000 3.

Inductive PoolError := BadSpec (spec : bytes) | Empty.

Record Resolver := mk_resolver {
  addr : Target;
  srtt_ms : option f64.t;
  loss : f64.t;
  total : f64.t;
  enabled : bool;
  disabled_at : Z;         (* u64 *)
}.
#[export] Instance eta_Resolver : Settable Resolver :=
  fun r => mk_resolver (addr r) (srtt_ms r) (loss r) (total r) (enabled r) (disabled_at r).

Definition zero : f64.t := f64.of_int 0.
Definition one : f64.t := f64.of_int 1.

Definition Resolver_new (addr : Target) : Resolver := mk_resolver addr None zero zero true 0.

Definition loss_ratio (r : Resolver) : f64.t := if f64.le (total r) zero then zero else f64.div (loss r) (total r).

Definition score (r : Resolver) : f64.t :=
  f64.add (f64.mul (loss_ratio r) (f64.of_int 10000)) (default (f64.of_int 200) (srtt_ms r)).

Record ResolverPool := mk_pool {
  resolvers : list Resolver;
  cfg : PoolConfig;
  rr : Z;                  (* usize *)
  sticky : nat;
  resend_streak : Z;       (* u32 *)
}.
#[export] Instance eta_ResolverPool : Settable ResolverPool :=
  fun p => mk_pool (resolvers p) (cfg p) (rr p) (sticky p) (resend_streak p).

(** ** Parsing *)

(** [uN::from_str]: an optional [+], then digits. *)
Definition parse_uint (w : Z) (s : bytes) : option Z :=
  let s := match s with 43 :: r => r | _ => s end in
  match take_digits 10 s with
  | ((_ :: _) as ds, []) => let v := from_radix 10 ds in if v <? 2 ^ w then Some v else None
  | _ => None
  end.

(** [str::rsplit_once] at a character. *)
Definition rsplit_once (c : Z) (s : bytes) : option (bytes * bytes) :=
  let! (b, a) := split_once c (reverse s) in Some (reverse a, reverse b).

(** [str::trim_start_matches], [str::trim_end_matches] of a character. *)
Fixpoint trim_start_matches (c : Z) (s : bytes) : bytes :=
  match s with x :: r => if x =? c then trim_start_matches c r else s | [] => [] end.
Definition trim_end_matches (c : Z) (s : bytes) : bytes := reverse (trim_start_matches c (reverse s)).

(** [Ipv4Addr::from_str]. *)
Definition parse_v4 (s : bytes) : option bytes :=
  match read_ipv4_addr s with Some (o, []) => Some o | _ => None end.

(** [SocketAddr::from_str] on a text that opens with a bracket. *)
Definition parse_socket_v6 (s : bytes) : option Target :=
  let! s := read_given_char 91 s in
  let! (gs, s) := read_ipv6_addr s in
  let (scope, s) :=
    match (let! s1 := read_given_char 37 s in read_number 10 (length s1) true (2 ^ 32 - 1) s1) with
    | Some (v, s2) => (v, s2)
    | None => (0, s)
    end in
  let! s := read_given_char 93 s in
  let! s := read_given_char 58 s in
  match read_number 10 (length s) true 65535 s with
  | Some (port, []) => Some (mk_target (mk_sock (V6 (concat (to_be_bytes 2 <$> gs))) port) scope)
  | _ => None
  end.

Definition target (a : IpAddr) (port : Z) : Target := mk_target (mk_sock a port) 0.

(** The addresses of a network, as many as the bound admits. *)
Definition expand (base : bytes) (prefix port : Z) (max_hosts : nat) : list Target :=
  let count := Z.shiftl 1 (32 - prefix) in
  let mask := if 32 <=? 32 - prefix then 0 else wrap32 (Z.shiftl (2 ^ 32 - 1) (32 - prefix)) in
  let base_u := Z.land (from_be_bytes base) mask in
  let n := Z.to_nat (Z.min count (Z.of_nat max_hosts)) in
  (fun i => target (V4 (to_be_bytes 4 (wrap32 (base_u + wrap32 (Z.of_nat i))))) port) <$> seq 0 n.

Definition parse_spec (spec : bytes) (max_hosts : nat) : result PoolError (list Target) :=
  let spec := trim spec in
  let bad := BadSpec spec in
  if starts_with [91] spec then
    match parse_socket_v6 spec with
    | Some t => Ok [t]
    | None => match parse_ip (trim_end_matches 93 (trim_start_matches 91 spec)) with
              | Some a => Ok [target a 53]
              | None => Err bad
              end
    end
  else
    let? (host_part, port) :=
      match rsplit_once 58 spec with
      | Some (h, p) => if contains [58] h then Ok (spec, 53) else let? port := ok_or (parse_uint 16 p) bad in Ok (h, port)
      | None => Ok (spec, 53)
      end in
    match split_once 47 host_part with
    | Some (base, prefix) =>
        let? base := ok_or (parse_v4 base) bad in
        let? prefix := ok_or (parse_uint 32 prefix) bad in
        if 32 <? prefix then Err bad else Ok (expand base prefix port max_hosts)
    | None =>
        match parse_v4 host_part with
        | Some o => Ok [target (V4 o) port]
        | None => match parse_ip host_part with Some a => Ok [target a port] | None => Err bad end
        end
    end.

(** The loop over the addresses of a spec: it stops at the bound and skips the
    addresses already there ([seen] holds the addresses of [rs]). *)
Fixpoint add_addrs (max_hosts : nat) (rs : list Resolver) (addrs : list Target) : list Resolver :=
  match addrs with
  | [] => rs
  | a :: addrs =>
      if (max_hosts <=? length rs)%nat then rs
      else add_addrs max_hosts (if decide (a ∈ addr <$> rs) then rs else rs ++ [Resolver_new a]) addrs
  end.

Fixpoint add_specs (max_hosts : nat) (rs : list Resolver) (specs : list bytes) : result PoolError (list Resolver) :=
  match specs with
  | [] => Ok rs
  | spec :: specs => let? addrs := parse_spec spec max_hosts in add_specs max_hosts (add_addrs max_hosts rs addrs) specs
  end.

Definition parse (specs : list bytes) (c : PoolConfig) : result PoolError ResolverPool :=
  let? rs := add_specs (max_hosts c) [] specs in
  match rs with
  | [] => Err Empty
  | _ => Ok (mk_pool rs c 0 0 0)
  end.

(** ** The pool *)

Definition enabled_count (p : ResolverPool) : nat := length (filter (fun r => enabled r = true) (resolvers p)).

Definition reactivate_one (after now : Z) (r : Resolver) : Resolver :=
  if negb (enabled r) && (after <=? sat_sub now (disabled_at r))
  then r <| enabled := true |> <| loss := zero |> <| total := zero |> else r.
Definition reactivate (now : Z) (p : ResolverPool) : ResolverPool :=
  p <| resolvers := reactivate_one (reenable_after_ms (cfg p)) now <$> resolvers p |>.

Definition is_enabled (rs : list Resolver) (i : nat) : bool := match rs !! i with Some r => enabled r | None => false end.
Definition score_at (rs : list Resolver) (i : nat) : f64.t := match rs !! i with Some r => score r | None => zero end.

(** [sort_by] with the scores' [partial_cmp], incomparable scores taken for equal:
    the standard library's sort is stable. *)
Fixpoint insert_ranked (rs : list Resolver) (i : nat) (l : list nat) : list nat :=
  match l with
  | [] => [i]
  | j :: l' => if f64.lt (score_at rs i) (score_at rs j) then i :: l else j :: insert_ranked rs i l'
  end.
Definition sort_ranked (rs : list Resolver) (l : list nat) : list nat := fold_left (fun acc i => insert_ranked rs i acc) l [].

Definition ranked (rs : list Resolver) : list nat := sort_ranked rs (filter (fun i => is_enabled rs i = true) (seq 0 (length rs))).

(** The loop that fills the duplication slots; [k] counts up to [ranked.len()]. *)
Fixpoint fill_slots (rs : list Resolver) (rk : list nat) (rr : Z) (want n k : nat) (out : list Target) : list Target :=
  match n with
  | O => out
  | S n =>
      if (want <=? length out)%nat then out else
      let idx := rk !!! Z.to_nat (wrap64 (rr + Z.of_nat k) mod Z.of_nat (length rk)) in
      let out := match rs !! idx with
                 | Some r => if decide (addr r ∈ out) then out else out ++ [addr r]
                 | None => out
                 end in
      fill_slots rs rk rr want n (S k) out
  end.

Definition pick (now : Z) (p : ResolverPool) : list Target * ResolverPool :=
  let p := reactivate now p in
  let p := if (enabled_count p =? 0)%nat then p <| resolvers := (fun r => r <| enabled := true |>) <$> resolvers p |> else p in
  let rk := ranked (resolvers p) in
  match rk with
  | [] => ([], p)
  | best :: _ =>
      let p := if negb (is_enabled (resolvers p) (sticky p)) then p <| sticky := best |> else p in
      let want := Nat.min (Nat.max (duplication (cfg p)) 1) (length rk) in
      let out := match resolvers p !! sticky p with Some r => [addr r] | None => [] end in
      let out := fill_slots (resolvers p) rk (rr p) want (length rk) 0 out in
      (out, p <| rr := wrap64 (rr p + 1) |>)
  end.

Definition sticky_addr (p : ResolverPool) : option Target := addr <$> resolvers p !! sticky p.

(** [position(|r| &r.addr == addr)]. *)
Fixpoint index_from (a : Target) (i : nat) (rs : list Resolver) : option nat :=
  match rs with
  | [] => None
  | r :: rs => if decide (addr r = a) then Some i else index_from a (S i) rs
  end.
Definition index_of (a : Target) (p : ResolverPool) : option nat := index_from a 0 (resolvers p).

Definition decay (d : f64.t) (r : Resolver) : Resolver :=
  r <| loss := f64.mul (loss r) d |> <| total := f64.mul (total r) d |>.

Definition success_one (d : f64.t) (rtt_ms : Z) (r : Resolver) : Resolver :=
  let r := decay d r in
  let r := r <| total := f64.add (total r) one |> in
  r <| srtt_ms := Some match srtt_ms r with
                       | None => f64.of_int rtt_ms
                       | Some s => f64.add (f64.mul (f64.of_dyadic 7 (-3)) s) (f64.mul (f64.of_dyadic 1 (-3)) (f64.of_int rtt_ms))
                       end |>.

Definition on_success (a : Target) (rtt_ms : Z) (p : ResolverPool) : ResolverPool :=
  match index_of a p with
  | None => p
  | Some i =>
      let p := p <| resolvers := alter (success_one (loss_decay (cfg p)) rtt_ms) i (resolvers p) |> in
      if (i =? sticky p)%nat then p <| resend_streak := 0 |> else p
  end.

(** The healthiest of the indices, the first of equals ([min_by]). *)
Fixpoint min_score (rs : list Resolver) (best : nat) (l : list nat) : nat :=
  match l with
  | [] => best
  | j :: l => min_score rs (if f64.lt (score_at rs j) (score_at rs best) then j else best) l
  end.

Definition failover (now : Z) (p : ResolverPool) : ResolverPool :=
  let p := reactivate now p in
  match filter (fun i => i <> sticky p /\ is_enabled (resolvers p) i = true) (seq 0 (length (resolvers p))) with
  | [] => p
  | i :: l => p <| sticky := min_score (resolvers p) i l |> <| resend_streak := 0 |>
  end.

Definition loss_one (c : PoolConfig) (now : Z) (r : Resolver) : Resolver :=
  let r := decay (loss_decay c) r in
  let r := r <| total := f64.add (total r) one |> in
  let r := r <| loss := f64.add (loss r) one |> in
  if enabled r && f64.le (min_samples c) (total r) && f64.le (disable_loss c) (loss_ratio r)
  then r <| enabled := false |> <| disabled_at := now |> else r.

(** The loop over the addresses of a lost query. *)
Fixpoint record_losses (now : Z) (addrs : list Target) (hit : bool) (p : ResolverPool) : bool * ResolverPool :=
  match addrs with
  | [] => (hit, p)
  | a :: addrs =>
      match index_of a p with
      | None => record_losses now addrs hit p
      | Some i =>
          let p := p <| resolvers := alter (loss_one (cfg p) now) i (resolvers p) |> in
          record_losses now addrs (hit || (i =? sticky p)%nat) p
      end
  end.

Definition on_loss (addrs : list Target) (now : Z) (p : ResolverPool) : ResolverPool :=
  let '(sticky_hit, p) := record_losses now addrs false p in
  if sticky_hit then
    let p := p <| resend_streak := wrap32 (resend_streak p + 1) |> in
    let sticky_ok := is_enabled (resolvers p) (sticky p) in
    if (failover_streak (cfg p) <=? resend_streak p) || negb sticky_ok then failover now p else p
  else p.

(** ** Well-formed pools *)

Definition addrs_of (rs : list Resolver) : list Target := addr <$> rs.

Record pool_ok (p : ResolverPool) : Prop := {
  ok_nodup : NoDup (addrs_of (resolvers p));
  ok_sticky : (sticky p < length (resolvers p))%nat;
}.

Lemma add_addrs_ok max addrs : forall rs, NoDup (addrs_of rs) -> (length rs <= max)%nat -> Forall (fun r => enabled r = true) rs ->
  NoDup (addrs_of (add_addrs max rs addrs)) /\ (length (add_addrs max rs addrs) <= max)%nat /\
  Forall (fun r => enabled r = true) (add_addrs max rs addrs).
Proof.
  induction addrs as [|a addrs IH]; intros rs Hn Hl He; cbn [add_addrs]; [done|].
  destruct (Nat.leb_spec max (length rs)); [done|]. destruct (decide (a ∈ addr <$> rs)) as [Ha|Ha]; [by apply IH|].
  apply IH.
  - unfold addrs_of. rewrite fmap_app. apply list.NoDup_app. split; [done|]. split; [|by apply NoDup_singleton].
    intros x Hx Hx'. apply list_elem_of_singleton in Hx' as ->. done.
  - rewrite length_app. simpl. lia.
  - apply Forall_app_2; [done|]. by repeat constructor.
Qed.

Lemma add_specs_ok max specs : forall rs rs', add_specs max rs specs = Ok rs' ->
  NoDup (addrs_of rs) -> (length rs <= max)%nat -> Forall (fun r => enabled r = true) rs ->
  NoDup (addrs_of rs') /\ (length rs' <= max)%nat /\ Forall (fun r => enabled r = true) rs'.
Proof.
  induction specs as [|spec specs IH]; intros rs rs' H Hn Hl He; cbn [add_specs] in H; [by apply Ok_inj in H as <-|].
  destruct (parse_spec spec max) as [addrs|e]; [|done]. destruct (add_addrs_ok max addrs rs Hn Hl He) as (H1 & H2 & H3). by eapply IH.
Qed.

(** A pool that parses has distinct resolvers, within the bound, all enabled. *)
Lemma pool_parse_ok specs c p : parse specs c = Ok p ->
  pool_ok p /\ (length (resolvers p) <= max_hosts c)%nat /\ enabled_count p = length (resolvers p) /\ cfg p = c.
Proof.
  unfold parse. destruct (add_specs (max_hosts c) [] specs) as [rs|e] eqn:E; [|done]. intros H.
  destruct (add_specs_ok _ _ _ _ E) as (H1 & H2 & H3); [constructor|simpl; lia|constructor|].
  destruct rs as [|r rs]; [done|]. apply Ok_inj in H as <-. split; [split; [done|simpl; lia]|]. split; [done|]. split; [|done].
  unfold enabled_count. cbn [resolvers]. f_equal. by apply filter_all.
Qed.

(** ** Networks *)

Lemma land_network b k : fits 32 b -> 0 <= k < 32 -> Z.land b (wrap32 (Z.shiftl (2 ^ 32 - 1) k)) = b / 2 ^ k * 2 ^ k.
Proof.
  intros Hb Hk. rewrite <- Z.shiftr_div_pow2, <- Z.shiftl_mul_pow2 by lia. change (2 ^ 32 - 1) with (Z.ones 32). unfold wrap. rewrite <- Z.land_ones by lia.
  apply Z.bits_inj'. intros i Hi. rewrite !Z.land_spec, !Z.shiftl_spec by lia.
  destruct (Z.ltb_spec i k) as [H|H].
  - rewrite !(Z.testbit_neg_r _ (i - k)) by lia. simpl. by rewrite andb_false_r.
  - rewrite Z.shiftr_spec by lia. replace (i - k + k) with i by lia. destruct (Z.ltb_spec i 32) as [H32|H32].
    + rewrite !Z.ones_spec_low by lia. by rewrite andb_true_r.
    + by rewrite (testbit_high b 32) by (unfold fits in Hb; lia).
Qed.

(** The expansion of a network: consecutive addresses from its first, none outside it. *)
Lemma expand_spec base prefix port max i t : bytes_ok base -> length base = 4%nat -> 0 <= prefix <= 32 ->
  expand base prefix port max !! i = Some t ->
  let size := 2 ^ (32 - prefix) in let net := from_be_bytes base / size * size in
  Z.of_nat i < size /\ (i < max)%nat /\ fits 32 (net + Z.of_nat i) /\ t = target (V4 (to_be_bytes 4 (net + Z.of_nat i))) port.
Proof.
  intros Hb Hl Hp H size net. unfold expand in H. rewrite Z.shiftl_1_l in H. fold size in H.
  assert (0 < size) as Hs by (apply Z.pow_pos_nonneg; lia).
  assert (size * 2 ^ prefix = 2 ^ 32) as Hsz by (unfold size; rewrite <- Z.pow_add_r by lia; f_equal; lia).
  pose proof (from_be_bytes_bound base Hb) as HB. rewrite Hl in HB. change (256 ^ Z.of_nat 4) with (2 ^ 32) in HB.
  assert (Z.land (from_be_bytes base) (if 32 <=? 32 - prefix then 0 else wrap32 (Z.shiftl (2 ^ 32 - 1) (32 - prefix))) = net) as En.
  { unfold net. destruct (Z.leb_spec 32 (32 - prefix)) as [H0|H0].
    - assert (size = 2 ^ 32) as -> by (unfold size; f_equal; lia). rewrite Z.land_0_r, Z.div_small by lia. lia.
    - unfold size. apply land_network; [exact HB|lia]. }
  rewrite En, list_lookup_fmap in H. destruct (seq 0 _ !! i) as [j|] eqn:Ej; [|done]. apply lookup_seq in Ej as [-> Hi]. simpl in H. injection H as <-.
  assert (Z.of_nat i < size) as His by lia. assert (0 < 2 ^ prefix) by (apply Z.pow_pos_nonneg; lia).
  assert (0 <= net /\ net + size <= 2 ^ 32) as Hnet.
  { unfold net. assert (from_be_bytes base / size < 2 ^ prefix) by (apply Z.div_lt_upper_bound; lia). pose proof (Z.div_pos (from_be_bytes base) size). clearbody size. nia. }
  assert (fits 32 (net + Z.of_nat i)) as Hf by (unfold fits; lia). split; [done|]. split; [lia|]. split; [done|].
  rewrite (wrap_small 32 (Z.of_nat i)) by (unfold fits; lia). by rewrite wrap_small.
Qed.

(** ** Ranking *)

Lemma insert_ranked_perm rs i l : insert_ranked rs i l ≡ₚ i :: l.
Proof. induction l as [|j l IH]; [done|]. cbn [insert_ranked]. destruct (f64.lt _ _); [done|]. rewrite IH. constructor. Qed.

Lemma sort_ranked_perm rs l : sort_ranked rs l ≡ₚ l.
Proof.
  unfold sort_ranked. enough (forall acc, fold_left (fun acc i => insert_ranked rs i acc) l acc ≡ₚ l ++ acc) as H by (rewrite H; by rewrite app_nil_r).
  induction l as [|i l IH]; intros acc; [done|]. cbn [fold_left]. rewrite IH, insert_ranked_perm. symmetry. apply Permutation_middle.
Qed.

Lemma elem_of_ranked rs i : i ∈ ranked rs <-> is_enabled rs i = true.
Proof.
  unfold ranked. rewrite sort_ranked_perm, list_elem_of_filter, elem_of_seq. split; [tauto|]. intros H. split; [done|].
  unfold is_enabled in H. destruct (rs !! i) eqn:E; [|done]. apply lookup_lt_Some in E. lia.
Qed.

Lemma NoDup_ranked rs : NoDup (ranked rs).
Proof. unfold ranked. rewrite sort_ranked_perm. apply list.NoDup_filter, NoDup_seq. Qed.

Lemma filter_seq_enabled rs : forall k, length (filter (fun i => is_enabled rs (i - k) = true) (seq k (length rs))) = length (filter (fun r => enabled r = true) rs).
Proof.
  induction rs as [|r rs IH]; intros k; [done|]. cbn [length seq]. rewrite !list.filter_cons. rewrite Nat.sub_diag. cbn [is_enabled lookup list_lookup].
  assert (filter (fun i => is_enabled (r :: rs) (i - k) = true) (seq (S k) (length rs)) = filter (fun i => is_enabled rs (i - S k) = true) (seq (S k) (length rs))) as ->.
  { apply filter_elem_iff. intros i Hi. apply elem_of_seq in Hi. replace (i - k)%nat with (S (i - S k)) by lia. done. }
  change (is_enabled (r :: rs) 0) with (enabled r). case_decide; cbn [length]; by rewrite IH.
Qed.

Lemma length_ranked p : length (ranked (resolvers p)) = enabled_count p.
Proof.
  unfold ranked, enabled_count. rewrite sort_ranked_perm, <- (filter_seq_enabled _ 0). f_equal. apply list_filter_iff. intros i. by rewrite Nat.sub_0_r.
Qed.

(** ** The duplication slots *)

Definition slot (rr : Z) (len j : nat) : nat := Z.to_nat (wrap64 (rr + Z.of_nat j) mod Z.of_nat len).

Section slots.
Context (rs : list Resolver) (rk : list nat) (rr0 : Z) (want : nat).
Context (Hrs : NoDup (addrs_of rs)) (Hrk : forall i, i ∈ rk -> (i < length rs)%nat) (Hne : (0 < length rk)%nat).

(** An address of the ranking. *)
Definition ranked_addr (a : Target) : Prop := exists i r, i ∈ rk /\ rs !! i = Some r /\ addr r = a.

Lemma slot_elem j : rk !!! slot rr0 (length rk) j ∈ rk.
Proof.
  apply list_elem_of_lookup_2 with (slot rr0 (length rk) j). apply list_lookup_lookup_total_lt. unfold slot.
  pose proof (Z.mod_pos_bound (wrap64 (rr0 + Z.of_nat j)) (Z.of_nat (length rk)) ltac:(lia)). clear Hrs Hrk. lia.
Qed.

Lemma fill_slots_spec : forall n k out, NoDup out -> (length out <= want)%nat -> (forall a, a ∈ out -> ranked_addr a) ->
  let out' := fill_slots rs rk rr0 want n k out in
  out `prefix_of` out' /\ NoDup out' /\ (length out' <= want)%nat /\ (forall a, a ∈ out' -> ranked_addr a) /\
  (length out' = want \/ forall j, (k <= j < k + n)%nat -> exists r, rs !! (rk !!! slot rr0 (length rk) j) = Some r /\ addr r ∈ out').
Proof.
  induction n as [|n IH]; intros k out Hn Hl Ha; cbn [fill_slots].
  { split; [done|]. split; [done|]. split; [done|]. split; [done|]. right. lia. }
  destruct (Nat.leb_spec want (length out)) as [Hw|Hw].
  { split; [done|]. split; [done|]. split; [done|]. split; [done|]. left. lia. }
  fold (slot rr0 (length rk) k). pose proof (slot_elem k) as Hin. destruct (lookup_lt_is_Some_2 rs _ (Hrk _ Hin)) as [r Hr]. rewrite Hr.
  set (out1 := if decide (addr r ∈ out) then out else out ++ [addr r]).
  assert (out `prefix_of` out1 /\ NoDup out1 /\ (length out1 <= want)%nat /\ (forall a, a ∈ out1 -> ranked_addr a) /\ addr r ∈ out1) as (P1 & N1 & L1 & A1 & I1).
  { subst out1. destruct (decide (addr r ∈ out)) as [Hm|Hm]; [done|]. split; [by eexists|]. split.
    { apply list.NoDup_app. split; [done|]. split; [|by apply NoDup_singleton]. intros x Hx Hx'. apply list_elem_of_singleton in Hx' as ->. done. }
    rewrite length_app. simpl. split; [lia|]. split; [|apply elem_of_app; right; by apply list_elem_of_singleton].
    intros a. rewrite elem_of_app, list_elem_of_singleton. intros [H| ->]; [by apply Ha|]. by exists (rk !!! slot rr0 (length rk) k), r. }
  destruct (IH (S k) out1 N1 L1 A1) as (P2 & N2 & L2 & A2 & C2). split; [by etransitivity|]. split; [done|]. split; [done|]. split; [done|].
  destruct C2 as [C2|C2]; [by left|right]. intros j Hj. destruct (decide (j = k)) as [->|]; [|apply C2; lia].
  exists r. split; [done|]. destruct P2 as [z ->]. apply elem_of_app. by left.
Qed.

(** The cursor walks over the whole ranking. *)
Lemma slot_onto i : 0 <= rr0 -> rr0 + Z.of_nat (length rk) <= 2 ^ 64 -> i ∈ rk -> exists j, (j < length rk)%nat /\ rk !!! slot rr0 (length rk) j = i.
Proof.
  intros H0 H64 Hi. apply list_elem_of_lookup_1 in Hi as [t Ht]. pose proof (lookup_lt_Some _ _ _ Ht) as Hlt.
  set (len := Z.of_nat (length rk)) in *. assert (0 < len) as Hlen by lia. set (j := (Z.of_nat t - rr0) mod len).
  assert (0 <= j < len) as Hj by (apply Z.mod_pos_bound; lia). exists (Z.to_nat j). split; [lia|].
  apply list_lookup_total_correct. rewrite <- Ht. f_equal. unfold slot. fold len. rewrite Z2Nat.id by lia. rewrite wrap_small by (unfold fits; lia).
  unfold j. rewrite Zplus_mod_idemp_r. replace (rr0 + (Z.of_nat t - rr0)) with (Z.of_nat t) by lia. rewrite Z.mod_small by lia. lia.
Qed.

Lemma covered_length out : NoDup rk -> 0 <= rr0 -> rr0 + Z.of_nat (length rk) <= 2 ^ 64 ->
  (forall j, (j < length rk)%nat -> exists r, rs !! (rk !!! slot rr0 (length rk) j) = Some r /\ addr r ∈ out) -> (length rk <= length out)%nat.
Proof.
  intros Hnd H0 H64 Hc. rewrite <- (length_fmap (fun i => addr <$> rs !! i) rk), <- (length_fmap Some out).
  apply submseteq_length, NoDup_submseteq.
  - apply NoDup_fmap_2_strong; [|done]. intros i i' Hi Hi' E.
    destruct (lookup_lt_is_Some_2 rs i (Hrk _ Hi)) as [r Hr]. destruct (lookup_lt_is_Some_2 rs i' (Hrk _ Hi')) as [r' Hr']. rewrite Hr, Hr' in E. simpl in E.
    eapply (NoDup_lookup (addrs_of rs)); [done| |]; unfold addrs_of; rewrite list_lookup_fmap; [by rewrite Hr|rewrite Hr'; simpl; congruence].
  - intros x Hx. apply list_elem_of_fmap in Hx as (i & -> & Hi). destruct (slot_onto i H0 H64 Hi) as (j & Hj & E).
    destruct (Hc j Hj) as (r & Hr & Hin). rewrite E in Hr. rewrite Hr. simpl. by apply list_elem_of_fmap_2.
Qed.
End slots.

(** ** Picking *)

Lemma addrs_of_map (f : Resolver -> Resolver) rs : (forall r, addr (f r) = addr r) -> addrs_of (f <$> rs) = addrs_of rs.
Proof. intros H. unfold addrs_of. rewrite <- list_fmap_compose. apply list_fmap_ext. intros i r _. apply H. Qed.

Lemma addrs_of_alter (f : Resolver -> Resolver) i rs : (forall r, addr (f r) = addr r) -> addrs_of (alter f i rs) = addrs_of rs.
Proof.
  intros H. apply list_eq. intros j. unfold addrs_of. rewrite !list_lookup_fmap. destruct (decide (i = j)) as [->|Hn].
  - rewrite list_lookup_alter_eq. destruct (rs !! j); [|done]. simpl. by rewrite H.
  - by rewrite list_lookup_alter_ne.
Qed.

Lemma pool_ok_same p p' : pool_ok p -> addrs_of (resolvers p') = addrs_of (resolvers p) -> (sticky p' < length (resolvers p'))%nat -> pool_ok p'.
Proof. intros [H1 H2] E Hs. split; [by rewrite E|done]. Qed.

Lemma length_addrs_of rs : length (addrs_of rs) = length rs.
Proof. apply length_fmap. Qed.

Lemma reactivate_addr after now r : addr (reactivate_one after now r) = addr r.
Proof. unfold reactivate_one. by destruct (_ && _). Qed.

Lemma reactivate_ok now p : pool_ok p -> pool_ok (reactivate now p).
Proof.
  intros H. eapply pool_ok_same; [done| |].
  - apply addrs_of_map. intros r. apply reactivate_addr.
  - unfold reactivate, update_field. simpl. rewrite length_fmap. by destruct H.
Qed.

(** The pool of [pick] after the timers and the fallback. *)
Definition refreshed (now : Z) (p : ResolverPool) : ResolverPool :=
  let p := reactivate now p in
  if (enabled_count p =? 0)%nat then p <| resolvers := (fun r => r <| enabled := true |>) <$> resolvers p |> else p.

Lemma refreshed_ok now p : pool_ok p ->
  pool_ok (refreshed now p) /\ (0 < enabled_count (refreshed now p))%nat /\ cfg (refreshed now p) = cfg p /\ rr (refreshed now p) = rr p /\
  sticky (refreshed now p) = sticky p /\ addrs_of (resolvers (refreshed now p)) = addrs_of (resolvers p) /\
  (forall r, r ∈ resolvers (refreshed now p) -> enabled r = false -> sat_sub now (disabled_at r) < reenable_after_ms (cfg p)).
Proof.
  intros Hp. pose proof (reactivate_ok now p Hp) as Hq.
  assert (addrs_of (resolvers (reactivate now p)) = addrs_of (resolvers p)) as Ea by (apply addrs_of_map; intros; apply reactivate_addr).
  unfold refreshed. destruct (Nat.eqb_spec (enabled_count (reactivate now p)) 0) as [E|E].
  - set (q := reactivate now p) in *. split; [|split; [|split; [done|split; [done|split; [done|split]]]]].
    + eapply pool_ok_same; [exact Hq|by apply addrs_of_map|]. unfold update_field. simpl. rewrite length_fmap. by destruct Hq.
    + unfold enabled_count, update_field. simpl. rewrite filter_all by (by apply Forall_fmap, list.Forall_forall). rewrite length_fmap. pose proof (ok_sticky _ Hq) as Hs. change (0 < length (resolvers q))%nat. lia.
    + etransitivity; [|exact Ea]. by apply addrs_of_map.
    + intros r Hr Hd. apply list_elem_of_fmap in Hr as (r0 & -> & _). done.
  - split; [done|]. split; [lia|]. split; [done|]. split; [done|]. split; [done|]. split; [done|].
    intros r Hr Hd. unfold reactivate, update_field in Hr. simpl in Hr. apply list_elem_of_fmap in Hr as (r0 & -> & _).
    unfold reactivate_one in *. destruct (enabled r0) eqn:Ee; simpl in *; [congruence|].
    destruct (Z.leb_spec (reenable_after_ms (cfg p)) (sat_sub now (disabled_at r0))); [done|]. lia.
Qed.

Lemma is_enabled_lookup rs i : is_enabled rs i = true -> exists r, rs !! i = Some r /\ enabled r = true.
Proof. unfold is_enabled. destruct (rs !! i) as [r|]; [|done]. by exists r. Qed.

(** a query always has resolvers to go to. The choice is a list of distinct addresses of enabled resolvers of the pool, headed by
    the sticky one, and as long as the configured duplication and the enabled resolvers allow; there is always at least one
    enabled resolver, and a resolver that stays disabled was disabled less than the re-probe interval ago. *)
Theorem pick_correct (p p' : ResolverPool) (now : Z) (out : list Target) :
  pool_ok p -> 0 <= rr p -> rr p + Z.of_nat (length (resolvers p)) <= 2 ^ 64 -> pick now p = (out, p') ->
  pool_ok p' /\ NoDup out /\
  length out = Nat.min (Nat.max (duplication (cfg p)) 1) (enabled_count p') /\ (0 < enabled_count p')%nat /\
  head out = sticky_addr p' /\
  (forall a, a ∈ out -> exists r, r ∈ resolvers p' /\ addr r = a /\ enabled r = true) /\
  (forall r, r ∈ resolvers p' -> enabled r = false -> sat_sub now (disabled_at r) < reenable_after_ms (cfg p)).
Proof.
  intros Hp H0 H64. unfold pick. fold (refreshed now p). destruct (refreshed_ok now p Hp) as (Hq & Hc & Ec & Er & Es & Ea & Hd).
  set (q := refreshed now p) in *. pose proof (length_ranked q) as Hlr.
  assert (length (resolvers q) = length (resolvers p)) as El by (rewrite <- !length_addrs_of; by rewrite Ea).
  assert (length (ranked (resolvers q)) <= length (resolvers q))%nat as Hle by (rewrite Hlr; apply length_filter).
  destruct (ranked (resolvers q)) as [|best rest] eqn:Erk; [simpl in Hlr; lia|]. rewrite <- Erk in *.
  set (q1 := if negb (is_enabled (resolvers q) (sticky q)) then q <| sticky := best |> else q).
  assert (resolvers q1 = resolvers q /\ cfg q1 = cfg q /\ rr q1 = rr q /\ is_enabled (resolvers q) (sticky q1) = true) as (R1 & C1 & RR1 & S1).
  { subst q1. destruct (is_enabled (resolvers q) (sticky q)) eqn:E; [done|]. split; [done|]. split; [done|]. split; [done|].
    apply elem_of_ranked. rewrite Erk. left. }
  destruct (is_enabled_lookup _ _ S1) as (r & Hr & Hen). rewrite R1, C1, RR1, Hr, Ec, Er. intros [= <- <-].
  assert (forall i, i ∈ ranked (resolvers q) -> (i < length (resolvers q))%nat) as Hrk.
  { intros i Hi. apply elem_of_ranked, is_enabled_lookup in Hi as (r' & Hr' & _). by eapply lookup_lt_Some. }
  set (want := Nat.min (Nat.max (duplication (cfg p)) 1) (length (ranked (resolvers q)))).
  destruct (fill_slots_spec (resolvers q) (ranked (resolvers q)) (rr p) want Hrk ltac:(lia) (length (ranked (resolvers q))) 0 [addr r])
    as ([z Pz] & N & Lo & A & Cov); [by apply NoDup_singleton|simpl; lia| |].
  { intros a Ha. apply list_elem_of_singleton in Ha as ->. exists (sticky q1), r. split; [by apply elem_of_ranked|done]. }
  set (out := fill_slots _ _ _ _ _ _ _) in *.
  assert (length out = want) as Hlen.
  { destruct Cov as [Cov|Cov]; [done|]. pose proof (covered_length _ _ _ (ok_nodup _ Hq) Hrk ltac:(lia) out (NoDup_ranked _) H0) as G.
    assert (length (ranked (resolvers q)) <= length out)%nat; [|lia]. apply G; [lia|]. intros j Hj. apply Cov. lia. }
  unfold enabled_count, update_field. cbn [eta_ResolverPool resolvers sticky sticky_addr cfg]. rewrite R1. fold (enabled_count q).
  split; [|split; [done|split; [by rewrite Hlen, <- Hlr|split; [done|split; [|split; [|done]]]]]].
  - split; cbn [resolvers sticky]; [apply Hq|by eapply lookup_lt_Some].
  - rewrite Pz. unfold sticky_addr. cbn [resolvers sticky]. by rewrite Hr.
  - intros a Ha. destruct (A a Ha) as (i & r' & Hi & Hr' & <-). exists r'. split; [by eapply list_elem_of_lookup_2|]. split; [done|].
    apply elem_of_ranked in Hi. unfold is_enabled in Hi. by rewrite Hr' in Hi.
Qed.

(** ** Failover *)

(** Numbers in their order: class, exponent and significand. *)
Definition magnitude (x : f64.t) : Z * Z * Z :=
  match x with
  | S754_infinity true => (-2, 0, 0)
  | S754_finite true m e => (-1, - e, - Z.pos m)
  | S754_finite false m e => (1, e, Z.pos m)
  | S754_infinity false => (2, 0, 0)
  | S754_zero _ | S754_nan => (0, 0, 0)
  end.
Definition lex (a b : Z * Z * Z) : Prop :=
  a.1.1 < b.1.1 \/ (a.1.1 = b.1.1 /\ (a.1.2 < b.1.2 \/ (a.1.2 = b.1.2 /\ a.2 < b.2))).

Lemma lt_magnitude x y : x <> S754_nan -> y <> S754_nan -> f64.lt x y = true <-> lex (magnitude x) (magnitude y).
Proof.
  unfold f64.lt, SFltb, lex. intros Hx Hy.
  destruct x as [sx|[]| |[] mx ex], y as [sy|[]| |[] my ey]; try done; cbn [SFcompare magnitude fst snd]; try first [split; [lia|done] | split; [done|lia]].
  - destruct (Z.compare_spec ex ey); [|split; [done|lia]|split; [lia|done]]. subst.
    change (Pos.compare_cont Eq mx my) with (Pos.compare mx my). destruct (Pos.compare_spec mx my); simpl; split; (done || lia).
  - destruct (Z.compare_spec ex ey); [|split; [lia|done]|split; [done|lia]]. subst.
    change (Pos.compare_cont Eq mx my) with (Pos.compare mx my). destruct (Pos.compare_spec mx my); simpl; split; (done || lia).
Qed.

Lemma min_score_spec rs : (forall i, score_at rs i <> S754_nan) -> forall l best,
  min_score rs best l ∈ best :: l /\ forall j, j ∈ best :: l -> f64.lt (score_at rs j) (score_at rs (min_score rs best l)) = false.
Proof.
  intros Hn. assert (forall i j, f64.lt (score_at rs i) (score_at rs j) = true <-> lex (magnitude (score_at rs i)) (magnitude (score_at rs j))) as Hlt
    by (intros; by apply lt_magnitude).
  induction l as [|j l IH]; intros best; cbn [min_score].
  - split; [left|]. intros j Hj. apply list_elem_of_singleton in Hj as ->. apply not_true_iff_false. rewrite Hlt. unfold lex. lia.
  - set (b := if f64.lt (score_at rs j) (score_at rs best) then j else best). destruct (IH b) as [H1 H2]. split.
    + apply elem_of_cons in H1 as [->|H1]; [|apply elem_of_cons; right; apply elem_of_cons; by right].
      subst b. destruct (f64.lt _ _); [apply elem_of_cons; right|]; left.
    + assert (f64.lt (score_at rs b) (score_at rs (min_score rs b l)) = false) as Hb by (apply H2; left).
      apply not_true_iff_false in Hb. rewrite Hlt in Hb. intros i Hi. apply elem_of_cons in Hi as [->|Hi]; [|apply elem_of_cons in Hi as [->|Hi]].
      * apply not_true_iff_false. rewrite Hlt. subst b. destruct (f64.lt (score_at rs j) (score_at rs best)) eqn:E; [|done].
        apply Hlt in E. unfold lex in *. lia.
      * apply not_true_iff_false. rewrite Hlt. subst b. destruct (f64.lt (score_at rs j) (score_at rs best)) eqn:E; [done|].
        apply not_true_iff_false in E. rewrite Hlt in E. unfold lex in *. lia.
      * apply H2. apply elem_of_cons. by right.
Qed.

Lemma loss_one_addr c now r : addr (loss_one c now r) = addr r.
Proof. unfold loss_one. by destruct (_ && _). Qed.

Lemma record_losses_same now : forall addrs hit p, let p' := (record_losses now addrs hit p).2 in
  addrs_of (resolvers p') = addrs_of (resolvers p) /\ sticky p' = sticky p /\ cfg p' = cfg p /\ rr p' = rr p /\ resend_streak p' = resend_streak p.
Proof.
  induction addrs as [|a addrs IH]; intros hit p; cbn [record_losses snd]; [done|]. destruct (index_of a p) as [i|]; [|apply IH].
  destruct (IH (hit || (i =? sticky p)%nat) (p <| resolvers := alter (loss_one (cfg p) now) i (resolvers p) |>)) as (E1 & E2 & E3 & E4 & E5).
  split; [|done]. etransitivity; [exact E1|]. apply addrs_of_alter. apply loss_one_addr.
Qed.

Lemma index_from_spec a rs : forall k i, index_from a k rs = Some i -> exists r, rs !! (i - k)%nat = Some r /\ addr r = a /\ (k <= i)%nat.
Proof.
  induction rs as [|r rs IH]; intros k i; cbn [index_from]; [done|]. case_decide as E.
  - intros [= <-]. exists r. rewrite Nat.sub_diag. done.
  - intros H. apply IH in H as (r' & H1 & H2 & H3). exists r'. replace (i - k)%nat with (S (i - S k)) by lia. split; [done|]. split; [done|lia].
Qed.
Lemma index_from_is_some a rs : forall k, a ∈ addrs_of rs -> is_Some (index_from a k rs).
Proof.
  induction rs as [|r rs IH]; intros k Ha; [by apply not_elem_of_nil in Ha|]. cbn [index_from]. case_decide; [by eexists|].
  apply IH. unfold addrs_of in *. rewrite fmap_cons in Ha. apply elem_of_cons in Ha as [->|Ha]; done.
Qed.

(** The address of the sticky resolver is found at the sticky index. *)
Lemma index_of_sticky p a : pool_ok p -> sticky_addr p = Some a -> index_of a p = Some (sticky p).
Proof.
  intros Hp Ha. unfold sticky_addr in Ha. destruct (resolvers p !! sticky p) as [r|] eqn:Er; [|done]. simpl in Ha. injection Ha as <-.
  destruct (index_from_is_some (addr r) (resolvers p) 0) as [i Hi]; [unfold addrs_of; apply list_elem_of_fmap_2; by eapply list_elem_of_lookup_2|].
  unfold index_of. rewrite Hi. f_equal. apply index_from_spec in Hi as (r' & H1 & H2 & _). rewrite Nat.sub_0_r in H1.
  apply (NoDup_lookup (addrs_of (resolvers p)) _ _ (addr r)); [apply Hp| |]; unfold addrs_of; rewrite list_lookup_fmap; [rewrite H1|rewrite Er]; simpl; congruence.
Qed.

Lemma record_losses_hit now a : forall addrs hit p, pool_ok p -> sticky_addr p = Some a -> hit = true \/ a ∈ addrs -> (record_losses now addrs hit p).1 = true.
Proof.
  induction addrs as [|b addrs IH]; intros hit p Hp Ha Hor; cbn [record_losses]; [destruct Hor as [->|H]; [done|by apply not_elem_of_nil in H]|].
  destruct (index_of b p) as [i|] eqn:Ei.
  - assert (addrs_of (alter (loss_one (cfg p) now) i (resolvers p)) = addrs_of (resolvers p)) as Ea by (apply addrs_of_alter, loss_one_addr).
    apply IH.
    + eapply pool_ok_same; [done|exact Ea|]. unfold update_field. simpl. rewrite length_alter. apply Hp.
    + unfold sticky_addr, update_field in *. simpl. rewrite <- list_lookup_fmap in *. unfold addrs_of in Ea. by rewrite Ea.
    + destruct Hor as [->|Hor]; [by left|]. apply elem_of_cons in Hor as [<-|Hor]; [|by right]. left.
      rewrite (index_of_sticky p a Hp Ha) in Ei. injection Ei as <-. unfold update_field. simpl. rewrite Nat.eqb_refl. apply orb_true_r.
  - apply IH; [done|done|]. destruct Hor as [->|Hor]; [by left|]. apply elem_of_cons in Hor as [<-|Hor]; [|by right].
    rewrite (index_of_sticky p a Hp Ha) in Ei. done.
Qed.

(** The other enabled resolvers of the pool. *)
Definition others (p : ResolverPool) : list nat :=
  filter (fun i => i <> sticky p /\ is_enabled (resolvers p) i = true) (seq 0 (length (resolvers p))).

Lemma elem_of_others p i : i ∈ others p <-> i <> sticky p /\ is_enabled (resolvers p) i = true.
Proof.
  unfold others. rewrite list_elem_of_filter, elem_of_seq. split; [tauto|]. intros [H1 H2]. split; [done|].
  apply is_enabled_lookup in H2 as (r & Hr & _). apply lookup_lt_Some in Hr. lia.
Qed.

Lemma failover_cases now p : let q := reactivate now p in
  (others q = [] /\ failover now p = q) \/
  (exists i l, others q = i :: l /\ failover now p = q <| sticky := min_score (resolvers q) i l |> <| resend_streak := 0 |>).
Proof. unfold failover. fold (others (reactivate now p)). destruct (others (reactivate now p)) as [|i l]; [by left|right]. by exists i, l. Qed.

Lemma min_score_elem rs : forall l best, min_score rs best l ∈ best :: l.
Proof.
  induction l as [|j l IH]; intros best; cbn [min_score]; [left|].
  specialize (IH (if f64.lt (score_at rs j) (score_at rs best) then j else best)).
  apply elem_of_cons in IH as [->|IH]; [destruct (f64.lt _ _); [apply elem_of_cons; right|]; left|]. apply elem_of_cons. right. apply elem_of_cons. by right.
Qed.

Lemma failover_ok now p : pool_ok p -> pool_ok (failover now p).
Proof.
  intros Hp. pose proof (reactivate_ok now p Hp) as Hq. destruct (failover_cases now p) as [[_ ->]|(i & l & E & ->)]; [done|].
  split; [apply Hq|]. unfold update_field. cbn [eta_ResolverPool resolvers sticky].
  assert (min_score (resolvers (reactivate now p)) i l ∈ others (reactivate now p)) as Hm by (rewrite E; apply min_score_elem).
  apply elem_of_others in Hm as [_ Hm]. apply is_enabled_lookup in Hm as (r & Hr & _). by eapply lookup_lt_Some.
Qed.

(** Every operation keeps the pool well formed. *)
Lemma on_loss_ok addrs now p : pool_ok p -> pool_ok (on_loss addrs now p).
Proof.
  intros Hp. unfold on_loss. pose proof (record_losses_same now addrs false p) as (E1 & E2 & _). destruct (record_losses now addrs false p) as [hit q]. cbn [snd] in *.
  assert (pool_ok q) as Hq.
  { eapply pool_ok_same; [done|exact E1|]. rewrite E2. rewrite <- (length_addrs_of (resolvers q)), E1, length_addrs_of. apply Hp. }
  destruct hit; [|done]. set (q1 := q <| resend_streak := _ |>). assert (pool_ok q1) by (split; apply Hq). destruct (_ || _); [by apply failover_ok|done].
Qed.

Lemma on_success_ok a rtt p : pool_ok p -> pool_ok (on_success a rtt p).
Proof.
  intros Hp. unfold on_success. destruct (index_of a p) as [i|]; [|done]. set (q := p <| resolvers := _ |>).
  assert (pool_ok q) as Hq.
  { eapply pool_ok_same; [done|by apply addrs_of_alter|]. unfold q, update_field. simpl. rewrite length_alter. apply Hp. }
  destruct (i =? sticky q)%nat; [|done]. split; apply Hq.
Qed.

(** C24: a stream leaves a resolver that stopped answering. When a query sent to the sticky resolver is lost and that completes the
    streak of losses, or disables the resolver, then the stream moves to another enabled resolver if the pool has one, to
    none with a better score being enabled; the streak starts again. It stays where it is only if no other resolver is enabled. *)
Theorem failover_correct (p : ResolverPool) (a : Target) (addrs : list Target) (now : Z) :
  pool_ok p -> sticky_addr p = Some a -> a ∈ addrs -> 0 <= resend_streak p < 2 ^ 32 - 1 ->
  failover_streak (cfg p) <= resend_streak p + 1 \/ is_enabled (resolvers (record_losses now addrs false p).2) (sticky p) = false ->
  let p' := on_loss addrs now p in
  pool_ok p' /\
  ((sticky p' = sticky p /\ forall i, i <> sticky p -> is_enabled (resolvers p') i = false) \/
   (sticky p' <> sticky p /\ is_enabled (resolvers p') (sticky p') = true /\ resend_streak p' = 0 /\
    ((forall i, score_at (resolvers p') i <> S754_nan) ->
     forall i, i <> sticky p -> is_enabled (resolvers p') i = true -> f64.lt (score_at (resolvers p') i) (score_at (resolvers p') (sticky p')) = false))).
Proof.
  intros Hp Ha Hin Hs Hor p'. split; [by apply on_loss_ok|]. subst p'. unfold on_loss.
  pose proof (record_losses_hit now a addrs false p Hp Ha (or_intror Hin)) as Hh.
  pose proof (record_losses_same now addrs false p) as (_ & E2 & E3 & _ & E5).
  destruct (record_losses now addrs false p) as [hit q]. cbn [fst snd] in *. subst hit. set (q1 := q <| resend_streak := _ |>).
  assert (sticky q1 = sticky p) as Eq by exact E2.
  assert ((failover_streak (cfg q1) <=? resend_streak q1) || negb (is_enabled (resolvers q1) (sticky q1)) = true) as ->.
  { unfold q1, update_field. cbn [eta_ResolverPool resolvers cfg sticky resend_streak]. rewrite E2, E3, E5, wrap_small by (unfold fits; lia).
    apply orb_true_iff. destruct Hor as [H|H]; [left; by apply Z.leb_le|right; by rewrite H]. }
  set (q2 := reactivate now q1). assert (sticky q2 = sticky p) as Eq2 by exact Eq.
  destruct (failover_cases now q1) as [[Eo ->]|(i & l & Eo & ->)]; fold q2 in Eo |- *.
  - left. split; [done|]. intros i Hi. apply not_true_iff_false. intros He. assert (i ∈ others q2) as Hm by (apply elem_of_others; by rewrite Eq2).
    rewrite Eo in Hm. by apply not_elem_of_nil in Hm.
  - right. unfold update_field. cbn [eta_ResolverPool resolvers sticky resend_streak].
    assert (min_score (resolvers q2) i l ∈ others q2) as Hm by (rewrite Eo; apply min_score_elem). apply elem_of_others in Hm as [H1 H2]. rewrite Eq2 in H1.
    split; [done|]. split; [done|]. split; [done|]. intros Hn j Hj Hen. destruct (min_score_spec (resolvers q2) Hn l i) as [_ Hmin]. apply Hmin.
    rewrite <- Eo. apply elem_of_others. by rewrite Eq2.
Qed.

(** ** Three resolvers *)

Definition ex_specs : list bytes := [lit "10.0.0.1"; lit " 10.0.0.2:5353"; lit "10.0.0.0/30"].
Definition ex_config : PoolConfig := mk_config 2 3 (loss_decay PoolConfig_default) (f64.of_int 5) (disable_loss PoolConfig_default) 30000 3.
Definition ex_target (n port : Z) : Target := target (V4 [10; 0; 0; n]) port.
Definition ex_pool : ResolverPool := mk_pool (Resolver_new <$> [ex_target 1 53; ex_target 2 5353; ex_target 0 53]) ex_config 0 0 0.

Example ex_parse : parse ex_specs ex_config = Ok ex_pool.
Proof. vm_compute. reflexivity. Qed.

Lemma ex_pool_ok : pool_ok ex_pool.
Proof. by destruct (pool_parse_ok _ _ _ ex_parse). Qed.

Lemma pick_correct_witness : exists out p', pick 0 ex_pool = (out, p') /\ NoDup out /\ length out = 2%nat.
Proof.
  destruct (pick 0 ex_pool) as [out p'] eqn:E. exists out, p'. split; [reflexivity|].
  destruct (pick_correct ex_pool p' 0 out ex_pool_ok) as (_ & H2 & H3 & _); [simpl; lia|simpl; lia|exact E|].
  split; [exact H2|]. rewrite H3. apply (f_equal snd) in E. simpl in E. rewrite <- E. vm_compute. reflexivity.
Defined.

Lemma failover_correct_witness : let p := ex_pool <| resend_streak := 2 |> in sticky (on_loss [ex_target 1 53] 7 p) <> sticky p.
Proof.
  intros p. assert (pool_ok p) as Hp by (split; apply ex_pool_ok).
  destruct (failover_correct p (ex_target 1 53) [ex_target 1 53] 7 Hp) as [_ [[_ H]|[H _]]];
    [reflexivity|by apply list_elem_of_singleton|simpl; lia|left; simpl; lia| |exact H].
  exfalso. assert (is_enabled (resolvers (on_loss [ex_target 1 53] 7 p)) 1 = true) as E by (vm_compute; reflexivity).
  rewrite (H 1%nat) in E; [done|]. simpl. lia.
Defined.

(** The duplicate goes to whichever resolver the cursor points at, not to the next healthiest: here the third pick sends it to a
    resolver that loses three queries of four, past one that loses none. *)
Theorem duplicate_ignores_health :
  let p := on_success (ex_target 1 53) 10 ex_pool in
  let p := on_success (ex_target 2 5353) 20 p in
  let p := on_success (ex_target 0 53) 30 p in
  let p := on_loss [ex_target 0 53] 1 (on_loss [ex_target 0 53] 1 (on_loss [ex_target 0 53] 1 p)) in
  let p := (pick 2 (pick 2 p).2).2 in
  (pick 2 p).1 = [ex_target 1 53; ex_target 0 53] /\
  is_enabled (resolvers p) 1 = true /\ f64.lt (score_at (resolvers p) 1) (score_at (resolvers p) 2) = true.
Proof. vm_compute. done. Qed.
End balancer.
