(* ===== verification/Stall.v ===== *)
(** [core/src/transport/stall.rs]: the detection of stalled flows. A tracker records
    the progress of one flow, the guards around the flow's two halves drive it, and it
    reports one outcome to the pool. Instants and durations are nanoseconds; the clock
    starts when the tracker is created. *)

From S2P Require Import Prelude.

Module stall.

(** ** Byte counters of a pool member *)

Record MemberActivity := mk_activity { out : Z; inbound : Z }.   (* u64 *)

Definition MemberActivity_new : MemberActivity := mk_activity 0 0.
(** [fetch_add] wraps. *)
Definition add_out (n : Z) (a : MemberActivity) : MemberActivity := mk_activity (wrap64 (out a + n)) (inbound a).
Definition add_in (n : Z) (a : MemberActivity) : MemberActivity := mk_activity (out a) (wrap64 (inbound a + n)).
Definition sample (a : MemberActivity) : Z * Z := (out a, inbound a).

Definition looks_starved (out_delta in_delta min_bytes : Z) : bool := (min_bytes <=? out_delta) && (in_delta =? 0).

(** ** Trackers *)

(** What the pool is told of a member ([StallSink]). *)
Inductive report := Stalled | FlowOk.
#[export] Instance report_eq_dec : EqDecision report.
Proof. solve_decision. Defined.

Record StallTracker := mk_tracker {
  window : Z;
  ever_active : bool;
  last_outbound_ms : Z;   (* u64, the largest value for never *)
  stalled : bool;
  done_ : bool;
  told : list report;     (* the calls on the sink so far *)
}.
#[export] Instance eta_StallTracker : Settable StallTracker :=
  fun t => mk_tracker (window t) (ever_active t) (last_outbound_ms t) (stalled t) (done_ t) (told t).

Definition NEVER : Z := 2 ^ 64 - 1.
Definition StallTracker_new (window : Z) : StallTracker := mk_tracker window false NEVER false false [].

(** [Duration::as_millis() as u64]. *)
Definition as_millis (d : Z) : Z := wrap64 (d / 1000000).

Definition mark_active (t : StallTracker) : StallTracker := t <| ever_active := true |>.
Definition mark_outbound (now : Z) (t : StallTracker) : StallTracker := t <| last_outbound_ms := as_millis now |>.

Definition recently_sent (now : Z) (t : StallTracker) : bool :=
  let last := last_outbound_ms t in
  if last =? NEVER then false else sat_sub (as_millis now) last <=? as_millis (window t).

(** The error it returns is [ErrorKind::TimedOut]. *)
Definition report_stall (t : StallTracker) : StallTracker :=
  let t := if stalled t then t else t <| told := told t ++ [Stalled] |> in
  t <| stalled := true |>.

Definition drop_tracker (t : StallTracker) : StallTracker :=
  if ever_active t && negb (stalled t) && negb (done_ t) then t <| told := told t ++ [FlowOk] |> <| done_ := true |> else t.

(** ** The guard of a stream *)

Inductive io_error := TimedOut | Other.
Inductive Poll (A : Type) := Pending | Ready (a : A).
Arguments Pending {A}.
Arguments Ready {A} a.

Record StreamStallGuard := mk_guard { tracker : StallTracker; deadline : Z; armed : bool }.

Definition StreamStallGuard_new (now : Z) (t : StallTracker) : StreamStallGuard := mk_guard t (now + window t) false.

Definition on_progress (now : Z) (g : StreamStallGuard) : StreamStallGuard :=
  mk_guard (mark_active (tracker g)) (now + window (tracker g)) true.

Definition poll_deadline {A} (now : Z) (g : StreamStallGuard) : Poll (result io_error A) * StreamStallGuard :=
  if negb (armed g) then (Pending, g)
  else if deadline g <=? now then (Ready (Err TimedOut), mk_guard (report_stall (tracker g)) (deadline g) (armed g))
  else (Pending, g).

(** A read that puts [n] bytes into the buffer, and a write that takes [n]: the
    argument is what the stream inside answers. *)
Definition poll_read (now : Z) (inner : Poll (result io_error nat)) (g : StreamStallGuard)
    : Poll (result io_error nat) * StreamStallGuard :=
  match inner with
  | Ready (Ok n) => (Ready (Ok n), if (0 <? n)%nat then on_progress now g else g)
  | Ready (Err e) => (Ready (Err e), g)
  | Pending => poll_deadline now g
  end.

Definition poll_write (now : Z) (inner : Poll (result io_error nat)) (g : StreamStallGuard)
    : Poll (result io_error nat) * StreamStallGuard :=
  match inner with
  | Ready (Ok n) => (Ready (Ok n), if (0 <? n)%nat then on_progress now g else g)
  | Ready (Err e) => (Ready (Err e), g)
  | Pending => poll_deadline now g
  end.

(** ** The guards of a datagram association *)

(** [PacketSinkGuard::send]. *)
Definition sink_send (now : Z) (t : StallTracker) : StallTracker := mark_outbound now t.

(** What one turn of the loop of [PacketSourceGuard::recv] ends in: the datagram or the
    error of the source, or the window elapsed at an instant. *)
Inductive turn := Datagram (n : nat) | Broken (e : io_error) | Elapsed (now : Z).

(** [None]: still waiting after the turns given. *)
Fixpoint source_recv (turns : list turn) (t : StallTracker) : option (result io_error nat) * StallTracker :=
  match turns with
  | [] => (None, t)
  | Datagram n :: _ => (Some (Ok n), mark_active t)
  | Broken e :: _ => (Some (Err e), t)
  | Elapsed now :: turns =>
      if ever_active t && recently_sent now t then (Some (Err TimedOut), report_stall t) else source_recv turns t
  end.

(** ** What a guarded stream reports *)

Inductive call := Read (inner : Poll (result io_error nat)) | Write (inner : Poll (result io_error nat)).

Definition inner_of (c : call) : Poll (result io_error nat) := match c with Read i => i | Write i => i end.

Definition exec (now : Z) (c : call) (g : StreamStallGuard) : Poll (result io_error nat) * StreamStallGuard :=
  match c with Read i => poll_read now i g | Write i => poll_write now i g end.

Definition run (calls : list (Z * call)) (g : StreamStallGuard) : StreamStallGuard :=
  fold_left (fun g c => (exec c.1 c.2 g).2) calls g.

(** The flow's history alone: the time of the last byte moved, and whether a poll found
    nothing to move a whole window after it. *)
Definition moves (c : call) : bool := match inner_of c with Ready (Ok n) => (0 <? n)%nat | _ => false end.
Definition waits (c : call) : bool := match inner_of c with Pending => true | _ => false end.

Fixpoint flatlined (w : Z) (last : option Z) (calls : list (Z * call)) : bool :=
  match calls with
  | [] => false
  | (now, c) :: calls =>
      if moves c then flatlined w (Some now) calls
      else match last with
           | Some t => (waits c && (t + w <=? now)) || flatlined w last calls
           | None => flatlined w last calls
           end
  end.

Definition verdict (w : Z) (calls : list (Z * call)) : list report :=
  if existsb (fun c => moves c.2) calls then (if flatlined w None calls then [Stalled] else [FlowOk]) else [].

Definition last_move (g : StreamStallGuard) : option Z :=
  if armed g then Some (deadline g - window (tracker g)) else None.

Lemma exec_spec now c g :
  (exec now c g).2 =
  if moves c then on_progress now g
  else if waits c && armed g && (deadline g <=? now) then mk_guard (report_stall (tracker g)) (deadline g) (armed g) else g.
Proof.
  destruct g as [t d []], c as [[|[n|e]]|[|[n|e]]]; unfold exec, poll_read, poll_write, poll_deadline, moves, waits; simpl;
    try done; try (by destruct n); by destruct (d <=? now).
Qed.

Definition wf (g : StreamStallGuard) : Prop :=
  ever_active (tracker g) = armed g /\ done_ (tracker g) = false /\
  told (tracker g) = (if stalled (tracker g) then [Stalled] else []) /\ (stalled (tracker g) = true -> armed g = true).

Lemma exec_wf now c g : wf g -> wf (exec now c g).2 /\ window (tracker (exec now c g).2) = window (tracker g).
Proof.
  intros (A & D & T & S). rewrite exec_spec. destruct g as [[w ea lo st dn tl] d ar]; simpl in *; subst.
  destruct (moves c); simpl; [by repeat split|].
  destruct (waits c), ar, (d <=? now); simpl; try by repeat split. destruct st; by repeat split.
Qed.

Lemma run_spec calls : forall g, wf g ->
  let g' := run calls g in
  wf g' /\
  stalled (tracker g') = stalled (tracker g) || flatlined (window (tracker g)) (last_move g) calls /\
  armed g' = armed g || existsb (fun c => moves c.2) calls.
Proof.
  induction calls as [|[now c] calls IH]; intros g W; simpl; [by rewrite !orb_false_r|].
  destruct (exec_wf now c g W) as [W' E]. specialize (IH _ W'). rewrite E in IH. destruct IH as (I1 & I2 & I3).
  split; [done|]. fold (run calls (exec now c g).2). rewrite I2, I3. clear I1 I2 I3.
  rewrite exec_spec. unfold last_move. destruct W as (_ & _ & _ & S).
  destruct (moves c) eqn:Hm; simpl.
  - split; [|by rewrite orb_true_r]. do 2 f_equal. f_equal. lia.
  - split; [|by destruct (waits c && armed g && (deadline g <=? now))].
    destruct (armed g) eqn:Ha; [|rewrite andb_false_r; simpl; rewrite Ha; done]. rewrite andb_true_r.
    replace (deadline g - window (tracker g) + window (tracker g)) with (deadline g) by lia.
    destruct (waits c && (deadline g <=? now)) eqn:Hw; simpl; [|by rewrite Ha].
    by rewrite orb_true_r.
Qed.

(** C29: a guarded stream reports exactly one outcome for a flow that moved data and none for one that did not: over every
    sequence of reads and writes, whatever the stream inside answers, the pool is told of a stall exactly if some poll found
    the stream idle a whole window after the last byte in either direction, and of a clean flow otherwise. *)
Theorem stream_verdict (w start : Z) (calls : list (Z * call)) :
  told (drop_tracker (tracker (run calls (StreamStallGuard_new start (StallTracker_new w))))) = verdict w calls.
Proof.
  destruct (run_spec calls (StreamStallGuard_new start (StallTracker_new w))) as ((A & D & T & S) & E1 & E2); [done|].
  simpl in E1, E2. change (last_move _) with (@None Z) in E1. set (g := run _ _) in *. clearbody g. unfold drop_tracker, verdict. rewrite E1 in T, S. rewrite A, D, E2, E1. simpl.
  destruct (existsb _ _) eqn:Hx; simpl.
  - destruct (flatlined w None calls); simpl; by rewrite T.
  - destruct (flatlined w None calls); [|done]. specialize (S eq_refl). congruence.
Qed.

(** A datagram association stalls only while the application is still sending. *)
Theorem source_stall_sound (turns : list turn) (t t' : StallTracker) :
  source_recv turns t = (Some (Err TimedOut), t') -> (forall e, Broken e ∈ turns -> e <> TimedOut) ->
  exists now, Elapsed now ∈ turns /\ ever_active t = true /\ recently_sent now t = true /\ t' = report_stall t.
Proof.
  induction turns as [|x turns IH]; intros H B; [done|]. destruct x as [n|e|now]; simpl in H; [done| |].
  - simplify_eq. destruct (B TimedOut); [left|done].
  - destruct (ever_active t && recently_sent now t) eqn:Hc.
    + apply andb_prop in Hc as [? ?]. simplify_eq. exists now. split; [left|done].
    + destruct IH as (n & ? & ?); [done|intros e He; apply B; by right|]. exists n. split; [by right|done].
Qed.

End stall.
