(* ===== verification/Select.v ===== *)
(** [core/src/transport/select.rs]: the transport over a pool of servers. New flows go to
    the best member; a prober ranks the members by latency, real failures sink and
    quarantine them, a watchdog demotes starved ones, the user may pin one, and a reload
    swaps the pool. Every definition is one critical section or a sequence of them.
    Instants are nanoseconds since the creation of the pool ([health_base]). *)

From Stdlib Require Import Floats.SpecFloat.
From S2P Require Import Prelude F64 Stall.

Module select.
Import stall.

(** The transports, the probe target and the metadata of a member are handled, not
    inspected. *)
Class Handles := {
  Transport : Type;
  UdpTransport : Type;
  CallbackUrl : Type;
  ServerMeta : Type;
}.

(** ** Data *)

(** [Duration]: nanoseconds up to this. *)
Definition DURATION_MAX : Z := (2 ^ 64 - 1) * 1000000000 + 999999999.
Definition saturating_mul (d k : Z) : Z := Z.min DURATION_MAX (d * k).

Record StallConfig := mk_StallConfig {
  window : Z;
  demote_count : Z;           (* u32 *)
  demote_window : Z;
  quarantine : Z;
  quarantine_max : Z;
  trial_flows : Z;            (* u32 *)
  dial_failure_count : Z;     (* u32 *)
  dial_failure_window : Z;
  starve_check : Z;
  starve_min_bytes : Z;       (* u64 *)
}.

(** What [build_selecting] makes of the default configuration, whose durations are in
    seconds. *)
Definition secs (n : Z) : Z := n * 1000000000.
Definition default_stall : StallConfig :=
  mk_StallConfig (secs 0) 3 (secs 30) (secs 60) (secs 600) 2 3 (secs 30) (secs 15) (64 * 1024).

Definition enabled (c : StallConfig) : bool := negb (window c =? 0).
Definition breaker_enabled (c : StallConfig) : bool := (0 <? dial_failure_count c) && negb (dial_failure_window c =? 0).
Definition starve_enabled (c : StallConfig) : bool := negb (starve_check c =? 0) && (0 <? starve_min_bytes c).

(** The outcome of a probe; an unhealthy one has the latency [Duration::MAX]. *)
Record ProbeOutcome := mk_outcome { healthy : bool; latency : Z }.

Inductive MemberState :=
| Healthy
| Quarantined (until strikes : Z)
| OnTrial (clean_needed strikes : Z).

Record MemberHealth := mk_health {
  state : MemberState;
  recent_stalls : list Z;           (* milliseconds *)
  recent_dial_failures : list Z;
}.
#[export] Instance eta_MemberHealth : Settable MemberHealth :=
  fun h => mk_health (state h) (recent_stalls h) (recent_dial_failures h).

Definition MemberHealth_new : MemberHealth := mk_health Healthy [] [].

Record Selection := mk_selection {
  ranked : list nat;
  latest : list (option ProbeOutcome);
  pinned : option nat;
}.
#[export] Instance eta_Selection : Settable Selection := fun s => mk_selection (ranked s) (latest s) (pinned s).

Section pool.
Context {H : Handles}.

Record Member := mk_member {
  transport : Transport;
  udp : UdpTransport;
  callback : CallbackUrl;
  meta : ServerMeta;
  label : bytes;
  protocol : bytes;
}.

Definition Member_new (t : Transport) (u : UdpTransport) (c : CallbackUrl) (m : ServerMeta) : Member := mk_member t u c m [] [].
Definition with_label (l : bytes) (m : Member) : Member :=
  mk_member (transport m) (udp m) (callback m) (meta m) l (protocol m).
Definition with_protocol (p : bytes) (m : Member) : Member :=
  mk_member (transport m) (udp m) (callback m) (meta m) (label m) p.

(** [cells] are all the counters ever allocated; [activity] names those of the current
    members, so that a flow of an earlier pool keeps the cell it holds. [reprobe] is the
    permit of the [Notify]. *)
Record SelectingTransport := mk_pool {
  members : list Member;
  selection : Selection;
  epoch : Z;                        (* u64 *)
  reprobe : bool;
  stall : StallConfig;
  health : list MemberHealth;
  cells : list MemberActivity;
  activity : list nat;
}.
#[export] Instance eta_SelectingTransport : Settable SelectingTransport :=
  fun s => mk_pool (members s) (selection s) (epoch s) (reprobe s) (stall s) (health s) (cells s) (activity s).

Definition SelectingTransport_new (ms : list Member) (c : StallConfig) : SelectingTransport :=
  let n := length ms in
  mk_pool ms (mk_selection (seq 0 n) (replicate n None) None) 0 false c (replicate n MemberHealth_new)
    (replicate n MemberActivity_new) (seq 0 n).

(** ** The dial order *)

(** [activity_for]: the counter a new flow of a member counts into. *)
Definition activity_for (s : SelectingTransport) (member : nat) : option nat :=
  if negb (starve_enabled (stall s)) then None else activity s !! member.

Definition is_excluded (now : Z) (h : MemberHealth) : bool :=
  match state h with Quarantined until _ => now <? until | _ => false end.

(** The indices of a list that satisfy a test: [iter().enumerate().filter(..)]. *)
Definition indices {A} (f : A -> bool) (l : list A) : list nat :=
  filter (fun i => from_option f false (l !! i) = true) (seq 0 (length l)).

Definition excluded (now : Z) (s : SelectingTransport) : list nat := indices (is_excluded now) (health s).

(** [recently_failed_in]. *)
Definition recently_failed_in (now window : Z) (hs : list MemberHealth) : list nat :=
  indices (fun h => existsb (fun t => sat_sub (as_millis now) t <=? as_millis window) (recent_dial_failures h)) hs.

Definition recently_failed (now : Z) (s : SelectingTransport) : list nat :=
  if negb (breaker_enabled (stall s)) then [] else recently_failed_in now (dial_failure_window (stall s)) (health s).

(** The first scope of [members_and_order]. *)
Definition promote_one (now trial_flows : Z) (h : MemberHealth) : MemberHealth :=
  match state h with
  | Quarantined until strikes => if until <=? now then h <| state := OnTrial trial_flows strikes |> else h
  | _ => h
  end.
Definition promote (now : Z) (s : SelectingTransport) : SelectingTransport :=
  s <| health := promote_one now (trial_flows (stall s)) <$> health s |>.

(** The second: the pin, then the ranking. *)
Definition base_order (s : SelectingTransport) : list nat :=
  match pinned (selection s) with
  | Some p => if (p <? length (members s))%nat then p :: filter (fun i => i <> p) (ranked (selection s)) else ranked (selection s)
  | None => ranked (selection s)
  end.

(** The fourth: members with a recent failure behind the clean ones. *)
Definition sink_failed (failed order : list nat) : list nat :=
  let failed := filter (fun i => i ∈ order) failed in
  if (length failed =? 0)%nat || (length failed =? length order)%nat then order
  else filter (fun i => i ∉ failed) order ++ filter (fun i => i ∈ failed) order.

Definition is_trial (h : MemberHealth) : bool := match state h with OnTrial _ _ => true | _ => false end.

(** [iter().position(..)]. *)
Definition position {A} (f : A -> bool) (l : list A) : option nat := head (indices f l).

(** The fifth: the member on trial in front. *)
Definition lead_trial (trial : option nat) (order : list nat) : list nat :=
  match trial with
  | Some tm => if decide (tm ∈ order) then tm :: filter (fun i => i <> tm) order else order
  | None => order
  end.

Definition members_and_order (now : Z) (s : SelectingTransport) : (list Member * list nat) * SelectingTransport :=
  let s := promote now s in
  let order := base_order s in
  let order := filter (fun i => i ∉ excluded now s) order in
  let order := sink_failed (recently_failed now s) order in
  let order := lead_trial (position is_trial (health s)) order in
  ((members s, order), s).

(** ** Demotion *)

(** [demote_in]: whether the ranking changed, and the pool. *)
Definition demote_in (member : nat) (s : SelectingTransport) : bool * SelectingTransport :=
  let r := ranked (selection s) in
  match position (Nat.eqb member) r with
  | None => (false, s)
  | Some pos =>
      if (pos + 1 =? length r)%nat then (false, s)
      else (true, s <| selection := (selection s) <| ranked := delete pos r ++ [member] |> |> <| reprobe := true |>)
  end.
Definition demote (member : nat) (s : SelectingTransport) : SelectingTransport := (demote_in member s).2.

(** ** Pin and snapshot *)

Definition set_pin (index : option nat) (s : SelectingTransport) : bool * SelectingTransport :=
  match index with
  | Some i => if (length (members s) <=? i)%nat then (false, s) else (true, s <| selection := (selection s) <| pinned := index |> |>)
  | None => (true, s <| selection := (selection s) <| pinned := None |> |>)
  end.

Record MemberStatus := mk_status {
  index : nat;
  m_meta : ServerMeta;
  m_protocol : bytes;
  latency_ms : option Z;
  is_healthy : bool;
  is_current : bool;
  is_pinned : bool;
}.

(** [sel.latest.get(i).copied().flatten()]. *)
Definition outcome_of (sel : Selection) (i : nat) : option ProbeOutcome := default None (latest sel !! i).

(** The part of [snapshot] under the selection lock. *)
Definition snapshot_read (excl failing : list nat) (dial_first : option nat) (gen_before : Z) (s : SelectingTransport) : list MemberStatus :=
  let sel := selection s in
  let n := length (members s) in
  let hd := if epoch s =? gen_before then dial_first else head (ranked sel) in
  let in_range := match hd with Some i => if (i <? n)%nat then Some i else None | None => None end in
  let current :=
    match pinned sel with
    | Some p => if (p <? n)%nat then Some p else in_range
    | None => in_range
    end in
  imap (fun i m =>
    let outcome := outcome_of sel i in
    let probe_healthy := match outcome with Some o => healthy o | None => false end in
    mk_status i (meta m) (protocol m)
      (match outcome with Some o => if healthy o then Some (as_millis (latency o)) else None | None => None end)
      (probe_healthy && bool_decide (i ∉ excl) && bool_decide (i ∉ failing))
      (bool_decide (Some i = current)) (bool_decide (pinned sel = Some i))) (members s).

Definition snapshot (now : Z) (s : SelectingTransport) : list MemberStatus * SelectingTransport :=
  let excl := excluded now s in
  let failing := recently_failed now s in
  let gen_before := epoch s in
  let '((_, order), s) := members_and_order now s in
  (snapshot_read excl failing (head order) gen_before s, s).

(** ** Reload *)

Definition by_label (l : bytes) (ms : list Member) : option nat := position (fun m => bool_decide (label m = l)) ms.

(** The best member that works: the pin or the head of the ranking, if its last probe
    was healthy. *)
Definition prior_best (s : SelectingTransport) : option (Member * ProbeOutcome) :=
  let sel := selection s in
  let idx := match pinned sel with
             | Some p => if (p <? length (members s))%nat then Some p else head (ranked sel)
             | None => head (ranked sel)
             end in
  let! i := idx in
  let! m := members s !! i in
  let! o := outcome_of sel i in
  if healthy o && negb (bool_decide (label m = [])) then Some (m, o) else None.

Definition pinned_member (s : SelectingTransport) : option Member :=
  let! p := pinned (selection s) in
  let! m := members s !! p in
  if bool_decide (label m = []) then None else Some m.

(** The members of the new pool and where the carried one is. *)
Definition carry_prior (prior : option (Member * ProbeOutcome)) (new_members : list Member) : list Member * option (nat * ProbeOutcome) :=
  match prior with
  | Some (m, oc) =>
      match by_label (label m) new_members with
      | Some pos => (new_members, Some (pos, oc))
      | None => (new_members ++ [m], Some (length new_members, oc))
      end
  | None => (new_members, None)
  end.
Definition carry_pin (pin : option Member) (new_members : list Member) : list Member :=
  match pin with
  | Some m => if existsb (fun nm => bool_decide (label nm = label m)) new_members then new_members else new_members ++ [m]
  | None => new_members
  end.

(** The part under the selection lock. *)
Definition reload_swap (new_members : list Member) (s : SelectingTransport) : SelectingTransport :=
  let pin := pinned_member s in
  let '(ms, carried) := carry_prior (prior_best s) new_members in
  let ms := carry_pin pin ms in
  let n := length ms in
  let r := match carried with
           | Some (ci, _) => ci :: filter (fun i => i <> ci) (seq 0 n)
           | None => seq 0 n
           end in
  let lat := match carried with
             | Some (ci, oc) => <[ci := Some oc]> (replicate n None)
             | None => replicate n None
             end in
  let p := let! m := pin in by_label (label m) ms in
  s <| members := ms |> <| epoch := wrap64 (epoch s + 1) |> <| selection := mk_selection r lat p |>.

(** The scopes after it: [n] is the size of the pool swapped in. *)
Definition reload_finish (n : nat) (s : SelectingTransport) : SelectingTransport :=
  s <| health := replicate n MemberHealth_new |>
    <| activity := seq (length (cells s)) n |>
    <| cells := cells s ++ replicate n MemberActivity_new |>
    <| reprobe := true |>.

Definition reload (new_members : list Member) (s : SelectingTransport) : SelectingTransport :=
  let s := reload_swap new_members s in
  reload_finish (length (members s)) s.

(** ** Failures and stalls *)

(** Drop the front of a history while it is older than the window. *)
Fixpoint prune (now_ms window_ms : Z) (l : list Z) : list Z :=
  match l with
  | front :: l' => if window_ms <? sat_sub now_ms front then prune now_ms window_ms l' else l
  | [] => []
  end.

Definition strikes_of (st : MemberState) : Z :=
  match st with Quarantined _ k => k | OnTrial _ k => k | Healthy => 0 end.

(** [n] strikes: the cooldown doubles with every strike. *)
Definition backoff (c : StallConfig) (n : Z) : Z :=
  let shift := Z.min (n - 1) 16 in
  Z.min (saturating_mul (quarantine c) (Z.shiftl 1 shift)) (quarantine_max c).

Definition sat_succ32 (k : Z) : Z := Z.min (2 ^ 32 - 1) (k + 1).

(** [live]: the members a flow may be offered. *)
Definition live (now : Z) (hs : list MemberHealth) : nat := length (filter (fun h => is_excluded now h = false) hs).

Definition record_dial_failure (now : Z) (member : nat) (s : SelectingTransport) : SelectingTransport :=
  let c := stall s in
  if negb (breaker_enabled c) then s else
  let now_ms := as_millis now in
  let window_ms := as_millis (dial_failure_window c) in
  let live := live now (health s) in
  match health s !! member with
  | None => s
  | Some h =>
      let h := h <| recent_dial_failures := prune now_ms window_ms (recent_dial_failures h ++ [now_ms]) |> in
      if wrap32 (Z.of_nat (length (recent_dial_failures h))) <? dial_failure_count c then s <| health := <[member := h]> (health s) |>
      else if (live <=? 1)%nat then s <| health := <[member := h]> (health s) |>
      else
        let n := sat_succ32 (strikes_of (state h)) in
        let h := h <| state := Quarantined (now + backoff c n) n |> <| recent_dial_failures := [] |> <| recent_stalls := [] |> in
        s <| health := <[member := h]> (health s) |>
  end.

Definition record_dial_ok (member : nat) (s : SelectingTransport) : SelectingTransport :=
  if negb (breaker_enabled (stall s)) then s else
  match health s !! member with
  | Some h => s <| health := <[member := h <| recent_dial_failures := [] |>]> (health s) |>
  | None => s
  end.

Definition record_stall (now : Z) (member : nat) (s : SelectingTransport) : SelectingTransport :=
  let c := stall s in
  let now_ms := as_millis now in
  let window_ms := as_millis (demote_window c) in
  match health s !! member with
  | None => s
  | Some h =>
      let h := h <| recent_stalls := prune now_ms window_ms (recent_stalls h ++ [now_ms]) |> in
      let h :=
        if is_trial h || (demote_count c <=? wrap32 (Z.of_nat (length (recent_stalls h)))) then
          let n := sat_succ32 (strikes_of (state h)) in
          h <| state := Quarantined (now + backoff c n) n |> <| recent_stalls := [] |>
        else h in
      s <| health := <[member := h]> (health s) |>
  end.

Definition record_flow_ok (member : nat) (s : SelectingTransport) : SelectingTransport :=
  match health s !! member with
  | None => s
  | Some h =>
      let h :=
        match state h with
        | OnTrial clean_needed strikes =>
            let clean := sat_sub clean_needed 1 in
            if clean =? 0 then h <| state := Healthy |> <| recent_stalls := [] |> else h <| state := OnTrial clean strikes |>
        | Healthy => h <| recent_stalls := [] |>
        | Quarantined _ _ => h
        end in
      s <| health := <[member := h]> (health s) |>
  end.

(** ** Dialling *)

(** [dial], [dial_addr], [dial_udp] and [dial_udp_addr]. *)
Inductive method := Dial | DialAddr (domain : bool) | DialUdp | DialUdpAddr.

(** What the transport of a member answers. *)
Inductive answer := Dialed | Unsupported | Failed.

(** The arms of the match on an answer. *)
Definition settle (m : method) (now : Z) (i : nat) (a : answer) (s : SelectingTransport) : SelectingTransport :=
  match a, m with
  | Dialed, _ => record_dial_ok i s
  | Unsupported, (DialAddr _ | DialUdp | DialUdpAddr) => s
  | Unsupported, Dial | Failed, _ => demote i (record_dial_failure now i s)
  end.

(** A flow being dialled: the snapshot it took, and the members it has still to try. *)
Record Flow := mk_flow { f_method : method; f_members : list Member; f_order : list nat }.

(** How a flow ends: through a member, directly, or with an error. *)
Inductive route := Through (i : nat) (m : Member) (counter : option nat) (guarded : bool) | Direct | Refused.

Definition open_flow (m : method) (now : Z) (s : SelectingTransport) : Flow * SelectingTransport :=
  let '((ms, order), s) := members_and_order now s in (mk_flow m ms order, s).

(** The next member to try, past indices out of range. *)
Fixpoint next_try (ms : list Member) (order : list nat) : option (nat * Member * list nat) :=
  match order with
  | [] => None
  | i :: order => match ms !! i with Some m => Some (i, m, order) | None => next_try ms order end
  end.

(** The end of the loop: a name cannot be dialled directly over TCP. *)
Definition exhausted (m : method) : route := match m with DialAddr true => Refused | _ => Direct end.

(** One turn of the loop, after the member to try has answered. *)
Definition flow_turn (now : Z) (answers : nat -> Member -> answer) (f : Flow) (s : SelectingTransport) : (Flow + route) * SelectingTransport :=
  match next_try (f_members f) (f_order f) with
  | None => (inr (exhausted (f_method f)), s)
  | Some (i, m, order) =>
      let a := answers i m in
      let s := settle (f_method f) now i a s in
      match a with
      | Dialed => (inr (Through i m (activity_for s i) (enabled (stall s))), s)
      | _ => (inl (mk_flow (f_method f) (f_members f) order), s)
      end
  end.

(** The whole call, with nothing in between; a turn shortens the order. *)
Fixpoint flow_loop (fuel : nat) (now : Z) (answers : nat -> Member -> answer) (f : Flow) (s : SelectingTransport) : option (route * SelectingTransport) :=
  match fuel with
  | O => None
  | S fuel => match flow_turn now answers f s with
              | (inr r, s) => Some (r, s)
              | (inl f, s) => flow_loop fuel now answers f s
              end
  end.
Definition dial (m : method) (now : Z) (answers : nat -> Member -> answer) (s : SelectingTransport) : option (route * SelectingTransport) :=
  let '(f, s) := open_flow m now s in flow_loop (S (length (f_order f))) now answers f s.

(** ** The watchdog *)

Definition samples (s : SelectingTransport) : list (Z * Z) :=
  (fun i => sample (default MemberActivity_new (cells s !! i))) <$> activity s.

(** One round: the starved members are demoted, in the order of their indices. *)
Definition watchdog_round (prev : list (Z * Z)) (s : SelectingTransport) : list (Z * Z) * SelectingTransport :=
  let now := samples s in
  if negb (length prev =? length now)%nat then (now, s) else
  let starved := indices (fun p : (Z * Z) * (Z * Z) =>
    looks_starved (sat_sub p.1.1 p.2.1) (sat_sub p.1.2 p.2.2) (starve_min_bytes (stall s))) (zip now prev) in
  (now, fold_left (fun s i => demote i s) starved s).

(** ** The prober *)

(** [sort_by_key]: a stable sort; equal keys keep their order. *)
Definition key_le (a b : bool * Z) : bool :=
  match a.1, b.1 with
  | false, true => true
  | true, false => false
  | _, _ => a.2 <=? b.2
  end.
Fixpoint insert_by {A} (key : A -> bool * Z) (x : A) (l : list A) : list A :=
  match l with
  | [] => [x]
  | y :: l' => if key_le (key y) (key x) then y :: insert_by key x l' else x :: l
  end.
Definition sort_by {A} (key : A -> bool * Z) (l : list A) : list A := fold_left (fun acc x => insert_by key x acc) l [].

Definition rank (outcomes : list (nat * ProbeOutcome)) (failing : list nat) : list nat :=
  let hs := filter (fun o => healthy o.2 = true) outcomes in
  (sort_by (fun o => (bool_decide (o.1 ∈ failing), latency o.2)) hs).*1.

(** [Duration::as_secs_f64]. *)
Definition as_secs_f64 (d : Z) : f64.t :=
  f64.add (f64.of_int (d / 1000000000)) (f64.div (f64.of_int (d mod 1000000000)) (f64.of_int 1000000000)).

(** The double nearest to [0.20]. *)
Definition SWITCH_MARGIN : f64.t := f64.of_dyadic 3602879701896397 (-54).

Definition find_outcome (i : nat) (l : list (nat * ProbeOutcome)) : option ProbeOutcome :=
  snd <$> head (filter (fun o => o.1 = i) l).

Definition next_order (current : list nat) (fresh : list (nat * ProbeOutcome)) (failing : list nat) : list nat :=
  let r := rank fresh failing in
  match head current with
  | None => r
  | Some incumbent =>
      if decide (incumbent ∈ failing) then r else
      let incumbent_latency := match find_outcome incumbent fresh with
                               | Some o => if healthy o then Some (latency o) else None
                               | None => None
                               end in
      match incumbent_latency, head r with
      | Some inc, Some ch =>
          if decide (ch = incumbent) then r else
          let ch_latency := match find_outcome ch fresh with Some o => latency o | None => DURATION_MAX end in
          if f64.le (as_secs_f64 ch_latency) (f64.mul (as_secs_f64 inc) (f64.sub (f64.of_int 1) SWITCH_MARGIN)) then r
          else incumbent :: filter (fun i => i <> incumbent) r
      | _, _ => r
      end
  end.

(** A round in flight: the snapshot of the members and their generation. *)
Record Round := mk_round { r_members : list Member; gen : Z }.

Definition begin_round (s : SelectingTransport) : Round := mk_round (members s) (epoch s).

Definition resized (n : nat) (l : list (option ProbeOutcome)) : list (option ProbeOutcome) :=
  if (length l =? n)%nat then l else replicate n None.

(** One finished probe. *)
Definition publish (r : Round) (i : nat) (o : ProbeOutcome) (s : SelectingTransport) : SelectingTransport :=
  if epoch s =? gen r then
    s <| selection := (selection s) <| latest := <[i := Some o]> (resized (length (r_members r)) (latest (selection s))) |> |>
  else s.

(** The end of a round: whether it was applied. *)
Definition apply_round (now : Z) (r : Round) (outcomes : list (nat * ProbeOutcome)) (measured : bool) (s : SelectingTransport)
    : bool * SelectingTransport :=
  let failing := recently_failed now s in
  if epoch s =? gen r then
    let sel := selection s in
    let lat := fold_left (fun l (o : nat * ProbeOutcome) => <[o.1 := Some o.2]> l) outcomes (resized (length (r_members r)) (latest sel)) in
    let rk := if measured then next_order (ranked sel) outcomes failing else rank outcomes failing in
    (true, s <| selection := sel <| latest := lat |> <| ranked := rk |> |>)
  else (false, s).

End pool.
#[global] Arguments Member _ : clear implicits.
#[global] Arguments SelectingTransport _ : clear implicits.

End select.
