(* ===== verification/SelectProps.v ===== *)
(** The pool of [Select] as a system of concurrent tasks: flows being dialled, the prober,
    the watchdog, the control calls and a reload in two parts, interleaved at the critical
    sections. Invariants, the dial order, the pool floor and reloads. *)

From S2P Require Import Prelude Lists F64 Stall Select.

Module select_props.
Import stall select.

(** ** Lists of indices *)

Lemma elem_of_indices {A} (f : A -> bool) l i : i ∈ indices f l <-> exists x, l !! i = Some x /\ f x = true.
Proof.
  unfold indices. rewrite list_elem_of_filter, elem_of_seq. split.
  - intros [Hf _]. destruct (l !! i) as [x|]; [|done]. by exists x.
  - intros (x & E & Hf). rewrite E. split; [done|]. apply lookup_lt_Some in E. lia.
Qed.

Lemma NoDup_indices {A} (f : A -> bool) l : NoDup (indices f l).
Proof. apply list.NoDup_filter, NoDup_seq. Qed.

Lemma position_Some {A} (f : A -> bool) l i : position f l = Some i -> exists x, l !! i = Some x /\ f x = true.
Proof.
  unfold position. intros E. apply elem_of_indices. destruct (indices f l); [done|]. simplify_eq/=. left.
Qed.

Lemma position_None {A} (f : A -> bool) l : position f l = None -> forall i x, l !! i = Some x -> f x = false.
Proof.
  unfold position. intros E i x Hx. destruct (f x) eqn:Hf; [|done]. exfalso.
  assert (i ∈ indices f l) as Hi by (apply elem_of_indices; eauto). destruct (indices f l); [by apply elem_of_nil in Hi|done].
Qed.

(** The first index. *)
Lemma position_first {A} (f : A -> bool) l i : position f l = Some i <->
  (exists x, l !! i = Some x /\ f x = true) /\ forall j x, l !! j = Some x -> f x = true -> (i <= j)%nat.
Proof.
  unfold position. pose proof (fun j => elem_of_indices f l j) as E.
  assert (StronglySorted lt (indices f l)) as S.
  { apply sorted_filter. generalize 0%nat as a. induction (length l) as [|n IH]; intros a; simpl; constructor; [done|].
    apply list.Forall_forall. intros j Hj%elem_of_seq. lia. }
  destruct (indices f l) as [|k r] eqn:Ei; simpl.
  - split; [done|]. intros [Hx _]. apply E in Hx. by apply elem_of_nil in Hx.
  - apply StronglySorted_inv in S as [_ S]. rewrite list.Forall_forall in S.
    assert (forall j x, l !! j = Some x -> f x = true -> (k <= j)%nat) as Hmin.
    { intros j x Hj Hf. assert (j ∈ k :: r) as Hin by (apply E; eauto). apply elem_of_cons in Hin as [->|Hin]; [lia|]. apply S in Hin. lia. }
    assert (exists x, l !! k = Some x /\ f x = true) as Hk by (apply E; left). split.
    + intros [= <-]. done.
    + intros [(x & Hx & Hf) Hi]. f_equal. destruct Hk as (y & Hy & Hg). pose proof (Hmin _ _ Hx Hf). pose proof (Hi _ _ Hy Hg). lia.
Qed.

(** ** The dial order *)

Section pool.
Context {H : Handles}.
Implicit Types s : SelectingTransport H.

(** Ranked members are distinct members, the probe results and the pin are of members. *)
Record selection_ok (n : nat) (sel : Selection) : Prop := {
  so_nodup : NoDup (ranked sel);
  so_range : Forall (fun i => i < n)%nat (ranked sel);
  so_latest : length (latest sel) = n;
  so_pin : forall p, pinned sel = Some p -> (p < n)%nat;
}.
Abbreviation pool_ok s := (selection_ok (length (members s)) (selection s)).

Lemma sink_failed_spec failed order : NoDup failed -> NoDup order ->
  sink_failed failed order = filter (fun i => i ∉ failed) order ++ filter (fun i => i ∈ failed) order.
Proof.
  intros Nf No. unfold sink_failed. set (F := filter (fun i => i ∈ order) failed).
  assert (forall i, i ∈ order -> i ∈ F <-> i ∈ failed) as HF by (intros i Hi; unfold F; rewrite list_elem_of_filter; tauto).
  assert (filter (fun i => i ∉ F) order = filter (fun i => i ∉ failed) order) as E1.
  { apply filter_elem_iff. intros i Hi. by rewrite (HF i Hi). }
  assert (filter (fun i => i ∈ F) order = filter (fun i => i ∈ failed) order) as E2.
  { apply filter_elem_iff. intros i Hi. by rewrite (HF i Hi). }
  destruct (Nat.eqb_spec (length F) 0) as [Z|Z]; simpl.
  - apply nil_length_inv in Z. rewrite <- E1, <- E2, Z.
    rewrite (filter_none (fun i => i ∈ [])) by (apply list.Forall_forall; intros; apply not_elem_of_nil).
    rewrite app_nil_r, filter_all; [done|]. apply list.Forall_forall. intros. apply not_elem_of_nil.
  - destruct (Nat.eqb_spec (length F) (length order)) as [L|L]; [|by rewrite E1, E2].
    assert (F ≡ₚ order) as P.
    { apply submseteq_length_Permutation; [|lia]. apply NoDup_submseteq; [by apply list.NoDup_filter|]. intros i Hi. unfold F in Hi. by apply list_elem_of_filter in Hi as [? _]. }
    rewrite <- E1, <- E2.
    rewrite (filter_none (fun i => i ∉ F)) by (apply list.Forall_forall; intros i Hi Hn; apply Hn; by rewrite P).
    symmetry. apply filter_all, list.Forall_forall. intros i Hi. by rewrite P.
Qed.

Lemma base_order_spec s : pool_ok s ->
  NoDup (base_order s) /\ forall i, i ∈ base_order s <-> i ∈ ranked (selection s) \/ pinned (selection s) = Some i.
Proof.
  intros [N R _ P]. unfold base_order. destruct (pinned (selection s)) as [p|]; [|split; [done|]; intros i; split; [by left|by intros [|]]].
  rewrite (proj2 (Nat.ltb_lt _ _)) by by apply P. split.
  - constructor; [by rewrite list_elem_of_filter; intros []|by apply list.NoDup_filter].
  - intros i. rewrite elem_of_cons, list_elem_of_filter. destruct (decide (i = p)) as [->|].
    + split; intros; [by right|by left].
    + split; [intros [?|[]]; [done|by left]|intros [?|?]; [by right|congruence]].
Qed.

Lemma lead_trial_perm t l : NoDup l -> lead_trial t l ≡ₚ l.
Proof. intros N. destruct t as [t|]; simpl; [|done]. case_decide; [by apply move_front|done]. Qed.

Lemma promote_excluded now tf h : is_excluded now (promote_one now tf h) = is_excluded now h.
Proof.
  unfold is_excluded, promote_one. destruct (state h) as [|u k|c k] eqn:E; simpl; rewrite ?E; try done.
  destruct (Z.leb_spec u now); simpl; rewrite ?E; [|done]. symmetry. apply Z.ltb_ge. lia.
Qed.

Lemma indices_fmap {A} (f : A -> bool) (g : A -> A) l : (forall x, f (g x) = f x) -> indices f (g <$> l) = indices f l.
Proof.
  intros E. unfold indices. rewrite length_fmap. apply list_filter_iff. intros i. rewrite list_lookup_fmap.
  destruct (l !! i); simpl; [by rewrite E|done].
Qed.

Lemma excluded_promote now s : excluded now (promote now s) = excluded now s.
Proof. apply indices_fmap. intros h. apply promote_excluded. Qed.

Lemma recently_failed_promote now s : recently_failed now (promote now s) = recently_failed now s.
Proof.
  unfold recently_failed. simpl. destruct (negb _); [done|]. apply indices_fmap. intros h. f_equal.
  unfold promote_one. destruct (state h); try done. by destruct (until <=? now).
Qed.

(** What a flow opened now may be sent through: what is ranked, or pinned, and not quarantined. *)
Definition dialable (now : Z) s (i : nat) : Prop :=
  (i ∈ ranked (selection s) \/ pinned (selection s) = Some i) /\ i ∉ excluded now s.

Lemma members_and_order_spec (now : Z) (s : SelectingTransport H) : pool_ok s ->
  let '((ms, order), s') := members_and_order now s in
  let base := filter (fun i => i ∉ excluded now s) (base_order s) in
  let failed := recently_failed now s in
  ms = members s /\ NoDup order /\ (forall i, i ∈ order <-> dialable now s i) /\ Forall (fun i => i < length ms)%nat order /\
  order = lead_trial (position is_trial (health s')) (filter (fun i => i ∉ failed) base ++ filter (fun i => i ∈ failed) base) /\
  s' = s <| health := promote_one now (trial_flows (stall s)) <$> health s |>.
Proof.
  intros W. destruct (base_order_spec s W) as [N M]. unfold members_and_order.
  rewrite excluded_promote, recently_failed_promote. change (base_order (promote now s)) with (base_order s).
  set (base := filter (fun i => i ∉ excluded now s) (base_order s)).
  assert (NoDup base) as Nb by by apply list.NoDup_filter.
  assert (NoDup (recently_failed now s)) as Nf.
  { unfold recently_failed. destruct (negb _); [constructor|apply NoDup_indices]. }
  rewrite sink_failed_spec by done. set (l := _ ++ _).
  assert (l ≡ₚ base) as Pl.
  { subst l. rewrite Permutation_app_comm. apply (filter_split (fun i => i ∈ recently_failed now s)). }
  set (t := position is_trial (health (promote now s))).
  assert (lead_trial t l ≡ₚ base) as Pt by (rewrite lead_trial_perm; [done|by rewrite Pl]).
  assert (forall i, i ∈ lead_trial t l <-> dialable now s i) as D.
  { intros i. rewrite Pt. subst base. rewrite list_elem_of_filter, M. unfold dialable. tauto. }
  split; [done|]. split; [by rewrite Pt|]. split; [done|]. split; [|done].
  apply list.Forall_forall. intros i Hi. apply D in Hi as [[Hi|Hi] _]; destruct W as [_ R _ P]; [|by apply P].
  rewrite list.Forall_forall in R. by apply R.
Qed.

(** *** The order in terms of the state alone *)

Definition quarantined (now : Z) s (i : nat) : Prop :=
  exists h until k, health s !! i = Some h /\ state h = Quarantined until k /\ now < until.
(** A failed dial within the breaker's window. *)
Definition failed_lately (now : Z) s (i : nat) : Prop :=
  breaker_enabled (stall s) = true /\
  exists h t, health s !! i = Some h /\ t ∈ recent_dial_failures h /\ sat_sub (as_millis now) t <= as_millis (dial_failure_window (stall s)).
(** On trial, or due to be. *)
Definition trial (now : Z) s (i : nat) : Prop :=
  exists h, health s !! i = Some h /\ ((exists n k, state h = OnTrial n k) \/ exists until k, state h = Quarantined until k /\ until <= now).
(** The first member on trial. *)
Definition leader (now : Z) s (i : nat) : Prop := trial now s i /\ forall j, trial now s j -> (i <= j)%nat.

(** What puts a member before another: being the leader; then no recent failure; then the pin; then the place in the ranking. *)
Definition chosen_first s (i j : nat) : Prop :=
  pinned (selection s) = Some i \/ pinned (selection s) <> Some j /\ before (ranked (selection s)) i j.
Definition sooner (now : Z) s (i j : nat) : Prop :=
  ~ failed_lately now s i /\ failed_lately now s j \/ (failed_lately now s i <-> failed_lately now s j) /\ chosen_first s i j.
Definition precedes (now : Z) s (i j : nat) : Prop := leader now s i \/ ~ leader now s j /\ sooner now s i j.

Lemma excluded_iff now s i : i ∈ excluded now s <-> quarantined now s i.
Proof.
  unfold excluded. rewrite elem_of_indices. unfold is_excluded, quarantined. split.
  - intros (h & Hh & E). destruct (state h) as [|u k|] eqn:Es; try done. exists h, u, k. split; [done|]. split; [done|]. by apply Z.ltb_lt.
  - intros (h & u & k & Hh & Es & Hu). exists h. rewrite Es. split; [done|]. by apply Z.ltb_lt.
Qed.

Lemma recently_failed_iff now s i : i ∈ recently_failed now s <-> failed_lately now s i.
Proof.
  unfold recently_failed, failed_lately, recently_failed_in. destruct (breaker_enabled (stall s)); simpl.
  - rewrite elem_of_indices. split.
    + intros (h & Hh & (t & Ht & E)%existsb_exists). split; [done|]. exists h, t. split; [done|]. split; [by apply list_elem_of_In|]. by apply Z.leb_le.
    + intros (_ & h & t & Hh & Ht & E). exists h. split; [done|]. apply existsb_exists. exists t. split; [by apply list_elem_of_In|]. by apply Z.leb_le.
  - split; [intros Hi; by apply elem_of_nil in Hi|by intros [? _]].
Qed.

Lemma trial_iff now s i : (exists h, health (promote now s) !! i = Some h /\ is_trial h = true) <-> trial now s i.
Proof.
  unfold trial. simpl. rewrite list_lookup_fmap. destruct (health s !! i) as [h|]; simpl; [|by split; intros (? & ? & _)].
  unfold is_trial, promote_one. split.
  - intros (h' & [= <-] & E). exists h. split; [done|]. destruct (state h) as [|u k|n k] eqn:Es; simpl in *; rewrite ?Es in E; [done| |by left; exists n, k].
    right. exists u, k. split; [done|]. destruct (Z.leb_spec u now); [done|]. by rewrite Es in E.
  - intros (h' & [= <-] & E). eexists. split; [done|]. destruct E as [(n & k & Es)|(u & k & Es & Hu)]; [by rewrite Es, Es|].
    rewrite Es. by rewrite (proj2 (Z.leb_le _ _) Hu).
Qed.

Lemma leader_iff now s i : position is_trial (health (promote now s)) = Some i <-> leader now s i.
Proof.
  rewrite position_first. unfold leader. rewrite trial_iff. split; intros [Ht Hm]; (split; [done|]).
  - intros j Hj. apply trial_iff in Hj as (h & Hh & E). by eapply Hm.
  - intros j h Hh E. apply Hm, trial_iff. eauto.
Qed.

Lemma leader_unique now s i j : leader now s i -> leader now s j -> i = j.
Proof. intros [H1 H2] [H3 H4]. specialize (H2 _ H3). specialize (H4 _ H1). lia. Qed.

Lemma base_order_sorted s : pool_ok s -> StronglySorted (chosen_first s) (base_order s).
Proof.
  intros [_ _ _ P]. unfold base_order, chosen_first. pose proof (sorted_before (ranked (selection s))) as Sb.
  destruct (pinned (selection s)) as [p|] eqn:Ep; [rewrite (proj2 (Nat.ltb_lt _ _)) by (by apply P); constructor|].
  - eapply sorted_impl; [|by apply sorted_filter]. intros x y _ [Hy _]%list_elem_of_filter Hb. right. split; [congruence|done].
  - apply list.Forall_forall. intros j _. by left.
  - eapply sorted_impl; [|exact Sb]. intros x y _ _ Hb. by right.
Qed.

Lemma order_sorted now s : pool_ok s -> StronglySorted (precedes now s) (members_and_order now s).1.2.
Proof.
  intros W. pose proof (members_and_order_spec now s W) as D. destruct (members_and_order now s) as [[ms order] s'].
  destruct D as (_ & _ & _ & _ & E & ->). cbn [fst snd]. change (health _) with (health (promote now s)) in E.
  set (base := filter (fun i => i ∉ excluded now s) (base_order s)) in *. set (l := _ ++ _) in E.
  assert (StronglySorted (chosen_first s) base) as Sb by by apply sorted_filter, base_order_sorted.
  assert (StronglySorted (sooner now s) l) as Sl.
  { apply sorted_app.
    - eapply sorted_impl; [|by apply sorted_filter]. intros x y [Hx _]%list_elem_of_filter [Hy _]%list_elem_of_filter Hc.
      right. rewrite <- !recently_failed_iff. tauto.
    - eapply sorted_impl; [|by apply sorted_filter]. intros x y [Hx _]%list_elem_of_filter [Hy _]%list_elem_of_filter Hc.
      right. rewrite <- !recently_failed_iff. tauto.
    - intros x y [Hx _]%list_elem_of_filter [Hy _]%list_elem_of_filter. left. by rewrite <- !recently_failed_iff. }
  assert (forall k, StronglySorted (sooner now s) k -> (forall j, j ∈ k -> ~ leader now s j) -> StronglySorted (precedes now s) k) as Hl.
  { intros k Sk Hk. eapply sorted_impl; [|exact Sk]. intros x y _ Hy Hs. right. split; [by apply Hk|done]. }
  rewrite E. unfold lead_trial. destruct (position _ _) as [tm|] eqn:Ep; [apply leader_iff in Ep as Ht; case_decide as Hd|].
  - constructor; [|apply list.Forall_forall; intros j _; by left]. apply Hl; [by apply sorted_filter|].
    intros j [Hj _]%list_elem_of_filter Hlj. apply Hj. by eapply leader_unique.
  - apply Hl; [done|]. intros j Hj Hlj. by rewrite (leader_unique _ _ _ _ Hlj Ht) in Hj.
  - apply Hl; [done|]. intros j _ Hlj. apply leader_iff in Hlj. congruence.
Qed.

(** C11: the dial order. It consists of exactly the members that are ranked or pinned and not in a quarantine that lasts, each once,
    all of the pool. Of two of them, the first member of the pool that is on trial, or whose quarantine has ended, comes first; otherwise one
    without a failed dial in the breaker's window comes before one with; otherwise the pin; otherwise the one ranked before the
    other. Taking the order moves the members whose quarantine has ended to trial and changes nothing else. *)
Theorem dial_order_correct (now : Z) (s : SelectingTransport H) : pool_ok s ->
  let '((ms, order), s') := members_and_order now s in
  ms = members s /\ NoDup order /\ Forall (fun i => i < length ms)%nat order /\
  (forall i, i ∈ order <-> (i ∈ ranked (selection s) \/ pinned (selection s) = Some i) /\ ~ quarantined now s i) /\
  StronglySorted (precedes now s) order /\
  s' <| health := health s |> = s /\ length (health s') = length (health s) /\
  (forall i h, health s !! i = Some h -> health s' !! i = Some
     match state h with
     | Quarantined until k => if until <=? now then h <| state := OnTrial (trial_flows (stall s)) k |> else h
     | _ => h
     end).
Proof.
  intros W. pose proof (members_and_order_spec now s W) as D. pose proof (order_sorted now s W) as S.
  destruct (members_and_order now s) as [[ms order] s']. destruct D as (D1 & D2 & D3 & D4 & _ & ->). cbn [fst snd] in S.
  split; [done|]. split; [done|]. split; [done|]. split; [intros i; rewrite D3; unfold dialable; by rewrite excluded_iff|].
  split; [done|]. split; [by destruct s|]. split; [apply length_fmap|]. intros i h Hi. simpl. by rewrite list_lookup_fmap, Hi.
Qed.

(** ** Dialling *)

Lemma next_try_in_range ms order : Forall (fun i => i < length ms)%nat order ->
  next_try ms order = match order with i :: rest => let! m := ms !! i in Some (i, m, rest) | [] => None end.
Proof. intros F. destruct order as [|i rest]; [done|]. inv_Forall. simpl. by destruct (lookup_lt_is_Some_2 ms i) as [m ->]. Qed.

(** How the loop ends on the members left to try. *)
Definition served (m : method) (answers : nat -> Member H -> answer) (ms : list (Member H)) (order : list nat) (r : route) : Prop :=
  match r with
  | Through i mem _ _ => ms !! i = Some mem /\ answers i mem = Dialed /\
      exists pre post, order = pre ++ i :: post /\ forall j mj, j ∈ pre -> ms !! j = Some mj -> answers j mj <> Dialed
  | _ => r = exhausted m /\ forall j mj, j ∈ order -> ms !! j = Some mj -> answers j mj <> Dialed
  end.

Lemma served_skip m answers ms i mem order r :
  served m answers ms order r -> ms !! i = Some mem -> answers i mem <> Dialed -> served m answers ms (i :: order) r.
Proof.
  intros S E A. assert (forall l, (forall j mj, j ∈ l -> ms !! j = Some mj -> answers j mj <> Dialed) ->
    forall j mj, j ∈ i :: l -> ms !! j = Some mj -> answers j mj <> Dialed) as X.
  { intros l Hl j mj [->|Hj]%elem_of_cons Ej; [congruence|by eapply Hl]. }
  destruct r as [k mk ? ?| |]; simpl in *.
  - destruct S as (S1 & S2 & pre & post & -> & S3). split; [done|]. split; [done|]. exists (i :: pre), post. split; [done|]. by apply X.
  - destruct S as [S1 S3]. split; [done|]. by apply X.
  - destruct S as [S1 S3]. split; [done|]. by apply X.
Qed.

Lemma flow_loop_spec m now answers ms : forall order s fuel, Forall (fun i => i < length ms)%nat order -> (length order < fuel)%nat ->
  exists r s', flow_loop fuel now answers (mk_flow m ms order) s = Some (r, s') /\ served m answers ms order r.
Proof.
  induction order as [|i order IH]; intros s fuel F L; destruct fuel as [|fuel]; try (simpl in L; lia); cbn [flow_loop]; unfold flow_turn; cbn [f_members f_order f_method].
  - simpl. eexists _, _. split; [done|]. destruct m as [|[]| |]; split; try done; intros j mj Hj; by apply elem_of_nil in Hj.
  - rewrite next_try_in_range by done. inv_Forall. destruct (lookup_lt_is_Some_2 ms i) as [mem E]; [done|]. rewrite E.
    destruct (answers i mem) eqn:A.
    { eexists _, _. split; [done|]. split; [done|]. split; [done|]. exists [], order. split; [done|]. intros j mj Hj. by apply elem_of_nil in Hj. }
    all: edestruct (IH (settle m now i (answers i mem) s) fuel) as (r & s' & E' & S); [done|simpl in L; lia|]; rewrite A in E';
      exists r, s'; split; [done|]; eapply served_skip; [done..|]; congruence.
Qed.

(** C12: dialling. A call always ends; it goes through the first member of the dial order that answers, with every member before
    it tried and failed, and only when every member of the order has failed is the flow sent directly, or refused if it names
    a host over TCP. *)
Theorem dial_correct (m : method) (now : Z) (answers : nat -> Member H -> answer) (s : SelectingTransport H) : pool_ok s ->
  exists r s', dial m now answers s = Some (r, s') /\ served m answers (members s) (members_and_order now s).1.2 r.
Proof.
  intros W. pose proof (members_and_order_spec now s W) as D. unfold dial, open_flow.
  destruct (members_and_order now s) as [[ms order] s1]. destruct D as (-> & _ & _ & F & _).
  apply flow_loop_spec; [done|simpl; lia].
Qed.

End pool.

(** ** Ranking *)

Lemma key_le_total a b : key_le a b = false -> key_le b a = true.
Proof. destruct a as [[] x], b as [[] y]; unfold key_le; simpl; try done; lia. Qed.

Lemma key_le_trans a b c : key_le a b = true -> key_le b c = true -> key_le a c = true.
Proof. destruct a as [[] x], b as [[] y], c as [[] z]; unfold key_le; simpl; try done; lia. Qed.

Section sorting.
Context {A : Type} (key : A -> bool * Z).
Let before (x y : A) : Prop := key_le (key x) (key y) = true.

Lemma insert_by_perm x l : insert_by key x l ≡ₚ x :: l.
Proof. induction l as [|y l IH]; simpl; [done|]. destruct (key_le _ _); [|done]. rewrite IH. apply Permutation_swap. Qed.

Lemma insert_by_sorted x l : StronglySorted before l -> StronglySorted before (insert_by key x l).
Proof.
  induction 1 as [|y l Sl IH Hy]; simpl; [by repeat constructor|]. destruct (key_le (key y) (key x)) eqn:E.
  - constructor; [done|]. rewrite insert_by_perm. by constructor.
  - apply key_le_total in E. constructor; [by constructor|]. constructor; [done|].
    eapply list.Forall_impl; [exact Hy|]. intros z Hz. by eapply key_le_trans.
Qed.

Lemma sort_by_spec l : sort_by key l ≡ₚ l /\ StronglySorted before (sort_by key l).
Proof.
  unfold sort_by. assert (forall acc, StronglySorted before acc ->
    fold_left (fun acc x => insert_by key x acc) l acc ≡ₚ l ++ acc /\ StronglySorted before (fold_left (fun acc x => insert_by key x acc) l acc)) as X.
  { induction l as [|x l IH]; intros acc Sa; simpl; [done|]. destruct (IH (insert_by key x acc)) as [P S]; [by apply insert_by_sorted|].
    split; [|done]. rewrite P, insert_by_perm. by rewrite Permutation_middle. }
  destruct (X [] (SSorted_nil _)) as [P S]. by rewrite app_nil_r in P.
Qed.
End sorting.

(** Whether a recent real failure, then the latency. *)
Definition rank_key (failing : list nat) (o : nat * ProbeOutcome) : bool * Z := (bool_decide (o.1 ∈ failing), latency o.2).

Lemma rank_spec outcomes failing : NoDup outcomes.*1 ->
  NoDup (rank outcomes failing) /\ forall i, i ∈ rank outcomes failing <-> exists o, (i, o) ∈ outcomes /\ healthy o = true.
Proof.
  intros N. unfold rank. destruct (sort_by_spec (rank_key failing) (filter (fun o => healthy o.2 = true) outcomes)) as [P _].
  unfold rank_key in P. split.
  - rewrite P. clear P. induction outcomes as [|[j o] l IH]; [constructor|]. simpl in N. apply list.NoDup_cons in N as [Nj N].
    rewrite list.filter_cons. case_decide; [|by apply IH]. simpl. apply list.NoDup_cons. split; [|by apply IH].
    intros (q & -> & [_ Hq]%list_elem_of_filter)%list_elem_of_fmap. apply Nj, list_elem_of_fmap. by exists q.
  - intros i. rewrite P, list_elem_of_fmap. split.
    + intros ([j o] & -> & [Hh Hi]%list_elem_of_filter). by exists o.
    + intros (o & Hi & Hh). exists (i, o). split; [done|]. by apply list_elem_of_filter.
Qed.

Lemma find_outcome_Some i o (l : list (nat * ProbeOutcome)) : find_outcome i l = Some o -> (i, o) ∈ l.
Proof.
  unfold find_outcome. intros E. destruct (filter _ l) as [|[j q] r] eqn:F; [done|]. simplify_eq/=.
  assert ((j, o) ∈ filter (fun o : nat * ProbeOutcome => o.1 = i) l) as X by (rewrite F; left).
  apply list_elem_of_filter in X as [E X]. simpl in E. by subst j.
Qed.

Lemma find_outcome_In i o (l : list (nat * ProbeOutcome)) : NoDup l.*1 -> (i, o) ∈ l -> find_outcome i l = Some o.
Proof.
  unfold find_outcome. induction l as [|[j q] l IH]; intros N Hin; [by apply elem_of_nil in Hin|]. simpl in N. apply list.NoDup_cons in N as [Nj N].
  rewrite list.filter_cons. apply elem_of_cons in Hin as [[= <- <-]|Hin].
  - by rewrite decide_True.
  - rewrite decide_False; [by apply IH|]. simpl. intros ->. apply Nj, list_elem_of_fmap. by exists (i, o).
Qed.

(** At least [SWITCH_MARGIN] faster. *)
Definition clearly_faster (best incumbent : ProbeOutcome) : bool :=
  f64.le (as_secs_f64 (latency best)) (f64.mul (as_secs_f64 (latency incumbent)) (f64.sub (f64.of_int 1) SWITCH_MARGIN)).

(** The incumbent may stay: healthy and without a recent failure. *)
Definition stays (current : list nat) (fresh : list (nat * ProbeOutcome)) (failing : list nat) (inc : nat) (o : ProbeOutcome) : Prop :=
  head current = Some inc /\ (inc ∉ failing) /\ find_outcome inc fresh = Some o /\ healthy o = true.

Lemma next_order_cases current fresh failing :
  let r := rank fresh failing in
  (next_order current fresh failing = r /\
   forall inc o best ob, stays current fresh failing inc o -> head r = Some best -> best <> inc -> find_outcome best fresh = Some ob ->
     clearly_faster ob o = true) \/
  exists inc o best, stays current fresh failing inc o /\ head r = Some best /\ best <> inc /\
    next_order current fresh failing = inc :: filter (fun i => i <> inc) r /\
    forall ob, find_outcome best fresh = Some ob -> clearly_faster ob o = false.
Proof.
  unfold next_order, stays, clearly_faster. set (r := rank fresh failing).
  destruct (head current) as [inc|]; [|by left; split; [|intros ? ? ? ? []]].
  case_decide as Hf; [left; split; [done|]; intros ? ? ? ? ([= <-] & ? & _); done|].
  destruct (find_outcome inc fresh) as [o|] eqn:Fo; [|left; split; [done|]; intros ? ? ? ? ([= <-] & _ & E & _); congruence].
  destruct (healthy o) eqn:Ho; [|left; split; [done|]; intros ? ? ? ? ([= <-] & _ & E & Hh); congruence].
  destruct (head r) as [ch|] eqn:Hr; [|by left].
  case_decide as Hc; [left; split; [done|]; intros ? ? ? ? ([= <-] & _) [= <-]; done|].
  destruct (f64.le _ _) eqn:Hle; [|right; exists inc, o, ch; split; [done|]; split; [done|]; split; [done|]; split; [done|]; intros ob Eb; by rewrite Eb in Hle].
  left. split; [done|]. intros ? ? ? ? ([= <-] & _ & E & _) [= <-] _ Eb. rewrite Eb in Hle. congruence.
Qed.

Lemma next_order_members current fresh failing : NoDup fresh.*1 ->
  NoDup (next_order current fresh failing) /\
  forall i, i ∈ next_order current fresh failing <-> exists o, (i, o) ∈ fresh /\ healthy o = true.
Proof.
  intros N. destruct (rank_spec fresh failing N) as [RN RM].
  destruct (next_order_cases current fresh failing) as [[-> _]|(inc & o & best & (_ & _ & E & Hh) & _ & _ & -> & _)]; [done|].
  assert (inc ∈ rank fresh failing) as Hi by (apply RM; exists o; split; [by apply find_outcome_Some|done]).
  pose proof (move_front inc _ RN Hi) as M. split; [by rewrite M|]. intros i. rewrite M. apply RM.
Qed.


End select_props.
