(* ===== verification/SelectSystem.v ===== *)
(** The pool of [Select] run by concurrent tasks: flows being dialled, the prober, the
    watchdog, the control calls and a reload in its two parts, interleaved at the critical
    sections. A schedule is a list of events; [step] says what each does. *)

From S2P Require Import Prelude Lists F64 Stall Select SelectProps.

Module select_system.
Import stall select select_props.

Section system.
Context {H : Handles}.

(** [round] is the probe round in flight, [measured] the prober's flag, [prev] the
    watchdog's last samples, [swapped] the size of a pool swapped in by a reload that has
    not reset the health yet. One reload runs at a time. *)
Record System := mk_system {
  pool : SelectingTransport H;
  clock : Z;
  round : option Round;
  measured : bool;
  prev : list (Z * Z);
  flows : list Flow;
  swapped : option nat;
}.
#[export] Instance eta_System : Settable System :=
  fun x => mk_system (pool x) (clock x) (round x) (measured x) (prev x) (flows x) (swapped x).

Inductive event :=
| Tick (d : Z)
| Pin (i : option nat)
| Snapshot
| Open (m : method)
| Answer (k : nat) (a : answer)
| ReloadSwap (new_members : list (Member H))
| ReloadFinish
| ProbeBegin
| ProbeResult (i : nat) (o : ProbeOutcome)
| ProbeEnd (outcomes : list (nat * ProbeOutcome))
| Watch
| Traffic (cell : nat) (sent received : Z)
| FlowStalled (i : nat)
| FlowEnded (i : nat).

(** [None]: the event cannot happen in this state. A reload is called with members, and
    fewer than [2^64] times; a round ends with one outcome for every member; flows report
    to the pool only if the stall signal is on. *)
Definition step (e : event) (x : System) : option System :=
  let s := pool x in
  match e with
  | Tick d => if 0 <=? d then Some (x <| clock := clock x + d |>) else None
  | Pin i => Some (x <| pool := (set_pin i s).2 |>)
  | Snapshot => Some (x <| pool := (snapshot (clock x) s).2 |>)
  | Open m => let '(f, s) := open_flow m (clock x) s in Some (x <| pool := s |> <| flows := flows x ++ [f] |>)
  | Answer k a =>
      let! f := flows x !! k in
      match flow_turn (clock x) (fun _ _ => a) f s with
      | (inl f, s) => Some (x <| pool := s |> <| flows := <[k := f]> (flows x) |>)
      | (inr _, s) => Some (x <| pool := s |> <| flows := delete k (flows x) |>)
      end
  | ReloadSwap new_members =>
      if bool_decide (swapped x = None /\ new_members <> [] /\ epoch s + 1 < 2 ^ 64) then
        let s := reload_swap new_members s in Some (x <| pool := s |> <| swapped := Some (length (members s)) |>)
      else None
  | ReloadFinish => let! n := swapped x in Some (x <| pool := reload_finish n s |> <| swapped := None |>)
  | ProbeBegin => match round x with None => Some (x <| round := Some (begin_round s) |>) | Some _ => None end
  | ProbeResult i o =>
      let! r := round x in
      if (i <? length (r_members r))%nat then Some (x <| pool := publish r i o s |>) else None
  | ProbeEnd outcomes =>
      let! r := round x in
      if bool_decide (outcomes.*1 ≡ₚ seq 0 (length (r_members r))) then
        let '(applied, s) := apply_round (clock x) r outcomes (measured x) s in
        Some (x <| pool := s |> <| round := None |> <| measured := measured x || applied |>)
      else None
  | Watch => let '(p, s) := watchdog_round (prev x) s in Some (x <| pool := s |> <| prev := p |>)
  | Traffic c sent received => Some (x <| pool := s <| cells := alter (add_in received ∘ add_out sent) c (cells s) |> |>)
  | FlowStalled i => if enabled (stall s) then Some (x <| pool := record_stall (clock x) i s |>) else None
  | FlowEnded i => if enabled (stall s) then Some (x <| pool := record_flow_ok i s |>) else None
  end.

Definition start (ms : list (Member H)) (c : StallConfig) : System :=
  mk_system (SelectingTransport_new ms c) 0 None false [] [] None.

Fixpoint run (es : list event) (x : System) : option System :=
  match es with [] => Some x | e :: es => let! x := step e x in run es x end.

(** ** What every step keeps *)

Lemma live_count_insert now hs i h h' : hs !! i = Some h ->
  (live now (<[i := h']> hs) + Nat.b2n (negb (is_excluded now h)) = live now hs + Nat.b2n (negb (is_excluded now h')))%nat.
Proof.
  unfold live. revert i. induction hs as [|y hs IH]; intros [|i] E; simplify_eq/=; rewrite !list.filter_cons.
  - destruct (is_excluded now h), (is_excluded now h'); simpl; lia.
  - specialize (IH i E). destruct (is_excluded now y); simpl; lia.
Qed.

Lemma live_insert_same now hs i h h' : hs !! i = Some h -> is_excluded now h' = is_excluded now h -> live now (<[i := h']> hs) = live now hs.
Proof. intros E X. pose proof (live_count_insert now hs i h h' E). rewrite X in *. lia. Qed.

Lemma live_fmap now hs (f : MemberHealth -> MemberHealth) : (forall h, is_excluded now (f h) = is_excluded now h) -> live now (f <$> hs) = live now hs.
Proof. intros E. unfold live. induction hs as [|h hs IH]; [done|]. simpl. rewrite !list.filter_cons, E. case_decide; simpl; [f_equal|]; exact IH. Qed.

Lemma live_later now now' hs : now <= now' -> (live now hs <= live now' hs)%nat.
Proof.
  intros L. unfold live. induction hs as [|h hs IH]; [done|]. rewrite !list.filter_cons.
  assert (is_excluded now h = false -> is_excluded now' h = false) as M by (unfold is_excluded; destruct (state h); try done; lia).
  repeat case_decide; simpl; try lia. exfalso. tauto.
Qed.

(** What the calls other than a reload keep: the members, their generation and their
    number, a well-formed selection and, with the stall signal off, a member that is not
    quarantined. *)
Record kept (now : Z) (s s' : SelectingTransport H) : Prop := {
  k_members : members s' = members s;
  k_epoch : epoch s' = epoch s;
  k_stall : stall s' = stall s;
  k_health : length (health s') = length (health s);
  k_selection : selection_ok (length (members s)) (selection s) -> selection_ok (length (members s)) (selection s');
  k_floor : enabled (stall s) = false -> (1 <= live now (health s))%nat -> (1 <= live now (health s'))%nat;
}.

Lemma kept_refl now s : kept now s s.
Proof. by split. Qed.
Lemma kept_trans now s1 s2 s3 : kept now s1 s2 -> kept now s2 s3 -> kept now s1 s3.
Proof. intros [M1 E1 S1 H1 P1 F1] [M2 E2 S2 H2 P2 F2]. split; [congruence..| |]; [rewrite M1 in P2|rewrite S1 in F2]; auto. Qed.

(** A call that replaces the health of one member. *)
Lemma kept_health now s i h h' : health s !! i = Some h ->
  (enabled (stall s) = false -> (1 <= live now (health s))%nat -> (1 <= live now (<[i := h']> (health s)))%nat) ->
  kept now s (s <| health := <[i := h']> (health s) |>).
Proof. intros E F. split; simpl; try done. apply length_insert. Qed.

Lemma kept_same_state now s i h h' : health s !! i = Some h -> state h' = state h -> kept now s (s <| health := <[i := h']> (health s) |>).
Proof.
  intros E X. eapply kept_health; [done|]. intros _ L. erewrite live_insert_same; [done..|]. unfold is_excluded. by rewrite X.
Qed.

Lemma record_dial_failure_kept now i s : kept now s (record_dial_failure now i s).
Proof.
  unfold record_dial_failure. destruct (negb _); [apply kept_refl|]. destruct (health s !! i) as [h|] eqn:E; [|apply kept_refl].
  destruct (_ <? _); [by eapply kept_same_state|]. destruct (Nat.leb_spec (live now (health s)) 1); [by eapply kept_same_state|].
  eapply kept_health; [done|]. intros _ _.
  match goal with |- context [<[i := ?h']> _] => pose proof (live_count_insert now (health s) i h h' E) end.
  destruct (is_excluded now h), (is_excluded now _); simpl in *; lia.
Qed.

Lemma record_dial_ok_kept now i s : kept now s (record_dial_ok i s).
Proof.
  unfold record_dial_ok. destruct (negb _); [apply kept_refl|]. destruct (health s !! i) as [h|] eqn:E; [|apply kept_refl].
  by eapply kept_same_state.
Qed.

Lemma record_stall_kept now i s : enabled (stall s) = true -> kept now s (record_stall now i s).
Proof.
  intros X. unfold record_stall. destruct (health s !! i) as [h|] eqn:E; [|apply kept_refl].
  eapply kept_health; [done|]. congruence.
Qed.

Lemma record_flow_ok_kept now i s : enabled (stall s) = true -> kept now s (record_flow_ok i s).
Proof.
  intros X. unfold record_flow_ok. destruct (health s !! i) as [h|] eqn:E; [|apply kept_refl].
  eapply kept_health; [done|]. congruence.
Qed.

Lemma demote_ranked i s : ranked (selection (demote i s)) ≡ₚ ranked (selection s).
Proof.
  unfold demote, demote_in. destruct (position _ _) as [pos|] eqn:E; [|done]. apply position_Some in E as (j & Hj & Ej%Nat.eqb_eq). subst j.
  destruct (_ =? _)%nat; [done|]. simpl. rewrite (delete_Permutation (ranked (selection s)) pos i) at 2 by done.
  by rewrite Permutation_app_comm.
Qed.

Lemma demote_kept now i s : kept now s (demote i s).
Proof.
  pose proof (demote_ranked i s) as P. revert P. unfold demote, demote_in.
  destruct (position _ _) as [pos|]; [destruct (_ =? _)%nat|]; intros P; try apply kept_refl.
  split; try done. intros [N R L X]. split; [by rewrite P|by rewrite P|done|done].
Qed.

Lemma settle_kept m now i a s : kept now s (settle m now i a s).
Proof.
  assert (kept now s (demote i (record_dial_failure now i s))) by (eapply kept_trans; [apply record_dial_failure_kept|apply demote_kept]).
  destruct a, m; simpl; try done; try apply record_dial_ok_kept; apply kept_refl.
Qed.

Lemma promote_kept now s : kept now s (promote now s).
Proof.
  split; try done; simpl; [apply length_fmap|]. intros _ L. rewrite live_fmap; [done|]. intros h. apply promote_excluded.
Qed.

Lemma flow_turn_kept now answers f s : kept now s (flow_turn now answers f s).2.
Proof.
  unfold flow_turn. destruct (next_try _ _) as [[[i m] order]|]; [|apply kept_refl]. destruct (answers i m); apply settle_kept.
Qed.

Lemma set_pin_kept now i s : kept now s (set_pin i s).2.
Proof.
  unfold set_pin. destruct i as [i|]; [destruct (Nat.leb_spec (length (members s)) i); [apply kept_refl|]|];
    (split; try done; intros [N R L X]; split; try done). intros p [= <-]. done.
Qed.

Lemma publish_kept now r i o s : (gen r = epoch s -> r_members r = members s) -> kept now s (publish r i o s).
Proof.
  intros G. unfold publish. destruct (Z.eqb_spec (epoch s) (gen r)) as [E|]; [|apply kept_refl].
  rewrite G by done. split; try done. intros [N R L X]. split; try done. simpl. rewrite length_insert. unfold resized. by rewrite L, Nat.eqb_refl.
Qed.

Lemma length_inserts (os : list (nat * ProbeOutcome)) : forall l : list (option ProbeOutcome),
  length (fold_left (fun l o => <[o.1 := Some o.2]> l) os l) = length l.
Proof. induction os as [|o os IH]; intros l; simpl; [done|]. by rewrite IH, length_insert. Qed.

Lemma apply_round_kept now now' r outcomes b s : (gen r = epoch s -> r_members r = members s) ->
  outcomes.*1 ≡ₚ seq 0 (length (r_members r)) -> kept now s (apply_round now' r outcomes b s).2.
Proof.
  intros G P. unfold apply_round. destruct (Z.eqb_spec (epoch s) (gen r)) as [E|]; [|apply kept_refl]. rewrite G in * by done.
  split; try done. simpl. intros [N R L X]. set (rk := if b then _ else _).
  assert (NoDup outcomes.*1) as Nd by (rewrite P; apply NoDup_seq).
  assert (NoDup rk /\ forall i, i ∈ rk -> exists o, (i, o) ∈ outcomes) as [R1 R2].
  { subst rk. destruct b; [destruct (next_order_members (ranked (selection s)) outcomes (recently_failed now' s) Nd) as [? M]
      |destruct (rank_spec outcomes (recently_failed now' s) Nd) as [? M]]; (split; [done|]; intros i Hi; apply M in Hi as (o & ? & _); by exists o). }
  split; simpl; [done| |rewrite length_inserts; unfold resized; by rewrite L, Nat.eqb_refl|done].
  apply list.Forall_forall. intros i Hi. apply R2 in Hi as [o Ho].
  assert (i ∈ outcomes.*1) as Hs by (apply list_elem_of_fmap; by exists (i, o)). rewrite P, elem_of_seq in Hs. lia.
Qed.

Lemma watchdog_kept now p s : kept now s (watchdog_round p s).2.
Proof.
  unfold watchdog_round. destruct (negb _); [apply kept_refl|]. simpl. generalize (indices (fun p : (Z * Z) * (Z * Z) =>
    looks_starved (sat_sub p.1.1 p.2.1) (sat_sub p.1.2 p.2.2) (starve_min_bytes (stall s))) (zip (samples s) p)).
  intros l. assert (forall s0, kept now s s0 -> kept now s (fold_left (fun s i => demote i s) l s0)) as X; [|apply X, kept_refl].
  induction l as [|i l IH]; intros s0 K; simpl; [done|]. apply IH. eapply kept_trans; [done|]. apply demote_kept.
Qed.

(** ** Reloads *)

Lemma by_label_Some l ms i : by_label l ms = Some i -> exists m, ms !! i = Some m /\ label m = l.
Proof. intros (m & E & X%bool_decide_eq_true)%position_Some. by exists m. Qed.

Lemma by_label_None l ms : by_label l ms = None -> forall m, m ∈ ms -> label m <> l.
Proof.
  intros N m (i & E)%list_elem_of_lookup_1. pose proof (position_None _ _ N i m E) as X. by apply bool_decide_eq_false in X.
Qed.

Lemma by_label_is_Some l ms m : m ∈ ms -> label m = l -> exists i m', by_label l ms = Some i /\ ms !! i = Some m' /\ label m' = l.
Proof.
  intros Hm Hl. destruct (by_label l ms) as [i|] eqn:E; [|by destruct (by_label_None _ _ E m Hm)].
  destruct (by_label_Some _ _ _ E) as (m' & ? & ?). by exists i, m'.
Qed.

Lemma no_extra (l : list (Member H)) (P : Member H -> Prop) : exists extra, l = l ++ extra /\ (length extra <= 1)%nat /\ forall m, m ∈ extra -> P m.
Proof. exists []. rewrite app_nil_r. split; [done|]. split; [simpl; lia|]. by intros m Hm%elem_of_nil. Qed.

Lemma carry_prior_spec prior new :
  let '(ms, carried) := carry_prior prior new in
  (exists extra, ms = new ++ extra /\ (length extra <= 1)%nat /\ forall m, m ∈ extra -> Some m = fst <$> prior) /\
  match prior with
  | Some (m, oc) => exists ci m', carried = Some (ci, oc) /\ ms !! ci = Some m' /\ label m' = label m
  | None => carried = None
  end.
Proof.
  destruct prior as [[m oc]|]; simpl; [|split; [apply no_extra|done]].
  destruct (by_label (label m) new) as [pos|] eqn:E.
  - split; [apply no_extra|]. destruct (by_label_Some _ _ _ E) as (m' & ? & ?). by exists pos, m'.
  - split; [exists [m]; split; [done|]; split; [done|]; by intros ? ->%list_elem_of_singleton|]. exists (length new), m. split; [done|]. split; [|done]. by apply list_lookup_middle.
Qed.

Lemma carry_pin_spec pin ms :
  (exists extra, carry_pin pin ms = ms ++ extra /\ (length extra <= 1)%nat /\ forall m, m ∈ extra -> pin = Some m) /\
  forall m, pin = Some m -> exists m', m' ∈ carry_pin pin ms /\ label m' = label m.
Proof.
  destruct pin as [m|]; simpl; [|split; [apply no_extra|done]].
  destruct (existsb _ ms) eqn:E.
  - apply existsb_exists in E as (m' & Hm & X%bool_decide_eq_true). split; [apply no_extra|].
    intros ? [= <-]. exists m'. split; [by apply list_elem_of_In|done].
  - split; [exists [m]; split; [done|]; split; [done|]; by intros ? ->%list_elem_of_singleton|]. intros ? [= <-]. exists m. split; [|done]. apply elem_of_app. right. left.
Qed.

Lemma lead_seq_ok n lat p ci : (ci < n)%nat -> length lat = n -> (forall i, p = Some i -> (i < n)%nat) ->
  selection_ok n (mk_selection (ci :: filter (fun i => i <> ci) (seq 0 n)) lat p).
Proof.
  intros Hc L P. pose proof (move_front ci (seq 0 n) (NoDup_seq 0 n)) as M. split; simpl; try done.
  - rewrite M; [apply NoDup_seq|apply elem_of_seq; lia].
  - constructor; [done|]. apply list.Forall_forall. intros i [_ Hi]%list_elem_of_filter. apply elem_of_seq in Hi. lia.
Qed.

Lemma prior_best_member s m : Some m = fst <$> prior_best s -> m ∈ members s.
Proof.
  unfold prior_best. destruct (match pinned (selection s) with Some p => _ | None => _ end) as [i|]; [|done].
  destruct (members s !! i) as [m'|] eqn:E; [|done]. destruct (outcome_of _ _) as [o|]; [|done].
  destruct (_ && _); [|done]. intros [= ->]. by eapply list_elem_of_lookup_2.
Qed.

Lemma pinned_member_member s m : pinned_member s = Some m -> m ∈ members s.
Proof.
  unfold pinned_member. destruct (pinned (selection s)) as [p|]; [|done]. destruct (members s !! p) as [m'|] eqn:E; [|done].
  case_bool_decide; [done|]. intros [= ->]. by eapply list_elem_of_lookup_2.
Qed.

Lemma reload_swap_spec new s : let s' := reload_swap new s in
  (exists extra, members s' = new ++ extra /\ (length extra <= 2)%nat /\ forall m, m ∈ extra -> m ∈ members s) /\ selection_ok (length (members s')) (selection s') /\
  (forall p m, pinned (selection s) = Some p -> members s !! p = Some m -> label m <> [] ->
     exists p' m', pinned (selection s') = Some p' /\ members s' !! p' = Some m' /\ label m' = label m) /\
  (pinned (selection s) = None -> pinned (selection s') = None) /\
  match prior_best s with
  | Some (m, o) => exists i m', members s' !! i = Some m' /\ label m' = label m /\
      ranked (selection s') = i :: filter (fun j => j <> i) (seq 0 (length (members s'))) /\
      latest (selection s') = <[i := Some o]> (replicate (length (members s')) None)
  | None => ranked (selection s') = seq 0 (length (members s')) /\ latest (selection s') = replicate (length (members s')) None
  end.
Proof.
  unfold reload_swap. pose proof (carry_prior_spec (prior_best s) new) as CP. destruct (carry_prior (prior_best s) new) as [ms carried].
  destruct CP as [(e1 & E1 & L1 & X1) CP].
  destruct (carry_pin_spec (pinned_member s) ms) as [(e2 & E2 & L2 & X2) PIN]. set (ms' := carry_pin (pinned_member s) ms) in *. clearbody ms'.
  set (p := let! m := pinned_member s in by_label (label m) ms').
  assert (forall i, p = Some i -> (i < length ms')%nat) as Pp.
  { intros i. subst p. destruct (pinned_member s) as [m|]; [|done]. intros (m' & Hm & _)%by_label_Some. by eapply lookup_lt_Some. }
  cbn [members selection ranked pinned latest update_field eta_record eta_SelectingTransport].
  split.
  { exists (e1 ++ e2). split; [by rewrite E2, E1, app_assoc|]. split; [rewrite length_app; lia|].
    intros m [Hm|Hm]%elem_of_app; [by apply prior_best_member, X1|by apply pinned_member_member, X2]. }
  split; [|split; [|split]].
  - destruct (prior_best s) as [[m oc]|].
    + destruct CP as (ci & m' & -> & Hci & _). apply lead_seq_ok; [|by rewrite length_insert, length_replicate|done].
      rewrite E2, length_app. apply lookup_lt_Some in Hci. lia.
    + subst carried. split; simpl; [apply NoDup_seq| |apply length_replicate|done].
      apply list.Forall_forall. intros i Hi%elem_of_seq. lia.
  - intros q m Hq Hm Hl. unfold pinned_member in *. subst p. rewrite Hq, Hm in *. rewrite bool_decide_eq_false_2 in * by done. simpl.
    destruct (PIN m eq_refl) as (m' & Hm' & El). destruct (by_label_is_Some (label m) ms' m' Hm' El) as (i & m2 & ? & ? & ?). by exists i, m2.
  - intros Hq. subst p. unfold pinned_member. by rewrite Hq.
  - destruct (prior_best s) as [[m o]|]; [|by subst carried]. destruct CP as (ci & m' & -> & Hci & El). simpl. exists ci, m'.
    split; [|done]. rewrite E2. by apply lookup_app_l_Some.
Qed.

(** The member that served best and works: the pin or else the front of the ranking, named and with a healthy last probe. *)
Definition working_best (s : SelectingTransport H) (m : Member H) (o : ProbeOutcome) : Prop :=
  exists i, (pinned (selection s) = Some i \/ (forall p, pinned (selection s) = Some p -> (length (members s) <= p)%nat) /\ head (ranked (selection s)) = Some i) /\
    members s !! i = Some m /\ latest (selection s) !! i = Some (Some o) /\ healthy o = true /\ label m <> [].

Lemma prior_best_iff s m o : prior_best s = Some (m, o) <-> working_best s m o.
Proof.
  unfold prior_best, working_best. set (idx := match pinned (selection s) with Some p => _ | None => _ end).
  assert (forall i, (i < length (members s))%nat -> idx = Some i <-> (pinned (selection s) = Some i \/
    (forall p, pinned (selection s) = Some p -> (length (members s) <= p)%nat) /\ head (ranked (selection s)) = Some i)) as Hidx.
  { intros i Hi. subst idx. destruct (pinned (selection s)) as [p|].
    - destruct (Nat.ltb_spec p (length (members s))) as [Hp|Hp].
      + split; [by left|]. intros [?|[Hx _]]; [done|]. specialize (Hx p eq_refl). lia.
      + split; [intros E; right; split; [by intros ? [= <-]|done]|]. intros [[= ->]|[_ ?]]; [lia|done].
    - split; [by right|by intros [|[]]]. }
  unfold outcome_of. split.
  - intros E. destruct idx as [i|]; [|done]. destruct (members s !! i) as [m'|] eqn:Em; [|done].
    destruct (latest (selection s) !! i) as [[o'|]|] eqn:El; try done. simpl in E. destruct (healthy o') eqn:Eh; [|done].
    case_bool_decide as Hl; [done|]. injection E as <- <-. exists i. split; [|done]. apply Hidx; [by eapply lookup_lt_Some|done].
  - intros (i & Hi & Em & El & Eh & Hl). apply Hidx in Hi as ->; [|by eapply lookup_lt_Some]. by rewrite Em, El; simpl; rewrite Eh, bool_decide_eq_false_2.
Qed.

Lemma reload_swap_ranked new s : let s' := reload_swap new s in ranked (selection s') ≡ₚ seq 0 (length (members s')).
Proof.
  pose proof (reload_swap_spec new s) as (_ & _ & _ & _ & E). cbv zeta. destruct (prior_best s) as [[m o]|]; [|by destruct E as [-> _]].
  destruct E as (i & m' & Hi & _ & -> & _). apply move_front; [apply NoDup_seq|]. apply elem_of_seq. apply lookup_lt_Some in Hi. lia.
Qed.


(** ** The invariant *)

Record sys_ok (c : StallConfig) (x : System) : Prop := {
  ok_stall : stall (pool x) = c;
  ok_selection : selection_ok (length (members (pool x))) (selection (pool x));
  ok_members : members (pool x) <> [];
  ok_epoch : 0 <= epoch (pool x) < 2 ^ 64;
  ok_round : forall r, round x = Some r -> gen r <= epoch (pool x) /\ (gen r = epoch (pool x) -> r_members r = members (pool x));
  ok_health : match swapped x with None => length (health (pool x)) = length (members (pool x)) | Some n => n = length (members (pool x)) end;
  ok_floor : enabled c = false -> (1 <= live (clock x) (health (pool x)))%nat;
}.

Lemma live_new now n : live now (replicate n MemberHealth_new) = n.
Proof. unfold live. rewrite filter_all; [apply length_replicate|]. by apply Forall_replicate. Qed.

Lemma start_ok ms c : ms <> [] -> sys_ok c (start ms c).
Proof.
  intros Hm. split; simpl; try done.
  - split; simpl; [apply NoDup_seq| |apply length_replicate|done]. apply list.Forall_forall. intros i Hi%elem_of_seq. lia.
  - apply length_replicate.
  - intros _. rewrite live_new. destruct ms; [done|simpl; lia].
Qed.

Lemma kept_ok c x s' : sys_ok c x -> kept (clock x) (pool x) s' -> sys_ok c (x <| pool := s' |>).
Proof.
  intros [C S M E R Hh F] [K1 K2 K3 K4 K5 K6]. rewrite C in K6. split; simpl; rewrite ?K1, ?K2, ?K3, ?K4; auto.
Qed.

Lemma reload_swap_ok c x new : sys_ok c x -> new <> [] -> epoch (pool x) + 1 < 2 ^ 64 ->
  sys_ok c (x <| pool := reload_swap new (pool x) |> <| swapped := Some (length (members (reload_swap new (pool x)))) |>).
Proof.
  intros [C S M E R Hh F] Hn He. destruct (reload_swap_spec new (pool x)) as ((e & Em & _) & B & _).
  assert (epoch (reload_swap new (pool x)) = epoch (pool x) + 1 /\ health (reload_swap new (pool x)) = health (pool x) /\
    stall (reload_swap new (pool x)) = stall (pool x)) as (E1 & E2 & E3).
  { unfold reload_swap. destruct (carry_prior _ _). split; [|done]. simpl. apply wrap_small. unfold fits. lia. }
  split; simpl; [by rewrite E3|done|by rewrite Em; destruct new|lia| |done|by rewrite E2].
  intros r Hr. rewrite E1. destruct (R r Hr). split; [lia|]. intros. lia.
Qed.

Lemma step_sys_ok c e x x' : sys_ok c x -> step e x = Some x' -> sys_ok c x'.
Proof.
  intros O. pose proof O as [C S M E R Hh F]. destruct e; simpl; intros X.
  - destruct (Z.leb_spec 0 d); [|done]. simplify_eq. split; simpl; try done. intros Z. etrans; [by apply F|]. apply live_later. lia.
  - simplify_eq. apply kept_ok; [done|apply set_pin_kept].
  - simplify_eq. apply kept_ok; [done|apply promote_kept].
  - simplify_eq. by destruct (kept_ok _ x _ O (promote_kept (clock x) (pool x))).
  - destruct (flows x !! k) as [f|]; [|done]. pose proof (flow_turn_kept (clock x) (fun _ _ => a) f (pool x)) as K.
    destruct (flow_turn _ _ _ _) as [[f'|r] s']; simplify_eq; by destruct (kept_ok _ x s' O K).
  - case_bool_decide as G; [|done]. destruct G as (G1 & G2 & G3). simplify_eq. by apply reload_swap_ok.
  - destruct (swapped x) as [n|] eqn:Sw; [|done]. simplify_eq. split; simpl; try done; [apply length_replicate|].
    intros _. rewrite live_new. destruct (members (pool x)); [done|simpl; lia].
  - destruct (round x) eqn:Er; [done|]. simplify_eq. split; simpl; try done. intros r [= <-]. done.
  - destruct (round x) as [r|] eqn:Er; [|done]. destruct (_ <? _)%nat; [|done]. simplify_eq. apply kept_ok; [done|]. apply publish_kept. by apply R.
  - destruct (round x) as [r|] eqn:Er; [|done]. case_bool_decide as P; [|done].
    pose proof (apply_round_kept (clock x) (clock x) r outcomes (measured x) (pool x) (proj2 (R r eq_refl)) P) as K.
    destruct (apply_round _ _ _ _ _) as [b s']. simplify_eq. by destruct (kept_ok _ x s' O K).
  - pose proof (watchdog_kept (clock x) (prev x) (pool x)) as K. destruct (watchdog_round _ _) as [q s']. simplify_eq. by destruct (kept_ok _ x s' O K).
  - simplify_eq. by split.
  - destruct (enabled (stall (pool x))) eqn:En; [|done]. simplify_eq. apply kept_ok; [done|by apply record_stall_kept].
  - destruct (enabled (stall (pool x))) eqn:En; [|done]. simplify_eq. apply kept_ok; [done|by apply record_flow_ok_kept].
Qed.

Lemma run_sys_ok c es : forall x x', sys_ok c x -> run es x = Some x' -> sys_ok c x'.
Proof.
  induction es as [|e es IH]; intros x x' O X; simpl in X; [by simplify_eq|].
  destruct (step e x) as [x1|] eqn:E; [|done]. eapply IH; [|done]. by eapply step_sys_ok.
Qed.

(** C27: the selection stays consistent with the pool under every interleaving of dials, probe rounds, watchdog rounds, pins and
    reloads: the ranking lists distinct members of the current pool, there is one measurement per member, the pin is a member, a
    probe round of the current generation is of the current members, and outside a reload every member has its health. *)
Theorem pool_invariant (es : list event) (ms : list (Member H)) (c : StallConfig) (x : System) :
  ms <> [] -> run es (start ms c) = Some x ->
  selection_ok (length (members (pool x))) (selection (pool x)) /\ members (pool x) <> [] /\
  (forall r, round x = Some r -> gen r = epoch (pool x) -> r_members r = members (pool x)) /\
  (swapped x = None -> length (health (pool x)) = length (members (pool x))).
Proof.
  intros Hm X. destruct (run_sys_ok c es _ _ (start_ok ms c Hm) X) as [_ S M _ R Hh _]. split; [done|]. split; [done|]. split.
  - intros r Hr. by apply (R r Hr).
  - intros Sw. by rewrite Sw in Hh.
Qed.

Lemma live_pos now hs : (1 <= live now hs)%nat -> exists i h, hs !! i = Some h /\ is_excluded now h = false.
Proof.
  unfold live. intros L. destruct (filter _ hs) as [|h l] eqn:E; [simpl in L; lia|].
  assert (h ∈ filter (fun h => is_excluded now h = false) hs) as X by (rewrite E; left).
  apply list_elem_of_filter in X as [X (i & Hi)%list_elem_of_lookup_1]. by exists i, h.
Qed.

(** C9: the pool floor. With the stall signal off, as it ships, the breaker never quarantines the last member that is left: under
    every interleaving some entry of the health table is not in quarantine. A flow opened then has a member to dial, instead of going
    out directly, provided that no reload stands between its swap of the members and its reset of their health, and
    that the ranking lists every member of the pool. *)
Theorem pool_floor (es : list event) (ms : list (Member H)) (c : StallConfig) (x : System) :
  ms <> [] -> run es (start ms c) = Some x -> enabled c = false ->
  (exists i h, health (pool x) !! i = Some h /\ is_excluded (clock x) h = false) /\
  (swapped x = None -> (forall i, (i < length (members (pool x)))%nat -> i ∈ ranked (selection (pool x))) ->
   (members_and_order (clock x) (pool x)).1.2 <> []).
Proof.
  intros Hm X En. destruct (run_sys_ok c es _ _ (start_ok ms c Hm) X) as [_ S M _ R Hh F]. destruct (live_pos _ _ (F En)) as (i & h & Ei & Ex).
  split; [by exists i, h|]. intros Sw A. rewrite Sw in Hh. pose proof (members_and_order_spec (clock x) (pool x) S) as D.
  destruct (members_and_order _ _) as [[ms' order] s']. destruct D as (_ & _ & D & _). simpl. intros ->.
  apply (not_elem_of_nil i), D. split; [left; apply A; rewrite <- Hh; by eapply lookup_lt_Some|].
  intros (h' & Eh & Eb)%elem_of_indices. congruence.
Qed.

(** ** Recovery *)

(** Members that are not healthy do not become so. *)
Definition ill_kept (s s' : SelectingTransport H) : Prop :=
  forall i h, health s !! i = Some h -> state h <> Healthy -> exists h', health s' !! i = Some h' /\ state h' <> Healthy.

Lemma ill_same s s' : health s' = health s -> ill_kept s s'.
Proof. intros E i h Hi Hs. rewrite E. by exists h. Qed.

Lemma ill_insert s i h h' : health s !! i = Some h -> (state h <> Healthy -> state h' <> Healthy) ->
  ill_kept s (s <| health := <[i := h']> (health s) |>).
Proof.
  intros Hi Hs j h2 Hj Hn. simpl. destruct (decide (i = j)) as [->|Hd].
  - rewrite list_lookup_insert_eq by by eapply lookup_lt_Some. exists h'. split; [done|]. apply Hs. congruence.
  - rewrite list_lookup_insert_ne by done. by exists h2.
Qed.

Lemma promote_ill now s : ill_kept s (promote now s).
Proof.
  intros i h Hi Hs. simpl. rewrite list_lookup_fmap, Hi. simpl. eexists. split; [done|].
  unfold promote_one. destruct (state h) eqn:E; try (simpl; congruence). destruct (until <=? now); simpl; congruence.
Qed.

Lemma demote_health i s : health (demote i s) = health s.
Proof. unfold demote, demote_in. destruct (position _ _); [by destruct (_ =? _)%nat|done]. Qed.

Lemma settle_ill m now i a s : ill_kept s (settle m now i a s).
Proof.
  assert (ill_kept s (record_dial_failure now i s)) as X.
  { unfold record_dial_failure. destruct (negb _); [by apply ill_same|]. destruct (health s !! i) as [h|] eqn:E; [|by apply ill_same].
    destruct (_ <? _); [by eapply ill_insert|]. destruct (_ <=? _)%nat; [by eapply ill_insert|]. by eapply ill_insert. }
  assert (ill_kept s (record_dial_ok i s)) as Y.
  { unfold record_dial_ok. destruct (negb _); [by apply ill_same|]. destruct (health s !! i) as [h|] eqn:E; [|by apply ill_same]. by eapply ill_insert. }
  assert (ill_kept s (demote i (record_dial_failure now i s))) as Z by (intros j h Hj Hs; rewrite demote_health; by eapply X).
  destruct a, m; simpl; try done; by apply ill_same.
Qed.

Lemma watchdog_health p s : health (watchdog_round p s).2 = health s.
Proof.
  unfold watchdog_round. destruct (negb _); [done|]. simpl. generalize (indices (fun p : (Z * Z) * (Z * Z) =>
    looks_starved (sat_sub p.1.1 p.2.1) (sat_sub p.1.2 p.2.2) (starve_min_bytes (stall s))) (zip (samples s) p)).
  intros l. assert (forall s0, health (fold_left (fun s i => demote i s) l s0) = health s0) as X; [|done].
  induction l as [|i l IH]; intros s0; simpl; [done|]. by rewrite IH, demote_health.
Qed.

Lemma step_ill e x x' : enabled (stall (pool x)) = false -> e <> ReloadFinish -> step e x = Some x' -> ill_kept (pool x) (pool x').
Proof.
  intros En Hr X. destruct e; simpl in X; try done.
  - destruct (0 <=? d); simplify_eq. by apply ill_same.
  - simplify_eq. apply ill_same. unfold set_pin. destruct i as [i|]; [by destruct (_ <=? _)%nat|done].
  - simplify_eq. apply promote_ill.
  - simplify_eq. apply promote_ill.
  - destruct (flows x !! k) as [f|]; [|done]. assert (ill_kept (pool x) (flow_turn (clock x) (fun _ _ => a) f (pool x)).2) as K.
    { unfold flow_turn. destruct (next_try _ _) as [[[i m] o]|]; [|by apply ill_same]. destruct a; apply settle_ill. }
    destruct (flow_turn _ _ _ _) as [[f'|r] s']; by simplify_eq.
  - case_bool_decide; [|done]. simplify_eq. apply ill_same. simpl. unfold reload_swap. by destruct (carry_prior _ _).
  - destruct (round x); [done|]. simplify_eq. by apply ill_same.
  - destruct (round x); [|done]. destruct (_ <? _)%nat; [|done]. simplify_eq. apply ill_same. simpl. unfold publish. by destruct (_ =? _).
  - destruct (round x) as [r|]; [|done]. case_bool_decide; [|done].
    assert (health (apply_round (clock x) r outcomes (measured x) (pool x)).2 = health (pool x)) as E by (unfold apply_round; by destruct (_ =? _)).
    destruct (apply_round _ _ _ _ _) as [b s']. simplify_eq. by apply ill_same.
  - pose proof (watchdog_health (prev x) (pool x)) as E. destruct (watchdog_round _ _) as [q s']. simplify_eq. by apply ill_same.
  - simplify_eq. by apply ill_same.
  - by rewrite En in X.
  - by rewrite En in X.
Qed.

Lemma run_ill c es : forall x x', enabled c = false -> sys_ok c x -> ReloadFinish ∉ es -> run es x = Some x' -> ill_kept (pool x) (pool x').
Proof.
  induction es as [|e es IH]; intros x x' En O Hr X; simpl in X; [simplify_eq; by apply ill_same|].
  apply not_elem_of_cons in Hr as [Hr1 Hr2]. destruct (step e x) as [x1|] eqn:E; [|done]. intros i h Hi Hs.
  assert (enabled (stall (pool x)) = false) as En' by by rewrite (ok_stall c x O).
  destruct (step_ill e x x1 En' (not_eq_sym Hr1) E i h Hi Hs) as (h1 & H1 & S1).
  eapply IH; [done|by eapply step_sys_ok|done|done|done|done].
Qed.

Lemma promote_trial now s i h : health s !! i = Some h -> state h <> Healthy -> is_excluded now h = false ->
  exists h', health (promote now s) !! i = Some h' /\ is_trial h' = true.
Proof.
  intros Hi Hs Hx. simpl. rewrite list_lookup_fmap, Hi. simpl. eexists. split; [done|]. revert Hs Hx.
  unfold is_excluded, is_trial, promote_one. destruct (state h) as [|u k|n k] eqn:E; simpl; rewrite ?E; try done.
  intros _ Hu%Z.ltb_ge. rewrite (proj2 (Z.leb_le _ _)) by done. done.
Qed.

(** a member the breaker has once quarantined does not recover before the next reload, as long as the stall signal is off: under
    every interleaving its state stays quarantined or on trial. After its cooldown it is on trial for every flow, and
    the first member on trial that is ranked leads the dial order, before the pin and whatever the latencies. *)
Theorem trial_never_ends (es es' : list event) (ms : list (Member H)) (c : StallConfig) (x x' : System) (i : nat) (h : MemberHealth) :
  ms <> [] -> enabled c = false -> run es (start ms c) = Some x -> health (pool x) !! i = Some h -> state h <> Healthy ->
  ReloadFinish ∉ es' -> run es' x = Some x' ->
  exists h', health (pool x') !! i = Some h' /\ state h' <> Healthy /\
  let '((_, order), s) := members_and_order (clock x') (pool x') in
  (is_excluded (clock x') h' = false -> exists h2, health s !! i = Some h2 /\ is_trial h2 = true) /\
  (i ∈ order -> position is_trial (health s) = Some i -> head order = Some i).
Proof.
  intros Hm En X Hi Hs Hr X'. pose proof (run_sys_ok c es _ _ (start_ok ms c Hm) X) as O. pose proof (run_sys_ok c es' _ _ O X') as O'.
  destruct (run_ill c es' x x' En O Hr X' i h Hi Hs) as (h' & Hi' & Hs'). exists h'. split; [done|]. split; [done|].
  pose proof (members_and_order_spec (clock x') (pool x') (ok_selection c x' O')) as D.
  destruct (members_and_order _ _) as [[ms' order] s]. destruct D as (_ & _ & _ & _ & E & ->). split.
  - intros Hx. by eapply (promote_trial (clock x') (pool x')).
  - intros Ho P. rewrite P in E. simpl in E. case_decide as Hd; [by subst order|]. subst order. done.
Qed.

End system.
#[global] Arguments System _ : clear implicits.
#[global] Arguments event _ : clear implicits.

(** ** Schedules of a pool of two, with the default configuration *)

#[local] Instance ex_handles : Handles := {| Transport := unit; UdpTransport := unit; CallbackUrl := unit; ServerMeta := unit |}.

Definition ex_member (l : string) : Member ex_handles := mk_member (H := ex_handles) tt tt tt tt (lit l) [].
Definition ex_members : list (Member ex_handles) := [ex_member "hysteria2 a"; ex_member "shadowsocks b"].

(** Three flows whose first try fails at once. *)
Definition ex_failures : list (event ex_handles) := [Open Dial; Open Dial; Open Dial; Answer 0 Failed; Answer 1 Failed; Answer 2 Failed].
Definition ex_up : ProbeOutcome := mk_outcome true 40000000.
Definition ex_down : ProbeOutcome := mk_outcome false DURATION_MAX.

Definition ex_after (es : list (event ex_handles)) : System ex_handles :=
  default (start ex_members default_stall) (run es (start ex_members default_stall)).
Definition ex_order (es : list (event ex_handles)) : list nat := (members_and_order (clock (ex_after es)) (pool (ex_after es))).1.2.

Definition ex_trial : list (event ex_handles) := [Tick (secs 60); Open Dial; Answer 3 Dialed; Open Dial; Answer 3 Dialed].

Lemma ex_failures_run : run ex_failures (start ex_members default_stall) = Some (ex_after ex_failures).
Proof. vm_compute. reflexivity. Defined.

Lemma dial_order_correct_witness :
  let s := pool (ex_after ex_failures) in selection_ok (length (members s)) (selection s) /\ NoDup (members_and_order (secs 1) s).1.2.
Proof.
  assert (selection_ok 2 (selection (pool (ex_after ex_failures)))) as W.
  { split; [decided|decided|vm_compute; reflexivity|vm_compute; discriminate]. }
  split; [exact W|]. pose proof (dial_order_correct (secs 1) (pool (ex_after ex_failures)) W) as D.
  destruct (members_and_order _ _) as [[ms order] s']. apply D.
Defined.

Lemma dial_correct_witness :
  selection_ok 2 (selection (SelectingTransport_new ex_members default_stall)) /\
  exists r s', dial Dial 0 (fun i _ => if (i =? 0)%nat then Failed else Dialed) (SelectingTransport_new ex_members default_stall) = Some (r, s').
Proof.
  assert (selection_ok 2 (selection (SelectingTransport_new ex_members default_stall))) as W.
  { split; [decided|decided|vm_compute; reflexivity|vm_compute; discriminate]. }
  split; [exact W|]. destruct (dial_correct Dial 0 (fun i _ => if (i =? 0)%nat then Failed else Dialed) (SelectingTransport_new ex_members default_stall) W) as (r & s' & E & _).
  exists r, s'. exact E.
Defined.

Definition ex_fresh : list (nat * ProbeOutcome) := [(0%nat, ex_up); (1%nat, mk_outcome true 30000000)].


Lemma pool_invariant_witness : members (pool (ex_after ex_failures)) <> [].
Proof. apply (pool_invariant ex_failures ex_members default_stall); [discriminate|exact ex_failures_run]. Defined.

Lemma pool_floor_witness :
  enabled default_stall = false /\
  exists i h, health (pool (ex_after ex_failures)) !! i = Some h /\ is_excluded (clock (ex_after ex_failures)) h = false.
Proof.
  assert (enabled default_stall = false) as En by (vm_compute; reflexivity). split; [exact En|].
  apply (pool_floor ex_failures ex_members default_stall); [discriminate|exact ex_failures_run|exact En].
Defined.

Lemma trial_never_ends_witness :
  exists x' h, health (pool (ex_after ex_failures)) !! 0%nat = Some h /\ state h = Quarantined (secs 60) 1 /\
  run ex_trial (ex_after ex_failures) = Some x' /\ exists h', health (pool x') !! 0%nat = Some h' /\ state h' <> Healthy.
Proof.
  exists (ex_after (ex_failures ++ ex_trial)), (mk_health (Quarantined (secs 60) 1) [] []).
  assert (health (pool (ex_after ex_failures)) !! 0%nat = Some (mk_health (Quarantined (secs 60) 1) [] [])) as Hh by (vm_compute; reflexivity).
  assert (run ex_trial (ex_after ex_failures) = Some (ex_after (ex_failures ++ ex_trial))) as Hr by (vm_compute; reflexivity).
  split; [exact Hh|]. split; [reflexivity|]. split; [exact Hr|].
  destruct (trial_never_ends ex_failures ex_trial ex_members default_stall (ex_after ex_failures) (ex_after (ex_failures ++ ex_trial)) 0 (mk_health (Quarantined (secs 60) 1) [] []))
    as (h' & X & Y & _); [discriminate|vm_compute; reflexivity|exact ex_failures_run|exact Hh|discriminate|..|exact Hr|exists h'; split; [exact X|exact Y]].
  intros E. repeat (apply elem_of_cons in E as [E|E]; [discriminate E|]). by apply elem_of_nil in E.
Defined.

(** ** Schedules the comments rule out *)

(** The floor counts members that the ranking has dropped: a quarantine of the only ranked
    member leaves flows nothing to dial but the direct way. *)
Theorem floor_ignores_ranking :
  let es := [ProbeBegin; ProbeEnd [(0%nat, ex_up); (1%nat, ex_down)]] ++ ex_failures in
  run es (start ex_members default_stall) = Some (ex_after es) /\ ex_order es = [] /\
  state <$> health (pool (ex_after es)) = [Quarantined (secs 60) 1; Healthy].
Proof. vm_compute. done. Qed.

(** Between the swap of the members and the reset of their health the quarantine of an old
    member holds for the new one with its index: a flow opened then goes out directly,
    although the ranking lists the whole pool. *)
Theorem reload_window_direct :
  let es := ex_failures ++ [ReloadSwap [ex_member "anytls c"]] in
  run es (start ex_members default_stall) = Some (ex_after es) /\ label <$> members (pool (ex_after es)) = [lit "anytls c"] /\
  ranked (selection (pool (ex_after es))) = [0%nat] /\ ex_order es = [] /\ ex_order (es ++ [ReloadFinish]) = [0%nat].
Proof. vm_compute. done. Qed.

(** Dials of an old pool that fail after a reload quarantine the new member with their
    index, which no flow has tried. *)
Theorem stale_failures_blame :
  let es := [Open Dial; Open Dial; Open Dial; ReloadSwap [ex_member "anytls c"; ex_member "samizdat d"]; ReloadFinish;
             Answer 0 Failed; Answer 1 Failed; Answer 2 Failed] in
  run es (start ex_members default_stall) = Some (ex_after es) /\
  label <$> members (pool (ex_after es)) = [lit "anytls c"; lit "samizdat d"] /\
  state <$> health (pool (ex_after es)) = [Quarantined (secs 60) 1; Healthy].
Proof. vm_compute. done. Qed.

(** A reload to a pool of the same size is not seen by the watchdog: the new counters are
    compared with the old, and a member that has received plenty is demoted. *)
Theorem watchdog_misses_reload :
  let es := [Watch; Traffic 0 1000 900000; Watch; ReloadSwap [ex_member "anytls c"; ex_member "samizdat d"]; ReloadFinish;
             Traffic 2 (1000 + 65536) 500000] in
  run (es ++ [Watch]) (start ex_members default_stall) = Some (ex_after (es ++ [Watch])) /\
  ranked (selection (pool (ex_after es))) = [0; 1]%nat /\ ranked (selection (pool (ex_after (es ++ [Watch])))) = [1; 0]%nat.
Proof. vm_compute. done. Qed.

(** A pinned member with a recent failure is reported as current, and dialled last. *)
Theorem pinned_not_current :
  let es := [Pin (Some 0%nat); Open Dial; Answer 0 Failed] in
  ex_order es = [1; 0]%nat /\ is_current <$> (snapshot (clock (ex_after es)) (pool (ex_after es))).1 = [true; false].
Proof. vm_compute. done. Qed.

End select_system.
