(* ===== verification/AnyTls.v ===== *)
(** [core/src/transport/anytls/{frame,padding,settings,auth}.rs]: the frames of an AnyTLS
    session, the padding scheme a server may push, the shaping of writes into records,
    the settings and the authentication record. *)

From S2P Require Import Prelude Lists RustStr NetAddr RustNet.

Module anytls.
Import net text.

(** ** Frames *)

Definition HEADER_LEN : nat := 1 + 4 + 2.
Definition MAX_PAYLOAD : nat := Z.to_nat 65535.

Inductive Command :=
| Waste | Syn | Psh | Fin | Settings_ | Alert | UpdatePaddingScheme | SynAck | HeartRequest | HeartResponse | ServerSettings.
#[export] Instance Command_eq_dec : EqDecision Command.
Proof. solve_decision. Defined.

Inductive FrameError := Incomplete | UnknownCommand (b : Z) | PayloadTooLarge (n : nat).

(** [command as u8]. *)
Definition to_u8 (c : Command) : Z :=
  match c with
  | Waste => 0 | Syn => 1 | Psh => 2 | Fin => 3 | Settings_ => 4 | Alert => 5 | UpdatePaddingScheme => 6
  | SynAck => 7 | HeartRequest => 8 | HeartResponse => 9 | ServerSettings => 10
  end.

Definition from_u8 (b : Z) : result FrameError Command :=
  match b with
  | 0 => Ok Waste | 1 => Ok Syn | 2 => Ok Psh | 3 => Ok Fin | 4 => Ok Settings_ | 5 => Ok Alert | 6 => Ok UpdatePaddingScheme
  | 7 => Ok SynAck | 8 => Ok HeartRequest | 9 => Ok HeartResponse | 10 => Ok ServerSettings
  | other => Err (UnknownCommand other)
  end.

Record Frame := mk_frame { command : Command; stream_id : Z; payload : bytes }.

Definition Frame_new (c : Command) (stream_id : Z) (payload : bytes) : result FrameError Frame :=
  if (MAX_PAYLOAD <? length payload)%nat then Err (PayloadTooLarge (length payload)) else Ok (mk_frame c stream_id payload).

Definition control (c : Command) (stream_id : Z) : Frame := mk_frame c stream_id [].

Definition encoded_len (f : Frame) : nat := HEADER_LEN + length (payload f).

(** The bytes [encode] appends. *)
Definition encode (f : Frame) : bytes :=
  [to_u8 (command f)] ++ to_be_bytes 4 (stream_id f) ++ to_be_bytes 2 (wrap16 (Z.of_nat (length (payload f)))) ++ payload f.

Definition at_ (b : bytes) (i : nat) : Z := b !!! i.

Definition parse (src : bytes) : result FrameError (Frame * nat) :=
  if (length src <? HEADER_LEN)%nat then Err Incomplete else
  let? c := from_u8 (at_ src 0) in
  let sid := from_be_bytes (take 4 (drop 1 src)) in
  let data_len := Z.to_nat (from_be_bytes (take 2 (drop 5 src))) in
  let total := (HEADER_LEN + data_len)%nat in
  if (length src <? total)%nat then Err Incomplete else
  Ok (mk_frame c sid (take (total - HEADER_LEN) (drop HEADER_LEN src)), total).

(** The frame, if there is a whole one, and what is left of the buffer. *)
Definition Frame_decode (buf : bytes) : result FrameError (option Frame) * bytes :=
  if (length buf <? HEADER_LEN)%nat then (Ok None, buf) else
  match from_u8 (at_ buf 0) with
  | Err e => (Err e, buf)
  | Ok c =>
      let sid := from_be_bytes (take 4 (drop 1 buf)) in
      let data_len := Z.to_nat (from_be_bytes (take 2 (drop 5 buf))) in
      let total := (HEADER_LEN + data_len)%nat in
      if (length buf <? total)%nat then (Ok None, buf) else
      let frame := take total buf in
      (Ok (Some (mk_frame c sid (drop HEADER_LEN frame))), drop total buf)
  end.

(** ** The padding scheme *)

Inductive Seg := Size (lo hi : Z) | Check.   (* u32 *)

Record PaddingScheme := mk_scheme { stop : nat; plans : list (list Seg); raw : bytes }.

Inductive PaddingError :=
| MissingStop
| MalformedLine (line : bytes)
| InvalidNumber (tok : bytes)
| InvalidSegment (tok : bytes)
| InvalidRange (lo hi : Z).

(** [uN::from_str]: an optional [+], then digits. *)
Definition from_str (w : Z) (s : bytes) : option Z :=
  let s := match s with 43 :: r => r | _ => s end in
  match take_digits 10 s with
  | ((_ :: _) as ds, []) => let v := from_radix 10 ds in if v <? 2 ^ w then Some v else None
  | _ => None
  end.

(** [str::lines]: a line ends at a line feed, with the carriage return before it. *)
Definition strip_cr (l : bytes) : bytes := default l (strip_suffix [13] l).
Definition lines (s : bytes) : list bytes :=
  let ps := split_on 10 s in
  let l := last ps [] in
  (strip_cr <$> removelast ps) ++ (if decide (l = []) then [] else [l]).

Definition parse_usize (tok : bytes) : result PaddingError Z := ok_or (from_str 64 tok) (InvalidNumber tok).

Definition parse_segment (tok : bytes) : result PaddingError Seg :=
  if decide (tok = lit "c") then Ok Check else
  let? (lo, hi) := ok_or (split_once 45 tok) (InvalidSegment tok) in
  let? lo := ok_or (from_str 32 (trim lo)) (InvalidSegment tok) in
  let? hi := ok_or (from_str 32 (trim hi)) (InvalidSegment tok) in
  if hi <? lo then Err (InvalidRange lo hi) else Ok (Size lo hi).

Fixpoint parse_tokens (toks : list bytes) : result PaddingError (list Seg) :=
  match toks with
  | [] => Ok []
  | tok :: toks =>
      let tok := trim tok in
      if decide (tok = []) then parse_tokens toks else
      let? s := parse_segment tok in
      let? r := parse_tokens toks in
      Ok (s :: r)
  end.
Definition parse_segments (value : bytes) : result PaddingError (list Seg) := parse_tokens (split_on 44 value).

(** The loop over the lines: the value of [stop] and the entries, in order. *)
Fixpoint parse_lines (ls : list bytes) (st : option Z) (entries : list (Z * list Seg)) : result PaddingError (option Z * list (Z * list Seg)) :=
  match ls with
  | [] => Ok (st, entries)
  | line :: ls =>
      let line := trim line in
      if decide (line = []) then parse_lines ls st entries else
      let? (key, value) := ok_or (split_once 61 line) (MalformedLine line) in
      let key := trim key in let value := trim value in
      if decide (key = lit "stop") then let? n := parse_usize value in parse_lines ls (Some n) entries
      else
        let? idx := parse_usize key in
        let? segs := parse_segments value in
        parse_lines ls st (entries ++ [(idx, segs)])
  end.

(** [None]: the panic of a vector of [stop] plans, of 24 bytes each, that exceeds
    [isize::MAX] bytes. *)
Definition PaddingScheme_parse (s : bytes) : option (result PaddingError PaddingScheme) :=
  match parse_lines (lines s) None [] with
  | Err e => Some (Err e)
  | Ok (None, _) => Some (Err MissingStop)
  | Ok (Some n, entries) =>
      if 2 ^ 63 - 1 <? n * 24 then None else
      let set (p : list (list Seg)) (e : Z * list Seg) := if e.1 <? n then <[Z.to_nat e.1 := e.2]> p else p in
      Some (Ok (mk_scheme (Z.to_nat n) (fold_left set entries (replicate (Z.to_nat n) [])) s))
  end.

Definition plan (s : PaddingScheme) (packet : nat) : list Seg := default [] (plans s !! packet).

Definition DEFAULT_SCHEME : bytes :=
  lit "stop=8" ++ [10] ++ lit "0=30-30" ++ [10] ++ lit "1=100-400" ++ [10] ++
  lit "2=400-500,c,500-1000,c,500-1000,c,500-1000,c,500-1000" ++ [10] ++ lit "3=9-9,500-1000" ++ [10] ++
  lit "4=500-1000" ++ [10] ++ lit "5=500-1000" ++ [10] ++ lit "6=500-1000" ++ [10] ++ lit "7=500-1000".

(** ** Shaping *)

(** The system sampler: [rng k] is the word of the [k]-th draw, [None] an error of the
    generator. *)
Section shaping.
Context (rng : nat -> option Z).

Definition sample (lo hi : Z) (k : nat) : Z * nat :=
  if hi <=? lo then (lo, k) else
  (match rng k with Some w => lo + w mod (hi - lo + 1) | None => lo end, S k).

Definition push_waste (data_len : nat) : bytes :=
  let data_len := Nat.min data_len MAX_PAYLOAD in
  [to_u8 Waste] ++ to_be_bytes 4 0 ++ to_be_bytes 2 (Z.of_nat data_len) ++ replicate data_len 0.

(** One record, for the sampled size [l] and the data [b] that is left. *)
Definition record (l : nat) (b : bytes) : bytes * bytes :=
  if (l <? length b)%nat then (take l b, drop l b)
  else if decide (b = []) then (push_waste l, [])
  else (b ++ (if (length b + HEADER_LEN <? l)%nat then push_waste (l - length b - HEADER_LEN) else []), []).

(** The loop over the plan: the records and what is left of the data. [None] for the
    latter is the return at a check. *)
Fixpoint shape_loop (segs : list Seg) (b : bytes) (k : nat) : list bytes * option bytes * nat :=
  match segs with
  | [] => ([], Some b, k)
  | Check :: segs => if decide (b = []) then ([], None, k) else shape_loop segs b k
  | Size lo hi :: segs =>
      let '(l, k) := sample lo hi k in
      let '(rec, b) := record (Z.to_nat l) b in
      let '(recs, rest, k) := shape_loop segs b k in
      (rec :: recs, rest, k)
  end.

Definition shape_records (scheme : PaddingScheme) (pkt : nat) (data : bytes) (k : nat) : list bytes * nat :=
  if (stop scheme <=? pkt)%nat then (if decide (data = []) then [] else [data], k) else
  let '(recs, rest, k) := shape_loop (plan scheme pkt) data k in
  (recs ++ match rest with Some b => if decide (b = []) then [] else [b] | None => [] end, k).

End shaping.

(** ** Settings and authentication *)

(** A byte as two hexadecimal digits. *)
Definition hex_digit (n : Z) : Z := if n <? 10 then 48 + n else 87 + n.
Definition hex2 (b : Z) : bytes := [hex_digit (b / 16); hex_digit (b mod 16)].
(** [PaddingScheme::md5], the digest being an argument. *)
Definition scheme_md5 (md5 : bytes -> bytes) (s : PaddingScheme) : bytes := concat (hex2 <$> md5 (raw s)).

Record Settings := mk_settings { version : Z; client : bytes; padding_md5 : option bytes }.

Definition Settings_new (version : Z) (client : bytes) : Settings := mk_settings version client None.
Definition with_padding_md5 (s : Settings) (md5 : bytes) : Settings := mk_settings (version s) (client s) (Some md5).

Definition for_scheme (md5 : bytes -> bytes) (version : Z) (client : bytes) (s : PaddingScheme) : Settings :=
  with_padding_md5 (Settings_new version client) (scheme_md5 md5 s).

(** [u8::to_string]. *)
Definition show_u8 (v : Z) : bytes :=
  if v <? 10 then [48 + v] else if v <? 100 then [48 + v / 10; 48 + v mod 10] else [48 + v / 100; 48 + v / 10 mod 10; 48 + v mod 10].

Definition encode_settings (s : Settings) : bytes :=
  lit "v=" ++ show_u8 (version s) ++ [10] ++ lit "client=" ++ client s ++
  match padding_md5 s with Some md5 => [10] ++ lit "padding-md5=" ++ md5 | None => [] end.

Inductive SettingsError := NotUtf8 | MissingVersion | InvalidVersion.

(** The map of fields; a later line replaces an earlier one. *)
Fixpoint fields (ls : list bytes) (m : gmap (list Z) (list Z)) : gmap (list Z) (list Z) :=
  match ls with
  | [] => m
  | line :: ls =>
      let line := trim line in
      if decide (line = []) then fields ls m else
      match split_once 61 line with
      | Some (k, v) => fields ls (<[trim k := trim v]> m)
      | None => fields ls m
      end
  end.

Definition parse_settings (payload : bytes) : result SettingsError Settings :=
  if negb (utf8_valid payload) then Err NotUtf8 else
  let m := fields (lines payload) ∅ in
  let? v := ok_or (m !! lit "v") MissingVersion in
  let? v := ok_or (from_str 8 v) InvalidVersion in
  Ok (mk_settings v (default [] (m !! lit "client")) (m !! lit "padding-md5")).

Definition PASSWORD_HASH_LEN : nat := 32.
Inductive AuthError := PaddingTooLong (n : nat).

(** SHA-256 is an argument. *)
Definition encode_auth (sha256 : bytes -> bytes) (password padding0 : bytes) : result AuthError bytes :=
  if (Z.to_nat 65535 <? length padding0)%nat then Err (PaddingTooLong (length padding0)) else
  Ok (sha256 password ++ to_be_bytes 2 (wrap16 (Z.of_nat (length padding0))) ++ padding0).

(** ** The codec is exact *)

Definition frame_ok (f : Frame) : Prop :=
  fits 32 (stream_id f) /\ (length (payload f) <= MAX_PAYLOAD)%nat /\ bytes_ok (payload f).

Definition encode_all (fs : list Frame) : bytes := concat (encode <$> fs).

Lemma encode_all_app fs gs : encode_all (fs ++ gs) = encode_all fs ++ encode_all gs.
Proof. unfold encode_all. by rewrite fmap_app, concat_app. Qed.

Lemma encode_all_one f : encode_all [f] = encode f.
Proof. unfold encode_all. cbn [fmap list_fmap concat]. by rewrite app_nil_r. Qed.

Lemma from_to_u8 c : from_u8 (to_u8 c) = Ok c.
Proof. by destruct c. Qed.

Lemma to_from_u8 b c : from_u8 b = Ok c -> to_u8 c = b.
Proof.
  destruct b as [|p|p]; [|do 4 (try destruct p as [p|p|]; try done)|done]; cbn [from_u8]; intros E; by simplify_eq.
Qed.

Lemma length_encode_frame f : length (encode f) = encoded_len f.
Proof. unfold encode, encoded_len. by rewrite !length_app, !length_to_be_bytes. Qed.

(** The header that precedes [n] bytes of payload. *)
Definition header (c : Z) (sid n : Z) : bytes := [c] ++ to_be_bytes 4 sid ++ to_be_bytes 2 n.

Lemma length_frame_header c sid n : length (header c sid n) = HEADER_LEN.
Proof. unfold header. by rewrite !length_app, !length_to_be_bytes. Qed.

Lemma header_fields c sid n r :
  fits 32 sid -> fits 16 n ->
  at_ (header c sid n ++ r) 0 = c /\ from_be_bytes (take 4 (drop 1 (header c sid n ++ r))) = sid /\
  from_be_bytes (take 2 (drop 5 (header c sid n ++ r))) = n.
Proof.
  intros Hs Hn. unfold header. split_and!; [done| |].
  - rewrite <- !app_assoc, drop_app_length' by done. rewrite take_app_length' by by rewrite length_to_be_bytes.
    by apply from_to_be_bytes_small.
  - rewrite (app_assoc [c]), <- (app_assoc ([c] ++ _)), drop_app_length' by by rewrite length_app, length_to_be_bytes.
    rewrite take_app_length' by by rewrite length_to_be_bytes. by apply from_to_be_bytes_small.
Qed.

Lemma encode_header f : frame_ok f -> encode f = header (to_u8 (command f)) (stream_id f) (Z.of_nat (length (payload f))) ++ payload f.
Proof.
  intros (_ & Hn & _). unfold encode, header. rewrite wrap_small; [by rewrite <- !app_assoc|].
  unfold fits. unfold MAX_PAYLOAD in Hn. lia.
Qed.

Lemma payload_fits f : frame_ok f -> fits 16 (Z.of_nat (length (payload f))).
Proof. intros (_ & Hn & _). unfold fits. unfold MAX_PAYLOAD in Hn. lia. Qed.

Lemma decode_encode_frame f r : frame_ok f -> Frame_decode (encode f ++ r) = (Ok (Some f), r).
Proof.
  intros Hf. pose proof (payload_fits f Hf) as Hn. rewrite encode_header, <- app_assoc by done. destruct Hf as (Hs & _ & _).
  destruct (header_fields (to_u8 (command f)) (stream_id f) _ (payload f ++ r) Hs Hn) as (E0 & E1 & E2).
  unfold Frame_decode. rewrite E0, E1, E2, from_to_u8, Nat2Z.id, !length_app, length_frame_header.
  rewrite (proj2 (Nat.ltb_ge _ _)) by lia. rewrite (proj2 (Nat.ltb_ge _ _)) by lia. cbv zeta.
  rewrite app_assoc, take_app_length' by by rewrite length_app, length_frame_header.
  rewrite !drop_app_length' by by rewrite ?length_app, length_frame_header. by destruct f.
Qed.

(** A proper prefix of an encoding decodes to nothing, and is kept. *)
Lemma decode_partial f b : frame_ok f -> b `prefix_of` encode f -> b <> encode f -> Frame_decode b = (Ok None, b).
Proof.
  intros Hf [r E] Hne. assert (length b < length (encode f))%nat as Hl.
  { rewrite E, length_app. destruct r; [by rewrite app_nil_r in E|simpl; lia]. }
  rewrite length_encode_frame in Hl. unfold Frame_decode. destruct (Nat.ltb_spec (length b) HEADER_LEN) as [|Hb]; [done|].
  pose proof (payload_fits f Hf) as Hn. rewrite encode_header in E by done. destruct Hf as (Hs & _ & _).
  destruct (header_fields (to_u8 (command f)) (stream_id f) _ (payload f) Hs Hn) as (E0 & E1 & E2). rewrite E in E0, E1, E2.
  unfold HEADER_LEN in Hb. assert (at_ b 0 = to_u8 (command f)) as ->.
  { rewrite <- E0. unfold at_. by rewrite lookup_total_app_l by lia. }
  rewrite from_to_u8. rewrite !drop_app_le, !take_app_le in E2 by (rewrite ?length_drop; lia). rewrite E2, Nat2Z.id. cbv zeta.
  unfold encoded_len in Hl. by rewrite (proj2 (Nat.ltb_lt _ _)) by lia.
Qed.

Lemma split_header b : bytes_ok b -> (HEADER_LEN <= length b)%nat ->
  b = header (at_ b 0) (from_be_bytes (take 4 (drop 1 b))) (from_be_bytes (take 2 (drop 5 b))) ++ drop HEADER_LEN b.
Proof.
  intros Hb Hl. unfold HEADER_LEN in *. destruct b as [|c b]; [simpl in Hl; lia|].
  change (drop 1 (c :: b)) with b. change (drop 5 (c :: b)) with (drop 4 b). change (drop (1 + 4 + 2) (c :: b)) with (drop 6 b).
  change (at_ (c :: b) 0) with c. assert (bytes_ok b) by (by inversion Hb). cbn [length] in Hl. unfold header. cbn [app]. f_equal.
  rewrite <- app_assoc.
  assert (to_be_bytes 4 (from_be_bytes (take 4 b)) = take 4 b) as ->.
  { rewrite <- (to_from_be_bytes (take 4 b)) at 2 by by apply Forall_take. by rewrite length_take_le by lia. }
  assert (to_be_bytes 2 (from_be_bytes (take 2 (drop 4 b))) = take 2 (drop 4 b)) as ->.
  { rewrite <- (to_from_be_bytes (take 2 (drop 4 b))) at 2 by by apply Forall_take, Forall_drop.
    by rewrite length_take_le by (rewrite length_drop; lia). }
  change (drop 6 b) with (drop (4 + 2) b). by rewrite <- drop_drop, !take_drop.
Qed.

Lemma decode_sound b f r : bytes_ok b -> Frame_decode b = (Ok (Some f), r) -> frame_ok f /\ b = encode f ++ r.
Proof.
  intros Hb. unfold Frame_decode. destruct (Nat.ltb_spec (length b) HEADER_LEN) as [|Hl]; [done|].
  destruct (from_u8 (at_ b 0)) as [c|] eqn:Ec; [|done]. cbv zeta. set (n := from_be_bytes (take 2 (drop 5 b))).
  destruct (Nat.ltb_spec (length b) (HEADER_LEN + Z.to_nat n)) as [|Hn]; [done|].
  assert (0 <= n < 256 ^ 2) as Hr.
  { unfold n. pose proof (from_be_bytes_bound (take 2 (drop 5 b))) as H. rewrite length_take_le in H by (unfold HEADER_LEN in Hl; rewrite length_drop; lia).
    apply H. by apply Forall_take, Forall_drop. }
  assert (fits 32 (from_be_bytes (take 4 (drop 1 b)))) as Hs.
  { pose proof (from_be_bytes_bound (take 4 (drop 1 b))) as H. rewrite length_take_le in H by (unfold HEADER_LEN in Hl; rewrite length_drop; lia).
    apply H. by apply Forall_take, Forall_drop. }
  rewrite <- take_drop_commute. intros E. assert (r = drop (HEADER_LEN + Z.to_nat n) b) as -> by congruence.
  assert (f = mk_frame c (from_be_bytes (take 4 (drop 1 b))) (take (Z.to_nat n) (drop HEADER_LEN b))) as -> by congruence. clear E.
  assert (length (take (Z.to_nat n) (drop HEADER_LEN b)) = Z.to_nat n) as Hlen by (rewrite length_take_le; [done|rewrite length_drop; lia]).
  assert (frame_ok (mk_frame c (from_be_bytes (take 4 (drop 1 b))) (take (Z.to_nat n) (drop HEADER_LEN b)))) as Hok.
  { split_and!; [done|cbn [payload]; rewrite Hlen; unfold MAX_PAYLOAD; lia|by apply Forall_take, Forall_drop]. }
  split; [done|]. rewrite encode_header by done. cbn [command stream_id payload]. rewrite Hlen, Z2Nat.id, (to_from_u8 _ _ Ec) by lia.
  rewrite <- app_assoc, <- drop_drop, take_drop. by apply split_header.
Qed.

(** ** Shaping adds waste after the data and nothing else *)

Definition waste (n : nat) : Frame := mk_frame Waste 0 (replicate (Nat.min n MAX_PAYLOAD) 0).

Lemma waste_ok n : frame_ok (waste n).
Proof.
  split_and!; cbn [waste stream_id payload]; [unfold fits; lia|rewrite length_replicate; lia|].
  apply Forall_replicate. unfold fits; lia.
Qed.

Lemma push_waste_encode n : push_waste n = encode (waste n).
Proof.
  unfold push_waste, encode. cbn [waste command stream_id payload]. rewrite length_replicate, wrap_small; [done|].
  unfold fits, MAX_PAYLOAD. lia.
Qed.

Lemma length_push_waste n : length (push_waste n) = (HEADER_LEN + Nat.min n MAX_PAYLOAD)%nat.
Proof. rewrite push_waste_encode, length_encode_frame. unfold encoded_len. cbn [waste payload]. by rewrite length_replicate. Qed.

Lemma sample_range rng lo hi k : lo <= hi -> lo <= (sample rng lo hi k).1 <= hi.
Proof.
  intros. unfold sample. destruct (Z.leb_spec hi lo); cbn [fst]; [lia|]. destruct (rng k) as [w|]; [|lia].
  pose proof (Z.mod_pos_bound w (hi - lo + 1)). lia.
Qed.

Lemma record_data l b : exists ns, (record l b).1 ++ (record l b).2 = b ++ encode_all (waste <$> ns) /\ (ns = [] \/ (record l b).2 = []).
Proof.
  unfold record. destruct (Nat.ltb_spec l (length b)); [exists []; cbn; by rewrite take_drop, app_nil_r; auto|].
  case_decide as Hb; [exists [l]; subst b|destruct (_ <? _)%nat; [exists [(l - length b - HEADER_LEN)%nat]|exists []]];
    cbn [fst snd]; rewrite ?push_waste_encode, ?app_nil_r; auto.
  - split; [|by right]. cbn [fmap list_fmap]. by rewrite encode_all_one.
  - split; [|by right]. cbn [fmap list_fmap]. by rewrite encode_all_one.
Qed.

(** The bytes of a record for a sampled size [l] with [n] bytes of data left: a waste frame of [l] bytes and its header if there
    are none; otherwise [l], but for a last record the header of a waste frame does not fit (the data alone), and with
    no more waste than a frame carries. *)
Definition wire_len (n l : Z) : Z :=
  if n =? 0 then Z.of_nat HEADER_LEN + Z.min l 65535
  else if l <=? n + Z.of_nat HEADER_LEN then Z.min l n else Z.min l (n + Z.of_nat HEADER_LEN + 65535).

Lemma record_size l b : Z.of_nat (length (record l b).1) = wire_len (Z.of_nat (length b)) (Z.of_nat l).
Proof.
  assert (Z.of_nat MAX_PAYLOAD = 65535) by (unfold MAX_PAYLOAD; lia). unfold record, wire_len.
  destruct (Nat.ltb_spec l (length b)); [cbn [fst]; rewrite length_take_le by lia; rewrite (proj2 (Z.eqb_neq _ _)) by lia; rewrite (proj2 (Z.leb_le _ _)) by lia; lia|].
  case_decide as Hb; [subst b; cbn [fst length]; change (Z.of_nat 0 =? 0) with true; cbv iota; rewrite length_push_waste; lia|].
  assert (length b <> 0)%nat by (by destruct b). rewrite (proj2 (Z.eqb_neq _ _)) by lia.
  destruct (Nat.ltb_spec (length b + HEADER_LEN) l); cbn [fst]; rewrite length_app, ?length_push_waste; cbn [length];
    destruct (Z.leb_spec (Z.of_nat l) (Z.of_nat (length b) + Z.of_nat HEADER_LEN)); lia.
Qed.

Lemma record_left l b : length (record l b).2 = (length b - length (record l b).1)%nat.
Proof.
  unfold record. destruct (Nat.ltb_spec l (length b)); [cbn [fst snd]; rewrite length_take_le, length_drop; lia|].
  case_decide; cbn [fst snd length]; [subst b; cbn; lia|rewrite length_app; lia].
Qed.

Definition sizes (segs : list Seg) : list (Z * Z) := omap (fun g => match g with Size lo hi => Some (lo, hi) | Check => None end) segs.
Definition range_ok (g : Seg) : Prop := match g with Size lo hi => 0 <= lo <= hi | Check => True end.

(** The records are those of the ranges, one each, with [left] bytes of data before the first. *)
Fixpoint sized (left : nat) (rs : list (Z * Z)) (recs : list bytes) : Prop :=
  match rs, recs with
  | [], [] => True
  | (lo, hi) :: rs, rec :: recs =>
      (exists l, lo <= l <= hi /\ Z.of_nat (length rec) = wire_len (Z.of_nat left) l) /\ sized (left - length rec) rs recs
  | _, _ => False
  end.

Lemma shape_loop_size rng lo hi segs b k :
  shape_loop rng (Size lo hi :: segs) b k =
  let '(l, k) := sample rng lo hi k in
  let '(recs, rest, k) := shape_loop rng segs (record (Z.to_nat l) b).2 k in ((record (Z.to_nat l) b).1 :: recs, rest, k).
Proof. cbn [shape_loop]. destruct (sample rng lo hi k) as [l k']. by destruct (record (Z.to_nat l) b). Qed.

Lemma shape_loop_data rng segs b k :
  let '(recs, rest, _) := shape_loop rng segs b k in
  exists ns, concat recs ++ default [] rest = b ++ encode_all (waste <$> ns) /\ (ns = [] \/ default [] rest = []).
Proof.
  revert b k. induction segs as [|[lo hi|] segs IH]; intros b k; [exists []; split; [|by left]; cbn; by rewrite app_nil_r| |].
  - rewrite shape_loop_size. destruct (sample rng lo hi k) as [l k']. destruct (record_data (Z.to_nat l) b) as (ns & E & Hns).
    destruct (record (Z.to_nat l) b) as [rec b'] eqn:Er. cbn [fst snd] in *.
    specialize (IH b' k'). destruct (shape_loop rng segs b' k') as [[recs rest] k'']. destruct IH as (ms & E' & Hms).
    exists (ns ++ ms). cbn [concat]. rewrite <- app_assoc, E', fmap_app, encode_all_app, (app_assoc b), <- E, <- app_assoc.
    destruct Hns as [-> | ->]; [split; [|by destruct Hms; auto]|].
    + done.
    + split; [done|]. right. cbn [app] in E'. destruct Hms as [->|]; [|done]. by apply app_eq_nil in E' as [_ E'].
  - cbn [shape_loop]. case_decide as Hb; [subst b; exists []; auto|apply IH].
Qed.

(** How far the loop follows its plan: through every size, past every check at which
    data is left, to the first at which there is none. *)
Definition followed (segs : list Seg) (n : nat) (recs : list bytes) (pre post : list Seg) : Prop :=
  segs = pre ++ post /\ sized n (sizes pre) recs /\
  (forall p q, pre = p ++ Check :: q -> length (concat (take (length (sizes p)) recs)) < n)%nat /\
  (post = [] \/ (exists q, post = Check :: q) /\ (n <= length (concat recs))%nat).

Lemma followed_size lo hi segs n rec recs pre post l : lo <= l <= hi -> Z.of_nat (length rec) = wire_len (Z.of_nat n) l ->
  followed segs (n - length rec) recs pre post -> followed (Size lo hi :: segs) n (rec :: recs) (Size lo hi :: pre) post.
Proof.
  intros Hl Hr (-> & Hs & Hc & Hp). split; [done|]. split; [cbn [sizes omap list_omap sized]; split; [by exists l|exact Hs]|]. split.
  - intros p q E. destruct p as [|g p]; [done|]. injection E as <- E. cbn [sizes omap list_omap length take concat]. specialize (Hc p q E).
    change (omap _ p) with (sizes p). rewrite length_app. lia.
  - destruct Hp as [|[Hq Hn]]; [by left|]. right. split; [done|]. cbn [concat]. rewrite length_app. lia.
Qed.

Lemma shape_loop_follows rng segs : forall b k, Forall range_ok segs ->
  let '(recs, rest, _) := shape_loop rng segs b k in
  exists pre post, followed segs (length b) recs pre post /\ (default [] rest = [] \/ post = [] /\ concat recs ++ default [] rest = b).
Proof.
  induction segs as [|[lo hi|] segs IH]; intros b k Hok.
  - exists [], []. split; [|by right]. split; [done|]. split; [done|]. split; [by intros [] ?|by left].
  - apply Forall_cons_1 in Hok as [Hg Hok]. rewrite shape_loop_size. cbn in Hg. pose proof (sample_range rng lo hi k ltac:(lia)) as Hl.
    destruct (sample rng lo hi k) as [l k']. cbn [fst] in Hl. pose proof (record_size (Z.to_nat l) b) as Hz. pose proof (record_left (Z.to_nat l) b) as Hn.
    rewrite Z2Nat.id in Hz by lia. specialize (IH (record (Z.to_nat l) b).2 k' Hok). destruct (record_data (Z.to_nat l) b) as (ns & E & Hns).
    destruct (shape_loop rng segs _ k') as [[recs rest] k'']. destruct IH as (pre & post & Hf & Hr). rewrite Hn in Hf.
    exists (Size lo hi :: pre), post. split; [by apply followed_size with l|].
    destruct Hr as [|[Hp Hr]]; [by left|]. destruct Hns as [->|Hb].
    + right. split; [done|]. cbn [concat]. rewrite <- app_assoc, Hr, E. apply app_nil_r.
    + left. rewrite Hb in Hr. by apply app_eq_nil in Hr as [_ Hr].
  - apply Forall_cons_1 in Hok as [_ Hok]. cbn [shape_loop]. case_decide as Hb.
    + subst b. exists [], (Check :: segs). split; [|by left]. split; [done|]. split; [done|]. split; [by intros [] ?|]. right. split; [by exists segs|done].
    + specialize (IH b k Hok). destruct (shape_loop rng segs b k) as [[recs rest] k']. destruct IH as (pre & post & (-> & Hs & Hc & Hp) & Hr).
      exists (Check :: pre), post. split; [|done]. split; [done|]. split; [done|]. split; [|done]. intros [|g p] q E.
      * change (0 < length b)%nat. destruct b; [done|apply Nat.lt_0_succ].
      * injection E as <- E. by apply (Hc p q).
Qed.

(** *** The plans of a parsed scheme *)

Lemma from_str_nonneg w s v : from_str w s = Some v -> 0 <= v.
Proof.
  unfold from_str. cbv zeta. set (s' := match s with 43 :: r => r | _ => s end). pose proof (take_digits_nonneg 10 s' ltac:(lia)) as Hn.
  destruct (take_digits 10 s') as [[|d ds] [|x r]]; try done. destruct (_ <? _); [|done]. intros [= <-]. by apply from_radix_nonneg.
Qed.

Lemma parse_tokens_ranges toks : forall segs, parse_tokens toks = Ok segs -> Forall range_ok segs.
Proof.
  induction toks as [|tok toks IH]; intros segs; cbn [parse_tokens]; [intros [= <-]; constructor|]. case_decide; [apply IH|].
  destruct (parse_segment (trim tok)) as [g|] eqn:Eg; [|done]. cbn. destruct (parse_tokens toks) as [r|]; [|done]. intros [= <-]. constructor; [|by apply IH].
  unfold parse_segment in Eg. case_decide; [by injection Eg as <-|]. destruct (split_once 45 (trim tok)) as [[lo hi]|]; [|done]. cbn in Eg.
  destruct (from_str 32 (trim lo)) as [x|] eqn:Ex; [|done]. cbn in Eg. destruct (from_str 32 (trim hi)) as [y|]; [|done]. cbn in Eg.
  destruct (Z.ltb_spec y x); [done|]. injection Eg as <-. apply from_str_nonneg in Ex. cbn. lia.
Qed.

Lemma parse_lines_ranges ls : forall st entries r, Forall (fun e => Forall range_ok e.2) entries ->
  parse_lines ls st entries = Ok r -> Forall (fun e => Forall range_ok e.2) r.2.
Proof.
  induction ls as [|l ls IH]; intros st entries r He; cbn [parse_lines]; [by intros [= <-]|]. case_decide; [by apply IH|].
  destruct (split_once 61 (trim l)) as [[key value]|]; [|done]. cbn. case_decide.
  - destruct (parse_usize (trim value)) as [n|]; [|done]. by apply IH.
  - destruct (parse_usize (trim key)) as [n|]; [|done]. cbn. destruct (parse_segments (trim value)) as [segs|] eqn:Es; [|done].
    apply IH. apply Forall_app. split; [done|]. constructor; [|constructor]. by apply parse_tokens_ranges in Es.
Qed.

Lemma parse_plans text scheme pkt : PaddingScheme_parse text = Some (Ok scheme) -> Forall range_ok (plan scheme pkt).
Proof.
  unfold PaddingScheme_parse. destruct (parse_lines (lines text) None []) as [[[n|] entries]|] eqn:E; [|done..].
  apply parse_lines_ranges in E; [|constructor]. destruct (_ <? _); [done|]. intros [= <-]. unfold plan. cbn [plans snd] in *.
  match goal with |- Forall _ (default [] (fold_left ?f _ ?p !! _)) => enough (Forall (Forall range_ok) (fold_left f entries p)) as H by
    (destruct (_ !! pkt) as [segs|] eqn:El; [by eapply Forall_lookup_1 in H|constructor]);
    assert (Forall (Forall range_ok) p) as Hp by (apply Forall_replicate; constructor); revert Hp; generalize p end.
  induction E as [|e entries He E IH]; intros p Hp; [done|]. cbn [fold_left]. apply IH. destruct (_ <? _); [|done]. by apply Forall_insert.
Qed.

Lemma shape_records_data rng scheme pkt data k :
  let '(recs, _) := shape_records rng scheme pkt data k in
  exists ns, concat recs = data ++ encode_all (waste <$> ns) /\ Forall frame_ok (waste <$> ns).
Proof.
  unfold shape_records. destruct (_ <=? _)%nat.
  { exists []. split; [|constructor]. unfold encode_all. cbn. case_decide; [by subst data|]. cbn. by rewrite !app_nil_r. }
  pose proof (shape_loop_data rng (plan scheme pkt) data k) as Hd. destruct (shape_loop rng (plan scheme pkt) data k) as [[recs rest] k'].
  destruct Hd as (ns & E & _). exists ns. split; [|apply Forall_fmap, Forall_true; intros n; apply waste_ok]. rewrite <- E, concat_app. f_equal.
  destruct rest as [b|]; [|done]. cbn. case_decide; [by subst b|]. cbn. by rewrite app_nil_r.
Qed.

(** C30: shaping a write never loses, changes or reorders a byte of it, whatever the plan and the random sizes: the records
    concatenate to the data followed by whole waste frames, which the peer discards. From the packet [stop] on the data is one record
    and nothing is added. Before it, under a parsed scheme, there is one record for each size of the plan, of exactly the bytes that a size of its range
    and the data left ask for, through every size, past every check at which data is left, up to the first at which there is none;
    and one more record just when the whole plan left data over, which is then the rest of it, with no waste added. *)
Theorem shape_records_correct rng scheme pkt data k :
  let '(recs, _) := shape_records rng scheme pkt data k in
  (exists ns, concat recs = data ++ encode_all (waste <$> ns) /\ Forall frame_ok (waste <$> ns)) /\
  ((stop scheme <= pkt)%nat -> recs = if decide (data = []) then [] else [data]) /\
  ((pkt < stop scheme)%nat -> (exists text, PaddingScheme_parse text = Some (Ok scheme)) ->
   exists pre post shaped rest, recs = shaped ++ rest /\ followed (plan scheme pkt) (length data) shaped pre post /\
     (rest = [] \/ post = [] /\ exists left, left <> [] /\ rest = [left] /\ concat shaped ++ left = data)).
Proof.
  pose proof (shape_records_data rng scheme pkt data k) as Hd. pose proof (shape_loop_follows rng (plan scheme pkt) data k) as Hf.
  unfold shape_records in *. destruct (Nat.leb_spec (stop scheme) pkt); [split; [done|]; split; [done|lia]|].
  destruct (shape_loop rng (plan scheme pkt) data k) as [[recs rest] k']. split; [done|]. split; [lia|]. intros _ (text & Hp).
  destruct Hf as (pre & post & Hf & Hr); [by apply parse_plans with text|]. exists pre, post. eexists recs, _. split; [done|]. split; [done|].
  destruct rest as [more|]; [|by left]. case_decide; [by left|]. cbn in Hr. destruct Hr as [|[-> Hr]]; [done|]. right. split; [done|]. by exists more.
Qed.

(** ** Settings survive the wire *)

Abbreviation visible := (Forall (fun b => graphic b = true)).

Lemma visible_10 l : visible l -> Forall (fun b => b <> 10) l.
Proof. intros H. eapply Forall_impl; [|exact H]. unfold graphic. intros b Hb. cbv beta in *. lia. Qed.

Lemma split_on_none l : visible l -> split_on 10 l = [l].
Proof. intros H%visible_10. induction H as [|b l Hb _ IH]; [done|]. cbn [split_on]. rewrite IH. by rewrite (proj2 (Z.eqb_neq _ _)). Qed.

Lemma split_on_line l r : visible l -> split_on 10 (l ++ [10] ++ r) = l :: split_on 10 r.
Proof. intros H%visible_10. induction H as [|b l Hb _ IH]; [done|]. cbn [split_on app] in *. rewrite IH. by rewrite (proj2 (Z.eqb_neq _ _)). Qed.

Lemma strip_cr_visible l : visible l -> strip_cr l = l.
Proof.
  intros Hl. unfold strip_cr, strip_suffix. destruct (strip_prefix _ _) as [r|] eqn:E; [|done].
  apply strip_prefix_Some in E. apply (f_equal reverse) in E. rewrite reverse_involutive in E. subst l.
  rewrite reverse_app, Forall_app in Hl. destruct Hl as [_ Hl]. by inversion Hl.
Qed.

Lemma split_once_key k v : Forall (fun b => b <> 61) k -> split_once 61 (k ++ [61] ++ v) = Some (k, v).
Proof. induction 1 as [|b k Hb _ IH]; [done|]. cbn [split_once app] in *. rewrite IH. by rewrite (proj2 (Z.eqb_neq _ _)). Qed.

Lemma fields_line k v ls m : Forall (fun b => b <> 61) k -> visible k -> visible v ->
  fields ((k ++ [61] ++ v) :: ls) m = fields ls (<[k := v]> m).
Proof.
  intros Hk Gk Gv. cbn [fields]. rewrite trim_graphic by (repeat (apply Forall_app; split); auto).
  rewrite decide_False by by destruct k. by rewrite split_once_key, !trim_graphic.
Qed.

Lemma utf8_visible l : Forall (fun b => b < 128) l -> utf8_valid l = true.
Proof.
  unfold utf8_valid. assert (length l <= length l)%nat as Hn by done. revert Hn. generalize (length l) at 2 3 as n.
  intros n Hn Hl. revert n Hn. induction Hl as [|b l Hb _ IH]; intros n Hn; [done|].
  destruct n as [|n]; simpl in Hn; [lia|]. cbn [utf8_valid_fuel]. rewrite (proj2 (Z.ltb_lt _ _)) by done. apply IH. lia.
Qed.

Definition settings_ok (s : Settings) : Prop :=
  fits 8 (version s) /\ visible (client s) /\ from_option (fun m => visible m) True (padding_md5 s).

Lemma show_u8_spec v : fits 8 v -> from_str 8 (show_u8 v) = Some v /\ visible (show_u8 v).
Proof.
  intros [H0 H1]. assert (forallb (fun n => bool_decide (from_str 8 (show_u8 (Z.of_nat n)) = Some (Z.of_nat n)) && forallb graphic (show_u8 (Z.of_nat n))) (seq 0 256) = true) as H by by vm_compute.
  rewrite forallb_forall in H. specialize (H (Z.to_nat v)). rewrite in_seq, Z2Nat.id, andb_true_iff, bool_decide_eq_true, forallb_forall in H by lia.
  destruct H as [E G]; [lia|]. split; [done|]. by apply List.Forall_forall.
Qed.

(** The lines of an encoding. *)
Lemma lines_joined l ls : visible l -> l <> [] -> Forall (fun l => visible l /\ l <> []) ls ->
  lines (l ++ concat ((fun x => [10] ++ x) <$> ls)) = l :: ls.
Proof.
  intros Gl Nl H. unfold lines.
  assert (split_on 10 (l ++ concat ((fun x => [10] ++ x) <$> ls)) = l :: ls) as ->.
  { revert l Gl Nl. induction H as [|x ls [Gx Nx] _ IH]; intros l Gl Nl; cbn [fmap list_fmap concat]; [by rewrite app_nil_r, split_on_none|].
    rewrite <- app_assoc, split_on_line by done. by rewrite IH. }
  assert (Forall (fun l => visible l /\ l <> []) (l :: ls)) as Ha by by constructor.
  destruct (exists_last (l := l :: ls) ltac:(done)) as (front & e & E). rewrite E in Ha |- *.
  rewrite removelast_last, last_last. apply Forall_app in Ha as [Hf He]. apply Forall_inv in He as [_ Ne]. rewrite decide_False by done.
  f_equal. clear E. induction Hf as [|x front [Gx _] _ IH]; [done|]. cbn [fmap list_fmap]. by rewrite strip_cr_visible, IH.
Qed.

(** Settings whose texts are visible ASCII are read back as they were sent. *)
Theorem settings_roundtrip s : settings_ok s -> parse_settings (encode_settings s) = Ok s.
Proof.
  intros (Hv & Gc & Gm). destruct (show_u8_spec _ Hv) as [Ev Gv].
  set (extra := match padding_md5 s with Some md5 => [lit "padding-md5" ++ [61] ++ md5] | None => [] end).
  assert (encode_settings s = (lit "v" ++ [61] ++ show_u8 (version s)) ++
    concat ((fun x => [10] ++ x) <$> ((lit "client" ++ [61] ++ client s) :: extra))) as E.
  { unfold encode_settings, extra. destruct (padding_md5 s) as [m|]; cbn [fmap list_fmap concat]; rewrite ?app_nil_r, <- ?app_assoc; done. }
  assert (Forall (fun l => visible l /\ l <> []) ((lit "client" ++ [61] ++ client s) :: extra)) as Hl.
  { constructor; [split; [|done]; repeat (apply Forall_app; split); [repeat constructor..|done]|].
    unfold extra. destruct (padding_md5 s) as [m|]; [|constructor]. repeat constructor; [|done]. repeat (apply Forall_app; split); [repeat constructor..|done]. }
  assert (visible (lit "v" ++ [61] ++ show_u8 (version s))) as Gl by (repeat (apply Forall_app; split); [repeat constructor..|done]).
  unfold parse_settings. rewrite E, lines_joined by done. rewrite utf8_visible; cbn [negb].
  2:{ assert (forall l, visible l -> Forall (fun b => b < 128) l) as Hlt.
      { intros l Hl'. eapply Forall_impl; [|exact Hl']. unfold graphic. intros b Hb. cbv beta in *. lia. }
      apply Forall_app; split; [by apply Hlt|]. apply Forall_concat, Forall_fmap. eapply Forall_impl; [|exact Hl].
      intros x [Gx _]. constructor; [lia|by apply Hlt]. }
  rewrite !fields_line by first [done | decided]. unfold extra. destruct s as [v c [m|]]; cbn [version client padding_md5 from_option] in *;
    rewrite ?fields_line by first [done | decided]; cbn [fields];
    repeat (first [rewrite lookup_insert_eq | rewrite lookup_insert_ne by decided]; cbn [ok_or]);
    cbn [mbind]; rewrite Ev; done.
Qed.

(** A pushed scheme with a large [stop] is not rejected: its parsing panics. *)
Example huge_stop_panics : PaddingScheme_parse (lit "stop=1000000000000000000") = None.
Proof. by vm_compute. Qed.

Example default_parses : exists s, PaddingScheme_parse DEFAULT_SCHEME = Some (Ok s) /\ stop s = 8%nat /\
  plan s 2 = [Size 400 500; Check; Size 500 1000; Check; Size 500 1000; Check; Size 500 1000; Check; Size 500 1000].
Proof. eexists. split; [vm_compute; reflexivity|]. by vm_compute. Qed.

End anytls.
