(* ===== verification/AnyTlsSession.v ===== *)
(** [core/src/transport/anytls/{io,session}.rs]: a client session that multiplexes streams
    over one connection. Its writer task, its reader task and the users of its streams are
    interleaved by a schedule; a step says what each does and what it lets be observed. *)

From S2P Require Import Prelude Lists RustStr AnyTls Stall.

Module anytls_session.
Import stall anytls.

Definition OUTBOUND_CAP : nat := 64.
Definition STREAM_INBOUND_CAP : nat := 32.
Definition PROTOCOL_VERSION : Z := 2.

Inductive Out := OFrame (f : Frame) | EndBuffering.

(** ** The writer task *)

(** The locals of [client_writer_inner]; [draws] counts the words its sampler has drawn. *)
Record Writer := mk_writer { buffering : bool; buffer : bytes; pkt : nat; draws : nat }.
#[export] Instance eta_Writer : Settable Writer := fun w => mk_writer (buffering w) (buffer w) (pkt w) (draws w).

(** One item: the records it is written as. *)
Definition client_writer_item (rng : nat -> option Z) (scheme : PaddingScheme) (item : Out) (w : Writer) : list bytes * Writer :=
  match item with
  | EndBuffering => ([], w <| buffering := false |>)
  | OFrame f =>
      if buffering w then ([], w <| buffer := buffer w ++ encode f |>) else
      let data := buffer w ++ encode f in
      let pkt := S (pkt w) in
      let '(records, k) := shape_records rng scheme pkt data (draws w) in
      (records, mk_writer false [] pkt k)
  end.

(** ** A stream *)

(** How far [open_stream] got for it. *)
Inductive phase := Allocated | Registered | SynSent | Opened.
#[export] Instance phase_eq_dec : EqDecision phase.
Proof. solve_decision. Defined.

(** [inbound] is the channel of the reader to the stream, [receiver] whether the stream's
    end of it still exists. *)
Record Stream := mk_stream {
  id : Z;                  (* u32 *)
  stage : phase;
  inbound : list bytes;
  read_rem : bytes;
  write_closed : bool;
  receiver : bool;
}.
#[export] Instance eta_Stream : Settable Stream :=
  fun s => mk_stream (id s) (stage s) (inbound s) (read_rem s) (write_closed s) (receiver s).

(** The loop of [poll_read], with room for [n] bytes; [sender] is whether the reader still
    holds its end of the channel. An empty answer is the end of the stream. *)
Fixpoint poll_recv (n : nat) (sender : bool) (rem : bytes) (q : list bytes) : Poll bytes * bytes * list bytes :=
  if decide (rem = []) then
    match q with
    | b :: q => poll_recv n sender b q
    | [] => (if sender then Pending else Ready [], [], [])
    end
  else (Ready (take n rem), drop n rem, q).
Definition poll_read (n : nat) (sender : bool) (s : Stream) : Poll bytes * Stream :=
  let '(r, rem, q) := poll_recv n sender (read_rem s) (inbound s) in (r, s <| read_rem := rem |> <| inbound := q |>).

(** ** The session *)

(** [streams] is the reader's table from ids to streams, [all] every stream ever opened,
    [routing] the frame the reader has taken and not handed on. *)
Record Session := mk_session {
  auth : bytes;
  scheme : PaddingScheme;
  outbound : list Out;
  started : bool;
  writing : bool;
  writer : Writer;
  wire : list bytes;
  reading : bool;
  buf : bytes;
  routing : option Frame;
  streams : gmap Z nat;
  all : list Stream;
  active : nat;
  next_id : Z;             (* u32 *)
}.
#[export] Instance eta_Session : Settable Session :=
  fun s => mk_session (auth s) (scheme s) (outbound s) (started s) (writing s) (writer s) (wire s) (reading s) (buf s)
    (routing s) (streams s) (all s) (active s) (next_id s).

Definition is_alive (s : Session) : bool := writing s && reading s.

Section session.
Context (rng : nat -> option Z).

(** What a schedule lets be observed: a registration, a frame taken from the connection
    and handled, a frame accepted for sending, bytes accepted from the user of a stream of
    an id, bytes given to the user of a stream, the end of a stream, bytes received. *)
Inductive obs :=
| Reg (h : nat) (i : Z)
| Routed (f : Frame)
| Sent (f : Frame)
| Accepted (i : Z) (b : bytes)
| Got (h : nat) (b : bytes)
| AtEof (h : nat)
| Arrived (b : bytes).

(** The reader task ends: the table is dropped, and with it its end of every channel. *)
Definition end_reader (s : Session) : Session := s <| reading := false |> <| routing := None |> <| streams := ∅ |>.

(** [route]. [None]: waiting for room in the stream's channel. *)
Definition route (f : Frame) (s : Session) : option Session :=
  let s := s <| routing := None |> in
  match command f with
  | Psh =>
      match streams s !! stream_id f with
      | None => Some s
      | Some h =>
          let! st := all s !! h in
          if negb (receiver st) then Some (s <| streams := delete (stream_id f) (streams s) |>)
          else if (length (inbound st) <? STREAM_INBOUND_CAP)%nat
          then Some (s <| all := <[h := st <| inbound := inbound st ++ [payload f] |>]> (all s) |>)
          else None
      end
  | Fin => Some (s <| streams := delete (stream_id f) (streams s) |>)
  | SynAck => Some (if decide (payload f = []) then s else s <| streams := delete (stream_id f) (streams s) |>)
  | UpdatePaddingScheme =>
      if utf8_valid (payload f) then
        match PaddingScheme_parse (payload f) with
        | None => Some (end_reader s)                      (* the task panics *)
        | Some (Ok updated) => Some (s <| scheme := updated |>)
        | Some (Err _) => Some s
        end
      else Some s
  | Syn | Settings_ | ServerSettings | Alert | HeartRequest | HeartResponse | Waste => Some s
  end.

(** Senders on the outbound channel: [try_send] drops the item when it is full, [send]
    waits ([None]). Both fail when the writer is gone. *)
Definition has_room (s : Session) : bool := (length (outbound s) <? OUTBOUND_CAP)%nat.
Definition push (o : Out) (s : Session) : Session := s <| outbound := outbound s ++ [o] |>.
Definition sent_of (o : Out) : list obs := match o with OFrame f => [Sent f] | EndBuffering => [] end.
Definition try_send (o : Out) (s : Session) : Session * list obs :=
  if writing s && has_room s then (push o s, sent_of o) else (s, []).

Definition set_stage (h : nat) (st : Stream) (p : phase) (s : Session) : Session := s <| all := <[h := st <| stage := p |>]> (all s) |>.
Definition sender_of (h : nat) (st : Stream) (s : Session) : bool := bool_decide (reading s = true /\ streams s !! id st = Some h).

Inductive event :=
| Open                                  (* open_stream: the id *)
| Register (h : nat)                    (* the reader takes the registration, also one whose caller is gone *)
| SendSyn (h : nat)
| SendEnd (h : nat)                     (* and returns the stream *)
| Write (h : nat) (data : bytes)
| Shutdown (h : nat)
| DropStream (h : nat)
| Read (h : nat) (n : nat)
| WriterTurn
| WriterFails (n : nat)                 (* an error after n bytes *)
| Arrive (b : bytes)
| Close                                 (* end of file or an error *)
| Decode                                (* the reader takes a frame off its buffer *)
| Route.

(** The reader waits for the connection: no whole frame is buffered, none is in its hands. *)
Definition waits (s : Session) : bool :=
  reading s && bool_decide (routing s = None) && match Frame_decode (buf s) with (Ok None, _) => true | _ => false end.

(** The handlers of a stream's owner. [None]: not in this state. *)
Definition poll_write (h : nat) (data : bytes) (s : Session) : option (Session * list obs) :=
  let! st := all s !! h in
  if bool_decide (stage st = Opened) && receiver st && writing s && has_room s && negb (bool_decide (data = [])) then
    let f := mk_frame Psh (id st) (take (Nat.min (length data) MAX_PAYLOAD) data) in
    Some (push (OFrame f) s, [Sent f; Accepted (id st) (payload f)])
  else None.

Definition poll_shutdown (h : nat) (s : Session) : option (Session * list obs) :=
  let! st := all s !! h in
  if bool_decide (stage st = Opened) && receiver st then
    if write_closed st then Some (s, []) else
    Some (try_send (OFrame (control Fin (id st))) (s <| all := <[h := st <| write_closed := true |>]> (all s) |>))
  else None.

Definition drop_stream (h : nat) (s : Session) : option (Session * list obs) :=
  let! st := all s !! h in
  if receiver st then
    let s := s <| all := <[h := st <| receiver := false |>]> (all s) |> in
    if decide (stage st = Opened) then
      let '(s, o) := if write_closed st then (s, []) else try_send (OFrame (control Fin (id st))) s in
      Some (s <| active := pred (active s) |>, o)
    else Some (s, [])
  else None.

Definition stream_read (h n : nat) (s : Session) : option (Session * list obs) :=
  let! st := all s !! h in
  if bool_decide (stage st = Opened) && receiver st && (0 <? n)%nat then
    let '(r, st') := poll_read n (sender_of h st s) st in
    Some (s <| all := <[h := st']> (all s) |>,
          match r with Pending => [] | Ready [] => [AtEof h] | Ready b => [Got h b] end)
  else None.

(** A turn of the writer task: the opening, or an item. *)
Definition client_writer_turn (s : Session) : option (Session * list obs) :=
  if negb (writing s) then None else
  if negb (started s) then Some (s <| started := true |> <| wire := wire s ++ [auth s] |>, []) else
  match outbound s with
  | [] => None
  | item :: rest =>
      let '(records, w) := client_writer_item rng (scheme s) item (writer s) in
      Some (s <| outbound := rest |> <| writer := w |> <| wire := wire s ++ records |>, [])
  end.

(** A write of that turn fails after [n] bytes, which ends the task. *)
Definition client_writer_fails (n : nat) (s : Session) : option (Session * list obs) :=
  if negb (writing s) then None else
  let records :=
    if negb (started s) then [auth s] else
    match outbound s with [] => [] | item :: _ => (client_writer_item rng (scheme s) item (writer s)).1 end in
  Some (s <| writing := false |> <| outbound := [] |> <| wire := wire s ++ [take n (concat records)] |>, []).

(** The reader task takes a frame off its buffer. *)
Definition reader_turn (s : Session) : option (Session * list obs) :=
  if reading s && bool_decide (routing s = None) then
    match Frame_decode (buf s) with
    | (Ok (Some f), rest) => Some (s <| buf := rest |> <| routing := Some f |>, [])
    | (Ok None, _) => None
    | (Err _, _) => Some (end_reader s, [])
    end
  else None.

(** [None]: the event cannot happen in this state. *)
Definition step (e : event) (s : Session) : option (Session * list obs) :=
  match e with
  | Open =>
      let st := mk_stream (next_id s) Allocated [] [] false true in
      Some (s <| all := all s ++ [st] |> <| next_id := wrap32 (next_id s + 1) |>, [])
  | Register h =>
      let! st := all s !! h in
      if bool_decide (stage st = Allocated) && reading s && bool_decide (routing s = None)
      then Some (set_stage h st Registered s <| streams := <[id st := h]> (streams s) |>, [Reg h (id st)])
      else None
  | SendSyn h =>
      let! st := all s !! h in
      if bool_decide (stage st = Registered) && receiver st && writing s && has_room s
      then Some (set_stage h st SynSent (push (OFrame (control Syn (id st))) s), [Sent (control Syn (id st))])
      else None
  | SendEnd h =>
      let! st := all s !! h in
      if bool_decide (stage st = SynSent) && receiver st && (has_room s || negb (writing s))
      then Some (set_stage h st Opened (if writing s then push EndBuffering s else s) <| active := S (active s) |>, [])
      else None
  | Write h data => poll_write h data s
  | Shutdown h => poll_shutdown h s
  | DropStream h => drop_stream h s
  | Read h n => stream_read h n s
  | WriterTurn => client_writer_turn s
  | WriterFails n => client_writer_fails n s
  | Arrive b => if waits s && negb (bool_decide (b = [])) then Some (s <| buf := buf s ++ b |>, [Arrived b]) else None
  | Close => if waits s then Some (end_reader s, []) else None
  | Decode => reader_turn s
  | Route => let! f := routing s in let! s := route f s in Some (s, [Routed f])
  end.

Fixpoint run (es : list event) (s : Session) : option (Session * list obs) :=
  match es with
  | [] => Some (s, [])
  | e :: es => let! (s, o) := step e s in let! (s, tr) := run es s in Some (s, o ++ tr)
  end.

End session.

(** Every case in which a step happens. *)
Ltac step_cases :=
  unfold step, poll_write, poll_shutdown, drop_stream, stream_read, client_writer_turn, client_writer_fails, reader_turn, try_send in *;
  repeat match goal with
  | E : mbind _ ?x = Some _ |- _ => destruct x eqn:?; [cbn [mbind option_bind] in E|done]
  | E : match ?x with _ => _ end = Some _ |- _ => destruct x eqn:?; try done
  | E : Some _ = Some _ |- _ => apply (inj Some) in E
  | E : (_, _) = (_, _) |- _ => apply pair_eq in E as [<- <-]
  | E : match ?x with _ => _ end = (_, _) |- _ => destruct x eqn:?; try done
  end.

Section sending.
Context (rng : nat -> option Z).

(** ** Reading frames off a connection *)

Inductive read_error := InvalidData | UnexpectedEof | ReadFailed.

(** [FrameReader::next_frame] on what the reads of the connection give; an empty read is
    the end of the file. [None]: still waiting. *)
Fixpoint next_frame (buf : bytes) (reads : list (result read_error bytes))
    : option (result read_error (option Frame)) * bytes * list (result read_error bytes) :=
  match Frame_decode buf with
  | (Ok (Some f), rest) => (Some (Ok (Some f)), rest, reads)
  | (Err _, _) => (Some (Err InvalidData), buf, reads)
  | (Ok None, _) =>
      match reads with
      | [] => (None, buf, [])
      | Err e :: reads => (Some (Err e), buf, reads)
      | Ok [] :: reads => (Some (if decide (buf = []) then Ok None else Err UnexpectedEof), buf, reads)
      | Ok b :: reads => next_frame (buf ++ b) reads
      end
  end.

(** [n] calls, as long as they give frames. *)
Fixpoint read_frames (n : nat) (buf : bytes) (reads : list (result read_error bytes)) : list Frame * option (result read_error (option Frame)) :=
  match n with
  | O => ([], None)
  | S n =>
      match next_frame buf reads with
      | (Some (Ok (Some f)), buf, reads) => let '(fs, last) := read_frames n buf reads in (f :: fs, last)
      | (r, _, _) => ([], r)
      end
  end.

Definition arriving (chunks : list bytes) : list (result read_error bytes) := (Ok <$> chunks) ++ [Ok []].

(** One call, whatever the chunks the encoding of the frames comes in. *)
Lemma next_frame_chunks chunks buf f fs :
  Forall frame_ok (f :: fs) -> Forall (fun c => c <> []) chunks -> buf ++ concat chunks = encode_all (f :: fs) ->
  exists buf' chunks', next_frame buf (arriving chunks) = (Some (Ok (Some f)), buf', arriving chunks') /\
    buf' ++ concat chunks' = encode_all fs /\ Forall (fun c => c <> []) chunks'.
Proof.
  intros Hok. pose proof (Forall_inv Hok) as Hf. revert buf. induction chunks as [|c chunks IH]; intros buf Hne E.
  all: assert (encode_all (f :: fs) = encode f ++ encode_all fs) as Ef by done.
  - cbn [concat] in E. rewrite app_nil_r in E. subst buf. exists (encode_all fs), []. unfold arriving. cbn [fmap list_fmap app next_frame].
    rewrite Ef, decode_encode_frame by done. cbn [concat]. by rewrite app_nil_r.
  - destruct (decide (encode f `prefix_of` buf)) as [[r ->]|Hn].
    + exists r, (c :: chunks). unfold arriving. cbn [fmap list_fmap app next_frame]. rewrite decode_encode_frame by done.
      split; [done|]. split; [|done]. rewrite Ef, <- app_assoc in E. by apply app_inv_head in E.
    + assert (buf `prefix_of` encode f) as Hp.
      { destruct (prefix_weak_total buf (encode f) (encode_all (f :: fs))) as [|]; [|by rewrite Ef; eexists|done|done].
        rewrite <- E. by eexists. }
      assert (Frame_decode buf = (Ok None, buf)) as Ed by (apply (decode_partial f); [done|done|intros ->; by apply Hn]).
      apply Forall_cons_1 in Hne as [Hc Hne]. destruct (IH (buf ++ c) Hne) as (buf' & chunks' & En & Hr).
      { by rewrite <- app_assoc. }
      exists buf', chunks'. split; [|done]. unfold arriving in *. cbn [fmap list_fmap app]. destruct c as [|x c]; [done|].
      rewrite <- En. destruct chunks; cbn [next_frame fmap list_fmap app]; by rewrite Ed.
Qed.

(** The frames of a connection are read back as they were written, whatever the chunks,
    and its end is then seen as a clean one. *)
Lemma read_frames_chunks fs chunks buf :
  Forall frame_ok fs -> Forall (fun c => c <> []) chunks -> buf ++ concat chunks = encode_all fs ->
  read_frames (S (length fs)) buf (arriving chunks) = (fs, Some (Ok None)).
Proof.
  intros Hok. revert chunks buf. induction Hok as [|f fs Hf Hfs IH]; intros chunks buf Hne E.
  - apply app_eq_nil in E as [-> E]. destruct chunks as [|c chunks]; [done|]. apply Forall_cons_1 in Hne as [Hc _].
    by apply app_eq_nil in E as [-> _].
  - destruct (next_frame_chunks chunks buf f fs ltac:(by constructor) Hne E) as (buf' & chunks' & En & E' & Hne').
    change (length (f :: fs)) with (S (length fs)). remember (S (length fs)) as n. cbn [read_frames]. rewrite En, IH by done. done.
Qed.

(** ** Schedules *)

Definition event_ok (e : event) : Prop := match e with Write _ b | Arrive b => bytes_ok b | _ => True end.

Lemma run_ind (P : Session -> list obs -> Prop) s0 :
  P s0 [] -> (forall e s s' tr o, event_ok e -> P s tr -> step rng e s = Some (s', o) -> P s' (tr ++ o)) ->
  forall es s tr, Forall event_ok es -> run rng es s0 = Some (s, tr) -> P s tr.
Proof.
  intros H0 Hstep es. assert (forall s0 tr0 s tr, P s0 tr0 -> Forall event_ok es -> run rng es s0 = Some (s, tr) -> P s (tr0 ++ tr)) as H.
  { induction es as [|e es IH]; intros s1 tr1 s tr HP Hok E; cbn [run] in E; [simplify_eq; by rewrite app_nil_r|].
    apply Forall_cons_1 in Hok as [He Hok]. destruct (step rng e s1) as [[s2 o]|] eqn:Es; [|done].
    cbn in E. destruct (run rng es s2) as [[s3 tr3]|] eqn:Er; [|done]. cbn in E. simplify_eq.
    rewrite app_assoc. eapply IH; [|done|done]. by eapply Hstep. }
  intros s tr Hok E. by apply (H s0 [] s tr H0 Hok).
Qed.

(** ** Sending *)

Definition real (f : Frame) : Prop := command f <> Waste.
#[export] Instance real_dec f : Decision (real f) := decide (command f <> Waste).
Definition outs (q : list Out) : list Frame := omap (fun o => match o with OFrame f => Some f | EndBuffering => None end) q.
Definition sent (tr : list obs) : list Frame := omap (fun o => match o with Sent f => Some f | _ => None end) tr.
(** The bytes the users of the streams of an id were told are sent, and the bytes of an
    id in some frames. *)
Definition accepted (i : Z) (tr : list obs) : bytes :=
  concat (omap (fun o => match o with Accepted j b => if j =? i then Some b else None | _ => None end) tr).
Definition psh (i : Z) (fs : list Frame) : bytes :=
  concat (omap (fun f => if bool_decide (command f = Psh) && (stream_id f =? i) then Some (payload f) else None) fs).

Lemma outs_app q r : outs (q ++ r) = outs q ++ outs r.
Proof. apply omap_app. Qed.
Lemma sent_app a b : sent (a ++ b) = sent a ++ sent b.
Proof. apply omap_app. Qed.
Lemma accepted_app i a b : accepted i (a ++ b) = accepted i a ++ accepted i b.
Proof. unfold accepted. by rewrite omap_app, concat_app. Qed.
Lemma psh_app i a b : psh i (a ++ b) = psh i a ++ psh i b.
Proof. unfold psh. by rewrite omap_app, concat_app. Qed.

Lemma psh_real i fs : psh i (filter real fs) = psh i fs.
Proof.
  induction fs as [|f fs IH]; [done|]. change (f :: fs) with ([f] ++ fs). rewrite list.filter_app, !psh_app, IH. f_equal.
  rewrite list.filter_cons. case_decide as Hf; [done|]. unfold psh. cbn. rewrite bool_decide_eq_false_2; [done|]. intros E. apply Hf. unfold real. by rewrite E.
Qed.

(** Frames that may be queued: well formed, and not padding. *)
Definition queueable (f : Frame) : Prop := frame_ok f /\ real f.

Lemma control_queueable c i : fits 32 i -> c <> Waste -> queueable (control c i).
Proof. intros Hi Hc. split; [|done]. split_and!; [done|cbn; lia|constructor]. Qed.

Lemma item_spec scheme item w recs w' pend :
  client_writer_item rng scheme item w = (recs, w') -> buffer w = encode_all pend -> Forall queueable (pend ++ outs [item]) ->
  exists fs pend', concat recs = encode_all fs /\ Forall frame_ok fs /\ buffer w' = encode_all pend' /\
    Forall queueable pend' /\ filter real fs ++ pend' = pend ++ outs [item].
Proof.
  intros E Eb Hq. destruct item as [f|]; cbn [client_writer_item] in E.
  - apply Forall_app in Hq as [Hp Hf]. destruct (buffering w); [simplify_eq; exists [], (pend ++ [f])|].
    + split_and!; [done|constructor| |by apply Forall_app|done]. cbn. by rewrite Eb, encode_all_app, encode_all_one.
    + pose proof (shape_records_data rng scheme (S (pkt w)) (buffer w ++ encode f) (draws w)) as Hs.
      destruct (shape_records rng scheme _ _ _) as [records k]. simplify_eq. destruct Hs as (ns & Ec & Hw).
      exists ((pend ++ [f]) ++ (waste <$> ns)), []. rewrite Ec, Eb, <- encode_all_one, <- !encode_all_app. split_and!; [done| |done|constructor|].
      * apply Forall_app; split; [|done]. apply (Forall_impl _ (P := queueable)); [by intros ? []|]. by apply Forall_app.
      * rewrite app_nil_r, list.filter_app, (filter_all _ (pend ++ [f])), filter_none, app_nil_r; [done| |].
        -- apply Forall_fmap, Forall_true. intros n Hn. by apply Hn.
        -- apply (Forall_impl _ (P := queueable)); [by intros ? []|]. by apply Forall_app.
  - simplify_eq. exists [], pend. split_and!; [done|constructor|done|by rewrite app_nil_r in Hq|by rewrite app_nil_r].
Qed.

Definition ids_ok (s : Session) : Prop := fits 32 (next_id s) /\ Forall (fun st => fits 32 (id st)) (all s).

Lemma ids_lookup s h st : ids_ok s -> all s !! h = Some st -> fits 32 (id st).
Proof. intros [_ H] E. by apply (Forall_lookup_1 _ _ _ _ H E). Qed.

Lemma poll_read_id n b st : id (poll_read n b st).2 = id st.
Proof. unfold poll_read. by destruct (poll_recv _ _ _ _) as [[r rem] q]. Qed.

(** [route] touches the reader's state and one channel. *)
Lemma route_frame f s s' : route f s = Some s' ->
  auth s' = auth s /\ outbound s' = outbound s /\ started s' = started s /\ writing s' = writing s /\ writer s' = writer s /\
  wire s' = wire s /\ next_id s' = next_id s /\ active s' = active s /\ buf s' = buf s /\
  (all s' = all s \/ exists h st, all s !! h = Some st /\ receiver st = true /\ (length (inbound st) < STREAM_INBOUND_CAP)%nat /\
     streams s !! stream_id f = Some h /\ command f = Psh /\ streams s' = streams s /\ reading s' = reading s /\
     all s' = <[h := st <| inbound := inbound st ++ [payload f] |>]> (all s)).
Proof.
  intros E. unfold route in E. destruct (command f) eqn:Ec; try (apply (inj Some) in E; subst s'; split_and!; try done; by left).
  - cbn [streams] in E. destruct (streams _ !! stream_id f) as [h|] eqn:Eh; [|apply (inj Some) in E; subst s'; split_and!; try done; by left].
    destruct (all _ !! h) as [st|] eqn:Est; [cbn [mbind option_bind] in E|done].
    destruct (receiver st) eqn:Er; [|apply (inj Some) in E; subst s'; split_and!; try done; by left].
    cbn [negb] in E. destruct (Nat.ltb_spec (length (inbound st)) STREAM_INBOUND_CAP); [|done].
    apply (inj Some) in E. subst s'. split_and!; try done. right. by exists h, st.
  - destruct (utf8_valid _); [destruct (PaddingScheme_parse _) as [[|]|]|]; apply (inj Some) in E; subst s'; split_and!; try done; by left.
  - case_decide; apply (inj Some) in E; subst s'; split_and!; try done; by left.
Qed.

(** The streams after a step: the old ones, with their ids, and at most a new one. *)
Lemma step_ids e s s' o : step rng e s = Some (s', o) -> ids_ok s -> ids_ok s'.
Proof.
  intros E Hi. assert (forall h st, all s !! h = Some st -> fits 32 (id st)) as Hl by (intros; by eapply ids_lookup). destruct Hi as [Hn Ha].
  assert (forall h st st', all s !! h = Some st -> id st' = id st -> Forall (fun st => fits 32 (id st)) (<[h := st']> (all s))) as Hins.
  { intros h st st' Hst Hid. apply Forall_insert; [done|]. rewrite Hid. by eapply Hl. }
  destruct e; step_cases; try (split; cbn; by eauto).
  - split; cbn; [by apply wrap_fits|]. apply Forall_app; split; [done|]. constructor; [done|constructor].
  - by destruct (writing s); split; cbn; eauto.
  - split; cbn; [done|]. eapply Hins; [done|]. rewrite <- (poll_read_id n (sender_of h s0 s) s0). by rewrite Heqp.
  - destruct (route_frame _ _ _ Heqo1) as (_ & _ & _ & _ & _ & _ & En & _ & _ & Hr). split; [by rewrite En|].
    destruct Hr as [-> |(h & st & Est & _ & _ & _ & _ & _ & _ & ->)]; [done|by eapply Hins].
Qed.

(** Only the writer takes items off the queue and writes. The other steps queue frames
    that may be queued, and tell the users what they queued for them. *)
Lemma step_queue e s s' o : step rng e s = Some (s', o) -> event_ok e -> ids_ok s ->
  match e with WriterTurn | WriterFails _ => False | _ => True end ->
  auth s' = auth s /\ started s' = started s /\ writing s' = writing s /\ writer s' = writer s /\ wire s' = wire s /\
  exists q, outbound s' = outbound s ++ q /\ outs q = sent o /\ Forall queueable (outs q) /\ (forall i, psh i (sent o) = accepted i o) /\
    (q = [] \/ writing s = true).
Proof.
  intros E Hok Hi He.
  assert (forall h st c, all s !! h = Some st -> c <> Waste -> Forall queueable [control c (id st)]) as Hc.
  { intros h st c Hst Hw. constructor; [|constructor]. apply control_queueable; by eauto using ids_lookup. }
  destruct e; try done; step_cases; try (split_and!; try done; exists []; rewrite app_nil_r; split_and!; try done; by left).
  all: try (split_and!; try done; eexists [OFrame (control _ (id s0))]; split_and!; [done|done|by eapply Hc|done|right];
    repeat match goal with Hb : (_ && _) = true |- _ => apply andb_true_iff in Hb as [Hb ?] end; done).
  - destruct (writing s) eqn:Ew; split_and!; try done; [exists [EndBuffering]|exists []]; split_and!; first [done|by constructor|by right|cbn; by rewrite app_nil_r].
  - split_and!; try done. eexists [OFrame _]. split_and!; [done|done| | |].
    + constructor; [|constructor]. split; [|done]. split_and!; [by eapply ids_lookup|cbn [payload]; rewrite length_take; lia|by apply Forall_take].
    + intros i. unfold psh, accepted. cbn [sent omap list_omap]. by destruct (id s0 =? i) eqn:Ei; cbn; rewrite Ei.
    + right. repeat match goal with Hb : (_ && _) = true |- _ => apply andb_true_iff in Hb as [Hb ?] end. done.
  - split_and!; try done. exists []. rewrite app_nil_r. by destruct p as [|[|]]; split_and!; try done; constructor.
  - destruct (route_frame _ _ _ Heqo1) as (? & Eo & ? & ? & ? & ? & _). split_and!; try done. exists []. rewrite app_nil_r. split_and!; try done; by left.
Qed.

(** The frames the peer can read, those the writer still holds, and the queue are together
    the frames that were accepted, in their order. *)
Record uplink (first : Frame) (s : Session) (tr : list obs) (fs pend : list Frame) : Prop := {
  up_fs : Forall frame_ok fs;
  up_pend : Forall queueable pend;
  up_queue : Forall queueable (outs (outbound s));
  up_wire : concat (wire s) `prefix_of` auth s ++ encode_all fs;
  up_exact : writing s = true -> concat (wire s) = (if started s then auth s ++ encode_all fs else []);
  up_start : started s = false -> fs = [] /\ pend = [];
  up_buffer : writing s = true -> buffer (writer s) = encode_all pend;
  up_all : writing s = true -> filter real fs ++ pend ++ outs (outbound s) = first :: sent tr;
  up_prefix : filter real fs ++ pend `prefix_of` first :: sent tr;
  up_told : forall i, psh i (first :: sent tr) = accepted i tr;
}.

Lemma uplink_step first e s s' tr o fs pend : event_ok e -> ids_ok s -> uplink first s tr fs pend -> step rng e s = Some (s', o) ->
  exists fs' pend', uplink first s' (tr ++ o) fs' pend'.
Proof.
  intros Hok Hi U E.
  assert ((match e with WriterTurn | WriterFails _ => False | _ => True end) \/ e = WriterTurn \/ exists n, e = WriterFails n) as [He|He] by (destruct e; eauto).
  { destruct (step_queue e s s' o E Hok Hi He) as (Ea & Es & Ew & Ewr & Ewi & q & Eq & Eo & Hq & Hp & Hw). exists fs, pend.
    destruct U as [u1 u2 u3 u4 u5 u6 u7 u8 u9 u10].
    constructor; rewrite ?Ea, ?Es, ?Ew, ?Ewr, ?Ewi, ?Eq, ?outs_app, ?sent_app; try done.
    - by apply Forall_app.
    - intros Hwr. rewrite Eo, app_comm_cons, <- u8, <- !app_assoc by done. done.
    - rewrite app_comm_cons. by apply prefix_app_r.
    - intros i. rewrite app_comm_cons, psh_app, accepted_app. by rewrite u10, Hp. }
  destruct U as [u1 u2 u3 u4 u5 u6 u7 u8 u9 u10]. destruct He as [->|[n ->]]; unfold step, client_writer_turn, client_writer_fails in E.
  - destruct (writing s) eqn:Ew; [cbn [negb] in E|done]. destruct (started s) eqn:Es; cbn [negb] in E.
    + destruct (outbound s) as [|item rest] eqn:Eo; [done|]. destruct (client_writer_item rng (scheme s) item (writer s)) as [recs w] eqn:Ei.
      simplify_eq. change (item :: rest) with ([item] ++ rest) in *. rewrite outs_app in *. apply Forall_app in u3 as [u3 u3'].
      destruct (item_spec _ _ _ _ _ pend Ei (u7 eq_refl) ltac:(by apply Forall_app)) as (gs & pend' & Ec & Hgs & Eb & Hp & Er).
      exists (fs ++ gs), pend'. rewrite app_nil_r. assert (concat (wire s ++ recs) = auth s ++ encode_all (fs ++ gs)) as Ewire.
      { rewrite concat_app, Ec, u5, encode_all_app, app_assoc by done. done. }
      constructor; cbn; rewrite ?Ew, ?Es, ?Ewire, ?list.filter_app, <- ?app_assoc; try done.
      * by apply Forall_app.
      * intros _. rewrite (app_assoc (filter real gs)), Er, <- app_assoc. by apply u8.
      * rewrite Er. rewrite <- (u8 eq_refl), !app_assoc. by eexists.
    + simplify_eq. exists fs, pend. rewrite app_nil_r. destruct (u6 eq_refl) as [-> ->]. rewrite (u5 eq_refl) in *.
      constructor; cbn; rewrite ?Ew, ?concat_app, ?(u5 eq_refl); cbn; rewrite ?app_nil_r; try done.
  - destruct (writing s) eqn:Ew; [cbn [negb] in E|done]. simplify_eq. rewrite app_nil_r.
    destruct (started s) eqn:Es; cbn [negb].
    + destruct (outbound s) as [|item rest] eqn:Eo.
      * exists fs, pend. constructor; cbn; rewrite ?concat_app, ?take_nil; cbn; rewrite ?app_nil_r; try done; by rewrite Es.
      * destruct (client_writer_item rng (scheme s) item (writer s)) as [recs w] eqn:Ei.
        change (item :: rest) with ([item] ++ rest) in *. rewrite outs_app in *. apply Forall_app in u3 as [u3 u3'].
        destruct (item_spec _ _ _ _ _ pend Ei (u7 eq_refl) ltac:(by apply Forall_app)) as (gs & pend' & Ec & Hgs & Eb & Hp & Er).
        exists (fs ++ gs), pend'. constructor; cbn; rewrite ?Es, ?list.filter_app, <- ?app_assoc; try done.
        -- by apply Forall_app.
        -- rewrite concat_app, (u5 eq_refl), encode_all_app, <- Ec, <- app_assoc. cbn. rewrite app_nil_r.
           do 2 apply prefix_app. exists (drop n (concat recs)). by rewrite take_drop.
        -- rewrite Er. rewrite <- (u8 eq_refl), !app_assoc. by eexists.
    + destruct (u6 eq_refl) as [-> ->]. exists [], []. constructor; cbn; rewrite ?Es; try done.
      rewrite concat_app, (u5 eq_refl). cbn. rewrite !app_nil_r. exists (drop n (auth s)). by rewrite take_drop.
Qed.

(** The initial buffering ends before a stream can be written to, and the first frame
    after that takes the buffered ones with it. *)
Definition opened (s : Session) : Prop := exists h st, all s !! h = Some st /\ stage st = Opened.
Definition ending (s : Session) : Prop := buffering (writer s) = false \/ EndBuffering ∈ outbound s.
Definition flushing (s : Session) : Prop :=
  (buffering (writer s) = false /\ (buffer (writer s) = [] \/ exists f, OFrame f ∈ outbound s)) \/
  (exists q1 q2 f, outbound s = q1 ++ EndBuffering :: q2 /\ OFrame f ∈ q2).
Definition flushed (s : Session) (tr : list obs) : Prop :=
  writing s = true -> (opened s -> ending s) /\ ((exists i b, Accepted i b ∈ tr) -> flushing s).

Lemma poll_read_stage n b st : stage (poll_read n b st).2 = stage st.
Proof. unfold poll_read. by destruct (poll_recv _ _ _ _) as [[r rem] q]. Qed.

Lemma opened_insert s h st st' (ss : list Stream) :
  all s !! h = Some st -> ss = <[h := st']> (all s) -> (stage st' = Opened -> stage st = Opened) ->
  (exists k x, ss !! k = Some x /\ stage x = Opened) -> opened s.
Proof.
  intros Est -> Hs (k & x & Ek & Ex). apply list_lookup_insert_Some in Ek as [(-> & -> & _)|[_ Ek]]; [by exists k, st; auto|by exists k, x].
Qed.

(** Only the end of [open_stream] opens a stream. *)
Lemma step_opens e s s' o : step rng e s = Some (s', o) -> opened s' -> opened s \/ exists h, e = SendEnd h.
Proof.
  intros E Ho. destruct e; step_cases; try (by right; eexists); left; try done.
  all: try (by eapply opened_insert; [done|done| |exact Ho]; cbn; intros; simplify_eq).
  - destruct Ho as (k & x & Ek & Ex). cbn in Ek. apply lookup_app_Some in Ek as [Ek|[_ Ek]]; [by exists k, x|].
    apply list_lookup_singleton_Some in Ek as [_ <-]. done.
  - eapply opened_insert; [done|done| |exact Ho]. cbn. rewrite <- (poll_read_stage n (sender_of h s0 s) s0). by rewrite Heqp.
  - destruct (route_frame _ _ _ Heqo1) as (_ & _ & _ & _ & _ & _ & _ & _ & _ & [Er|(h & st & Est & _ & _ & _ & _ & _ & _ & Er)]).
    + destruct Ho as (k & x & Ek & Ex). exists k, x. by rewrite Er in Ek.
    + eapply opened_insert; [done|exact Er| |exact Ho]. done.
Qed.

Lemma ending_app s q : ending s -> buffering (writer s) = false \/ EndBuffering ∈ outbound s ++ q.
Proof. intros [|]; [by left|]. right. apply elem_of_app. by left. Qed.

Lemma flushing_app s s' q : flushing s -> writer s' = writer s -> outbound s' = outbound s ++ q -> flushing s'.
Proof.
  intros Hf Ew Eq. unfold flushing. rewrite Ew, Eq. destruct Hf as [[Hb [Hf|(f & Hf)]]|(q1 & q2 & f & E & Hf)].
  - left. auto.
  - left. split; [done|]. right. exists f. apply elem_of_app. by left.
  - right. exists q1, (q2 ++ q), f. rewrite E, <- app_assoc. split; [done|]. apply elem_of_app. by left.
Qed.

Lemma flushing_new s s' f : ending s -> writer s' = writer s -> outbound s' = outbound s ++ [OFrame f] -> flushing s'.
Proof.
  intros He Ew Eq. unfold flushing. rewrite Ew, Eq. destruct He as [Hb|(q1 & q2 & E)%list_elem_of_split].
  - left. split; [done|]. right. exists f. apply elem_of_app. right. by apply list_elem_of_singleton.
  - right. exists q1, (q2 ++ [OFrame f]), f. rewrite E, <- app_assoc. split; [done|]. apply elem_of_app. right. by apply list_elem_of_singleton.
Qed.

(** The writer keeps the promise when it takes an item. *)
Lemma flushing_turn scheme item rest w recs w' :
  client_writer_item rng scheme item w = (recs, w') ->
  (buffering w = false \/ EndBuffering ∈ item :: rest -> buffering w' = false \/ EndBuffering ∈ rest) /\
  ((buffering w = false /\ (buffer w = [] \/ exists f, OFrame f ∈ item :: rest)) \/
   (exists q1 q2 f, item :: rest = q1 ++ EndBuffering :: q2 /\ OFrame f ∈ q2) ->
   (buffering w' = false /\ (buffer w' = [] \/ exists f, OFrame f ∈ rest)) \/
   (exists q1 q2 f, rest = q1 ++ EndBuffering :: q2 /\ OFrame f ∈ q2)).
Proof.
  intros E. destruct item as [f|]; cbn [client_writer_item] in E.
  - destruct (buffering w) eqn:Eb; [simplify_eq; cbn; rewrite Eb|destruct (shape_records _ _ _ _ _); simplify_eq; cbn; auto].
    rewrite elem_of_cons. split; [intros [|[|]]; auto; done|]. intros [[]|(q1 & q2 & g & E & Hg)]; [done|]. right.
    destruct q1 as [|x q1]; simplify_eq/=. by exists q1, q2, g.
  - simplify_eq; cbn. split; [auto|]. intros [[_ [Hb|(f & Hf)]]|(q1 & q2 & f & E & Hf)]; [by auto| |].
    + left. split; [done|]. right. exists f. by apply elem_of_cons in Hf as [|].
    + destruct q1 as [|x q1]; simplify_eq/=; [|right; by exists q1, q2, f]. left. split; [done|]. right. by exists f.
Qed.

Lemma step_accepted e s s' o i b : step rng e s = Some (s', o) -> Accepted i b ∈ o -> opened s /\ exists f, outbound s' = outbound s ++ [OFrame f].
Proof.
  intros E Ha. destruct e; step_cases; try (by apply elem_of_nil in Ha); try (by apply list_elem_of_singleton in Ha).
  - repeat match goal with Hb : (_ && _) = true |- _ => apply andb_true_iff in Hb as [Hb _] end. apply bool_decide_eq_true in Heqb0.
    split; [by exists h, s0|]. by eexists.
  - destruct p as [|[|]]; [by apply elem_of_nil in Ha|by apply list_elem_of_singleton in Ha..].
Qed.

Lemma flushed_step e s s' tr o : event_ok e -> ids_ok s -> flushed s tr -> step rng e s = Some (s', o) -> flushed s' (tr ++ o).
Proof.
  intros Hok Hi F E Hw.
  assert ((match e with WriterTurn | WriterFails _ => False | _ => True end) \/ e = WriterTurn \/ exists n, e = WriterFails n) as [He|He] by (destruct e; eauto).
  - destruct (step_queue e s s' o E Hok Hi He) as (_ & _ & Ew & Ewr & _ & q & Eq & Eo & _ & _ & _). rewrite Ew in Hw. destruct (F Hw) as [F1 F2]. split.
    + intros Ho. unfold ending. rewrite Ewr, Eq. destruct (step_opens e s s' o E Ho) as [Ho'|(h & ->)]; [by apply ending_app, F1|].
      right. cbn [step] in E. step_cases. rewrite Hw in Eq. cbn in Eq. apply app_inv_head in Eq as <-.
      apply elem_of_app. right. by apply list_elem_of_singleton.
    + intros (i & b & Ha). apply elem_of_app in Ha as [Ha|Ha]; [by eapply flushing_app; eauto|].
      destruct (step_accepted e s s' o i b E Ha) as [Ho (f & Ef)]. eapply flushing_new; eauto.
  - destruct He as [->|[n ->]]; unfold step, client_writer_turn, client_writer_fails in E; destruct (writing s) eqn:Ews; [|done| |done]; cbn [negb] in E; [|by simplify_eq].
    destruct (F Ews) as [F1 F2]. destruct (started s); cbn [negb] in E; [|simplify_eq; rewrite app_nil_r; by split].
    destruct (outbound s) as [|item rest] eqn:Eo; [done|]. destruct (client_writer_item _ _ _ _) as [recs w] eqn:Ei. simplify_eq.
    unfold opened, ending, flushing in *. rewrite Eo in *. cbn [writer outbound all]. rewrite app_nil_r.
    destruct (flushing_turn _ _ rest _ _ _ Ei) as [T1 T2]. split; intros Ho; [apply T1, F1, Ho|apply T2, F2, Ho].
Qed.

End sending.

Section client.
Context (rng : nat -> option Z) (sha256 md5 : bytes -> bytes) (client_id : bytes).

Definition pad_len (scheme : PaddingScheme) : nat :=
  match plan scheme 0 with Size lo hi :: _ => Nat.min (Z.to_nat (sample rng lo hi 0).1) (Z.to_nat 65535) | _ => 0%nat end.

Definition settings_frame (scheme : PaddingScheme) : Frame :=
  mk_frame Settings_ 0 (encode_settings (for_scheme md5 PROTOCOL_VERSION client_id scheme)).

(** [Session::client]: both tasks spawned, the settings queued. *)
Definition Session_client (password : bytes) (scheme : PaddingScheme) : Session :=
  let auth :=
    match encode_auth sha256 password (replicate (pad_len scheme) 0) with
    | Ok a => a
    | Err _ => match encode_auth sha256 password [] with Ok a => a | Err _ => [] end
    end in
  mk_session auth scheme [OFrame (settings_frame scheme)] false true (mk_writer true [] 0 0) [] true [] None ∅ [] 0 1.

(** The settings are a frame: what is documented of the digest and of the client's name. *)
Definition naming_ok : Prop :=
  bytes_ok client_id /\ (length client_id <= 1000)%nat /\ (forall b, length (md5 b) = 16%nat /\ bytes_ok (md5 b)).

Lemma hex2_ok b : fits 8 b -> bytes_ok (hex2 b).
Proof.
  intros Hb. unfold hex2, hex_digit, fits in *. pose proof (Z.mod_pos_bound b 16). assert (0 <= b / 16 < 16) by (split; [apply Z.div_pos|apply Z.div_lt_upper_bound]; lia).
  repeat constructor; destruct (_ <? 10) eqn:?; lia.
Qed.

Lemma scheme_md5_ok s : naming_ok -> bytes_ok (scheme_md5 md5 s) /\ length (scheme_md5 md5 s) = 32%nat.
Proof.
  intros (_ & _ & Hm). destruct (Hm (raw s)) as [Hl Hb]. unfold scheme_md5. split.
  - apply Forall_concat, Forall_fmap. eapply Forall_impl; [|exact Hb]. intros b ?. by apply hex2_ok.
  - replace 32%nat with (length (md5 (raw s)) * 2)%nat by (rewrite Hl; done).
    clear. induction (md5 (raw s)) as [|b l IH]; [done|]. cbn [fmap list_fmap concat]. rewrite length_app, IH. cbn. lia.
Qed.

Lemma settings_queueable scheme : naming_ok -> queueable (settings_frame scheme).
Proof.
  intros Hn. split; [|done]. destruct (scheme_md5_ok scheme Hn) as [Hb Hl]. destruct Hn as (Hc & Hlc & _). split_and!; [unfold fits; cbn; lia| |].
  - change (payload (settings_frame scheme)) with (lit "v=" ++ show_u8 PROTOCOL_VERSION ++ [10] ++ lit "client=" ++ client_id ++ [10] ++ lit "padding-md5=" ++ scheme_md5 md5 scheme).
    rewrite !length_app, Hl. change (length (lit "v=")) with 2%nat. change (length (lit "client=")) with 7%nat.
    change (length (show_u8 PROTOCOL_VERSION)) with 1%nat. change (length (lit "padding-md5=")) with 12%nat. cbn [length]. unfold MAX_PAYLOAD. lia.
  - change (payload (settings_frame scheme)) with (lit "v=" ++ show_u8 PROTOCOL_VERSION ++ [10] ++ lit "client=" ++ client_id ++ [10] ++ lit "padding-md5=" ++ scheme_md5 md5 scheme).
    repeat (apply Forall_app; split); first [done | decided].
Qed.

Lemma uplink_run password scheme0 es s tr : naming_ok -> Forall event_ok es -> run rng es (Session_client password scheme0) = Some (s, tr) ->
  flushed s tr /\ exists fs pend, uplink (settings_frame scheme0) s tr fs pend.
Proof.
  intros Hn Hok E. pose proof (settings_queueable scheme0 Hn) as Hq.
  cut (ids_ok s /\ flushed s tr /\ exists fs pend, uplink (settings_frame scheme0) s tr fs pend); [by intros (_ & ?)|].
  refine (run_ind rng (fun s tr => ids_ok s /\ flushed s tr /\ exists fs pend, uplink (settings_frame scheme0) s tr fs pend) _ _ _ es s tr Hok E).
  - split_and!; [split; [unfold fits; cbn; lia|constructor]| |].
    + intros _. split; [by intros (h & st & Eh & _)|]. by intros (i & b & Eb%elem_of_nil).
    + exists [], []. constructor; cbn; first [done | by constructor | by eexists].
  - clear E. intros e s1 s2 tr1 o He (Hi & Hf & fs & pend & U) E. split_and!; [by eapply step_ids|by eapply flushed_step|by eapply uplink_step].
Qed.

(** C13: what a client session sends. Under every schedule of its streams, its writer and
    its reader, every size the sampler draws, every scheme the server pushes meanwhile and
    every failure of the connection, the bytes on the wire are the authentication record
    and then a prefix of the encoding of some frames, which a peer that reads them in any
    chunks gets back; without the padding, those frames are the settings and then frames
    the streams sent, in order, so that every stream's bytes arrive as a prefix of what its
    user was told is sent; and once the writer has emptied its queue after some write, the
    peer has all of it. *)
Theorem uplink_correct password scheme0 es s tr :
  naming_ok -> Forall event_ok es -> run rng es (Session_client password scheme0) = Some (s, tr) ->
  exists fs, Forall frame_ok fs /\ concat (wire s) `prefix_of` auth s ++ encode_all fs /\
    (forall chunks, Forall (fun c => c <> []) chunks -> concat chunks = encode_all fs ->
       read_frames (S (length fs)) [] (arriving chunks) = (fs, Some (Ok None))) /\
    filter real fs `prefix_of` settings_frame scheme0 :: sent tr /\
    (forall i, psh i fs `prefix_of` accepted i tr) /\
    (writing s = true -> outbound s = [] -> (exists i b, Accepted i b ∈ tr) -> started s = true ->
       concat (wire s) = auth s ++ encode_all fs /\ filter real fs = settings_frame scheme0 :: sent tr /\ forall i, psh i fs = accepted i tr).
Proof.
  intros Hn Hok E. destruct (uplink_run _ _ _ _ _ Hn Hok E) as (Hf & fs & pend & [u1 u2 u3 u4 u5 u6 u7 u8 u9 u10]).
  exists fs. split_and!; [done|done|by intros; apply read_frames_chunks| | |].
  - destruct u9 as [r ->]. rewrite <- app_assoc. by eexists.
  - intros i. rewrite <- u10, <- psh_real. destruct u9 as [r ->]. rewrite !psh_app, <- app_assoc. by eexists.
  - intros Hw Eo Ha Hs. assert (pend = []) as ->.
    { destruct (Hf Hw) as [_ F2]. destruct (F2 Ha) as [[_ [Eb|(f & Hx)]]|(q1 & q2 & f & Eq & _)]; [|by rewrite Eo in Hx; apply elem_of_nil in Hx|by rewrite Eo in Eq; destruct q1].
      rewrite (u7 Hw) in Eb. destruct pend as [|f pend]; [done|]. exfalso. apply (f_equal length) in Eb.
      change (encode_all (f :: pend)) with (encode f ++ encode_all pend) in Eb. rewrite length_app, length_encode_frame in Eb. unfold encoded_len, HEADER_LEN in Eb. simpl in Eb. lia. }
    specialize (u8 Hw). rewrite Eo in u8. cbn [outs omap list_omap] in u8. rewrite !app_nil_r in u8.
    split_and!; [rewrite (u5 Hw), Hs; done|done|]. intros i. by rewrite <- u10, <- u8, psh_real.
Qed.

End client.
End anytls_session.
