(* ===== verification/AnyTlsStreams.v ===== *)
(** What the streams of an AnyTLS session receive: the frames of the connection, taken
    apart by stream, in order and complete up to the frame that closes the stream. *)

From S2P Require Import Prelude Lists RustStr AnyTls Stall AnyTlsSession.

Module anytls_streams.
Import stall anytls anytls_session.

Definition arrived (tr : list obs) : bytes := concat (omap (fun o => match o with Arrived b => Some b | _ => None end) tr).
Definition routed (tr : list obs) : list Frame := omap (fun o => match o with Routed f => Some f | _ => None end) tr.
Definition got (h : nat) (tr : list obs) : bytes :=
  concat (omap (fun o => match o with Got k b => if decide (k = h) then Some b else None | _ => None end) tr).

(** What stream [h] is due: the id it is registered under, until a frame closes it or
    another stream takes the id, and the bytes sent to it meanwhile. *)
Definition absorb (h : nat) (v : option Z * bytes) (o : obs) : option Z * bytes :=
  match o with
  | Reg k i => if decide (k = h) then (Some i, v.2) else if decide (v.1 = Some i) then (None, v.2) else v
  | Routed f =>
      if decide (v.1 = Some (stream_id f)) then
        match command f with
        | Psh => (v.1, v.2 ++ payload f)
        | Fin => (None, v.2)
        | SynAck => if decide (payload f = []) then v else (None, v.2)
        | _ => v
        end
      else v
  | _ => v
  end.
Definition view (h : nat) (tr : list obs) : option Z * bytes := fold_left (absorb h) tr (None, []).
Definition due (h : nat) (tr : list obs) : bytes := (view h tr).2.

Lemma view_app h a b : view h (a ++ b) = fold_left (absorb h) b (view h a).
Proof. apply fold_left_app. Qed.
Lemma arrived_app a b : arrived (a ++ b) = arrived a ++ arrived b.
Proof. unfold arrived. by rewrite omap_app, concat_app. Qed.
Lemma routed_app a b : routed (a ++ b) = routed a ++ routed b.
Proof. apply omap_app. Qed.
Lemma got_app h a b : got h (a ++ b) = got h a ++ got h b.
Proof. unfold got. by rewrite omap_app, concat_app. Qed.

Section streams.
Context (rng : nat -> option Z).

(** ** The frames *)

(** What has arrived is the frames handled, the one in the reader's hands and its buffer. *)
Record framed (s : Session) (tr : list obs) : Prop := {
  fr_ok : Forall frame_ok (routed tr ++ option_list (routing s));
  fr_buf : bytes_ok (buf s);
  fr_all : reading s = true -> arrived tr = encode_all (routed tr ++ option_list (routing s)) ++ buf s;
  fr_prefix : encode_all (routed tr) `prefix_of` arrived tr;
  fr_ended : reading s = false -> routing s = None;
}.

(** The steps that do not touch the reader. *)
Lemma step_reader e s s' o : step rng e s = Some (s', o) ->
  match e with Arrive _ | Close | Decode | Route => True | _ => reading s' = reading s /\ routing s' = routing s /\ buf s' = buf s /\ routed o = [] /\ arrived o = [] end.
Proof.
  intros E. destruct e; try done; step_cases; try done; [by destruct (writing s)|by destruct p as [|[|]]].
Qed.

Lemma route_reader f s s' : route f s = Some s' ->
  routing s' = None /\ buf s' = buf s /\ (reading s' = reading s \/ (reading s' = false /\ streams s' = ∅ /\ all s' = all s)).
Proof.
  intros E. split_and!; [|by destruct (route_frame _ _ _ E) as (_ & _ & _ & _ & _ & _ & _ & _ & ? & _)|].
  all: unfold route in E; destruct (command f); try (apply (inj Some) in E; subst s'; by auto).
  all: repeat match type of E with
    | match ?x with _ => _ end = _ => destruct x; try done
    | mbind _ ?x = _ => destruct x; [cbn [mbind option_bind] in E|done]
    end; apply (inj Some) in E; subst s'; repeat case_decide; auto.
Qed.

Lemma framed_step e s s' tr o : event_ok e -> framed s tr -> step rng e s = Some (s', o) -> framed s' (tr ++ o).
Proof.
  intros Hok F E. pose proof (step_reader e s s' o E) as Hs. destruct F as [f1 f2 f3 f4 f5].
  assert (match e with Arrive _ | Close | Decode | Route => False | _ => True end \/ (e = Decode \/ e = Route) \/ ((exists b, e = Arrive b) \/ e = Close)) as [He|[[->| ->]|[[b ->]| ->]]] by (destruct e; eauto).
  - assert (reading s' = reading s /\ routing s' = routing s /\ buf s' = buf s /\ routed o = [] /\ arrived o = []) as (E1 & E2 & E3 & E4 & E5) by by destruct e.
    constructor; rewrite ?routed_app, ?arrived_app, ?E1, ?E2, ?E3, ?E4, ?E5, ?app_nil_r; done.
  - unfold step, reader_turn in E. destruct (reading s) eqn:Er; [|done]. destruct (routing s) eqn:Eg; cbn in E; [done|].
    destruct (Frame_decode (buf s)) as [[[f|]|e] rest] eqn:Ed; [|done|]; simplify_eq.
    + destruct (decode_sound _ _ _ f2 Ed) as [Hf Eb]. cbn [option_list] in *. rewrite app_nil_r in *.
      constructor; cbn; rewrite ?app_nil_r, ?Er; try done.
      * apply Forall_app; split; [done|]. by constructor.
      * rewrite Eb in f2. by apply Forall_app in f2 as [_ ?].
      * intros _. rewrite encode_all_app, encode_all_one, <- app_assoc, <- Eb. by apply f3.
    + cbn [option_list] in *. constructor; cbn; rewrite ?app_nil_r in *; done.
  - cbn [step] in E. destruct (routing s) as [f|] eqn:Eg; [cbn [mbind option_bind] in E|done].
    destruct (route f s) as [s1|] eqn:Ert; [cbn in E|done]. simplify_eq. destruct (route_reader _ _ _ Ert) as (E1 & E2 & E3).
    destruct (reading s) eqn:Er; [|by specialize (f5 eq_refl)]. specialize (f3 eq_refl).
    assert (routed (tr ++ [Routed f]) = routed tr ++ [f]) as Et by by rewrite routed_app.
    assert (arrived (tr ++ [Routed f]) = arrived tr) as Ea by (rewrite arrived_app; apply app_nil_r).
    constructor; rewrite ?E1, ?E2, ?Et, ?Ea; cbn [option_list] in *; rewrite ?app_nil_r; try done. rewrite f3. by eexists.
  - cbn [step] in E. unfold waits in E. destruct (reading s) eqn:Er; [|done]. destruct (routing s) eqn:Eg; cbn in E; [done|]. cbn [option_list] in *. rewrite app_nil_r in *.
    destruct (Frame_decode (buf s)) as [[[f|]|e] rest] eqn:Ed; [done| |done]. destruct (bool_decide (b = [])); [done|]. cbn in E. simplify_eq.
    assert (arrived (tr ++ [Arrived b]) = arrived tr ++ b) as Ea by (rewrite arrived_app; unfold arrived at 2; cbn; by rewrite app_nil_r).
    constructor; cbn; rewrite ?Eg, ?routed_app, ?Ea; cbn; rewrite ?app_nil_r; try done.
    + by apply Forall_app.
    + intros _. by rewrite f3, <- app_assoc.
    + by apply prefix_app_r.
  - cbn [step] in E. destruct (waits s); [|done]. simplify_eq. constructor; cbn; rewrite ?app_nil_r; try done. by apply Forall_app in f1 as [? _].
Qed.

(** ** The streams *)

Record stream_ok (s : Session) (tr : list obs) (h : nat) (st : Stream) : Prop := {
  so_bytes : got h tr ++ read_rem st ++ concat (inbound st) = due h tr;
  so_cap : (length (inbound st) <= STREAM_INBOUND_CAP)%nat;
  so_view : reading s = true -> (view h tr).1 = if decide (streams s !! id st = Some h) then Some (id st) else None;
  so_new : stage st = Allocated -> view h tr = (None, []) /\ got h tr = [] /\ AtEof h ∉ tr;
  so_eof : AtEof h ∈ tr -> read_rem st = [] /\ inbound st = [] /\ sender_of h st s = false;
}.

Record streams_ok (s : Session) (tr : list obs) : Prop := {
  ss_table : forall i h, streams s !! i = Some h -> exists st, all s !! h = Some st /\ id st = i /\ stage st <> Allocated;
  ss_fresh : forall h, (length (all s) <= h)%nat -> view h tr = (None, []) /\ got h tr = [] /\ AtEof h ∉ tr;
  ss_all : forall h st, all s !! h = Some st -> receiver st = true -> stream_ok s tr h st;
}.

(** Observations that concern the stream [h] alone, if any. *)
Definition quiet (h : option nat) (o : list obs) : Prop :=
  Forall (fun x => match x with Reg _ _ | Routed _ => False | Got k _ | AtEof k => h = Some k | _ => True end) o.

Lemma quiet_view h k o tr : quiet h o -> view k (tr ++ o) = view k tr.
Proof. intros Hq. rewrite view_app. generalize (view k tr) as v. induction Hq as [|x o Hx _ IH]; intros v; [done|]. cbn [fold_left]. rewrite IH. by destruct x. Qed.

Lemma quiet_got h k o tr : quiet h o -> h <> Some k -> got k (tr ++ o) = got k tr /\ (AtEof k ∈ tr ++ o <-> AtEof k ∈ tr).
Proof.
  intros Hq Hk. rewrite got_app, elem_of_app. assert (got k o = [] /\ (AtEof k ∉ o)) as [-> Ho].
  { induction Hq as [|x o Hx _ [IH1 IH2]]; [split; [done|by apply not_elem_of_nil]|]. split.
    - change (got k (x :: o)) with (got k ([x] ++ o)). rewrite got_app, IH1, app_nil_r. unfold got. destruct x; try done. cbn. rewrite decide_False by congruence. done.
    - rewrite elem_of_cons. intros [<-|]; [by apply Hk|done]. }
  rewrite app_nil_r. split; [done|]. by split; [intros [|]|left].
Qed.

Lemma stream_ok_quiet s s' tr o h k st st' :
  stream_ok s tr k st -> quiet h o -> h <> Some k -> streams s' = streams s -> reading s' = reading s ->
  id st' = id st -> read_rem st' = read_rem st -> inbound st' = inbound st -> (stage st' = Allocated -> stage st = Allocated) ->
  stream_ok s' (tr ++ o) k st'.
Proof.
  intros [s1 s2 s3 s4 s5] Hq Hk Et Er Ei Em En Es. destruct (quiet_got h k o tr Hq Hk) as [Eg Ee].
  unfold due in *. constructor; unfold due, sender_of in *; rewrite ?(quiet_view h k o tr Hq), ?Eg, ?Et, ?Er, ?Ei, ?Em, ?En, ?Ee; auto.
Qed.

(** A step that changes at most one stream, and neither the table nor the reader. *)
Lemma streams_insert s s' tr o h st st' :
  streams_ok s tr -> all s !! h = Some st -> all s' = <[h := st']> (all s) -> streams s' = streams s -> reading s' = reading s ->
  id st' = id st -> (stage st' = Allocated -> stage st = Allocated) -> quiet (Some h) o -> (stage st = Allocated -> o = []) ->
  (receiver st' = true -> stream_ok s' (tr ++ o) h st') -> streams_ok s' (tr ++ o).
Proof.
  intros [t1 t2 t3] Est Ea Et Er Ei Es Hq Ho Hst. assert (h < length (all s))%nat as Hh by by eapply lookup_lt_Some. constructor.
  - intros i k Hk. rewrite Et in Hk. destruct (t1 i k Hk) as (x & Ex & Eid & Hx). rewrite Ea. destruct (decide (k = h)) as [->|Hne].
    + rewrite list_lookup_insert_eq by done. exists st'. simplify_eq. split_and!; [done|done|]. intros Hs. by apply Hx, Es.
    + rewrite list_lookup_insert_ne by done. by exists x.
  - intros k Hk. rewrite Ea, length_insert in Hk. rewrite (quiet_view _ _ _ _ Hq).
    destruct (quiet_got (Some h) k o tr Hq) as [-> ->]; [intros E; simplify_eq; lia|]. by apply t2.
  - intros k x Ek Hx. rewrite Ea in Ek. apply list_lookup_insert_Some in Ek as [(<- & <- & _)|[Hne Ek]]; [by apply Hst|].
    eapply stream_ok_quiet; [by apply t3|done|by intros E; simplify_eq|done..].
Qed.

Lemma streams_same s s' tr o : streams_ok s tr -> all s' = all s -> streams s' = streams s -> reading s' = reading s -> quiet None o -> streams_ok s' (tr ++ o).
Proof.
  intros [t1 t2 t3] Ea Et Er Hq. constructor; rewrite ?Ea, ?Et; [done| |].
  - intros h Hh. rewrite (quiet_view _ _ _ _ Hq). destruct (quiet_got None h o tr Hq) as [-> ->]; [done|]. by apply t2.
  - intros h st E Hr. eapply stream_ok_quiet; [by apply t3|done..].
Qed.

(** When the reader ends, what was due stays due. *)
Lemma streams_end s s' tr o : streams_ok s tr -> all s' = all s -> streams s' = ∅ -> reading s' = false -> quiet None o -> streams_ok s' (tr ++ o).
Proof.
  intros [t1 t2 t3] Ea Et Er Hq. constructor; rewrite ?Ea, ?Et; [done| |].
  - intros h Hh. rewrite (quiet_view _ _ _ _ Hq). destruct (quiet_got None h o tr Hq) as [-> ->]; [done|]. by apply t2.
  - intros h st E Hr. destruct (t3 h st E Hr) as [s1 s2 s3 s4 s5]. destruct (quiet_got None h o tr Hq) as [Eg Ee]; [done|].
    constructor; unfold due in *; rewrite ?(quiet_view _ _ _ _ Hq), ?Eg, ?Ee, ?Er; auto; [done|].
    intros He. destruct (s5 He) as (? & ? & _). split_and!; [done..|]. unfold sender_of. by rewrite Er.
Qed.

Lemma poll_recv_stream n sender rem q r rem' q' : (0 < n)%nat -> poll_recv n sender rem q = (r, rem', q') ->
  (length q' <= length q)%nat /\
  match r with
  | Pending => rem ++ concat q = [] /\ rem' = [] /\ q' = [] /\ sender = true
  | Ready [] => rem ++ concat q = [] /\ rem' = [] /\ q' = [] /\ sender = false
  | Ready b => b ++ rem' ++ concat q' = rem ++ concat q
  end.
Proof.
  intros Hn. revert rem. induction q as [|b q IH]; intros rem E; cbn [poll_recv] in E; case_decide as Hr.
  - subst rem. destruct sender; by simplify_eq.
  - simplify_eq. split; [done|]. destruct rem as [|x rem]; [done|]. destruct n as [|n]; [lia|]. cbn. by rewrite !app_nil_r, take_drop.
  - subst rem. apply IH in E as [Hl E]. split; [cbn; lia|]. done.
  - simplify_eq. split; [done|]. destruct rem as [|x rem]; [done|]. destruct n as [|n]; [lia|]. cbn. f_equal. by rewrite app_assoc, take_drop.
Qed.

Lemma view_quiet_one h x tr : match x with Reg _ _ | Routed _ => False | _ => True end -> view h (tr ++ [x]) = view h tr.
Proof. intros Hx. rewrite view_app. by destruct x. Qed.

Lemma read_ok s tr h st n :
  streams_ok s tr -> all s !! h = Some st -> receiver st = true -> stage st = Opened -> (0 < n)%nat ->
  let '(r, st') := poll_read n (sender_of h st s) st in
  streams_ok (s <| all := <[h := st']> (all s) |>) (tr ++ match r with Pending => [] | Ready [] => [AtEof h] | Ready b => [Got h b] end).
Proof.
  intros Hs Est Hr Ho Hn. destruct (poll_read n (sender_of h st s) st) as [r st'] eqn:E. unfold poll_read in E.
  destruct (poll_recv n (sender_of h st s) (read_rem st) (inbound st)) as [[r' rem] q] eqn:Ep. simplify_eq.
  destruct (poll_recv_stream _ _ _ _ _ _ _ Hn Ep) as [Hl Hp]. destruct (ss_all _ _ Hs h st Est Hr) as [s1 s2 s3 s4 s5].
  eapply (streams_insert s _ tr _ h st); try done; [by destruct r as [|[|]]; repeat constructor|by rewrite Ho|]. intros _.
  assert (forall o, quiet (Some h) o -> got h (tr ++ o) ++ rem ++ concat q = due h tr -> (AtEof h ∈ tr ++ o -> rem = [] /\ q = [] /\ sender_of h st s = false) ->
    stream_ok (s <| all := <[h := st <| read_rem := rem |> <| inbound := q |>]> (all s) |>) (tr ++ o) h (st <| read_rem := rem |> <| inbound := q |>)) as Hmk.
  { intros o Hq Hg He. constructor; unfold due in *; cbn; rewrite ?(quiet_view _ _ _ _ Hq); try done; [lia|by rewrite Ho]. }
  destruct r as [|[|x b]]; apply Hmk; try (by repeat constructor).
  - destruct Hp as (Hp & -> & -> & Hsd). rewrite app_nil_r, <- s1, Hp. by rewrite ?app_nil_r.
  - destruct Hp as (Hp & -> & -> & Hsd). rewrite app_nil_r. intros He. by destruct (s5 He) as (_ & _ & ?).
  - destruct Hp as (Hp & -> & -> & Hsd). rewrite got_app. unfold got at 2. cbn. by rewrite <- s1, Hp, !app_nil_r.
  - intros _. by destruct Hp as (_ & -> & -> & ?).
  - rewrite got_app. unfold got at 2. cbn. rewrite decide_True by done. cbn. rewrite app_nil_r, <- s1, <- Hp, <- app_assoc. done.
  - rewrite elem_of_app, list_elem_of_singleton. intros [He|]; [|done]. destruct (s5 He) as (E1 & E2 & _). rewrite E1, E2 in Hp. done.
Qed.

Lemma register_ok s tr h st : streams_ok s tr -> all s !! h = Some st -> stage st = Allocated ->
  streams_ok (set_stage h st anytls_session.Registered s <| streams := <[id st := h]> (streams s) |>) (tr ++ [Reg h (id st)]).
Proof.
  intros [t1 t2 t3] Est Ha. pose proof (lookup_lt_Some _ _ _ Est) as Hh.
  assert (forall k, (AtEof k ∈ tr ++ [Reg h (id st)] <-> AtEof k ∈ tr) /\ got k (tr ++ [Reg h (id st)]) = got k tr) as Hk.
  { intros k. rewrite elem_of_app, list_elem_of_singleton, got_app. split; [|by apply app_nil_r]. by split; [intros [|]|left]. }
  constructor; cbn.
  - intros i k Hi. apply lookup_insert_Some in Hi as [[<- <-]|[Hne Hi]].
    + eexists. rewrite list_lookup_insert_eq by done. by split_and!.
    + destruct (t1 i k Hi) as (x & Ex & Eid & Hx). destruct (decide (k = h)) as [->|]; [by simplify_eq|]. exists x. by rewrite list_lookup_insert_ne.
  - intros k Hlk. rewrite length_insert in Hlk. destruct (Hk k) as [-> ->]. destruct (t2 k Hlk) as (E1 & E2 & E3). split_and!; [|done..].
    rewrite view_app, E1. cbn. rewrite decide_False by lia. done.
  - intros k x Ek Hx. destruct (Hk k) as [Hke Hkg]. apply list_lookup_insert_Some in Ek as [(<- & <- & _)|[Hne Ek]].
    + destruct (t3 h st Est Hx) as [s1 s2 s3 s4 s5]. destruct (s4 Ha) as (Ev & Eg & Hn). unfold due in *.
      constructor; unfold due; cbn; rewrite ?view_app, ?Hkg, ?Ev, ?Hke; cbn; rewrite ?(decide_True _ _ (eq_refl h)); cbn; try done.
      * by rewrite s1, Ev.
      * intros _. by rewrite decide_True by apply lookup_insert_eq.
    + destruct (t3 k x Ek Hx) as [s1 s2 s3 s4 s5]. unfold due in *. constructor; unfold due; cbn; rewrite ?view_app, ?Hkg, ?Hke; cbn; rewrite ?(decide_False _ _ Hne); try done.
      * rewrite s1. by destruct (decide ((view k tr).1 = Some (id st))).
      * intros Hrd. specialize (s3 Hrd). destruct (decide (id x = id st)) as [Ei|Ei].
        -- rewrite Ei, lookup_insert_eq, (decide_False _ _ (P := Some h = Some k)) by congruence. rewrite Ei in s3.
           destruct (decide ((view k tr).1 = Some (id st))) as [|Hv]; [done|]. rewrite s3 in *. by case_decide.
        -- rewrite lookup_insert_ne by done. rewrite (decide_False (P := _ = Some (id st))); [done|]. rewrite s3. case_decide; congruence.
      * intros Hal. destruct (s4 Hal) as (Ev & ? & ?). by rewrite Ev.
      * intros He. destruct (s5 He) as (? & ? & Hsd). split_and!; [done..|]. unfold sender_of in *. apply bool_decide_eq_false. apply bool_decide_eq_false in Hsd.
        intros [Hrd Hl]. cbn in *. apply lookup_insert_Some in Hl as [[_ ?]|[_ Hl]]; [done|]. by apply Hsd.
Qed.

(** A frame that reaches no stream, and closes those the table forgets. *)
Lemma routed_ok s s' tr f : streams_ok s tr -> all s' = all s -> (reading s' = true -> reading s = true) ->
  (forall i k, streams s' !! i = Some k -> streams s !! i = Some k) ->
  (forall h st, all s !! h = Some st -> receiver st = true -> let v := absorb h (view h tr) (Routed f) in
     v.2 = (view h tr).2 /\ (reading s' = true -> v.1 = if decide (streams s' !! id st = Some h) then Some (id st) else None)) ->
  streams_ok s' (tr ++ [Routed f]).
Proof.
  intros [t1 t2 t3] Ea Er Ht Hl.
  assert (forall k, (AtEof k ∈ tr ++ [Routed f] <-> AtEof k ∈ tr) /\ got k (tr ++ [Routed f]) = got k tr) as Hk.
  { intros k. rewrite elem_of_app, list_elem_of_singleton, got_app. split; [|by apply app_nil_r]. by split; [intros [|]|left]. }
  constructor; rewrite ?Ea.
  - intros i k Hi. by apply t1, Ht.
  - intros k Hlk. destruct (Hk k) as [-> ->]. destruct (t2 k Hlk) as (E1 & ? & ?). split_and!; [|done..]. by rewrite view_app, E1.
  - intros k x Ek Hx. destruct (Hk k) as [Hke Hkg]. destruct (t3 k x Ek Hx) as [s1 s2 s3 s4 s5]. destruct (Hl k x Ek Hx) as [Hl2 Hl1].
    unfold due in *. constructor; unfold due; rewrite ?view_app, ?Hkg, ?Hke; cbn [fold_left]; try done.
    + by rewrite Hl2.
    + intros Hal. destruct (s4 Hal) as (Ev & ? & ?). by rewrite Ev.
    + intros He. destruct (s5 He) as (? & ? & Hsd). split_and!; [done..|]. unfold sender_of in *. apply bool_decide_eq_false. apply bool_decide_eq_false in Hsd.
      intros [Hrd Hls]. by apply Hsd; auto.
Qed.

(** The view of a live stream when the frame closes the id, and when it does not concern it. *)
Lemma closed_view s s' tr f h st : stream_ok s tr h st -> streams s' = delete (stream_id f) (streams s) ->
  absorb h (view h tr) (Routed f) = (if decide ((view h tr).1 = Some (stream_id f)) then (None, (view h tr).2) else view h tr) ->
  let v := absorb h (view h tr) (Routed f) in
  v.2 = (view h tr).2 /\ (reading s = true -> v.1 = if decide (streams s' !! id st = Some h) then Some (id st) else None).
Proof.
  intros [_ _ s3 _ _] Et ->. cbv zeta. split; [by destruct (decide (_ = Some (stream_id f)))|]. intros Hrd. specialize (s3 Hrd). rewrite Et.
  destruct (decide (id st = stream_id f)) as [Ei|Ei].
  - rewrite Ei, lookup_delete_eq, (decide_False (P := None = Some h)) by done. rewrite Ei in s3.
    destruct (decide ((view h tr).1 = Some (stream_id f))) as [|Hv]; [done|]. rewrite s3 in *. by case_decide.
  - rewrite lookup_delete_ne by done. rewrite decide_False; [done|]. rewrite s3. case_decide; congruence.
Qed.

(** The view of a live stream when the frame does nothing to its id. *)
Lemma idle_view s tr f h st (t : gmap Z nat) : stream_ok s tr h st -> t = streams s -> absorb h (view h tr) (Routed f) = view h tr ->
  let v := absorb h (view h tr) (Routed f) in
  v.2 = (view h tr).2 /\ (reading s = true -> v.1 = if decide (t !! id st = Some h) then Some (id st) else None).
Proof. intros [_ _ s3 _ _] -> ->. cbv zeta. auto. Qed.

Lemma psh_ok s tr f h st : streams_ok s tr -> reading s = true -> command f = Psh -> streams s !! stream_id f = Some h ->
  all s !! h = Some st -> receiver st = true -> (length (inbound st) < STREAM_INBOUND_CAP)%nat ->
  streams_ok (s <| routing := None |> <| all := <[h := st <| inbound := inbound st ++ [payload f] |>]> (all s) |>) (tr ++ [Routed f]).
Proof.
  intros [t1 t2 t3] Hrd Ec Eh Est Hr Hcap. pose proof (lookup_lt_Some _ _ _ Est) as Hh.
  destruct (t1 _ _ Eh) as (x & Ex & Eid & Hns). simplify_eq.
  assert (forall k, (AtEof k ∈ tr ++ [Routed f] <-> AtEof k ∈ tr) /\ got k (tr ++ [Routed f]) = got k tr) as Hk.
  { intros k. rewrite elem_of_app, list_elem_of_singleton, got_app. split; [|by apply app_nil_r]. by split; [intros [|]|left]. }
  constructor; cbn.
  - intros i k Hi. destruct (t1 i k Hi) as (y & Ey & Ei & Hy). destruct (decide (k = h)) as [->|].
    + rewrite list_lookup_insert_eq by done. eexists. split; [done|]. by simplify_eq.
    + rewrite list_lookup_insert_ne by done. by exists y.
  - intros k Hlk. rewrite length_insert in Hlk. destruct (Hk k) as [-> ->]. destruct (t2 k Hlk) as (E1 & ? & ?). split_and!; [|done..]. by rewrite view_app, E1.
  - intros k y Ek Hy. destruct (Hk k) as [Hke Hkg]. apply list_lookup_insert_Some in Ek as [(<- & <- & _)|[Hne Ek]].
    + destruct (t3 h st Est Hr) as [s1 s2 s3 s4 s5]. specialize (s3 Hrd). rewrite Eid, (decide_True _ _ Eh) in s3.
      assert (view h (tr ++ [Routed f]) = (Some (stream_id f), (view h tr).2 ++ payload f)) as Ev.
      { rewrite view_app. cbn. by rewrite decide_True, Ec, s3 by done. }
      unfold due in *. constructor; unfold due; cbn; rewrite ?Ev, ?Hkg, ?Hke; try done.
      * cbn. rewrite <- s1, concat_app, <- !app_assoc. cbn. by rewrite app_nil_r.
      * rewrite length_app. cbn. lia.
      * cbn. intros _. by rewrite Eid, decide_True.
      * intros He. destruct (s5 He) as (_ & _ & Hsd). unfold sender_of in Hsd. apply bool_decide_eq_false in Hsd. by rewrite Eid in Hsd; destruct Hsd.
    + destruct (t3 k y Ek Hy) as [s1 s2 s3 s4 s5]. pose proof (s3 Hrd) as Hv.
      assert (view k (tr ++ [Routed f]) = view k tr) as Ev.
      { rewrite view_app. cbn. rewrite decide_False; [done|]. rewrite Hv. case_decide as Hd; [|done]. intros E. apply (inj Some) in E. rewrite E in Hd. congruence. }
      unfold due in *. constructor; unfold due; cbn; rewrite ?Ev, ?Hkg, ?Hke; done.
Qed.

Lemma route_ok s s' tr f : streams_ok s tr -> reading s = true -> route f s = Some s' -> streams_ok s' (tr ++ [Routed f]).
Proof.
  intros Hs Hrd E. pose proof (ss_all _ _ Hs) as t3. unfold route in E. destruct (command f) eqn:Ec.
  all: try (apply (inj Some) in E; subst s'; apply (routed_ok s); [done..|]; intros h st Est Hr; eapply (idle_view s); [exact (t3 _ _ Est Hr)|done|];
    cbn; rewrite Ec; by destruct (decide _)).
  - cbv zeta in E. change (streams (s <| routing := None |>)) with (streams s) in E. change (all (s <| routing := None |>)) with (all s) in E.
    destruct (streams s !! stream_id f) as [h|] eqn:Eh.
    + destruct (all s !! h) as [st|] eqn:Est; [cbn [mbind option_bind] in E|done]. destruct (receiver st) eqn:Hr; cbn [negb] in E.
      * destruct (Nat.ltb_spec (length (inbound st)) STREAM_INBOUND_CAP) as [Hcap|]; [|done]. apply (inj Some) in E. subst s'. by eapply psh_ok.
      * apply (inj Some) in E. subst s'. apply (routed_ok s); [done..|intros i k Hi; cbn in Hi; by apply lookup_delete_Some in Hi as [_ ?]|].
        intros k x Ek Hx. destruct (t3 k x Ek Hx) as [_ _ s3 _ _]. specialize (s3 Hrd). cbn.
        assert ((view k tr).1 <> Some (stream_id f)) as Hv by (rewrite s3; case_decide as Hd; [|done]; intros Ei; apply (inj Some) in Ei; rewrite Ei in Hd; congruence).
        rewrite (decide_False _ _ Hv). split; [done|]. intros _. rewrite s3. destruct (decide (id x = stream_id f)) as [Ei|Ei].
        -- assert (h <> k) by (intros ->; congruence). by rewrite Ei, lookup_delete_eq, Eh, !decide_False by congruence.
        -- by rewrite lookup_delete_ne by done.
    + apply (inj Some) in E. subst s'. apply (routed_ok s); [done..|]. intros h st Est Hr. eapply (idle_view s); [exact (t3 _ _ Est Hr)|done|]. cbn. rewrite decide_False; [done|].
      destruct (t3 h st Est Hr) as [_ _ s3 _ _]. rewrite (s3 Hrd). case_decide as Hd; [|done]. intros Ei. apply (inj Some) in Ei. rewrite Ei in Hd. congruence.
  - apply (inj Some) in E. subst s'. apply (routed_ok s); [done..|intros i k Hi; cbn in Hi; by apply lookup_delete_Some in Hi as [_ ?]|].
    intros h st Est Hr. eapply (closed_view s); [exact (t3 _ _ Est Hr)|done|]. cbn. by rewrite Ec.
  - destruct (utf8_valid (payload f)); [destruct (PaddingScheme_parse (payload f)) as [[sc|e]|]|]; apply (inj Some) in E; subst s'.
    3:{ apply (routed_ok s); [done..|]. intros h st Est Hr. cbn. rewrite Ec. split; [by destruct (decide _)|done]. }
    all: apply (routed_ok s); [done..|]; intros h st Est Hr; eapply (idle_view s); [exact (t3 _ _ Est Hr)|done|]; cbn; rewrite Ec; by destruct (decide _).
  - case_decide as Hp; apply (inj Some) in E; subst s'.
    + apply (routed_ok s); [done..|]. intros h st Est Hr. eapply (idle_view s); [exact (t3 _ _ Est Hr)|done|]. cbn. rewrite Ec, Hp. by destruct (decide _).
    + apply (routed_ok s); [done..|intros i k Hi; cbn in Hi; by apply lookup_delete_Some in Hi as [_ ?]|].
      intros h st Est Hr. eapply (closed_view s); [exact (t3 _ _ Est Hr)|done|]. cbn. rewrite Ec. by rewrite (decide_False _ _ Hp).
Qed.

Lemma open_ok s s' tr st : streams_ok s tr -> all s' = all s ++ [st] -> streams s' = streams s -> reading s' = reading s ->
  stage st = Allocated -> inbound st = [] -> read_rem st = [] -> streams_ok s' tr.
Proof.
  intros [t1 t2 t3] Ea Et Er Hst Hin Hrem. constructor; rewrite ?Ea, ?Et.
  - intros i k Hi. destruct (t1 i k Hi) as (x & Ex & ?). exists x. split; [|done]. by apply lookup_app_l_Some.
  - intros k Hk. rewrite length_app in Hk. apply t2. cbn in Hk. lia.
  - intros k x Ek Hx. apply lookup_app_Some in Ek as [Ek|[Hlk Ek]].
    + rewrite <- (app_nil_r tr). eapply (stream_ok_quiet s _ tr [] None); [by apply t3|constructor|done..].
    + apply list_lookup_singleton_Some in Ek as [Hz <-]. destruct (t2 k Hlk) as (Ev & Eg & He). unfold due.
      constructor; unfold due; rewrite ?Ev, ?Eg, ?Hin, ?Hrem, ?Et; try done; [cbn; lia|].
      intros _. rewrite decide_False; [done|]. intros Hl. destruct (t1 _ _ Hl) as (y & Ey & _). apply lookup_lt_Some in Ey. lia.
Qed.

(** A step of a stream's user that leaves what it receives alone. *)
Lemma stream_touch_ok s s' tr o h st st' : streams_ok s tr -> all s !! h = Some st -> all s' = <[h := st']> (all s) -> streams s' = streams s -> reading s' = reading s ->
  id st' = id st -> read_rem st' = read_rem st -> inbound st' = inbound st -> stage st <> Allocated -> stage st' <> Allocated ->
  (receiver st' = true -> receiver st = true) -> quiet None o -> streams_ok s' (tr ++ o).
Proof.
  intros Hs Est Ea Et Er Ei Em En Hst Hst' Hr Hq. eapply (streams_insert s); try done.
  - eapply Forall_impl; [|exact Hq]. by intros [].
  - intros Hr'. eapply (stream_ok_quiet s _ tr o None); try done. by apply (ss_all _ _ Hs), Hr.
Qed.

Lemma streams_step e s s' tr o : framed s tr -> streams_ok s tr -> step rng e s = Some (s', o) -> streams_ok s' (tr ++ o).
Proof.
  intros F Hs E. assert (quiet None (@nil obs)) as Hnil by constructor.
  assert (forall f, quiet None [Sent f]) as Hsent by (intros; by repeat constructor).
  destruct e; step_cases; repeat match goal with
    | Hb : (_ && _) = true |- _ => apply andb_true_iff in Hb as [Hb ?]
    | Hb : bool_decide _ = true |- _ => apply bool_decide_eq_true in Hb
    end.
  all: try (eapply streams_same; by eauto).
  all: try (eapply (stream_touch_ok s); [done|done|done|done|done|done|done|done|congruence|cbn; congruence|done|done]).
  - rewrite app_nil_r. eapply (open_ok s); by eauto.
  - by apply register_ok.
  - eapply (stream_touch_ok s); [done|done|by destruct (writing s)|by destruct (writing s)|by destruct (writing s)|done..|congruence|done|done|done].
  - eapply streams_same; try done. by repeat constructor.
  - eapply (stream_touch_ok s); [done|done|done|done|done|done|done|done|congruence|cbn; congruence|done|by repeat constructor].
  - eapply (stream_touch_ok s); [done|done|done|done|done|done|done|done|congruence|cbn; congruence|done|by repeat constructor].
  - eapply (streams_insert s); try done. by constructor.
  - assert (0 < n)%nat by by apply Nat.ltb_lt. pose proof (read_ok s tr h s0 n Hs) as Hrd. rewrite Heqp in Hrd. by apply Hrd.
  - eapply streams_same; try done. by repeat constructor.
  - by eapply streams_end.
  - by eapply streams_end.
  - eapply route_ok; [done| |done]. destruct (reading s) eqn:Er; [done|]. by rewrite (fr_ended _ _ F Er) in *.
Qed.

(** ** The theorem *)

Lemma encode_all_prefix fs gs : Forall frame_ok fs -> Forall frame_ok gs -> encode_all fs `prefix_of` encode_all gs -> fs `prefix_of` gs.
Proof.
  intros Hfs. revert gs. induction Hfs as [|f fs Hf _ IH]; intros gs Hgs [r E]; [by exists gs|].
  change (encode_all (f :: fs)) with (encode f ++ encode_all fs) in E. rewrite <- app_assoc in E. destruct gs as [|g gs].
  - exfalso. apply (f_equal length) in E. rewrite length_app, length_encode_frame in E. unfold encoded_len, HEADER_LEN in E. cbn in E. lia.
  - apply Forall_cons_1 in Hgs as [Hg Hgs]. change (encode_all (g :: gs)) with (encode g ++ encode_all gs) in E.
    pose proof (decode_encode_frame f (encode_all fs ++ r) Hf) as D. rewrite <- E, (decode_encode_frame g) in D by done.
    apply pair_eq in D as [D1 D2]. simplify_eq. apply prefix_cons. apply IH; [done|]. by exists r.
Qed.

Lemma route_blocked s tr f : streams_ok s tr -> route f s = None ->
  exists h st, streams s !! stream_id f = Some h /\ all s !! h = Some st /\ receiver st = true /\ (STREAM_INBOUND_CAP <= length (inbound st))%nat.
Proof.
  intros Hs E. unfold route in E. destruct (command f); try done.
  - cbv zeta in E. change (streams (s <| routing := None |>)) with (streams s) in E. change (all (s <| routing := None |>)) with (all s) in E.
    destruct (streams s !! stream_id f) as [h|] eqn:Eh; [|done]. destruct (ss_table _ _ Hs _ _ Eh) as (st & Est & _). rewrite Est in E. cbn [mbind option_bind] in E.
    exists h, st. destruct (receiver st); [|done]. cbn [negb] in E. destruct (Nat.ltb_spec (length (inbound st)) STREAM_INBOUND_CAP); [done|]. done.
  - destruct (utf8_valid _); [|done]. by destruct (PaddingScheme_parse _) as [[|]|].
Qed.

(** C14: what the streams of a session receive. Under every schedule and however the
    connection cuts its bytes, the frames the reader handles are the peer's, in order; a
    stream that is still held has been given a prefix of what was sent to it between its
    registration and the frame that closed it, and all of it when it has seen its end,
    which it sees only once the reader has let go of it; its channel stays within its bound,
    and the reader stands still only while the channel of the stream that the frame in its
    hands is for is full. *)
Theorem downlink_correct sha256 md5 client_id password scheme0 es s tr :
  Forall event_ok es -> run rng es (Session_client rng sha256 md5 client_id password scheme0) = Some (s, tr) ->
  (forall fs, Forall frame_ok fs -> arrived tr `prefix_of` encode_all fs -> routed tr `prefix_of` fs) /\
  (forall h st, all s !! h = Some st -> receiver st = true ->
     got h tr `prefix_of` due h tr /\ (length (inbound st) <= STREAM_INBOUND_CAP)%nat /\
     (AtEof h ∈ tr -> got h tr = due h tr /\ sender_of h st s = false)) /\
  (forall f, routing s = Some f -> route f s = None ->
     exists h st, streams s !! stream_id f = Some h /\ all s !! h = Some st /\ receiver st = true /\ length (inbound st) = STREAM_INBOUND_CAP).
Proof.
  intros Hok E. assert (framed s tr /\ streams_ok s tr) as [F Hs].
  { refine (run_ind rng (fun s tr => framed s tr /\ streams_ok s tr) _ _ _ es s tr Hok E).
    - split; constructor; try done; try constructor; try done. split; [done|apply not_elem_of_nil].
    - clear E. intros e s1 s2 tr1 o He [F Hs] E. split; [by eapply framed_step|by eapply streams_step]. }
  split_and!.
  - intros fs Hfs Hp. apply encode_all_prefix; [|done|by etrans; [apply (fr_prefix _ _ F)|]]. pose proof (fr_ok _ _ F) as Hf. by apply Forall_app in Hf as [? _].
  - intros h st Est Hr. destruct (ss_all _ _ Hs h st Est Hr) as [s1 s2 s3 s4 s5]. split_and!; [rewrite <- s1; by eexists|done|].
    intros He. destruct (s5 He) as (E1 & E2 & ?). rewrite E1, E2 in s1. by rewrite <- s1, !app_nil_r.
  - intros f Ef Hb. destruct (route_blocked s tr f Hs Hb) as (h & st & Eh & Est & Hr & Hc). exists h, st. split_and!; [done..|].
    pose proof (so_cap _ _ _ _ (ss_all _ _ Hs h st Est Hr)). lia.
Qed.

End streams.

(** ** A session run *)

Definition ex_rng (k : nat) : option Z := Some (Z.of_nat (7 * k)).
Definition ex_sha (_ : bytes) : bytes := replicate 32 7.
Definition ex_md5 (b : bytes) : bytes := replicate 16 (Z.of_nat (length b) mod 256).
Definition ex_scheme : PaddingScheme := mk_scheme 3 [[Size 4 4]; [Size 30 40; Size 20 25; Check; Size 50 60]; []] (lit "stop=3").
Definition ex_start : Session := Session_client ex_rng ex_sha ex_md5 (lit "spark/0.1.0") (lit "secret") ex_scheme.
Definition ex_down : bytes := encode_all [mk_frame SynAck 1 []; mk_frame Psh 1 [5; 6; 7]; mk_frame Waste 0 [0; 0]; control Fin 1].
Definition ex_events : list event :=
  [WriterTurn; Open; Register 0; SendSyn 0; SendEnd 0; Write 0 [1; 2; 3]; WriterTurn; WriterTurn; WriterTurn; WriterTurn;
   Arrive (take 10 ex_down); Decode; Route; Arrive (drop 10 ex_down); Decode; Route; Read 0 2; Decode; Route; Decode; Route; Read 0 9; Read 0 9].
Definition ex_end : Session * list obs := default (ex_start, []) (run ex_rng ex_events ex_start).

Lemma ex_events_ok : Forall event_ok ex_events.
Proof. repeat (constructor; [try exact I; decided|]). constructor. Qed.

Lemma ex_events_run : run ex_rng ex_events ex_start = Some (ex_end.1, ex_end.2).
Proof. vm_compute. reflexivity. Qed.

Lemma uplink_correct_witness : exists fs, concat (wire ex_end.1) = auth ex_end.1 ++ encode_all fs /\ psh 1 fs = [1; 2; 3].
Proof.
  destruct (uplink_correct ex_rng ex_sha ex_md5 (lit "spark/0.1.0") (lit "secret") ex_scheme ex_events ex_end.1 ex_end.2) as (fs & _ & _ & _ & _ & _ & H).
  - split_and!; [decided|decided|]. intros b. unfold ex_md5. rewrite length_replicate. split; [done|].
    apply Forall_replicate. unfold fits. pose proof (Z.mod_pos_bound (Z.of_nat (length b)) 256). lia.
  - exact ex_events_ok.
  - exact ex_events_run.
  - exists fs. destruct H as (H1 & _ & H2); [vm_compute; reflexivity|vm_compute; reflexivity| |vm_compute; reflexivity|].
    + exists 1, [1; 2; 3]. apply (list_elem_of_lookup_2 _ 3). vm_compute. reflexivity.
    + split; [exact H1|]. rewrite H2. vm_compute. reflexivity.
Defined.

Lemma downlink_correct_witness : got 0 ex_end.2 = [5; 6; 7] /\ due 0 ex_end.2 = [5; 6; 7].
Proof.
  destruct (downlink_correct ex_rng ex_sha ex_md5 (lit "spark/0.1.0") (lit "secret") ex_scheme ex_events ex_end.1 ex_end.2 ex_events_ok ex_events_run) as (_ & H & _).
  destruct (all ex_end.1 !! 0%nat) as [st|] eqn:E; [|vm_compute in E; discriminate E].
  assert (receiver st = true) as Hr by (vm_compute in E; by inversion E).
  destruct (H 0%nat st E Hr) as (_ & _ & He). destruct He as [He _]; [apply (list_elem_of_lookup_2 _ 12); vm_compute; reflexivity|]. rewrite He. split; vm_compute; reflexivity.
Defined.
End anytls_streams.
