(* ===== verification/AnyTlsPool.v ===== *)
(** [core/src/transport/anytls/transport.rs]: the pool of sessions that dials share. A
    dial holds the session it acquires until it has announced its target; a session that
    neither the pool nor a dial holds is dropped, and its connection with it. *)

From S2P Require Import Prelude Lists.

Module anytls_pool.

Definition MAX_STREAMS_PER_SESSION : nat := 64.
Definition MIN_IDLE_SESSIONS : nat := 1.

(** A session: its open streams, the dials that hold it, whether its connection failed,
    whether it was dropped. *)
Record Conn := mk_conn { active : nat; held : nat; failed : bool; dropped : bool }.
#[export] Instance eta_Conn : Settable Conn := fun c => mk_conn (active c) (held c) (failed c) (dropped c).

(** [Session::is_alive]: dropping a session aborts its tasks. *)
Definition is_alive (c : Conn) : bool := negb (failed c) && negb (dropped c).

(** Every session ever made; the pool names some, the newest last; [connecting] is the
    number of dials that found none and are making one. *)
Record State := mk_state { conns : list Conn; pool : list nat; connecting : nat }.
#[export] Instance eta_State : Settable State := fun s => mk_state (conns s) (pool s) (connecting s).

Definition test (f : Conn -> bool) (s : list Conn) (k : nat) : bool := from_option f false (s !! k).

(** [acquire] under the lock: the session to reuse, and the pool. *)
Definition acquire (s : State) : option nat * list nat :=
  let pool := filter (fun k => test is_alive (conns s) k = true) (pool s) in
  (head (filter (fun k => test (fun c => active c <? MAX_STREAMS_PER_SESSION)%nat (conns s) k = true) (reverse pool)), pool).

(** The loop of a sweep, newest first. *)
Fixpoint sweep_loop (s : list Conn) (ks : list nat) (idle_kept : nat) : list nat :=
  match ks with
  | [] => []
  | k :: ks =>
      if negb (test is_alive s k) then sweep_loop s ks idle_kept
      else if test (fun c => 0 <? active c)%nat s k then k :: sweep_loop s ks idle_kept
      else if (idle_kept <? MIN_IDLE_SESSIONS)%nat then k :: sweep_loop s ks (S idle_kept)
      else sweep_loop s ks idle_kept
  end.
Definition sweep (s : State) : list nat := reverse (sweep_loop (conns s) (reverse (pool s)) 0).

Inductive event :=
| Reuse               (* a dial finds a session *)
| Miss                (* a dial finds none *)
| Connect             (* it has made one *)
| OpenStream (k : nat)
| Return (k : nat)    (* the dial is over *)
| EndStream (k : nat)
| Fail_ (k : nat)     (* the connection fails *)
| Sweep.

(** Sessions that nobody holds are dropped. *)
Definition reap (s : State) : State :=
  s <| conns := imap (fun k c => if bool_decide (held c = 0%nat /\ (k ∉ pool s)) then c <| dropped := true |> else c) (conns s) |>.

Definition step (e : event) (s : State) : option State :=
  let upd (k : nat) (ok : Conn -> bool) (f : Conn -> Conn) :=
    let! c := conns s !! k in if ok c then Some (s <| conns := <[k := f c]> (conns s) |>) else None in
  reap <$>
  match e with
  | Reuse =>
      let '(r, p) := acquire s in
      let! k := r in let! c := conns s !! k in
      Some (s <| conns := <[k := c <| held := S (held c) |>]> (conns s) |> <| pool := p |>)
  | Miss =>
      match acquire s with
      | (None, p) => Some (s <| pool := p |> <| connecting := S (connecting s) |>)
      | _ => None
      end
  | Connect =>
      if (0 <? connecting s)%nat
      then Some (mk_state (conns s ++ [mk_conn 0 1 false false]) (pool s ++ [length (conns s)]) (pred (connecting s)))
      else None
  | OpenStream k => upd k (fun c => (0 <? held c)%nat && is_alive c) (fun c => c <| active := S (active c) |>)
  | Return k => upd k (fun c => (0 <? held c)%nat) (fun c => c <| held := pred (held c) |>)
  | EndStream k => upd k (fun c => (0 <? active c)%nat) (fun c => c <| active := pred (active c) |>)
  | Fail_ k => upd k (fun _ => true) (fun c => c <| failed := true |>)
  | Sweep => Some (s <| pool := sweep s |>)
  end.

Fixpoint run (es : list event) (s : State) : option State :=
  match es with [] => Some s | e :: es => let! s := step e s in run es s end.

Definition start : State := mk_state [] [] 0.

(** ** What a sweep keeps *)

Abbreviation alive s k := (test is_alive s k = true).
Abbreviation busy s k := (test (fun c => 0 <? active c)%nat s k = true).

Lemma sweep_loop_spec s ks n k : k ∈ sweep_loop s ks n -> k ∈ ks /\ alive s k.
Proof.
  revert n. induction ks as [|x ks IH]; intros n Hk; cbn [sweep_loop] in Hk; [by apply elem_of_nil in Hk|].
  rewrite elem_of_cons. destruct (test is_alive s x) eqn:Ea; cbn [negb] in Hk; [|by apply IH in Hk as [? ?]; auto].
  destruct (test (fun c => 0 <? active c)%nat s x) eqn:Eb; [|destruct (_ <? _)%nat]; try (apply elem_of_cons in Hk as [->|Hk]; [by auto|]); apply IH in Hk as [? ?]; auto.
Qed.

Lemma sweep_loop_busy s ks n k : k ∈ ks -> alive s k -> busy s k -> k ∈ sweep_loop s ks n.
Proof.
  revert n. induction ks as [|x ks IH]; intros n Hk Ha Hb; cbn [sweep_loop]; [done|]. apply elem_of_cons in Hk as [<-|Hk].
  - rewrite Ha, Hb. cbn. by apply elem_of_cons; left.
  - destruct (test is_alive s x); cbn [negb]; [|auto]. destruct (test (fun c => 0 <? active c)%nat s x); [|destruct (_ <? _)%nat]; rewrite ?elem_of_cons; auto.
Qed.

Lemma sweep_loop_idle s ks n : (length (filter (fun k => ~ busy s k) (sweep_loop s ks n)) <= MIN_IDLE_SESSIONS - n)%nat.
Proof.
  revert n. induction ks as [|x ks IH]; intros n; cbn [sweep_loop]; [cbn; lia|]. destruct (test is_alive s x); cbn [negb]; [|apply IH].
  destruct (test (fun c => 0 <? active c)%nat s x) eqn:Eb.
  - rewrite list.filter_cons, decide_False by (rewrite Eb; auto). apply IH.
  - destruct (Nat.ltb_spec n MIN_IDLE_SESSIONS); [|apply IH]. rewrite list.filter_cons, decide_True by (by rewrite Eb). cbn [length]. specialize (IH (S n)). lia.
Qed.

(** ** Sessions with streams are kept *)

(** No dial holds a session that has no stream yet. *)
Definition calm_now (s : State) : bool := forallb (fun c => (held c =? 0)%nat || (0 <? active c)%nat) (conns s).
Fixpoint calm (es : list event) (s : State) : Prop :=
  match es with
  | [] => True
  | e :: es => (e = Sweep -> calm_now s = true) /\ match step e s with Some s' => calm es s' | None => True end
  end.

Definition in_use (c : Conn) : Prop := failed c = false /\ (active c <> 0 \/ held c <> 0)%nat.
Record inv (s : State) : Prop := {
  i_dropped : forall k c, conns s !! k = Some c -> dropped c = true -> held c = 0%nat /\ (k ∉ pool s);
  i_used : forall k c, conns s !! k = Some c -> in_use c -> k ∈ pool s;
  i_range : forall k, k ∈ pool s -> (k < length (conns s))%nat;
}.

Lemma reap_inv s : inv s -> inv (reap s).
Proof.
  intros [i1 i2 i3]. assert (forall k c, conns (reap s) !! k = Some c -> exists c0, conns s !! k = Some c0 /\ active c = active c0 /\ held c = held c0 /\ failed c = failed c0 /\
    (dropped c = true -> held c = 0%nat /\ (k ∉ pool s))) as H.
  { intros k c E. cbn in E. rewrite list_lookup_imap in E. destruct (conns s !! k) as [c0|] eqn:E0; [|done]. cbn in E. simplify_eq.
    exists c0. case_bool_decide; cbn; by eauto 10. }
  constructor.
  - intros k c E Hd. destruct (H k c E) as (c0 & _ & _ & _ & _ & Hx). by apply Hx.
  - intros k c E [Hf Hu]. destruct (H k c E) as (c0 & E0 & Ea & Eh & Ef & _). apply (i2 k c0 E0). unfold in_use. by rewrite <- Ea, <- Eh, <- Ef.
  - intros k Hk. cbn. rewrite length_imap. by apply i3.
Qed.

Lemma alive_in_use s k c : inv s -> conns s !! k = Some c -> in_use c -> alive (conns s) k.
Proof.
  intros I E Hu. unfold test. rewrite E. cbn. unfold is_alive. destruct Hu as [Hf Hu]. rewrite Hf. destruct (dropped c) eqn:Ed; [|done].
  exfalso. destruct (i_dropped s I k c E Ed) as [_ Hn]. by apply Hn, (i_used s I k c E).
Qed.

(** The eviction of dead sessions, by a dial. *)
Lemma evict_inv s n : inv s -> inv (mk_state (conns s) (acquire s).2 n).
Proof.
  intros I. pose proof I as [i1 i2 i3]. constructor; cbn.
  - intros k c E Hd. destruct (i1 k c E Hd) as [? Hn]. split; [done|]. rewrite list_elem_of_filter. by intros [_ ?].
  - intros k c E Hu. apply list_elem_of_filter. split; [by eapply alive_in_use|by eapply i2].
  - intros k [_ Hk]%list_elem_of_filter. by apply i3.
Qed.

(** A change of one session that does not put a dropped one to use. *)
Lemma update_inv s k c c' : inv s -> conns s !! k = Some c -> dropped c' = dropped c ->
  (dropped c = true -> held c' = 0%nat) -> (in_use c' -> in_use c \/ k ∈ pool s) -> inv (s <| conns := <[k := c']> (conns s) |>).
Proof.
  intros [i1 i2 i3] E Ed Hd Hu. constructor; cbn.
  - intros j x Ej Hx. apply list_lookup_insert_Some in Ej as [(<- & <- & _)|[_ Ej]]; [|by eapply i1]. rewrite Ed in Hx. split; [by apply Hd|by eapply i1].
  - intros j x Ej Hx. apply list_lookup_insert_Some in Ej as [(<- & <- & _)|[_ Ej]]; [|by eapply i2]. destruct (Hu Hx) as [Hc|]; [by eapply i2|done].
  - intros j Hj. rewrite length_insert. by apply i3.
Qed.

Lemma sweep_inv s : inv s -> calm_now s = true -> inv (s <| pool := sweep s |>).
Proof.
  intros I Hc. pose proof I as [i1 i2 i3]. assert (forall k, k ∈ sweep s -> k ∈ pool s) as Hsub.
  { intros k Hk. unfold sweep in Hk. rewrite elem_of_reverse in Hk. apply sweep_loop_spec in Hk as [Hk _]. by rewrite elem_of_reverse in Hk. }
  constructor; cbn.
  - intros k c E Hd. destruct (i1 k c E Hd) as [? Hn]. split; [done|]. by intros ?%Hsub.
  - intros k c E Hu. unfold sweep. rewrite elem_of_reverse. apply sweep_loop_busy; [rewrite elem_of_reverse; by eapply i2|by eapply alive_in_use|].
    unfold test. rewrite E. cbn [from_option]. unfold calm_now in Hc. rewrite forallb_forall in Hc. specialize (Hc c (proj1 (list_elem_of_In _ _) (list_elem_of_lookup_2 _ _ _ E))).
    destruct Hu as [_ Hu]. apply orb_true_iff in Hc as [Hc|Hc]; [|done]. apply Nat.eqb_eq in Hc. apply Nat.ltb_lt. lia.
  - intros k Hk. by apply i3, Hsub.
Qed.

Lemma step_inv e s s' : inv s -> (e = Sweep -> calm_now s = true) -> step e s = Some s' -> inv s'.
Proof.
  intros I Hc E. unfold step in E. apply fmap_Some in E as (s1 & E & ->). apply reap_inv. destruct e.
  all: try (destruct (conns s !! k) as [c|] eqn:Ek; [cbn [mbind option_bind] in E|done]).
  - pose proof (evict_inv s (connecting s) I) as Hev. destruct (acquire s) as [[k|] p] eqn:Ea; [|done]. cbn [mbind option_bind snd] in *.
    destruct (conns s !! k) as [c|] eqn:Ek; [cbn [mbind option_bind] in E|done]. apply (inj Some) in E. subst s1.
    assert (k ∈ p) as Hp.
    { unfold acquire in Ea. apply pair_eq in Ea as [Ea <-]. apply head_Some_elem_of in Ea. apply list_elem_of_filter in Ea as [_ Ea]. by rewrite elem_of_reverse in Ea. }
    assert (inv ((mk_state (conns s) p (connecting s)) <| conns := <[k := c <| held := S (held c) |>]> (conns s) |>)) as Hx; [|exact Hx].
    apply (update_inv (mk_state (conns s) p (connecting s)) k c _ Hev Ek); [done| |by right].
    intros Hd. by destruct (i_dropped _ Hev k c Ek Hd) as [_ []].
  - pose proof (evict_inv s (S (connecting s)) I) as Hev. destruct (acquire s) as [[k|] p] eqn:Ea; [done|]. by apply (inj Some) in E as <-.
  - destruct (0 <? connecting s)%nat; [|done]. apply (inj Some) in E. subst s1. destruct I as [i1 i2 i3]. constructor; cbn.
    + intros k c Ek Hd. apply lookup_app_Some in Ek as [Ek|[_ Ek]]; [|by apply list_lookup_singleton_Some in Ek as [_ <-]].
      destruct (i1 k c Ek Hd) as [? Hn]. split; [done|]. rewrite elem_of_app, list_elem_of_singleton. intros [| ->]; [done|]. apply lookup_lt_Some in Ek. lia.
    + intros k c Ek Hu. rewrite elem_of_app, list_elem_of_singleton. apply lookup_app_Some in Ek as [Ek|[Hl Ek]]; [left; by eapply i2|].
      apply list_lookup_singleton_Some in Ek as [Hk _]. right. lia.
    + intros k. rewrite elem_of_app, list_elem_of_singleton, length_app. intros [Hk%i3| ->]; cbn; lia.
  - destruct (0 <? held c)%nat eqn:Eh; [|done]. destruct (is_alive c) eqn:El; [|done]. apply (inj Some) in E as <-.
    eapply (update_inv s k c); [done|done|done| |].
    + intros Hd. unfold is_alive in El. rewrite Hd, andb_false_r in El. done.
    + intros [Hf _]. left. split; [done|]. right. apply Nat.ltb_lt in Eh. lia.
  - destruct (0 <? held c)%nat eqn:Eh; [|done]. apply (inj Some) in E as <-. eapply (update_inv s k c); [done|done|done| |].
    + intros Hd. destruct (i_dropped s I k c Ek Hd) as [H0 _]. cbn. by rewrite H0.
    + intros [Hf _]. left. split; [done|]. right. apply Nat.ltb_lt in Eh. lia.
  - destruct (0 <? active c)%nat eqn:Eh; [|done]. apply (inj Some) in E as <-. eapply (update_inv s k c); [done|done|done| |].
    + intros Hd. by destruct (i_dropped s I k c Ek Hd).
    + intros [Hf _]. left. split; [done|]. left. apply Nat.ltb_lt in Eh. lia.
  - apply (inj Some) in E as <-. eapply (update_inv s k c); [done|done|done| |by intros []]. intros Hd. by destruct (i_dropped s I k c Ek Hd).
  - apply (inj Some) in E as <-. apply sweep_inv; auto.
Qed.

(** C31: sharing sessions never costs a stream its connection: under every schedule of dials,
    ends of streams, failures and sweeps in which no sweep falls between a dial's acquiring
    a session without streams and its opening one, a session is dropped only if it has no
    stream or its own connection failed; the pool holds every session in use; and a sweep
    leaves every session with a stream, no dead one, and at most one without streams. *)
Theorem streams_keep_sessions es s : calm es start -> run es start = Some s ->
  (forall k c, conns s !! k = Some c -> dropped c = true -> failed c = false -> active c = 0%nat) /\
  (forall k c, conns s !! k = Some c -> failed c = false -> (active c <> 0 \/ held c <> 0)%nat -> k ∈ pool s) /\
  (forall k, k ∈ sweep s -> k ∈ pool s /\ alive (conns s) k) /\
  (forall k, k ∈ pool s -> alive (conns s) k -> busy (conns s) k -> k ∈ sweep s) /\
  (length (filter (fun k => ~ busy (conns s) k) (sweep s)) <= MIN_IDLE_SESSIONS)%nat.
Proof.
  intros Hc E. assert (inv s) as [i1 i2 i3].
  { assert (inv start) as I by (constructor; cbn; intros; try done; by apply elem_of_nil in H).
    revert I Hc E. generalize start as s0. induction es as [|e es IH]; intros s0 I Hc E; cbn [run calm] in *; [by simplify_eq|].
    destruct Hc as [Hc Hcs]. destruct (step e s0) as [s1|] eqn:Es; [|done]. cbn in E. apply (IH s1); [by eapply step_inv|done|done]. }
  split_and!.
  - intros k c Ek Hd Hf. destruct (decide (active c = 0%nat)) as [|Ha]; [done|]. destruct (i1 k c Ek Hd) as [_ Hn]. exfalso. apply Hn, (i2 k c Ek). by split; auto.
  - intros k c Ek Hf Hu. apply (i2 k c Ek). by split.
  - intros k Hk. unfold sweep in Hk. rewrite elem_of_reverse in Hk. apply sweep_loop_spec in Hk as [Hk ?]. by rewrite elem_of_reverse in Hk.
  - intros k Hk Ha Hb. unfold sweep. rewrite elem_of_reverse. by apply sweep_loop_busy; [rewrite elem_of_reverse|..].
  - unfold sweep. rewrite filter_reverse, length_reverse. apply (sweep_loop_idle (conns s) (reverse (pool s)) 0).
Qed.

Definition ex_dials : list event := [Miss; Miss; Connect; Connect; OpenStream 0; OpenStream 1; Return 0; Return 1; EndStream 1; Sweep; Reuse; OpenStream 1; Return 1; Sweep].
Definition ex_pool : State := default start (run ex_dials start).

Lemma streams_keep_sessions_witness : 0%nat ∈ pool ex_pool /\ (length (filter (fun k => ~ busy (conns ex_pool) k) (sweep ex_pool)) <= 1)%nat.
Proof.
  destruct (streams_keep_sessions ex_dials ex_pool) as (_ & H & _ & _ & Hi).
  - cbn [ex_dials calm]. repeat (split; [first [discriminate | intros _; vm_compute; reflexivity]|]; match goal with |- match ?x with _ => _ end => let y := eval vm_compute in x in change x with y; cbv iota beta end). exact I.
  - vm_compute. reflexivity.
  - split; [|exact Hi]. apply (H 0%nat (mk_conn 1 0 false false)); [vm_compute; reflexivity|reflexivity|left; discriminate].
Defined.

(** A sweep between two dials' making their sessions and their opening streams takes the
    older session away under a dial: its stream is open, and its connection is dropped. *)
Theorem sweep_drops_new_session : exists s c, run [Miss; Miss; Connect; Connect; Sweep; OpenStream 0; Return 0] start = Some s /\
  conns s !! 0%nat = Some c /\ active c = 1%nat /\ failed c = false /\ dropped c = true.
Proof. eexists _, _. split; [vm_compute; reflexivity|]. split; [reflexivity|]. by vm_compute. Qed.

End anytls_pool.
