(* ===== verification/TcpTunnel.v ===== *)
(** [core/src/transport/tcp_tunnel/{header,stream,client,udp}.rs] and
    [core/src/transport/uot.rs]: the target address that opens a tunnel, the reader of it
    at the relay, and datagrams over a stream. *)

From S2P Require Import Prelude Lists RustStr NetAddr.

Module tcp_tunnel.
Import net.

(** ** The address *)

Definition IPV4 : Z := 1.
Definition DOMAIN : Z := 3.
Definition IPV6 : Z := 4.
Definition MAX_DOMAIN_LEN : nat := 255.

Inductive Address := Ip (sa : SocketAddr) | Domain (host : bytes) (p : Z).

Inductive HeaderError := Incomplete | UnknownAtyp (b : Z) | EmptyDomain | DomainTooLong (n : nat) | InvalidDomain.

(** [Address::domain]. *)
Definition domain (host : bytes) (port : Z) : result HeaderError Address :=
  if (length host =? 0)%nat then Err EmptyDomain
  else if (MAX_DOMAIN_LEN <? length host)%nat then Err (DomainTooLong (length host))
  else Ok (Domain host port).

Definition port_of (a : Address) : Z := match a with Ip sa => port sa | Domain _ p => p end.

Definition encoded_len (a : Address) : nat :=
  match a with
  | Ip (mk_sock (V4 _) _) => 1 + 4 + 2
  | Ip (mk_sock (V6 _) _) => 1 + 16 + 2
  | Domain host _ => 1 + 1 + length host + 2
  end.

(** The bytes [encode] appends. *)
Definition encode (a : Address) : bytes :=
  match a with
  | Ip (mk_sock (V4 o) p) => [IPV4] ++ o ++ to_be_bytes 2 p
  | Ip (mk_sock (V6 o) p) => [IPV6] ++ o ++ to_be_bytes 2 p
  | Domain host p => [DOMAIN] ++ [wrap8 (Z.of_nat (length host))] ++ host ++ to_be_bytes 2 p
  end.

Definition first_chunk (n : nat) (src : bytes) : result HeaderError bytes := ok_or (slice_get src 0 n) Incomplete.

Definition parse (src : bytes) : result HeaderError (Address * nat) :=
  let? type_byte := ok_or (src !! 0%nat) Incomplete in
  if type_byte =? IPV4 then
    let? b := first_chunk 7 src in
    Ok (Ip (mk_sock (V4 (take 4 (drop 1 b))) (from_be_bytes (drop 5 b))), 7%nat)
  else if type_byte =? IPV6 then
    let? b := first_chunk 19 src in
    Ok (Ip (mk_sock (V6 (take 16 (drop 1 b))) (from_be_bytes (drop 17 b))), 19%nat)
  else if type_byte =? DOMAIN then
    let? dlen := ok_or (src !! 1%nat) Incomplete in
    let dlen := Z.to_nat dlen in
    if (dlen =? 0)%nat then Err EmptyDomain else
    let total := (1 + 1 + dlen + 2)%nat in
    if (length src <? total)%nat then Err Incomplete else
    let name := take dlen (drop 2 src) in
    if negb (utf8_valid name) then Err InvalidDomain else
    Ok (Domain name (from_be_bytes (take 2 (drop (2 + dlen) src))), total)
  else Err (UnknownAtyp type_byte).

(** The values the types hold, the domain's bounds included. *)
Definition address_ok (a : Address) : Prop :=
  match a with
  | Ip sa => sock_ok sa
  | Domain host p => bytes_ok host /\ utf8_valid host = true /\ (0 < length host <= MAX_DOMAIN_LEN)%nat /\ fits 16 p
  end.

(** ** The reader of the header *)

Inductive io_error := UnexpectedEof | InvalidData | ReadFailed | TimedOut.

(** [read_header] on what the reads give, an empty one being the end. [None]: waiting. *)
Fixpoint read_header_loop (buf : bytes) (reads : list (result io_error bytes))
    : option (result io_error (Address * bytes)) * list (result io_error bytes) :=
  match parse buf with
  | Ok (a, consumed) => (Some (Ok (a, drop consumed buf)), reads)
  | Err Incomplete =>
      match reads with
      | [] => (None, [])
      | Err e :: reads => (Some (Err e), reads)
      | Ok [] :: reads => (Some (Err UnexpectedEof), reads)
      | Ok chunk :: reads => read_header_loop (buf ++ chunk) reads
      end
  | Err _ => (Some (Err InvalidData), reads)
  end.
Definition read_header (reads : list (result io_error bytes)) := read_header_loop [] reads.

(** ** Datagrams with an address *)

Inductive UdpFrameError := FrameIncomplete | BadAddress (e : HeaderError) | PayloadTooLong (n : nat).

Definition encode_datagram (target : Address) (payload : bytes) : result UdpFrameError bytes :=
  if (Z.to_nat 65535 <? length payload)%nat then Err (PayloadTooLong (length payload)) else
  Ok (encode target ++ to_be_bytes 2 (wrap16 (Z.of_nat (length payload))) ++ payload).

Definition parse_datagram (src : bytes) : result UdpFrameError (Address * bytes * nat) :=
  match parse src with
  | Err Incomplete => Err FrameIncomplete
  | Err e => Err (BadAddress e)
  | Ok (a, addr_len) =>
      let rest := drop addr_len src in
      if (length rest <? 2)%nat then Err FrameIncomplete else
      let payload_len := Z.to_nat (from_be_bytes (take 2 rest)) in
      let payload_start := (addr_len + 2)%nat in
      let payload_end := (payload_start + payload_len)%nat in
      if (length src <? payload_end)%nat then Err FrameIncomplete else
      Ok (a, take payload_len (drop payload_start src), payload_end)
  end.

(** ** Datagrams of a connected association *)

(** [UotSink::send] and [TunnelUdpSink::send]: what is written. *)
Definition sink_send (payload : bytes) : result io_error bytes :=
  if (Z.to_nat 65535 <? length payload)%nat then Err InvalidData else
  Ok (to_be_bytes 2 (wrap16 (Z.of_nat (length payload))) ++ payload).

(** [UotSource::recv] and [TunnelUdpSource::recv]: the future of a call holds the bytes of
    the length, or the length and the bytes of the datagram, that it has read. *)
Inductive progress := AwaitLen (b : bytes) | AwaitBody (len : nat) (b : bytes).

Definition poll_body (len : nat) (b avail : bytes) : option bytes * progress * bytes :=
  let b' := b ++ take (len - length b) avail in
  let rest := drop (len - length b) avail in
  if (length b' <? len)%nat then (None, AwaitBody len b', rest) else (Some b', AwaitLen [], rest).

(** A poll of the future with these bytes on the connection. *)
Definition poll_recv (p : progress) (avail : bytes) : option bytes * progress * bytes :=
  match p with
  | AwaitLen b =>
      let b' := b ++ take (2 - length b) avail in
      let rest := drop (2 - length b) avail in
      if (length b' <? 2)%nat then (None, AwaitLen b', rest) else poll_body (Z.to_nat (from_be_bytes b')) [] rest
  | AwaitBody len b => poll_body len b avail
  end.

(** What a call waits for: bytes, the end of the connection, or the window of the stall
    guard around it, with what its tracker says then (a working flow that is still sending). *)
Inductive wait := Chunk (b : bytes) | Eof | Elapsed (stalled : bool).

(** [PacketSourceGuard::recv] around the source, with room for [room] bytes: at the end of a window
    the guard reports a stall, or drops the future and calls again. [None]: waiting. *)
Fixpoint recv_loop (room : nat) (p : progress) (avail : bytes) (ws : list wait) : option (result io_error bytes) * bytes * list wait :=
  match poll_recv p avail with
  | (Some datagram, _, rest) => (Some (Ok (take (Nat.min (length datagram) room) datagram)), rest, ws)
  | (None, p, rest) =>
      match ws with
      | [] => (None, rest, [])
      | Chunk b :: ws => recv_loop room p (rest ++ b) ws
      | Eof :: ws => (Some (Err UnexpectedEof), rest, ws)
      | Elapsed stalled :: ws => if stalled then (Some (Err TimedOut), rest, ws) else recv_loop room (AwaitLen []) rest ws
      end
  end.
Definition recv (room : nat) (avail : bytes) (ws : list wait) := recv_loop room (AwaitLen []) avail ws.

(** One call after another, with the room of each. *)
Fixpoint recv_all (rooms : list nat) (avail : bytes) (ws : list wait) : list bytes * option (result io_error bytes) :=
  match rooms with
  | [] => ([], None)
  | room :: rooms =>
      match recv room avail ws with
      | (Some (Ok d), avail, ws) => let '(ds, r) := recv_all rooms avail ws in (d :: ds, r)
      | (r, _, _) => ([], r)
      end
  end.

(** ** The openings *)

Definition UOT_MAGIC : bytes := lit "sp.v2.udp-over-tcp.arpa".
Definition UDP_ASSOCIATE_SENTINEL : bytes := lit "udp-associate.spark.invalid".
Definition udp_associate_sentinel : Address := Domain UDP_ASSOCIATE_SENTINEL 0.

(** [TunnelClient::dial], [TunnelClient::dial_udp_addr], [uot::associate] and AnyTLS's
    [associate]: the bytes written before the stream is handed over. *)
Definition dial_opening (target : Address) : bytes := encode target.
Definition dial_udp_opening (target : Address) : bytes := encode udp_associate_sentinel ++ encode target.
Definition uot_associate (target : Address) : bytes := [1] ++ encode target.
Definition anytls_associate (target : Address) : bytes := encode (Domain UOT_MAGIC 0) ++ uot_associate target.

(** ** The address codec is exact *)

Lemma length_encode_address a : address_ok a -> length (encode a) = encoded_len a.
Proof.
  destruct a as [[[o|o] p]|h p]; cbn [encode encoded_len]; intros Ha; rewrite ?length_app, ?length_to_be_bytes; cbn [length]; [..|lia].
  all: destruct Ha as [[_ Hl] _]; cbn [octets ip] in Hl; lia.
Qed.

Lemma first_chunk_app n b r : length b = n -> first_chunk n (b ++ r) = Ok b.
Proof. intros <-. unfold first_chunk. pose proof (slice_get_app [] b r) as E. cbn [app length Nat.add] in E. by rewrite E. Qed.

Lemma first_chunk_short n b : (length b < n)%nat -> first_chunk n b = Err Incomplete.
Proof. intros Hl. unfold first_chunk. pose proof (proj2 (slice_get_None b 0 n) Hl) as E. cbn [Nat.add] in E. by rewrite E. Qed.

Lemma fixed_fields t o p : fits 16 p -> take (length o) (drop 1 ([t] ++ o ++ to_be_bytes 2 p)) = o /\
  from_be_bytes (drop (1 + length o) ([t] ++ o ++ to_be_bytes 2 p)) = p.
Proof.
  intros Hp. split.
  - rewrite drop_app_length' by done. by rewrite take_app_length.
  - rewrite app_assoc, drop_app_length' by done. by apply from_to_be_bytes_small.
Qed.

Lemma domain_length (h : bytes) : (0 < length h <= MAX_DOMAIN_LEN)%nat -> wrap8 (Z.of_nat (length h)) = Z.of_nat (length h).
Proof. intros Hl. apply wrap_small. unfold fits, MAX_DOMAIN_LEN in *. lia. Qed.

(** The fields of a domain's encoding. *)
Lemma domain_fields h p r : fits 16 p -> let b := [DOMAIN] ++ [Z.of_nat (length h)] ++ h ++ to_be_bytes 2 p ++ r in
  take (length h) (drop 2 b) = h /\ from_be_bytes (take 2 (drop (2 + length h) b)) = p /\ length b = (4 + length h + length r)%nat.
Proof.
  intros Hp b. subst b. split_and!.
  - rewrite (app_assoc [DOMAIN]), drop_app_length' by done. by rewrite take_app_length.
  - rewrite (app_assoc [DOMAIN]), (app_assoc ([DOMAIN] ++ _)), drop_app_length' by by rewrite length_app.
    rewrite take_app_length' by by rewrite length_to_be_bytes. by apply from_to_be_bytes_small.
  - rewrite !length_app, length_to_be_bytes. cbn [length]. lia.
Qed.

Lemma parse_encode_address a r : address_ok a -> parse (encode a ++ r) = Ok (a, encoded_len a).
Proof.
  intros Hok. pose proof (length_encode_address a Hok) as Hlen. destruct a as [[[o|o] p]|h p]; unfold parse.
  - destruct Hok as [[Ho Hl] Hp]. cbn [octets ip port] in *. destruct (fixed_fields IPV4 o p Hp) as [E1 E2]. rewrite Hl in E1, E2. change (1 + 4)%nat with 5%nat in E2.
    change ((encode (Ip (mk_sock (V4 o) p)) ++ r) !! 0%nat) with (Some IPV4). cbn [ok_or]. rewrite Z.eqb_refl.
    rewrite first_chunk_app by exact Hlen. change (encode (Ip (mk_sock (V4 o) p))) with ([IPV4] ++ o ++ to_be_bytes 2 p). by rewrite E1, E2.
  - destruct Hok as [[Ho Hl] Hp]. cbn [octets ip port] in *. destruct (fixed_fields IPV6 o p Hp) as [E1 E2]. rewrite Hl in E1, E2. change (1 + 16)%nat with 17%nat in E2.
    change ((encode (Ip (mk_sock (V6 o) p)) ++ r) !! 0%nat) with (Some IPV6). cbn [ok_or]. change (IPV6 =? IPV4) with false. rewrite Z.eqb_refl.
    rewrite first_chunk_app by exact Hlen. change (encode (Ip (mk_sock (V6 o) p))) with ([IPV6] ++ o ++ to_be_bytes 2 p). by rewrite E1, E2.
  - destruct Hok as (Hh & Hu & Hl & Hp). cbn [encode]. rewrite domain_length by done. rewrite <- !app_assoc.
    destruct (domain_fields h p r Hp) as (E1 & E2 & E3). rewrite E3. cbn [app lookup list_lookup ok_or]. change (DOMAIN =? IPV4) with false. change (DOMAIN =? IPV6) with false. rewrite Z.eqb_refl.
    cbn [app] in E1, E2. rewrite Nat2Z.id, (proj2 (Nat.eqb_neq (length h) 0)) by lia. cbv zeta. rewrite (proj2 (Nat.ltb_ge _ _)) by lia.
    rewrite E1, Hu, E2. done.
Qed.

Lemma prefix_head {A} (x : A) b l : b `prefix_of` x :: l -> b = [] \/ exists b', b = x :: b' /\ b' `prefix_of` l.
Proof. intros Hp. destruct b as [|y b]; [by left|]. right. pose proof (prefix_cons_inv_1 _ _ _ _ Hp) as ->. exists b. split; [done|]. by eapply prefix_cons_inv_2. Qed.

(** A proper prefix of an encoding is incomplete. *)
Lemma parse_partial a b : address_ok a -> b `prefix_of` encode a -> b <> encode a -> parse b = Err Incomplete.
Proof.
  intros Hok Hp Hne. pose proof (length_encode_address a Hok) as Hlen. assert (length b < encoded_len a)%nat as Hl.
  { destruct Hp as [r E]. rewrite <- Hlen, E, length_app. destruct r; [by rewrite app_nil_r in E|cbn; lia]. }
  unfold parse. destruct a as [[[o|o] p]|h p]; cbn [encode encoded_len] in *; apply prefix_head in Hp as [->|(b' & -> & Hp)]; try done; cbn [lookup list_lookup ok_or].
  - change (IPV4 =? IPV4) with true. cbv iota. by rewrite first_chunk_short.
  - change (IPV6 =? IPV4) with false. change (IPV6 =? IPV6) with true. cbv iota. by rewrite first_chunk_short.
  - change (DOMAIN =? IPV4) with false. change (DOMAIN =? IPV6) with false. change (DOMAIN =? DOMAIN) with true. cbv iota.
    destruct Hok as (Hh & Hu & Hlh & Hpt). apply prefix_head in Hp as [->|(b & -> & Hp)]; [done|]. cbn [lookup list_lookup ok_or].
    rewrite domain_length, Nat2Z.id, (proj2 (Nat.eqb_neq (length h) 0)) by lia. cbv zeta. cbn [length] in Hl |- *. by rewrite (proj2 (Nat.ltb_lt _ _)) by lia.
Qed.

Lemma split_fixed t n src : bytes_ok src -> src !! 0%nat = Some t -> (1 + n + 2 <= length src)%nat ->
  let b := take (1 + n + 2) src in let o := take n (drop 1 b) in let p := from_be_bytes (drop (1 + n) b) in
  bytes_ok o /\ length o = n /\ fits 16 p /\ src = ([t] ++ o ++ to_be_bytes 2 p) ++ drop (1 + n + 2) src.
Proof.
  intros Hb Ht Hl b o p. assert (bytes_ok b) as Hbb by by apply Forall_take. assert (length b = 1 + n + 2)%nat as Hlb by (subst b; by rewrite length_take_le).
  assert (src = b ++ drop (1 + n + 2) src) as Es by (subst b; by rewrite take_drop). clearbody b.
  destruct b as [|x b]; [cbn in Hlb; lia|]. assert (x = t) as -> by (rewrite Es in Ht; by simplify_eq/=).
  change (drop 1 (t :: b)) with b in o. change (drop (1 + n) (t :: b)) with (drop n b) in p. cbn [length] in Hlb.
  assert (bytes_ok (drop n b)) as Hd by (apply Forall_drop; by inversion Hbb). assert (length (drop n b) = 2)%nat as Hld by (rewrite length_drop; lia).
  split_and!; [apply Forall_take; by inversion Hbb|apply length_take_le; lia|pose proof (from_be_bytes_bound _ Hd) as Hr; by rewrite Hld in Hr|].
  rewrite Es at 1. f_equal. subst o p. rewrite <- Hld at 1. by rewrite to_from_be_bytes, take_drop.
Qed.

Lemma split_domain src dlen : bytes_ok src -> src !! 0%nat = Some DOMAIN -> src !! 1%nat = Some dlen -> (4 + Z.to_nat dlen <= length src)%nat ->
  let h := take (Z.to_nat dlen) (drop 2 src) in let p := from_be_bytes (take 2 (drop (2 + Z.to_nat dlen) src)) in
  bytes_ok h /\ length h = Z.to_nat dlen /\ fits 8 dlen /\ fits 16 p /\ src = ([DOMAIN] ++ [dlen] ++ h ++ to_be_bytes 2 p) ++ drop (4 + Z.to_nat dlen) src.
Proof.
  intros Hb H0 H1 Hl h p. destruct src as [|x [|y src]]; try done. cbn in H0, H1. simplify_eq.
  change (drop 2 (DOMAIN :: dlen :: src)) with src in h. change (drop (2 + Z.to_nat dlen) (DOMAIN :: dlen :: src)) with (drop (Z.to_nat dlen) src) in p.
  change (drop (4 + Z.to_nat dlen) (DOMAIN :: dlen :: src)) with (drop (2 + Z.to_nat dlen) src). cbn [length] in Hl.
  apply Forall_cons_1 in Hb as [_ Hb]. apply Forall_cons_1 in Hb as [Hd Hb].
  assert (bytes_ok (take 2 (drop (Z.to_nat dlen) src))) as Hp by by apply Forall_take, Forall_drop.
  assert (length (take 2 (drop (Z.to_nat dlen) src)) = 2)%nat as Hlp by (rewrite length_take_le; [done|rewrite length_drop; lia]).
  split_and!; [by apply Forall_take|apply length_take_le; lia|done|pose proof (from_be_bytes_bound _ Hp) as Hr; by rewrite Hlp in Hr|].
  subst h p. rewrite <- Hlp at 1. rewrite to_from_be_bytes by done. cbn [app]. do 2 f_equal. rewrite <- app_assoc, (Nat.add_comm 2), <- drop_drop, !take_drop. done.
Qed.

(** An address that is read is well formed, and what was read is its encoding. *)
Lemma parse_sound src a n : bytes_ok src -> parse src = Ok (a, n) -> address_ok a /\ n = encoded_len a /\ src = encode a ++ drop n src.
Proof.
  intros Hb E. unfold parse in E. destruct (src !! 0%nat) as [t|] eqn:Et; [cbn [ok_or] in E|done].
  assert (forall k, (k <= length src)%nat -> first_chunk k src = Ok (take k src)) as Hfc.
  { intros k Hk. rewrite <- (take_drop k src) at 1. apply first_chunk_app. by rewrite length_take_le. }
  destruct (Z.eqb_spec t IPV4) as [->|]; [|destruct (Z.eqb_spec t IPV6) as [->|]; [|destruct (Z.eqb_spec t DOMAIN) as [->|]; [|done]]].
  - destruct (le_lt_dec 7 (length src)) as [Hk|Hk]; [rewrite Hfc in E by done|by rewrite first_chunk_short in E].
    destruct (split_fixed IPV4 4 src Hb Et Hk) as (Ho & Hlo & Hp & Es). injection E as <- <-. split; [|split; [done|exact Es]]. done.
  - destruct (le_lt_dec 19 (length src)) as [Hk|Hk]; [rewrite Hfc in E by done|by rewrite first_chunk_short in E].
    destruct (split_fixed IPV6 16 src Hb Et Hk) as (Ho & Hlo & Hp & Es). injection E as <- <-. split; [|split; [done|exact Es]]. done.
  - destruct (src !! 1%nat) as [dlen|] eqn:Ed; [cbn [ok_or] in E|done]. destruct (Nat.eqb_spec (Z.to_nat dlen) 0); [done|]. cbv zeta in E.
    destruct (Nat.ltb_spec (length src) (1 + 1 + Z.to_nat dlen + 2)); [done|]. destruct (utf8_valid (take (Z.to_nat dlen) (drop 2 src))) eqn:Eu; [|done]. cbn [negb] in E.
    destruct (split_domain src dlen Hb Et Ed) as (Hh & Hlh & Hd & Hp & Es); [lia|]. injection E as <- <-. unfold fits in Hd.
    split_and!; [split_and!; [done|done|unfold MAX_DOMAIN_LEN; lia|unfold MAX_DOMAIN_LEN; lia|done]|cbn [encoded_len]; lia|].
    cbn [encode]. rewrite Hlh, Z2Nat.id by lia. rewrite wrap_small by done. replace (S (S (Z.to_nat dlen + 2))) with (4 + Z.to_nat dlen)%nat by lia. exact Es.
Qed.

(** ** The relay finds the target *)

Lemma read_header_chunks target payload chunks buf :
  address_ok target -> Forall (fun c => c <> []) chunks -> buf ++ concat chunks = encode target ++ payload ->
  exists read rest, read_header_loop buf (Ok <$> chunks) = (Some (Ok (target, read)), Ok <$> rest) /\ read ++ concat rest = payload.
Proof.
  intros Hok. revert buf. induction chunks as [|c chunks IH]; intros buf Hne E.
  - cbn [concat] in E. rewrite app_nil_r in E. subst buf. exists payload, []. cbn [fmap list_fmap read_header_loop].
    rewrite parse_encode_address by done. rewrite <- (length_encode_address target Hok), drop_app_length. split; [done|apply app_nil_r].
  - destruct (decide (encode target `prefix_of` buf)) as [[r ->]|Hn].
    + exists r, (c :: chunks). cbn [fmap list_fmap read_header_loop]. rewrite parse_encode_address by done.
      rewrite <- (length_encode_address target Hok), drop_app_length. split; [done|]. rewrite <- app_assoc in E. by apply app_inv_head in E.
    + assert (buf `prefix_of` encode target) as Hp.
      { destruct (prefix_weak_total buf (encode target) (encode target ++ payload)) as [|]; [rewrite <- E; by eexists|by eexists|done|done]. }
      apply Forall_cons_1 in Hne as [Hc Hne]. destruct (IH (buf ++ c) Hne) as (read & rest & Er & Ep); [by rewrite <- app_assoc|].
      exists read, rest. split; [|done]. cbn [fmap list_fmap read_header_loop]. rewrite (parse_partial target) by first [done|intros ->; by apply Hn].
      by destruct c.
Qed.

Lemma read_header_sound reads buf a read rest :
  bytes_ok buf -> Forall (fun r => match r with Ok b => bytes_ok b | Err _ => True end) reads ->
  read_header_loop buf reads = (Some (Ok (a, read)), rest) ->
  address_ok a /\ exists chunks, reads = (Ok <$> chunks) ++ rest /\ buf ++ concat chunks = encode a ++ read.
Proof.
  revert buf. induction reads as [|r reads IH]; intros buf Hb Hr E; cbn [read_header_loop] in E; destruct (parse buf) as [[a' n]|[]] eqn:Ep; try done.
  - simplify_eq. destruct (parse_sound _ _ _ Hb Ep) as (Ha & _ & Es). split; [done|]. exists []. cbn. by rewrite app_nil_r.
  - simplify_eq. destruct (parse_sound _ _ _ Hb Ep) as (Ha & _ & Es). split; [done|]. exists []. cbn. by rewrite app_nil_r.
  - apply Forall_cons_1 in Hr as [Hr1 Hr]. destruct r as [[|x b]|]; try done.
    destruct (IH (buf ++ x :: b) ltac:(by apply Forall_app) Hr E) as (Ha & chunks & Er & Es). split; [done|].
    exists ((x :: b) :: chunks). split; [by rewrite Er|]. cbn [concat]. by rewrite app_assoc.
Qed.

(** a relay finds the target a client announced, and the payload after it, however the
    network cuts the opening; and whatever it reads, an address it accepts is well formed
    and is exactly what was at the head of the stream, with nothing of the payload lost. *)
Theorem header_correct target payload chunks : address_ok target -> Forall (fun c => c <> []) chunks ->
  concat chunks = dial_opening target ++ payload ->
  (exists read rest, read_header (Ok <$> chunks) = (Some (Ok (target, read)), Ok <$> rest) /\ read ++ concat rest = payload) /\
  (forall reads a read rest, Forall (fun r => match r with Ok b => bytes_ok b | Err _ => True end) reads ->
     read_header reads = (Some (Ok (a, read)), rest) ->
     address_ok a /\ exists chunks, reads = (Ok <$> chunks) ++ rest /\ concat chunks = dial_opening a ++ read).
Proof.
  intros Hok Hne E. split; [by apply read_header_chunks|]. intros reads a read rest Hr Er.
  destruct (read_header_sound reads [] a read rest ltac:(constructor) Hr Er) as (Ha & chs & E1 & E2). split; [done|]. by exists chs.
Qed.

Definition ex_target : Address := Domain (lit "example.com") 443.

Lemma header_correct_witness : exists read rest,
  read_header [Ok (take 5 (encode ex_target)); Ok (drop 5 (encode ex_target) ++ lit "GE"); Ok (lit "T /")] = (Some (Ok (ex_target, read)), Ok <$> rest) /\
  read ++ concat rest = lit "GET /".
Proof.
  destruct (header_correct ex_target (lit "GET /") [take 5 (encode ex_target); drop 5 (encode ex_target) ++ lit "GE"; lit "T /"]) as [H _].
  - split_and!; [decided|vm_compute; reflexivity|vm_compute; lia|vm_compute; lia|decided].
  - decided.
  - vm_compute. reflexivity.
  - exact H.
Defined.

(** ** Datagrams stay apart *)

Definition datagram_ok (d : bytes) : Prop := bytes_ok d /\ (length d <= Z.to_nat 65535)%nat.
Definition framed (d : bytes) : bytes := to_be_bytes 2 (Z.of_nat (length d)) ++ d.

Lemma sink_send_ok d : datagram_ok d -> sink_send d = Ok (framed d).
Proof. intros [_ Hl]. unfold sink_send, framed. rewrite (proj2 (Nat.ltb_ge _ _)) by done. rewrite wrap_small; [done|]. unfold fits. lia. Qed.

(** What the future of a call has read of a datagram, and what is left of it. *)
Definition read_so_far (p : progress) (d : bytes) (left : bytes) : Prop :=
  match p with
  | AwaitLen b => (length b < 2)%nat /\ framed d = b ++ left
  | AwaitBody len b => len = length d /\ (length b < len)%nat /\ d = b ++ left
  end.

Lemma len_of_framed d : datagram_ok d -> Z.to_nat (from_be_bytes (take 2 (framed d))) = length d.
Proof.
  intros [_ Hl]. unfold framed. rewrite take_app_length' by by rewrite length_to_be_bytes. rewrite from_to_be_bytes_small by lia. apply Nat2Z.id.
Qed.

Lemma poll_body_spec d b left avail r : d = b ++ left -> (length b <= length d)%nat -> avail = left ++ r \/ avail `prefix_of` left ->
  match poll_body (length d) b avail with
  | (Some x, _, rest) => x = d /\ avail = left ++ rest
  | (None, p, rest) => rest = [] /\ exists left', left = avail ++ left' /\ read_so_far p d left'
  end.
Proof.
  intros -> Hb Ha. unfold poll_body. cbv zeta. rewrite (length_app b left). replace (length b + length left - length b)%nat with (length left) by lia.
  destruct (le_lt_dec (length left) (length avail)) as [Hl|Hl].
  - assert (exists r', avail = left ++ r') as [r' ->].
    { destruct Ha as [->|[z Ez]]; [by exists r|]. exists []. rewrite app_nil_r. destruct z; [by rewrite app_nil_r in Ez|]. rewrite Ez, length_app in Hl. cbn in Hl. lia. }
    rewrite take_app_length, drop_app_length, (length_app b left). rewrite (proj2 (Nat.ltb_ge _ _)) by lia. done.
  - assert (exists z, left = avail ++ z) as [z ->].
    { destruct Ha as [->|[z ->]]; [rewrite length_app in Hl; lia|by exists z]. }
    rewrite take_ge, drop_ge by lia. rewrite length_app in Hl. rewrite (proj2 (Nat.ltb_lt _ _)) by (rewrite !length_app; lia).
    split; [done|]. exists z. split; [done|]. split_and!; [by rewrite !length_app|rewrite !length_app; lia|by rewrite app_assoc].
Qed.

Lemma prefix_or_more {A} (a x y : list A) : a `prefix_of` x ++ y -> x `prefix_of` a \/ a `prefix_of` x.
Proof. intros Hp. destruct (prefix_weak_total a x (x ++ y)) as [|]; [done|by eexists|by right|by left]. Qed.

Lemma prefix_split {A} (a z r : list A) : a `prefix_of` z ++ r -> a = z ++ drop (length z) a \/ a `prefix_of` z.
Proof. intros Hz. destruct (prefix_or_more _ _ _ Hz) as [[w ->]|]; [left; by rewrite drop_app_length|by right]. Qed.

(** What is left of the length, when a poll finds all of it. *)
Lemma framed_split d b left : framed d = b ++ left -> (length b < 2)%nat ->
  exists x, length x = (2 - length b)%nat /\ left = x ++ d /\ b ++ x = take 2 (framed d).
Proof.
  intros E Hb. exists (take (2 - length b) left). assert (take 2 (framed d) = b ++ take (2 - length b) left) as Et by (rewrite E, take_app_ge by lia; done).
  assert (length (take 2 (framed d)) = 2)%nat as H2 by (unfold framed; rewrite length_take, length_app, length_to_be_bytes; lia).
  split_and!; [rewrite Et, length_app in H2; lia| |done].
  apply (app_inv_head b). rewrite <- E, app_assoc, <- Et. unfold framed. by rewrite take_app_length' by by rewrite length_to_be_bytes.
Qed.

Lemma poll_recv_datagram p d left avail r : datagram_ok d -> read_so_far p d left -> avail `prefix_of` left ++ r ->
  match poll_recv p avail with
  | (Some x, _, rest) => x = d /\ avail = left ++ rest
  | (None, p, rest) => rest = [] /\ exists left', left = avail ++ left' /\ read_so_far p d left'
  end.
Proof.
  intros Hd Hp Ha. destruct p as [b|len b]; cbn [poll_recv read_so_far] in *.
  - destruct Hp as [Hb E]. destruct (le_lt_dec (2 - length b) (length avail)) as [Hl|Hl].
    + destruct (framed_split d b left E Hb) as (x & Hx & -> & Ex). rewrite <- app_assoc in Ha.
      assert (exists y, avail = x ++ y) as [y ->].
      { destruct (prefix_or_more _ _ _ Ha) as [[y ->]|[w Ew]]; [by exists y|]. exists []. destruct w; [by rewrite app_nil_r in *|]. rewrite Ew, length_app in Hx. cbn in Hx. lia. }
      rewrite take_app_length', drop_app_length' by done. rewrite Ex. rewrite (proj2 (Nat.ltb_ge _ _)) by (rewrite <- Ex, length_app; lia). rewrite len_of_framed by done.
      assert (y `prefix_of` d ++ r) as Hy by by apply prefix_app_inv in Ha.
      pose proof (poll_body_spec d [] d y (drop (length d) y) eq_refl ltac:(cbn; lia) (prefix_split _ _ _ Hy)) as Hs.
      destruct (poll_body (length d) [] y) as [[[z|] q] rest].
      * destruct Hs as [-> Hs]. split; [done|]. rewrite Hs at 1. by rewrite app_assoc.
      * destruct Hs as [-> (l' & E' & Hs)]. split; [done|]. exists l'. split; [|done]. rewrite E' at 1. by rewrite app_assoc.
    + rewrite take_ge, drop_ge by lia. rewrite (proj2 (Nat.ltb_lt _ _)) by (rewrite length_app; lia). split; [done|].
      assert (length left = 2 + length d - length b)%nat as Hll by (apply (f_equal length) in E; unfold framed in E; rewrite !length_app, length_to_be_bytes in E; lia).
      destruct (prefix_or_more _ _ _ Ha) as [[w Ew]|[w ->]]; [rewrite Ew, length_app in Hl; lia|]. exists w. split; [done|]. cbn [read_so_far]. rewrite length_app. split; [lia|]. by rewrite E, app_assoc.
  - destruct Hp as (-> & Hb & E). apply (poll_body_spec d b left avail (drop (length left) avail)); [done|lia|]. by eapply prefix_split.
Qed.

Lemma recv_loop_spec room p d left avail chunks tail r : datagram_ok d -> read_so_far p d left -> avail ++ concat chunks = left ++ r ->
  exists rest chunks', recv_loop room p avail ((Chunk <$> chunks) ++ tail) = (Some (Ok (take (Nat.min (length d) room) d)), rest, (Chunk <$> chunks') ++ tail) /\
    rest ++ concat chunks' = r.
Proof.
  intros Hd. revert p left avail. induction chunks as [|c chunks IH]; intros p left avail Hp E.
  all: assert (avail `prefix_of` left ++ r) as Ha by (rewrite <- E; by eexists).
  all: pose proof (poll_recv_datagram p d left avail r Hd Hp Ha) as Hs.
  - destruct (poll_recv p avail) as [[[x|] p'] rest] eqn:Epoll.
    + destruct Hs as [-> Hs]. exists rest, []. cbn [concat] in E. rewrite app_nil_r in E |- *. split.
      * destruct tail; cbn [fmap list_fmap app recv_loop]; by rewrite Epoll.
      * rewrite Hs in E. by apply app_inv_head in E.
    + destruct Hs as [-> (l' & E' & Hs)]. exfalso. cbn [concat] in E. rewrite app_nil_r in E. rewrite E' in E. rewrite <- !app_assoc in E.
      rewrite <- (app_nil_r avail) in E at 1. apply app_inv_head in E. symmetry in E. apply app_eq_nil in E as [-> _].
      destruct p' as [b|len b]; cbn [read_so_far] in Hs; rewrite app_nil_r in Hs.
      * destruct Hs as [Hb Hs]. apply (f_equal length) in Hs. unfold framed in Hs. rewrite length_app, length_to_be_bytes in Hs. lia.
      * destruct Hs as (-> & Hb & ->). lia.
  - cbn [fmap list_fmap app recv_loop]. destruct (poll_recv p avail) as [[[x|] p'] rest] eqn:Epoll.
    + destruct Hs as [-> Hs]. exists rest, (c :: chunks). split; [done|]. rewrite Hs, <- app_assoc in E. by apply app_inv_head in E.
    + destruct Hs as [-> (l' & E' & Hs)]. cbn [concat] in E. apply (IH p' l' c Hs). rewrite E', <- app_assoc in E. by apply app_inv_head in E.
Qed.

Lemma framed_start d : read_so_far (AwaitLen []) d (framed d).
Proof. split; [cbn; lia|done]. Qed.

(** C32: datagrams over a stream arrive as they were sent. However the network cuts the
    bytes the sink wrote, as long as no window of the stall guard ends within a call, calls of the source give
    the datagrams one by one, each cut to the room of the call, and a short room never misaligns the ones after it; the end of
    the stream is then an error. *)
Theorem datagrams_correct ds bs chunks rooms room : Forall datagram_ok ds -> Forall2 (fun d b => sink_send d = Ok b) ds bs ->
  concat chunks = concat bs -> length rooms = length ds ->
  recv_all (rooms ++ [room]) [] ((Chunk <$> chunks) ++ [Eof]) =
    (zip_with (fun d room => take (Nat.min (length d) room) d) ds rooms, Some (Err UnexpectedEof)).
Proof.
  intros Hds Hbs Ec Hr. assert (concat bs = concat (framed <$> ds)) as Eb.
  { clear Ec Hr. induction Hbs as [|d b ds bs Hb _ IH]; [done|]. apply Forall_cons_1 in Hds as [Hd Hds]. cbn [fmap list_fmap concat].
    rewrite sink_send_ok in Hb by done. simplify_eq. by rewrite IH. }
  rewrite Eb in Ec. clear bs Hbs Eb. revert rooms Hr. assert ([] ++ concat chunks = concat (framed <$> ds)) as E by done. clear Ec. revert E. generalize (@nil Z) as avail.
  revert chunks. induction Hds as [|d ds Hd _ IH]; intros chunks avail E rooms Hr; destruct rooms as [|n rooms]; try done.
  - cbn [fmap list_fmap concat] in E. apply app_eq_nil in E as [-> E]. cbn [app recv_all].
    assert (recv room [] ((Chunk <$> chunks) ++ [Eof]) = (Some (Err UnexpectedEof), [], [])) as ->; [|done].
    unfold recv. induction chunks as [|c chunks IHc]; [done|]. cbn [concat] in E. apply app_eq_nil in E as [-> E]. cbn [fmap list_fmap app recv_loop poll_recv length take drop Nat.ltb Nat.leb Nat.sub]. by apply IHc.
  - cbn [fmap list_fmap concat] in E. destruct (recv_loop_spec n _ d _ avail chunks [Eof] _ Hd (framed_start d) E) as (rest & chunks' & Er & Erest).
    cbn [app recv_all]. unfold recv. rewrite Er. rewrite (IH chunks' rest Erest rooms) by (cbn in Hr; lia). done.
Qed.

Lemma datagrams_correct_witness :
  recv_all [2%nat; 9%nat; 9%nat] [] [Chunk [0]; Chunk [3; 1; 2]; Chunk [3; 0; 1; 7]; Eof] = ([[1; 2]; [7]], Some (Err UnexpectedEof)).
Proof.
  apply (datagrams_correct [[1; 2; 3]; [7]] [[0; 3; 1; 2; 3]; [0; 1; 7]] [[0]; [3; 1; 2]; [3; 0; 1; 7]] [2%nat; 9%nat] 9%nat).
  - constructor; [|constructor; [|constructor]]; (split; [decided|cbn [length]; lia]).
  - constructor; [|constructor; [|constructor]]; vm_compute; reflexivity.
  - reflexivity.
  - reflexivity.
Defined.

(** The stall guard's window ends a call in the middle of a datagram: the bytes the call
    had read are lost, and the rest of the datagram is taken for the next length. *)
Theorem window_misaligns : recv 100 [] [Chunk [0; 3; 1]; Elapsed false; Chunk [0; 2; 0; 1; 7]] = (Some (Ok [0; 1]), [7], []).
Proof. reflexivity. Qed.

End tcp_tunnel.
