(* ===== verification/Shadowsocks.v ===== *)
(** [core/src/transport/shadowsocks/{mod,crypto,tcp}.rs]: Shadowsocks 2022 over TCP: the key,
    the nonces, the request, the response head and the stream of sealed chunks. *)

From S2P Require Import Prelude Lists RustStr NetAddr TunnelCrypto TcpTunnel Stall.

Module shadowsocks.
Import net tcp_tunnel stall.

(** ** Methods and primitives *)

Inductive SsMethod := Aes128Gcm | Aes256Gcm | Chacha20Poly1305.
#[export] Instance SsMethod_eq_dec : EqDecision SsMethod.
Proof. solve_decision. Defined.

Definition key_len (m : SsMethod) : nat := match m with Aes128Gcm => 16 | Aes256Gcm | Chacha20Poly1305 => 32 end.
Definition salt_len (m : SsMethod) : nat := key_len m.

Definition TAG : nat := 16.

Inductive CryptoError := BadBase64 | KeyLength (m : SsMethod) (got want : nat) | Auth | AesKeyLength (got : nat) | Rng | Seal.

(** The primitives of the [blake3], [ring], [aes] and [chacha20] crates. *)
Class SsPrims := {
  derive_key : bytes -> bytes -> bytes;
  aead_seal : SsMethod -> bytes -> bytes -> bytes -> bytes;
  aead_open : SsMethod -> bytes -> bytes -> bytes -> option bytes;
  aes_encrypt : bytes -> bytes -> bytes;
  aes_decrypt : bytes -> bytes -> bytes;
  hchacha20 : bytes -> bytes -> bytes;
}.

(** What is documented of them: a derived key has 32 bytes; sealing adds a tag, opening
    undoes sealing and accepts nothing else, and blocks are permuted. *)
Class SsLaws (P : SsPrims) := {
  derive_key_length : forall c b, length (derive_key c b) = 32%nat;
  seal_length : forall m k n p, length (aead_seal m k n p) = (length p + TAG)%nat;
  seal_bytes : forall m k n p, bytes_ok p -> bytes_ok (aead_seal m k n p);
  open_seal : forall m k n p, bytes_ok p -> aead_open m k n (aead_seal m k n p) = Some p;
  open_sound : forall m k n c p, aead_open m k n c = Some p -> c = aead_seal m k n p;
  aes_length : forall k b, length (aes_encrypt k b) = length b;
  aes_inverse : forall k b, bytes_ok b -> length b = 16%nat -> aes_decrypt k (aes_encrypt k b) = b;
  aes_bytes : forall k b, bytes_ok b -> bytes_ok (aes_encrypt k b);
  hchacha_length : forall k n, length (hchacha20 k n) = 32%nat;
}.

(** ** The key *)

(** The loop over the groups of four: padding only in the last. *)
Fixpoint decode_groups (pad_seen : bool) (cs : list bytes) : option bytes :=
  match cs with
  | [] => Some []
  | c :: cs =>
      if pad_seen then None else
      let! o := crypto.decode_chunk c in
      let! r := decode_groups (0 <? crypto.leading_pads (reverse c))%nat cs in
      Some (o ++ r)
  end.

Definition base64_decode (s : bytes) : option bytes :=
  let s := trim s in
  if (length s =? 0)%nat || negb (length s mod 4 =? 0)%nat then None else decode_groups false (chunks 4 s).

Definition decode_psk (m : SsMethod) (password : bytes) : result CryptoError bytes :=
  let? psk := ok_or (base64_decode password) BadBase64 in
  let want := key_len m in
  if (length psk =? want)%nat then Ok psk else Err (KeyLength m (length psk) want).

(** ** Nonces *)

(** [NonceCounter::next]: the nonce, and the counter after it, its least byte first. *)
Fixpoint increment (c : bytes) : bytes :=
  match c with
  | [] => []
  | b :: c => let b := wrap8 (b + 1) in if b =? 0 then b :: increment c else b :: c
  end.
Definition NonceCounter_new : bytes := replicate 12 0.
Definition next (c : bytes) : bytes * bytes := (c, increment c).

(** ** Addresses *)

Definition write_socks_addr (sa : SocketAddr) : bytes :=
  match ip sa with V4 o => [0x01] ++ o | V6 o => [0x04] ++ o end ++ to_be_bytes 2 (port sa).

Definition write_socks_target (a : Address) : bytes :=
  match a with
  | Ip sa => write_socks_addr sa
  | Domain host p => [0x03] ++ [wrap8 (Z.of_nat (length host))] ++ host ++ to_be_bytes 2 p
  end.

Definition read_socks_addr (buf : bytes) : option (SocketAddr * nat) :=
  let! atyp := head buf in
  if atyp =? 0x01 then
    let! o := slice_get buf 1 5 in let! p := slice_get buf 5 7 in Some (mk_sock (V4 o) (from_be_bytes p), 7%nat)
  else if atyp =? 0x04 then
    let! o := slice_get buf 1 17 in let! p := slice_get buf 17 19 in Some (mk_sock (V6 o) (from_be_bytes p), 19%nat)
  else None.

Section tcp.
Context {P : SsPrims}.

Definition CONTEXT : bytes := lit "shadowsocks 2022 session subkey".
Definition session_subkey (m : SsMethod) (psk salt : bytes) : bytes := take (key_len m) (derive_key CONTEXT (psk ++ salt)).

(** [Cipher]: the method and the key, of its length. *)
Definition Cipher : Type := SsMethod * bytes.
Definition Cipher_new (m : SsMethod) (key : bytes) : result CryptoError Cipher :=
  if (length key =? key_len m)%nat then Ok (m, key) else Err (KeyLength m (length key) (key_len m)).
Definition seal (c : Cipher) (nonce buf : bytes) : result CryptoError bytes := Ok (aead_seal c.1 c.2 nonce buf).
Definition open (c : Cipher) (nonce buf : bytes) : result CryptoError bytes := ok_or (aead_open c.1 c.2 nonce buf) Auth.

(** ** The request *)

Definition HEADER_TYPE_CLIENT : Z := 0.
Definition HEADER_TYPE_SERVER : Z := 1.
Definition MAX_SKEW_SECS : Z := 30.

Record Request := mk_request { r_bytes : bytes; r_salt : bytes; r_cipher : Cipher; r_counter : bytes }.

(** [None] among the draws is a failing generator; [now] is the clock. *)
Definition encode_request (m : SsMethod) (psk : bytes) (target : Address) (now : Z) (draw : nat -> nat -> option bytes) : result CryptoError Request :=
  let? salt := ok_or (draw 0%nat (salt_len m)) Rng in
  let subkey := session_subkey m psk salt in
  let? cipher := Cipher_new m subkey in
  let? pad_byte := ok_or (draw 1%nat 1%nat) Rng in
  let pad_len := (pad_byte !!! 0%nat) mod 64 + 1 in
  let? padding := ok_or (draw 2%nat (Z.to_nat pad_len)) Rng in
  let var := write_socks_target target ++ to_be_bytes 2 pad_len ++ padding in
  let fixed := [HEADER_TYPE_CLIENT] ++ to_be_bytes 8 now ++ to_be_bytes 2 (wrap16 (Z.of_nat (length var))) in
  let '(n0, ctr) := next NonceCounter_new in
  let? fixed := seal cipher n0 fixed in
  let '(n1, ctr) := next ctr in
  let? var := seal cipher n1 var in
  Ok (mk_request (salt ++ fixed ++ var) salt cipher ctr).

(** ** The response head *)

Record ResponseHead := mk_head { h_cipher : Cipher; h_counter : bytes; first_chunk_len : nat }.

Definition response_head_len (m : SsMethod) : nat := salt_len m + (1 + 8 + salt_len m + 2) + 16.

Definition decode_response_head (m : SsMethod) (psk request_salt wire : bytes) (now : Z) : result CryptoError ResponseHead :=
  let sl := salt_len m in
  if (length wire <? response_head_len m)%nat then Err Auth else
  let subkey := session_subkey m psk (take sl wire) in
  let? cipher := Cipher_new m subkey in
  let '(n0, ctr) := next NonceCounter_new in
  let? fixed := open cipher n0 (take ((1 + 8 + sl + 2) + 16) (drop sl wire)) in
  if negb (fixed !!! 0%nat =? HEADER_TYPE_SERVER) then Err Auth else
  let ts := from_be_bytes (take 8 (drop 1 fixed)) in
  if MAX_SKEW_SECS <? Z.abs (now - ts) then Err Auth else
  if negb (bool_decide (take sl (drop 9 fixed) = request_salt)) then Err Auth else
  Ok (mk_head cipher ctr (Z.to_nat (from_be_bytes (take 2 (drop (9 + sl) fixed))))).

End tcp.

(** ** The stream *)

Definition MAX_PAYLOAD : nat := Z.to_nat 0xFFFF.

Inductive stream_error := InvalidData | UnexpectedEof | HeadMissing | WriteZero | Inner.
Inductive RxState := NeedHead | NeedLen | NeedPayload (plain : nat).

Record ShadowsocksStream := mk_stream {
  method : SsMethod;
  psk : bytes;
  tx : Cipher;
  tx_ctr : bytes;
  tx_pending : bytes;
  rx : option ResponseHead;
  rx_state : RxState;
  rx_raw : bytes;
  rx_plain : bytes;
  request_salt : bytes;
}.
#[export] Instance eta_Stream : Settable ShadowsocksStream :=
  fun s => mk_stream (method s) (psk s) (tx s) (tx_ctr s) (tx_pending s) (rx s) (rx_state s) (rx_raw s) (rx_plain s) (request_salt s).

Definition ShadowsocksStream_new (m : SsMethod) (psk : bytes) (req : Request) : ShadowsocksStream :=
  mk_stream m psk (r_cipher req) (r_counter req) (r_bytes req) None NeedHead [] [] (r_salt req).

Section stream.
Context {P : SsPrims}.

(** What the connection gives to the reads of a poll; when it is used up the poll is
    pending. *)
Inductive rd := RData (b : bytes) | REof | RErr.

Fixpoint fill_raw (want : nat) (raw : bytes) (inner : list rd) : Poll (result stream_error bool) * bytes * list rd :=
  if (want <=? length raw)%nat then (Ready (Ok true), raw, inner) else
  match inner with
  | [] => (Pending, raw, [])
  | RErr :: inner => (Ready (Err Inner), raw, inner)
  | REof :: inner | RData [] :: inner => (Ready (Ok false), raw, inner)
  | RData b :: inner => fill_raw want (raw ++ b) inner
  end.

(** The piece of the wire that the state waits for. *)
Definition wanted (s : ShadowsocksStream) : nat :=
  match rx_state s with NeedHead => response_head_len (method s) | NeedLen => 2 + TAG | NeedPayload plain => plain + TAG end.

(** What the loop of [poll_read] does with the piece: the state, and whether it failed. *)
Definition open_piece (now : Z) (piece : bytes) (s : ShadowsocksStream) : option stream_error * ShadowsocksStream :=
  match rx_state s with
  | NeedHead =>
      match decode_response_head (method s) (psk s) (request_salt s) piece now with
      | Err _ => (Some InvalidData, s)
      | Ok h => (None, s <| rx := Some h |> <| rx_state := NeedPayload (first_chunk_len h) |>)
      end
  | NeedLen | NeedPayload _ =>
      match rx s with
      | None => (Some HeadMissing, s)
      | Some h =>
          let '(nonce, ctr) := next (h_counter h) in
          let s := s <| rx := Some (mk_head (h_cipher h) ctr (first_chunk_len h)) |> in
          match open (h_cipher h) nonce piece with
          | Err _ => (Some InvalidData, s)
          | Ok plain =>
              (None, match rx_state s with
                     | NeedLen => s <| rx_state := NeedPayload (Z.to_nat (from_be_bytes (take 2 plain))) |>
                     | _ => s <| rx_plain := rx_plain s ++ plain |> <| rx_state := NeedLen |>
                     end)
          end
      end
  end.

(** One turn of the loop: an answer, or another turn. *)
Definition read_turn (now : Z) (n : nat) (s : ShadowsocksStream) (inner : list rd)
    : option (Poll (result stream_error bytes)) * ShadowsocksStream * list rd :=
  if decide (rx_plain s <> []) then
    let k := Nat.min (length (rx_plain s)) n in
    (Some (Ready (Ok (take k (rx_plain s)))), s <| rx_plain := drop k (rx_plain s) |>, inner)
  else
  match fill_raw (wanted s) (rx_raw s) inner with
  | (Pending, raw, inner) => (Some Pending, s <| rx_raw := raw |>, inner)
  | (Ready (Err e), raw, inner) => (Some (Ready (Err e)), s <| rx_raw := raw |>, inner)
  | (Ready (Ok false), raw, inner) =>
      (Some (Ready match rx_state s with NeedPayload _ => Err UnexpectedEof | _ => Ok [] end), s <| rx_raw := raw |>, inner)
  | (Ready (Ok true), raw, inner) =>
      match open_piece now (take (wanted s) raw) (s <| rx_raw := drop (wanted s) raw |>) with
      | (Some e, s) => (Some (Ready (Err e)), s, inner)
      | (None, s) => (None, s, inner)
      end
  end.

Fixpoint read_loop (fuel : nat) (now : Z) (n : nat) (s : ShadowsocksStream) (inner : list rd)
    : option (Poll (result stream_error bytes) * ShadowsocksStream * list rd) :=
  match fuel with
  | O => None
  | S fuel =>
      match read_turn now n s inner with
      | (Some r, s, inner) => Some (r, s, inner)
      | (None, s, inner) => read_loop fuel now n s inner
      end
  end.

Definition bytes_of (inner : list rd) : bytes := concat (omap (fun r => match r with RData b => Some b | _ => None end) inner).

(** Every turn that is not the last uses up a tag's worth of bytes, but for one that
    leaves plaintext. *)
Definition poll_read (now : Z) (n : nat) (s : ShadowsocksStream) (inner : list rd) :=
  read_loop (2 + length (rx_raw s) + length (bytes_of inner)) now n s inner.

(** What the connection takes of a write; when it is used up it would block. *)
Inductive wr := Took (n : nat) | WErr.

Fixpoint flush_pending (pending : bytes) (inner : list wr) : Poll (result stream_error unit) * bytes * bytes * list wr :=
  if decide (pending = []) then (Ready (Ok tt), [], [], inner) else
  match inner with
  | [] => (Pending, [], pending, [])
  | WErr :: inner => (Ready (Err Inner), [], pending, inner)
  | Took 0 :: inner => (Ready (Err WriteZero), [], pending, inner)
  | Took n :: inner =>
      let '(r, out, pending', inner) := flush_pending (drop n pending) inner in
      (r, take n pending ++ out, pending', inner)
  end.

(** [poll_write]: its answer, what it put on the connection, and the stream. *)
Definition poll_write (data : bytes) (s : ShadowsocksStream) (inner : list wr) : Poll (result stream_error nat) * bytes * ShadowsocksStream :=
  match flush_pending (tx_pending s) inner with
  | (Pending, out, pending, _) => (Pending, out, s <| tx_pending := pending |>)
  | (Ready (Err e), out, pending, _) => (Ready (Err e), out, s <| tx_pending := pending |>)
  | (Ready (Ok _), out, pending, inner) =>
      let s := s <| tx_pending := pending |> in
      if decide (data = []) then (Ready (Ok 0%nat), out, s) else
      let take_ := Nat.min (length data) MAX_PAYLOAD in
      let '(n0, ctr) := next (tx_ctr s) in
      let len_chunk := aead_seal (tx s).1 (tx s).2 n0 (to_be_bytes 2 (wrap16 (Z.of_nat take_))) in
      let '(n1, ctr) := next ctr in
      let payload := aead_seal (tx s).1 (tx s).2 n1 (take take_ data) in
      let s := s <| tx_ctr := ctr |> in
      let '(r, out', pending, _) := flush_pending (tx_pending s ++ len_chunk ++ payload) inner in
      (match r with Ready (Err e) => Ready (Err e) | _ => Ready (Ok take_) end, out ++ out', s <| tx_pending := pending |>)
  end.

(** [poll_flush] and [poll_shutdown], up to the call on the connection. *)
Definition poll_flush (s : ShadowsocksStream) (inner : list wr) : Poll (result stream_error unit) * bytes * ShadowsocksStream :=
  let '(r, out, pending, _) := flush_pending (tx_pending s) inner in (r, out, s <| tx_pending := pending |>).

End stream.

(** ** The two base64 decoders of the repository *)

Lemma decode_groups_sound pad cs d : decode_groups pad cs = Some d -> crypto.decode_chunks cs = Some d.
Proof.
  revert pad d. induction cs as [|c cs IH]; intros pad d; cbn [decode_groups crypto.decode_chunks]; [done|]. destruct pad; [done|].
  destruct (crypto.decode_chunk c) as [o|]; cbn; [|done]. destruct (decode_groups _ cs) as [r|] eqn:E; cbn; [|done].
  by rewrite (IH _ _ E).
Qed.

(** What this decoder takes, the tunnel's takes too, as the same bytes; but the tunnel's also
    takes padding inside. *)
Theorem base64_stricter : (forall s d, base64_decode s = Some d -> crypto.base64_decode s = Some d) /\
  base64_decode (lit "TQ==TWFu") = None /\ crypto.base64_decode (lit "TQ==TWFu") = Some (lit "MMan").
Proof.
  split_and!; [|vm_compute; reflexivity..]. intros s d. unfold base64_decode, crypto.base64_decode. destruct (_ || _); [done|apply decode_groups_sound].
Qed.

End shadowsocks.
