(* ===== verification/ShadowsocksTcp.v ===== *)
(** The stream of [Shadowsocks] is transparent: what one end writes is what the other end
    reads, whatever the connection does to the pieces, and no nonce is used twice. *)

From S2P Require Import Prelude Lists RustStr NetAddr TcpTunnel Stall Shadowsocks.

Module shadowsocks_tcp.
Import net tcp_tunnel stall shadowsocks.

(** ** Nonces *)

(** The value of a counter, its least byte first. *)
Definition le (c : bytes) : Z := foldr (fun b acc => b + 256 * acc) 0 c.
Definition nonce (k : nat) : bytes := Nat.iter k increment NonceCounter_new.

Lemma le_bound c : bytes_ok c -> 0 <= le c < 256 ^ Z.of_nat (length c).
Proof.
  induction 1 as [|b c Hb _ IH]; [cbn; lia|]. cbn [le foldr length]. fold (le c). unfold fits in Hb.
  rewrite Nat2Z.inj_succ, Z.pow_succ_r by lia. nia.
Qed.

Lemma increment_spec c : bytes_ok c -> bytes_ok (increment c) /\ length (increment c) = length c /\ le (increment c) = (le c + 1) mod 256 ^ Z.of_nat (length c).
Proof.
  induction 1 as [|b c Hb Hc (IH1 & IH2 & IH3)]; [by rewrite Z.mod_1_r|]. cbn [increment]. unfold fits in Hb. pose proof (le_bound c Hc) as Hl.
  cbn [le foldr length]. fold (le c). rewrite Nat2Z.inj_succ, Z.pow_succ_r by lia. destruct (decide (b = 255)) as [->|Hne].
  - change (wrap8 (255 + 1)) with 0. cbn [Z.eqb]. split_and!; [constructor; [unfold fits; lia|done]|cbn; by rewrite IH2|].
    cbn [le foldr]. fold (le (increment c)). rewrite IH3. replace (255 + 256 * le c + 1) with (256 * (le c + 1)) by lia. rewrite Z.mul_mod_distr_l by lia. lia.
  - unfold wrap. rewrite Z.mod_small by lia. destruct (Z.eqb_spec (b + 1) 0); [lia|]. split_and!; [constructor; [unfold fits; lia|done]|done|].
    cbn [le foldr]. fold (le c). rewrite Z.mod_small by nia. lia.
Qed.

Lemma nonce_spec k : bytes_ok (nonce k) /\ length (nonce k) = 12%nat /\ le (nonce k) = Z.of_nat k mod 2 ^ 96.
Proof.
  induction k as [|k (IH1 & IH2 & IH3)]; [split_and!; [repeat constructor; unfold fits; lia|done|done]|].
  change (nonce (S k)) with (increment (nonce k)). destruct (increment_spec (nonce k) IH1) as (E1 & E2 & E3). split_and!; [done|by rewrite E2|].
  rewrite E3, IH2, IH3. change (256 ^ Z.of_nat 12) with (2 ^ 96). rewrite Z.add_mod_idemp_l by lia. f_equal. lia.
Qed.

Lemma nonce_inj i j : Z.of_nat i < 2 ^ 96 -> Z.of_nat j < 2 ^ 96 -> nonce i = nonce j -> i = j.
Proof.
  intros Hi Hj E. destruct (nonce_spec i) as (_ & _ & Ei). destruct (nonce_spec j) as (_ & _ & Ej). rewrite E in Ei. rewrite Ei in Ej.
  rewrite !Z.mod_small in Ej by lia. lia.
Qed.

Section stream.
Context {P : SsPrims} `{!SsLaws P}.

(** ** The wire *)

Definition chunk_ok (p : bytes) : Prop := bytes_ok p /\ (length p <= MAX_PAYLOAD)%nat.

(** Chunks sealed from the [i]-th nonce on: each its length, then itself. *)
Fixpoint chunk_wire (c : Cipher) (i : nat) (ps : list bytes) : bytes :=
  match ps with
  | [] => []
  | p :: ps => aead_seal c.1 c.2 (nonce i) (to_be_bytes 2 (Z.of_nat (length p))) ++ aead_seal c.1 c.2 (nonce (S i)) p ++ chunk_wire c (S (S i)) ps
  end.

Lemma chunk_wire_app c i ps qs : chunk_wire c i (ps ++ qs) = chunk_wire c i ps ++ chunk_wire c (i + 2 * length ps) qs.
Proof.
  revert i. induction ps as [|q ps IH]; intros i; cbn [chunk_wire app length]; [by rewrite Nat.mul_0_r, Nat.add_0_r|].
  rewrite IH, <- !app_assoc. replace (S (S i) + 2 * length ps)%nat with (i + 2 * S (length ps))%nat by lia. done.
Qed.

(** ** Writing *)

Lemma flush_pending_spec pending inner : let '(r, out, pending', _) := flush_pending pending inner in
  out ++ pending' = pending /\ (r = Ready (Ok tt) -> pending' = []).
Proof.
  revert pending. induction inner as [|w inner IH]; intros pending; cbn [flush_pending]; case_decide as Hp; try (by subst).
  destruct w as [[|n]|]; try done. specialize (IH (drop (S n) pending)). destruct (flush_pending (drop (S n) pending) inner) as [[[r out] pending'] inner'].
  destruct IH as [IH1 IH2]. split; [|done]. by rewrite <- app_assoc, IH1, take_drop.
Qed.

(** Calls of [poll_write] and [poll_flush], until one fails: what went on the connection,
    what the user was told is written, the stream, and whether a call failed. *)
Inductive call := CWrite (data : bytes) (inner : list wr) | CFlush (inner : list wr).

Fixpoint send_all (calls : list call) (s : ShadowsocksStream) : bytes * bytes * ShadowsocksStream * bool :=
  match calls with
  | [] => ([], [], s, true)
  | CFlush inner :: calls =>
      match poll_flush s inner with
      | (Ready (Err _), out, s) => (out, [], s, false)
      | (_, out, s) => let '(out', told, s, ok) := send_all calls s in (out ++ out', told, s, ok)
      end
  | CWrite data inner :: calls =>
      match poll_write data s inner with
      | (Ready (Err _), out, s) => (out, [], s, false)
      | (Ready (Ok k), out, s) => let '(out', told, s, ok) := send_all calls s in (out ++ out', take k data ++ told, s, ok)
      | (Pending, out, s) => let '(out', told, s, ok) := send_all calls s in (out ++ out', told, s, ok)
      end
  end.

Definition call_ok (c : call) : Prop := match c with CWrite data _ => bytes_ok data | CFlush _ => True end.

(** The stream has [ps] sealed behind what it has to send. *)
Definition sealed (s : ShadowsocksStream) (k : nat) : Prop := tx_ctr s = nonce k.

Lemma poll_write_spec data s inner k : bytes_ok data -> sealed s k ->
  let '(r, out, s') := poll_write data s inner in
  tx s' = tx s /\ exists ps, Forall chunk_ok ps /\ sealed s' (k + 2 * length ps) /\ out ++ tx_pending s' = tx_pending s ++ chunk_wire (tx s) k ps /\
    match r with
    | Ready (Ok n) => concat ps = take n data /\ Forall (fun p => p <> []) ps
    | Pending => ps = []
    | Ready (Err _) => True
    end.
Proof.
  intros Hd Hk. unfold poll_write. pose proof (flush_pending_spec (tx_pending s) inner) as Hf.
  destruct (flush_pending (tx_pending s) inner) as [[[r out] pending] inner']. destruct Hf as [Hf1 Hf2].
  destruct r as [|[[]|e]]; [..|split; [done|]; exists []; split_and!; [constructor|by rewrite Nat.add_0_r|cbn; by rewrite app_nil_r|done]].
  { split; [done|]. exists []. split_and!; [constructor|by rewrite Nat.add_0_r|cbn; by rewrite app_nil_r|done]. }
  case_decide as Hn.
  { split; [done|]. exists []. subst data. split_and!; [constructor|by rewrite Nat.add_0_r|cbn; by rewrite app_nil_r|done|constructor]. }
  set (n := Nat.min (length data) MAX_PAYLOAD). specialize (Hf2 eq_refl). subst pending. rewrite app_nil_r in Hf1. subst out.
  unfold next. cbv zeta iota beta. change (tx_ctr (s <| tx_pending := [] |>)) with (tx_ctr s). change (tx (s <| tx_pending := [] |>)) with (tx s). rewrite Hk.
  assert (length (take n data) = n) as Hln by (apply length_take_le; subst n; lia).
  assert (wrap16 (Z.of_nat n) = Z.of_nat (length (take n data))) as Ew by (rewrite Hln; apply wrap_small; subst n; unfold fits, MAX_PAYLOAD; lia).
  match goal with |- context [flush_pending ?p inner'] => pose proof (flush_pending_spec p inner') as Hg; destruct (flush_pending p inner') as [[[r out'] pending'] w] end.
  destruct Hg as [Hg _]. cbn [tx_pending app] in Hg. cbv zeta in Hg. split; [done|]. exists [take n data]. split_and!.
  - constructor; [|constructor]. split; [by apply Forall_take|]. rewrite Hln. subst n. lia.
  - replace (k + 2 * length [take n data])%nat with (S (S k)) by (cbn; lia). done.
  - cbn [chunk_wire]. rewrite app_nil_r, <- Ew, <- app_assoc. f_equal. exact Hg.
  - destruct r as [|[]]; try done; cbn; rewrite app_nil_r; (split; [done|]); constructor; try constructor.
    all: intros E; apply (f_equal length) in E; rewrite Hln in E; subst n; destruct data; [done|]; unfold MAX_PAYLOAD in E; cbn [length] in E; lia.
Qed.

Lemma send_all_spec calls s k : Forall call_ok calls -> sealed s k ->
  let '(out, told, s', ok) := send_all calls s in
  exists ps, Forall chunk_ok ps /\ tx s' = tx s /\ sealed s' (k + 2 * length ps) /\ out ++ tx_pending s' = tx_pending s ++ chunk_wire (tx s) k ps /\
    told `prefix_of` concat ps /\ (ok = true -> told = concat ps).
Proof.
  intros Hc. revert s k. induction Hc as [|c calls Hc _ IH]; intros s k Hk; cbn [send_all].
  { exists []. cbn. rewrite Nat.add_0_r, app_nil_r. split_and!; try done; try constructor. }
  assert (forall s1 (k1 : nat) ps1 out1, Forall chunk_ok ps1 -> tx s1 = tx s -> sealed s1 (k + 2 * length ps1) -> out1 ++ tx_pending s1 = tx_pending s ++ chunk_wire (tx s) k ps1 ->
    let '(out', told, s2, ok) := send_all calls s1 in
    exists ps, Forall chunk_ok ps /\ tx s2 = tx s /\ sealed s2 (k + 2 * length ps) /\ (out1 ++ out') ++ tx_pending s2 = tx_pending s ++ chunk_wire (tx s) k ps /\
      concat ps1 ++ told `prefix_of` concat ps /\ (ok = true -> concat ps1 ++ told = concat ps)) as Hnext.
  { intros s1 k1 ps1 out1 H1 H2 H3 H4. specialize (IH s1 _ H3). destruct (send_all calls s1) as [[[out' told] s2] ok]. destruct IH as (ps & E1 & E2 & E3 & E4 & E5 & E6).
    exists (ps1 ++ ps). rewrite length_app, chunk_wire_app, concat_app, <- app_assoc, E4, !app_assoc, H4, H2, <- !app_assoc. split_and!; [by apply Forall_app|congruence| |done| |].
    - replace (k + 2 * (length ps1 + length ps))%nat with (k + 2 * length ps1 + 2 * length ps)%nat by lia. done.
    - by apply prefix_app.
    - intros ->. by rewrite E6. }
  destruct c as [data inner|inner].
  - pose proof (poll_write_spec data s inner k Hc Hk) as Hw. destruct (poll_write data s inner) as [[r out] s1]. destruct Hw as (Et & ps1 & H1 & H2 & H3 & H4).
    specialize (Hnext s1 k ps1 out H1 Et H2 H3). destruct r as [|[n|e]].
    + subst ps1. by destruct (send_all calls s1) as [[[out' told] s2] ok].
    + destruct H4 as [<- _]. by destruct (send_all calls s1) as [[[out' told] s2] ok].
    + exists ps1. split_and!; try done. apply prefix_nil.
  - unfold poll_flush. pose proof (flush_pending_spec (tx_pending s) inner) as Hf. destruct (flush_pending (tx_pending s) inner) as [[[r out] pending] w]. destruct Hf as [Hf _].
    assert (forall ok0 : bool, ok0 = false -> exists ps, Forall chunk_ok ps /\ tx (s <| tx_pending := pending |>) = tx s /\ sealed (s <| tx_pending := pending |>) (k + 2 * length ps) /\
      out ++ tx_pending (s <| tx_pending := pending |>) = tx_pending s ++ chunk_wire (tx s) k ps /\ [] `prefix_of` concat ps /\ (ok0 = true -> [] = concat ps)) as Hstop.
    { intros ok0 ->. exists []. cbn. rewrite Nat.add_0_r, app_nil_r. split_and!; try done; try constructor. }
    specialize (Hnext (s <| tx_pending := pending |>) k [] out ltac:(constructor) eq_refl). cbn [length concat app chunk_wire Nat.mul] in Hnext. rewrite Nat.add_0_r, app_nil_r in Hnext.
    specialize (Hnext Hk Hf). destruct r as [|[u|e]]; [by destruct (send_all calls _) as [[[out' told] s2] ok]..|]. by apply Hstop.
Qed.

(** ** Reading *)

Definition data_of (chunks : list bytes) : list rd := RData <$> chunks.

Lemma bytes_of_data chunks : bytes_of (data_of chunks) = concat chunks.
Proof. unfold bytes_of, data_of. f_equal. induction chunks as [|c chunks IH]; [done|]. cbn in *. by rewrite IH. Qed.

Lemma fill_raw_spec want raw chunks : Forall (fun c => c <> []) chunks ->
  if decide (want <= length (raw ++ concat chunks))%nat
  then exists raw' chunks', fill_raw want raw (data_of chunks) = (Ready (Ok true), raw', data_of chunks') /\ raw' ++ concat chunks' = raw ++ concat chunks /\
         (want <= length raw')%nat /\ Forall (fun c => c <> []) chunks'
  else fill_raw want raw (data_of chunks) = (Pending, raw ++ concat chunks, []).
Proof.
  intros Hne. revert raw. induction Hne as [|c chunks Hc Hne IH]; intros raw.
  - cbn [concat]. rewrite app_nil_r. cbn [data_of fmap list_fmap fill_raw]. case_decide as Hw.
    + exists raw, []. rewrite (proj2 (Nat.leb_le _ _)) by done. cbn [concat]. rewrite app_nil_r. split_and!; try done; try constructor.
    + by rewrite (proj2 (Nat.leb_gt _ _)) by lia.
  - cbn [data_of fmap list_fmap fill_raw]. destruct (Nat.leb_spec want (length raw)) as [Hw|Hw].
    + rewrite decide_True by (rewrite length_app; lia). exists raw, (c :: chunks). split_and!; try done. by constructor.
    + specialize (IH (raw ++ c)). cbn [concat]. rewrite app_assoc. by destruct c as [|x c].
Qed.

(** The response a server sends: its salt and sealed head, which has the length of the
    first chunk, the first chunk, and the others. *)
Definition head_plain (ts : Z) (rs : bytes) (n : nat) : bytes := [HEADER_TYPE_SERVER] ++ to_be_bytes 8 ts ++ rs ++ to_be_bytes 2 (Z.of_nat n).
Definition server_cipher (m : SsMethod) (psk salt : bytes) : Cipher := (m, session_subkey m psk salt).
Definition head_wire (m : SsMethod) (psk salt rs : bytes) (ts : Z) (n : nat) : bytes :=
  salt ++ aead_seal m (session_subkey m psk salt) (nonce 0) (head_plain ts rs n).
Definition response (m : SsMethod) (psk salt rs : bytes) (ts : Z) (p0 : bytes) (ps : list bytes) : bytes :=
  head_wire m psk salt rs ts (length p0) ++ aead_seal m (session_subkey m psk salt) (nonce 1) p0 ++ chunk_wire (server_cipher m psk salt) 2 ps.

Definition salted (m : SsMethod) (b : bytes) : Prop := bytes_ok b /\ length b = salt_len m.
Definition fresh (now ts : Z) : Prop := fits 64 ts /\ Z.abs (now - ts) <= MAX_SKEW_SECS.

Lemma key_len_le m : (key_len m <= 32)%nat.
Proof. destruct m; cbn; lia. Qed.

Lemma subkey_length m psk salt : length (session_subkey m psk salt) = key_len m.
Proof. unfold session_subkey. rewrite length_take_le; [done|]. rewrite derive_key_length. apply key_len_le. Qed.

Lemma length_head_plain ts rs n : length (head_plain ts rs n) = (1 + 8 + length rs + 2)%nat.
Proof. unfold head_plain. rewrite !length_app, !length_to_be_bytes. cbn [length]. lia. Qed.

Lemma length_head_wire m psk salt rs ts n : salted m salt -> salted m rs -> length (head_wire m psk salt rs ts n) = response_head_len m.
Proof. intros [_ Hs] [_ Hr]. unfold head_wire, response_head_len. rewrite length_app, seal_length, length_head_plain, Hs, Hr. unfold TAG. lia. Qed.

Lemma head_plain_fields ts rs n : fits 64 ts -> (n <= MAX_PAYLOAD)%nat ->
  head_plain ts rs n !!! 0%nat = HEADER_TYPE_SERVER /\ from_be_bytes (take 8 (drop 1 (head_plain ts rs n))) = ts /\
  take (length rs) (drop 9 (head_plain ts rs n)) = rs /\ from_be_bytes (take 2 (drop (9 + length rs) (head_plain ts rs n))) = Z.of_nat n.
Proof.
  intros Ht Hn. unfold head_plain. split_and!; [done| | |].
  - rewrite drop_app_length' by done. rewrite take_app_length' by by rewrite length_to_be_bytes. by apply from_to_be_bytes_small.
  - rewrite app_assoc, drop_app_length' by by rewrite length_app, length_to_be_bytes. by rewrite take_app_length.
  - rewrite app_assoc, app_assoc, drop_app_length' by (rewrite !length_app, length_to_be_bytes; cbn; lia).
    rewrite take_ge by by rewrite length_to_be_bytes. apply from_to_be_bytes_small. unfold MAX_PAYLOAD in Hn. lia.
Qed.

Lemma head_plain_ok ts rs n : bytes_ok rs -> bytes_ok (head_plain ts rs n).
Proof. intros. unfold head_plain. repeat (apply Forall_app; split); first [apply to_be_bytes_ok|done|constructor; [unfold fits, HEADER_TYPE_SERVER; lia|constructor]]. Qed.

Lemma decode_head m psk salt rs ts n now : salted m salt -> salted m rs -> fresh now ts -> (n <= MAX_PAYLOAD)%nat ->
  decode_response_head m psk rs (head_wire m psk salt rs ts n) now = Ok (mk_head (server_cipher m psk salt) (nonce 1) n).
Proof.
  intros Hs Hr [Ht Hskew] Hn. unfold decode_response_head. rewrite length_head_wire by done. rewrite Nat.ltb_irrefl.
  destruct Hs as [_ Hls]. destruct Hr as [Hbr Hlr]. unfold head_wire. rewrite (take_app_length' salt), (drop_app_length' salt) by done.
  unfold Cipher_new. rewrite subkey_length, Nat.eqb_refl. cbn [next]. unfold open. cbn [fst snd].
  rewrite take_ge by (rewrite seal_length, length_head_plain, Hlr; unfold TAG; lia).
  change (NonceCounter_new) with (nonce 0) at 1. rewrite open_seal by by apply head_plain_ok. cbn [ok_or].
  destruct (head_plain_fields ts rs n Ht Hn) as (E1 & E2 & E3 & E4). rewrite E1, E2, Z.eqb_refl. cbn [negb].
  rewrite (proj2 (Z.ltb_ge _ _)) by done. rewrite <- Hlr. rewrite E3, bool_decide_eq_true_2 by done. cbn [negb]. rewrite E4, Nat2Z.id. done.
Qed.

(** Where a reader is: the bytes still to come, from its raw buffer on, and the plaintext
    they hold. *)
Definition reads (ts : Z) (s : ShadowsocksStream) (wire plain : bytes) : Prop :=
  match rx_state s with
  | NeedHead => rx_plain s = [] /\ salted (method s) (request_salt s) /\ exists salt p0 ps, salted (method s) salt /\ Forall chunk_ok (p0 :: ps) /\
      wire = response (method s) (psk s) salt (request_salt s) ts p0 ps /\ plain = p0 ++ concat ps
  | NeedLen => exists h i ps, rx s = Some h /\ h_counter h = nonce i /\ Forall chunk_ok ps /\ wire = chunk_wire (h_cipher h) i ps /\ plain = rx_plain s ++ concat ps
  | NeedPayload len => rx_plain s = [] /\ exists h i p ps, rx s = Some h /\ h_counter h = nonce i /\ Forall chunk_ok (p :: ps) /\ len = length p /\
      wire = aead_seal (h_cipher h).1 (h_cipher h).2 (nonce i) p ++ chunk_wire (h_cipher h) (S i) ps /\ plain = p ++ concat ps
  end.

Lemma reads_wanted ts s wire plain : reads ts s wire plain -> rx_plain s = [] -> (length wire < wanted s)%nat -> plain = [].
Proof.
  intros H Hp Hl. unfold reads, wanted in *. destruct (rx_state s) as [| |len].
  - destruct H as (_ & Hr & salt & p0 & ps & Hs & _ & -> & _). unfold response in Hl. rewrite length_app, length_head_wire in Hl by done. lia.
  - destruct H as (h & i & ps & _ & _ & _ & -> & ->). destruct ps as [|p ps]; [by rewrite Hp|]. cbn [chunk_wire] in Hl. rewrite length_app, seal_length, length_to_be_bytes in Hl. lia.
  - destruct H as (_ & h & i & p & ps & _ & _ & _ & -> & -> & _). rewrite length_app, seal_length in Hl. lia.
Qed.

(** A whole piece is opened, and the reader is at the rest of the wire. *)
Lemma open_piece_spec now ts s wire plain : (rx_state s = NeedHead -> fresh now ts) -> reads ts s wire plain -> rx_plain s = [] -> (wanted s <= length wire)%nat ->
  exists s', open_piece now (take (wanted s) wire) s = (None, s') /\ rx_raw s' = rx_raw s /\ rx_state s' <> NeedHead /\ reads ts s' (drop (wanted s) wire) plain.
Proof.
  intros Hf H Hp Hl. unfold reads in H. unfold open_piece, wanted in *. destruct (rx_state s) as [| |len] eqn:Es.
  - destruct H as (_ & Hr & salt & p0 & ps & Hs & Hc & -> & ->). unfold response. pose proof (length_head_wire (method s) (psk s) salt (request_salt s) ts (length p0) Hs Hr) as Hlh.
    rewrite take_app_length', drop_app_length' by done. rewrite decode_head by first [done|by apply Hf|by apply Forall_cons_1 in Hc as [[_ ?] _]].
    eexists. split; [done|]. split; [done|]. split; [done|]. unfold reads. cbn. split; [done|]. by eexists _, 1%nat, p0, ps.
  - destruct H as (h & i & ps & Eh & Ei & Hc & -> & ->). rewrite Hp in *. destruct ps as [|p ps]; [cbn in Hl; unfold TAG in Hl; lia|].
    cbn [chunk_wire]. rewrite take_app_length', drop_app_length' by by rewrite seal_length, length_to_be_bytes.
    rewrite Eh. unfold next. cbv iota beta zeta. unfold open. rewrite Ei, open_seal by apply to_be_bytes_ok. cbn [ok_or].
    assert (Z.to_nat (from_be_bytes (take 2 (to_be_bytes 2 (Z.of_nat (length p))))) = length p) as ->.
    { apply Forall_cons_1 in Hc as [[_ Hc0] _]. unfold MAX_PAYLOAD in Hc0. rewrite take_ge by by rewrite length_to_be_bytes. rewrite from_to_be_bytes_small by lia. apply Nat2Z.id. }
    eexists. split; [done|]. change (rx_state (s <| rx := Some (mk_head (h_cipher h) (increment (nonce i)) (first_chunk_len h)) |>)) with (rx_state s). rewrite Es.
    split; [done|]. split; [done|]. unfold reads. cbn. split; [done|]. eexists _, (S i), p, ps. done.
  - destruct H as (_ & h & i & p & ps & Eh & Ei & Hc & -> & -> & ->). rewrite take_app_length', drop_app_length' by by rewrite seal_length.
    rewrite Eh. unfold next. cbv iota beta zeta. unfold open. apply Forall_cons_1 in Hc as [[Hc0 Hcl] Hc]. rewrite Ei, open_seal by done. cbn [ok_or].
    eexists. split; [done|]. change (rx_state (s <| rx := Some (mk_head (h_cipher h) (increment (nonce i)) (first_chunk_len h)) |>)) with (rx_state s). rewrite Es.
    split; [done|]. split; [done|]. unfold reads. cbn. rewrite Hp. by eexists _, (S i), ps.
Qed.

Lemma wanted_pos s : (TAG <= wanted s)%nat.
Proof. unfold wanted, response_head_len, TAG. destruct (rx_state s); lia. Qed.

(** What a call leaves: the part of the wire it used up, and the reader at the rest. *)
Definition left_at (ts : Z) (s : ShadowsocksStream) (chunks : list bytes) (avail wire plain : bytes) : Prop :=
  Forall (fun c => c <> []) chunks /\ exists used wire', wire = used ++ wire' /\ avail = used ++ rx_raw s ++ concat chunks /\ reads ts s wire' plain.

Lemma give_plain ts s wire plain n : reads ts s wire plain -> rx_plain s <> [] ->
  exists plain', plain = take n (rx_plain s) ++ plain' /\ reads ts (s <| rx_plain := drop n (rx_plain s) |>) wire plain'.
Proof.
  intros H Hp. unfold reads in *. destruct (rx_state s) as [| |len] eqn:Es; [by destruct H| |by destruct H].
  destruct H as (h & i & ps & Eh & Ei & Hc & -> & ->). exists (drop n (rx_plain s) ++ concat ps). split; [by rewrite app_assoc, take_drop|].
  cbn. rewrite Es. by exists h, i, ps.
Qed.

Lemma read_loop_spec fuel now ts n s chunks wire plain : (rx_state s = NeedHead -> fresh now ts) -> reads ts s wire plain -> Forall (fun c => c <> []) chunks ->
  rx_raw s ++ concat chunks `prefix_of` wire -> (2 + length (rx_raw s ++ concat chunks) <= fuel)%nat ->
  exists r s' chunks', read_loop fuel now n s (data_of chunks) = Some (r, s', data_of chunks') /\
    (rx_state s' = NeedHead -> r = Pending /\ rx_state s = NeedHead /\ method s' = method s /\ rx_raw s' = rx_raw s ++ concat chunks) /\
    match r with
    | Ready (Ok b) => exists plain', plain = b ++ plain' /\ left_at ts s' chunks' (rx_raw s ++ concat chunks) wire plain'
    | Pending => left_at ts s' chunks' (rx_raw s ++ concat chunks) wire plain /\ rx_plain s' = [] /\ chunks' = [] /\ (length (rx_raw s') < wanted s')%nat
    | Ready (Err _) => False
    end.
Proof.
  revert s chunks wire. induction fuel as [|fuel IH]; intros s chunks wire Hf H Hne Hp Hfuel; [lia|]. cbn [read_loop]. unfold read_turn.
  case_decide as Hpl.
  { destruct (give_plain ts s wire plain (Nat.min (length (rx_plain s)) n) H Hpl) as (plain' & E & H'). eexists _, _, chunks. split; [done|].
    split; [intros Es; unfold reads in H; change (rx_state s = NeedHead) in Es; rewrite Es in H; by destruct H|]. exists plain'. split; [done|].
    split; [done|]. by exists [], wire. }
  assert (rx_plain s = []) as Hnil by (destruct (rx_plain s); [done|by destruct Hpl]).
  pose proof (fill_raw_spec (wanted s) (rx_raw s) chunks Hne) as Hfill. case_decide as Hw.
  2:{ rewrite Hfill. eexists _, _, []. split; [done|]. split; [done|]. split; [split; [constructor|exists [], wire; cbn [concat]; by rewrite app_nil_r]|]. split_and!; [done|done|]. change (length (rx_raw s ++ concat chunks) < wanted s)%nat. lia. }
  destruct Hfill as (raw' & chunks' & Ef & Er & Hr & Hne'). rewrite Ef. rewrite <- Er in *.
  assert (take (wanted s) raw' = take (wanted s) wire /\ (wanted s <= length wire)%nat) as [Et Hlw].
  { destruct Hp as [z ->]. rewrite <- app_assoc, take_app_le by done. split; [done|]. rewrite length_app. lia. }
  rewrite Et. set (s0 := s <| rx_raw := drop (wanted s) raw' |>). destruct (open_piece_spec now ts s0 wire plain Hf H Hnil Hlw) as (s1 & Eo & Eraw & Hs1 & H1).
  change (wanted s0) with (wanted s) in *. rewrite Eo. cbn in Eraw.
  assert (raw' ++ concat chunks' = take (wanted s) wire ++ rx_raw s1 ++ concat chunks') as Eav by by rewrite Eraw, <- Et, app_assoc, take_drop.
  assert (rx_raw s1 ++ concat chunks' `prefix_of` drop (wanted s) wire) as Hp1.
  { rewrite Eav in Hp. rewrite <- (take_drop (wanted s) wire) in Hp at 2. by apply prefix_app_inv in Hp. }
  destruct (IH s1 chunks' (drop (wanted s) wire) ltac:(done) H1 Hne' Hp1) as (r & s2 & chunks2 & E2 & Hst & Hr2).
  { pose proof (wanted_pos s). rewrite Eav, length_app, length_take_le in Hfuel by done. unfold TAG in *. lia. }
  exists r, s2, chunks2. split; [done|]. split; [intros Es; by destruct (Hst Es) as (_ & ? & _)|].
  assert (forall pl, left_at ts s2 chunks2 (rx_raw s1 ++ concat chunks') (drop (wanted s) wire) pl -> left_at ts s2 chunks2 (raw' ++ concat chunks') wire pl) as Hleft.
  { intros pl (Hn2 & used & wire' & Ew & Ea & Hrd). split; [done|]. exists (take (wanted s) wire ++ used), wire'. rewrite <- app_assoc, <- Ew, take_drop, Eav, Ea, <- !app_assoc. done. }
  destruct r as [|[b|e]]; [|by destruct Hr2 as (plain' & Eb & Hl); exists plain'; auto|done]. destruct Hr2 as (Hl & ? & ? & ?). auto.
Qed.

(** Reads one after another: what the connection has for each, and the room. *)
Fixpoint read_all (polls : list (Z * nat * list bytes)) (s : ShadowsocksStream) (left : list bytes)
    : option (bytes * list (Poll (result stream_error bytes)) * ShadowsocksStream) :=
  match polls with
  | [] => Some ([], [], s)
  | (now, n, new) :: polls =>
      match poll_read now n s (data_of (left ++ new)) with
      | Some (r, s, inner) =>
          let! (got, rs, s) := read_all polls s (omap (fun x => match x with RData b => Some b | _ => None end) inner) in
          Some (match r with Ready (Ok b) => b | _ => [] end ++ got, r :: rs, s)
      | None => None
      end
  end.

Definition arrivals (polls : list (Z * nat * list bytes)) : bytes := concat (concat (polls.*2)).

Lemma data_of_omap chunks : omap (fun x => match x with RData b => Some b | _ => None end) (data_of chunks) = chunks.
Proof. induction chunks as [|c chunks IH]; [done|]. simpl. by f_equal. Qed.

Lemma read_all_length polls s left got rs s' : read_all polls s left = Some (got, rs, s') -> length rs = length polls.
Proof.
  revert s left got rs. induction polls as [|[[now n] new] polls IH]; intros s left got rs E; cbn [read_all] in E; [by simplify_eq|].
  destruct (poll_read now n s (data_of (left ++ new))) as [[[r s1] inner]|]; [|done]. destruct (read_all polls s1 _) as [[[g q] s2]|] eqn:E1; [|done].
  cbn in E. simplify_eq. cbn. f_equal. by eapply IH.
Qed.

(** The head is whole in time: until [need] bytes are there, polls are at times close to
    the head's. *)
Fixpoint timely (ts : Z) (need have : nat) (polls : list (Z * nat * list bytes)) : Prop :=
  match polls with
  | [] => True
  | (now, _, new) :: polls => fresh now ts /\ ((have + length (concat new) < need)%nat -> timely ts need (have + length (concat new)) polls)
  end.

Lemma read_all_spec ts polls s left wire plain : reads ts s wire plain -> Forall (fun c => c <> []) left -> Forall (fun p => Forall (fun c => c <> []) p.2) polls ->
  (rx_state s = NeedHead -> timely ts (wanted s) (length (rx_raw s ++ concat left)) polls) ->
  rx_raw s ++ concat left ++ arrivals polls `prefix_of` wire ->
  exists got rs s', read_all polls s left = Some (got, rs, s') /\ got `prefix_of` plain /\ Forall (fun r => match r with Ready (Err _) => False | _ => True end) rs /\
    (rx_raw s ++ concat left ++ arrivals polls = wire -> last rs (Ready (Ok [])) = Pending -> got = plain).
Proof.
  intros H Hl Hp. revert s left wire plain H Hl. induction Hp as [|[[now n] new] polls Hn _ IH]; intros s left wire plain H Hl Ht Hw; cbn [read_all].
  { eexists _, _, _. split; [done|]. split_and!; [apply prefix_nil|constructor|]. done. }
  cbn [fst snd timely] in *. change (arrivals ((now, n, new) :: polls)) with (concat (new ++ concat (polls.*2))) in *. rewrite concat_app in *. fold (arrivals polls) in *.
  assert (rx_raw s ++ concat (left ++ new) `prefix_of` wire) as Hpre by (destruct Hw as [z ->]; exists (arrivals polls ++ z); by rewrite concat_app, <- !app_assoc).
  destruct (read_loop_spec (2 + length (rx_raw s) + length (bytes_of (data_of (left ++ new)))) now ts n s (left ++ new) wire plain) as (r & s1 & left1 & E1 & Hst & Hr).
  { intros Es. by apply Ht. } { done. } { by apply Forall_app. } { done. } { rewrite bytes_of_data, length_app. lia. }
  unfold poll_read. rewrite E1. rewrite data_of_omap.
  assert (forall pl, left_at ts s1 left1 (rx_raw s ++ concat (left ++ new)) wire pl -> exists wire', reads ts s1 wire' pl /\ rx_raw s1 ++ concat left1 ++ arrivals polls `prefix_of` wire' /\
    (rx_raw s ++ concat left ++ concat new ++ arrivals polls = wire -> rx_raw s1 ++ concat left1 ++ arrivals polls = wire')) as Hgo.
  { intros pl (_ & used & wire' & Ew & Ea & Hrd). exists wire'. split; [done|]. rewrite concat_app in Ea. rewrite Ew in *. split.
    - rewrite !app_assoc in Hw. rewrite <- (app_assoc (rx_raw s)), Ea, <- !app_assoc in Hw. by apply prefix_app_inv in Hw.
    - intros E. rewrite !app_assoc in E. rewrite <- (app_assoc (rx_raw s)), Ea, <- !app_assoc in E. by apply app_inv_head in E. }
  destruct r as [|[b|e]]; [| |done].
  - destruct Hr as (Hr & Hpl & -> & Hsh). destruct (Hgo _ Hr) as (wire' & Hrd & Hpr & Hall).
    destruct (IH s1 [] wire' plain Hrd) as (got & rs & s2 & E2 & G1 & G2 & G3); [by destruct Hr| |done|].
    { intros Es1. destruct (Hst Es1) as (_ & Es & Em & Er). specialize (Ht Es) as [_ Ht]. unfold wanted in *. rewrite Es1 in Hsh |- *. rewrite Es in Ht. rewrite Em, Er in *.
      cbn [concat]. rewrite app_nil_r, concat_app, !length_app in *. rewrite Nat.add_assoc in *. apply Ht. lia. }
    rewrite E2. cbn [mbind option_bind]. eexists _, _, _. split; [done|]. split_and!; [done|by constructor|]. intros Ew Hlast. destruct rs as [|r0 rs].
    + pose proof (read_all_length _ _ _ _ _ _ E2) as Hlen. destruct polls; [|done].
      specialize (Hall Ew). cbn in Hall. rewrite app_nil_r in Hall. cbn in E2. injection E2 as <- <-. cbn. symmetry. apply (reads_wanted ts s1 wire'); [done|done|]. by rewrite <- Hall.
    + cbn [app]. apply G3; [by apply Hall|]. exact Hlast.
  - destruct Hr as (plain' & -> & Hr). destruct (Hgo _ Hr) as (wire' & Hrd & Hpr & Hall).
    destruct (IH s1 left1 wire' plain' Hrd) as (got & rs & s2 & E2 & G1 & G2 & G3); [by destruct Hr|by intros Es1; destruct (Hst Es1)|done|].
    rewrite E2. cbn [mbind option_bind]. eexists _, _, _. split; [done|]. split_and!; [by apply prefix_app|by constructor|]. intros Ew Hlast. destruct rs as [|r0 rs]; [done|].
    f_equal. apply G3; [by apply Hall|]. exact Hlast.
Qed.

Lemma encode_request_counter m psk target now draw req : encode_request m psk target now draw = Ok req -> r_counter req = nonce 2.
Proof.
  unfold encode_request. destruct (draw 0%nat (salt_len m)); [cbn [ok_or]|done]. unfold Cipher_new. destruct (_ =? _)%nat; [|done].
  destruct (draw 1%nat 1%nat); [cbn [ok_or]|done]. destruct (draw 2%nat _); [cbn [ok_or]|done]. cbn. intros E. by simplify_eq.
Qed.

(** The reader a server has after the request: from the third nonce on. *)
Definition server_reader (m : SsMethod) (psk : bytes) (c : Cipher) : ShadowsocksStream :=
  mk_stream m psk c [] [] (Some (mk_head c (nonce 2) 0)) NeedLen [] [] [].

(** C16: what a Shadowsocks stream sends. Whatever the connection takes of each write, what
    it has got and what the stream still holds are the request and then chunks sealed under
    nonces that are each used once; the chunks hold what the user was told is written, and
    nothing else unless a call failed; and a reader with the key that gets those chunks, in
    any pieces and polled in any way, reads a prefix of it at all times, without error, and
    all of it when it has all of the bytes and finds nothing more. *)
Theorem upload_correct m psk target now draw req calls : encode_request m psk target now draw = Ok req -> Forall call_ok calls ->
  let '(out, told, s, ok) := send_all calls (ShadowsocksStream_new m psk req) in
  exists ps, out ++ tx_pending s = r_bytes req ++ chunk_wire (r_cipher req) 2 ps /\ told `prefix_of` concat ps /\ (ok = true -> told = concat ps) /\
    (Z.of_nat (2 * length ps + 2) < 2 ^ 96 -> forall i j, (i < 2 * length ps + 2)%nat -> (j < 2 * length ps + 2)%nat -> nonce i = nonce j -> i = j) /\
    forall polls, Forall (fun p => Forall (fun c => c <> []) p.2) polls -> arrivals polls `prefix_of` chunk_wire (r_cipher req) 2 ps ->
      exists got rs s', read_all polls (server_reader m psk (r_cipher req)) [] = Some (got, rs, s') /\ got `prefix_of` concat ps /\
        Forall (fun r => match r with Ready (Err _) => False | _ => True end) rs /\
        (arrivals polls = chunk_wire (r_cipher req) 2 ps -> last rs (Ready (Ok [])) = Pending -> got = concat ps).
Proof.
  intros Er Hc. pose proof (send_all_spec calls (ShadowsocksStream_new m psk req) 2 Hc (encode_request_counter _ _ _ _ _ _ Er)) as Hs.
  destruct (send_all calls (ShadowsocksStream_new m psk req)) as [[[out told] s] ok]. destruct Hs as (ps & Hok & _ & _ & Ew & Ht & Ho).
  exists ps. split_and!; [exact Ew|done|done|intros Hb i j Hi Hj; apply nonce_inj; lia|]. intros polls Hp Ha.
  apply (read_all_spec 0 polls (server_reader m psk (r_cipher req)) [] (chunk_wire (r_cipher req) 2 ps)); [|constructor|done|done|done].
  unfold reads. cbn [rx_state server_reader]. by eexists _, 2%nat, ps.
Qed.

(** C17: what a Shadowsocks stream receives. Of a response that is bound to its request and
    whose head arrives while its time is close to the clock, cut into pieces in any way and
    read in any way, the user gets the chunks' bytes in order: a prefix of them at all
    times, without error, and all of them when all of the bytes are there and a read finds
    nothing more. *)
Theorem download_correct m psk req salt ts p0 ps polls : salted m salt -> salted m (r_salt req) -> Forall chunk_ok (p0 :: ps) ->
  Forall (fun p => Forall (fun c => c <> []) p.2) polls -> timely ts (response_head_len m) 0 polls ->
  let wire := response m psk salt (r_salt req) ts p0 ps in
  arrivals polls `prefix_of` wire ->
  exists got rs s', read_all polls (ShadowsocksStream_new m psk req) [] = Some (got, rs, s') /\ got `prefix_of` p0 ++ concat ps /\
    Forall (fun r => match r with Ready (Err _) => False | _ => True end) rs /\
    (arrivals polls = wire -> last rs (Ready (Ok [])) = Pending -> got = p0 ++ concat ps).
Proof.
  intros Hs Hr Hc Hp Ht wire Ha. apply (read_all_spec ts polls (ShadowsocksStream_new m psk req) [] wire); [|constructor|done|by intros _|done].
  unfold reads. cbn [rx_state ShadowsocksStream_new]. split; [done|]. split; [done|]. by exists salt, p0, ps.
Qed.

(** A connection that ends inside a length, or inside the head, reads as a clean end. *)
Theorem cut_length_is_clean now n s : rx_plain s = [] -> (rx_state s = NeedLen \/ rx_state s = NeedHead) -> (length (rx_raw s) < wanted s)%nat ->
  exists s', poll_read now n s [REof] = Some (Ready (Ok []), s', []).
Proof.
  intros Hp Hs Hl. unfold poll_read. cbn [Nat.add read_loop]. unfold read_turn. rewrite Hp, decide_False by auto. cbn [fill_raw].
  rewrite (proj2 (Nat.leb_gt _ _)) by done. destruct Hs as [Hs|Hs]; rewrite Hs; by eexists.
Qed.

End stream.

(** ** An instance of the primitives, and runs *)

Definition toy_mac (k n p : bytes) : bytes := to_be_bytes 16 (from_be_bytes k * 31 + from_be_bytes (n ++ p)).

Lemma length_toy_tag k n p : length (toy_mac k n p) = 16%nat.
Proof. apply length_to_be_bytes. Qed.

#[export] Instance toy_prims : SsPrims := {|
  derive_key c b := to_be_bytes 32 (from_be_bytes (c ++ b));
  aead_seal m k n p := p ++ toy_mac k n p;
  aead_open m k n c := let p := take (length c - 16) c in if decide (drop (length c - 16) c = toy_mac k n p) then Some p else None;
  aes_encrypt k b := reverse b;
  aes_decrypt k b := reverse b;
  hchacha20 k n := to_be_bytes 32 (from_be_bytes k + from_be_bytes n);
|}.

#[export] Instance toy_ss_laws : SsLaws toy_prims.
Proof.
  constructor; cbn [toy_prims derive_key aead_seal aead_open aes_encrypt aes_decrypt hchacha20].
  - intros. apply length_to_be_bytes.
  - intros. by rewrite length_app, length_toy_tag.
  - intros. apply Forall_app; split; [done|apply to_be_bytes_ok].
  - intros m k n p _. rewrite length_app, length_toy_tag, Nat.add_sub, take_app_length, drop_app_length. by rewrite decide_True.
  - intros m k n c p. case_decide as Hd; [|done]. intros E. apply (inj Some) in E. subst p. by rewrite <- Hd, take_drop.
  - intros. apply length_reverse.
  - intros. apply reverse_involutive.
  - intros. by apply Forall_reverse.
  - intros. apply length_to_be_bytes.
Qed.

Definition ex_psk : bytes := replicate 16 3.
Definition ex_draw (k n : nat) : option bytes := Some (replicate n (Z.of_nat k + 5)).
Definition ex_request : Request :=
  match encode_request Aes128Gcm ex_psk (Domain (lit "example.com") 443) 1000 ex_draw with Ok r => r | Err _ => mk_request [] [] (Aes128Gcm, []) [] end.
Definition ex_calls : list call := [CFlush [Took 10]; CWrite (lit "hello") [Took 200; Took 3]; CWrite (lit " you") [Took 900; Took 900]].
Definition ex_salt : bytes := replicate 16 9.
Definition ex_wire : bytes := response Aes128Gcm ex_psk ex_salt (r_salt ex_request) 1010 (lit "HTTP") [lit "/1.1"; []; lit " OK"].
Definition ex_polls : list (Z * nat * list bytes) :=
  [(1000, 4%nat, [take 30 ex_wire]); (1001, 3%nat, [take 60 (drop 30 ex_wire); drop 90 ex_wire]); (2000, 9%nat, []); (2001, 9%nat, []); (2002, 9%nat, []); (2003, 9%nat, [])].

Lemma upload_correct_witness : exists ps out s, send_all ex_calls (ShadowsocksStream_new Aes128Gcm ex_psk ex_request) = (out, lit "hello you", s, true) /\
  out ++ tx_pending s = r_bytes ex_request ++ chunk_wire (r_cipher ex_request) 2 ps /\ concat ps = lit "hello you".
Proof.
  pose proof (upload_correct Aes128Gcm ex_psk (Domain (lit "example.com") 443) 1000 ex_draw ex_request ex_calls) as H.
  assert (encode_request Aes128Gcm ex_psk (Domain (lit "example.com") 443) 1000 ex_draw = Ok ex_request) as E by (vm_compute; reflexivity).
  specialize (H E). assert (Forall call_ok ex_calls) as Hc by (constructor; [exact I|constructor; [decided|constructor; [decided|constructor]]]).
  specialize (H Hc). set (r := send_all ex_calls (ShadowsocksStream_new Aes128Gcm ex_psk ex_request)) in *.
  assert (r.1.1.2 = lit "hello you") as E1 by (vm_compute; reflexivity). assert (r.2 = true) as E2 by (vm_compute; reflexivity).
  destruct r as [[[out told] s] ok]. cbn [fst snd] in E1, E2. rewrite E1, E2 in *. clear E E1 E2 Hc.
  destruct H as (ps & H1 & _ & H2 & _). exists ps, out, s. split; [reflexivity|]. split; [exact H1|]. symmetry. apply H2. reflexivity.
Defined.

Lemma download_correct_witness : exists got rs s, read_all ex_polls (ShadowsocksStream_new Aes128Gcm ex_psk ex_request) [] = Some (got, rs, s) /\ got = lit "HTTP/1.1 OK".
Proof.
  destruct (download_correct Aes128Gcm ex_psk ex_request ex_salt 1010 (lit "HTTP") [lit "/1.1"; []; lit " OK"] ex_polls) as (got & rs & s & E & _ & _ & H).
  - split; [decided|reflexivity].
  - split; [decided|reflexivity].
  - do 4 (constructor; [split; [decided|apply Nat2Z.inj_le; vm_compute; discriminate]|]). constructor.
  - decided.
  - split; [split; [decided|vm_compute; discriminate]|]. intros _. split; [split; [decided|vm_compute; discriminate]|].
    intros Hlt. exfalso. vm_compute in Hlt. lia.
  - exists []. vm_compute. reflexivity.
  - exists got, rs, s. split; [exact E|]. apply H; [vm_compute; reflexivity|].
    assert (match read_all ex_polls (ShadowsocksStream_new Aes128Gcm ex_psk ex_request) [] with Some (_, rs, _) => last rs (Ready (Ok [])) | None => Ready (Ok []) end = Pending) as Hl by (vm_compute; reflexivity).
    rewrite E in Hl. exact Hl.
Defined.

End shadowsocks_tcp.
