(* ===== verification/ShadowsocksUdp.v ===== *)
(** [core/src/transport/shadowsocks/{crypto,udp}.rs]: the datagrams of Shadowsocks 2022, their two
    envelopes, the replay filter and the two halves of an association. *)

From S2P Require Import Prelude Lists RustStr NetAddr TcpTunnel Stall Shadowsocks ShadowsocksTcp.

Module shadowsocks_udp.
Import net tcp_tunnel shadowsocks shadowsocks_tcp.

Definition PKT_TYPE_CLIENT : Z := 0.
Definition PKT_TYPE_SERVER : Z := 1.
Definition WINDOW : Z := 64.
Definition MAX_SERVER_SESSIONS : nat := 8.
Definition PACKET_NONCE : nat := 24.

(** ** The replay filter *)

(** Bit [i] of the map: the id [highest - i] was seen. *)
Record ReplayWindow := mk_window { highest : Z; bitmap : Z; seen_any : bool }.   (* u64 *)

Definition ReplayWindow_new : ReplayWindow := mk_window 0 0 false.

Definition ReplayWindow_accept (id : Z) (w : ReplayWindow) : bool * ReplayWindow :=
  if negb (seen_any w) then (true, mk_window id 1 true) else
  if highest w <? id then
    let shift := id - highest w in
    let b := if 64 <=? shift then 0 else wrap64 (Z.shiftl (bitmap w) shift) in
    (true, mk_window id (Z.lor b 1) true)
  else
    let back := highest w - id in
    if WINDOW <=? back then (false, w) else
    let mask := Z.shiftl 1 back in
    if negb (Z.land (bitmap w) mask =? 0) then (false, w)
    else (true, mk_window (highest w) (Z.lor (bitmap w) mask) true).

(** ** The envelopes *)

Section udp.
Context {P : SsPrims}.

(** [XChaCha]: the key and nonce the composition calls for. *)
Definition XChaCha_new (psk : bytes) : result CryptoError bytes :=
  if (length psk =? 32)%nat then Ok psk else Err (KeyLength Chacha20Poly1305 (length psk) 32).
Definition derive (key nonce : bytes) : result CryptoError (Cipher * bytes) :=
  let subkey := hchacha20 key (take 16 nonce) in
  let? c := Cipher_new Chacha20Poly1305 subkey in
  Ok (c, replicate 4 0 ++ drop 16 nonce).
Definition xseal (key nonce buf : bytes) : result CryptoError bytes := let? (c, n) := derive key nonce in seal c n buf.
Definition xopen (key nonce buf : bytes) : result CryptoError bytes := let? (c, n) := derive key nonce in open c n buf.

(** [AesBlock]: its key. *)
Definition AesBlock_new (key : bytes) : result CryptoError bytes :=
  if (length key =? 16)%nat || (length key =? 32)%nat then Ok key else Err (AesKeyLength (length key)).

Definition client_body (now : Z) (target : Address) (payload : bytes) : bytes :=
  [PKT_TYPE_CLIENT] ++ to_be_bytes 8 now ++ to_be_bytes 2 0 ++ write_socks_target target ++ payload.

Definition build_client_packet_with (block : bytes) (cipher : Cipher) (session_id : bytes) (packet_id : Z) (target : Address) (payload : bytes) (now : Z) : result CryptoError bytes :=
  let sep := session_id ++ to_be_bytes 8 packet_id in
  let? body := seal cipher (drop 4 sep) (client_body now target payload) in
  Ok (aes_encrypt block sep ++ body).

(** [nonce] is the draw of the generator. *)
Definition build_client_packet_chacha (x : bytes) (nonce : option bytes) (session_id : bytes) (packet_id : Z) (target : Address) (payload : bytes) (now : Z) : result CryptoError bytes :=
  let? nonce := ok_or nonce Rng in
  let? body := xseal x nonce (session_id ++ to_be_bytes 8 packet_id ++ client_body now target payload) in
  Ok (nonce ++ body).

Definition parse_server_header (now : Z) (body expected_client_sid : bytes) : result CryptoError bytes :=
  if negb (bool_decide (head body = Some PKT_TYPE_SERVER)) then Err Auth else
  let? ts := ok_or (slice_get body 1 9) Auth in
  if MAX_SKEW_SECS <? Z.abs (now - from_be_bytes ts) then Err Auth else
  let? csid := ok_or (slice_get body 9 17) Auth in
  if negb (bool_decide (csid = expected_client_sid)) then Err Auth else
  let? pad := ok_or (slice_get body 17 19) Auth in
  let addr_off := (19 + Z.to_nat (from_be_bytes pad))%nat in
  if (length body <? addr_off)%nat then Err Auth else
  let? (_, consumed) := ok_or (read_socks_addr (drop addr_off body)) Auth in
  if (length body <? addr_off + consumed)%nat then Err Auth else Ok (drop (addr_off + consumed) body).

Definition decrypt_separate_header (block pkt : bytes) : result CryptoError (bytes * Z * bytes) :=
  if (length pkt <? 16 + TAG)%nat then Err Auth else
  let sep := aes_decrypt block (take 16 pkt) in
  Ok (take 8 sep, from_be_bytes (drop 8 sep), sep).

Definition open_server_body (now : Z) (cipher : Cipher) (sep enc_body expected_client_sid : bytes) : result CryptoError bytes :=
  let? body := open cipher (drop 4 sep) enc_body in parse_server_header now body expected_client_sid.

Definition open_server_packet_chacha (now : Z) (x pkt expected_client_sid : bytes) : result CryptoError (bytes * Z * bytes) :=
  if (length pkt <? PACKET_NONCE + TAG)%nat then Err Auth else
  let? body := xopen x (take PACKET_NONCE pkt) (drop PACKET_NONCE pkt) in
  let? sid := ok_or (slice_get body 0 8) Auth in
  let? pid := ok_or (slice_get body 8 16) Auth in
  if (length body <? 16)%nat then Err Auth else
  let? payload := parse_server_header now (drop 16 body) expected_client_sid in
  Ok (sid, from_be_bytes pid, payload).

(** ** The sending half *)

Inductive SinkSeal := SinkAes (block : bytes) (cipher : Cipher) | SinkXChaCha (x : bytes).

Record UdpSink := mk_sink { k_target : Address; k_session : bytes; packet_id : Z; k_seal : SinkSeal }.

Definition UdpSink_new (m : SsMethod) (psk : bytes) (target : Address) (session_id : bytes) : result CryptoError UdpSink :=
  let? s :=
    match m with
    | Chacha20Poly1305 => let? x := XChaCha_new psk in Ok (SinkXChaCha x)
    | _ => let? b := AesBlock_new psk in let? c := Cipher_new m (session_subkey m psk session_id) in Ok (SinkAes b c)
    end in
  Ok (mk_sink target session_id 0 s).

(** [send]: the datagram handed to the socket, at a time and with a draw. Its number is spent
    whatever the socket then does. *)
Definition send (now : Z) (nonce : option bytes) (payload : bytes) (k : UdpSink) : result CryptoError bytes * UdpSink :=
  let r :=
    match k_seal k with
    | SinkAes b c => build_client_packet_with b c (k_session k) (packet_id k) (k_target k) payload now
    | SinkXChaCha x => build_client_packet_chacha x nonce (k_session k) (packet_id k) (k_target k) payload now
    end in
  match r with
  | Ok pkt => (Ok pkt, mk_sink (k_target k) (k_session k) (wrap64 (packet_id k + 1)) (k_seal k))
  | Err e => (Err e, k)
  end.

(** ** The receiving half *)

Record SessionState := mk_state { window : ReplayWindow; cached : option Cipher }.

Inductive SourceSeal := SourceAes (m : SsMethod) (psk block : bytes) | SourceXChaCha (x : bytes).

Record UdpSource := mk_source { client_session_id : bytes; s_seal : SourceSeal; sessions : gmap (list Z) SessionState }.

Definition UdpSource_new (m : SsMethod) (psk client_session_id : bytes) : result CryptoError UdpSource :=
  let? s :=
    match m with
    | Chacha20Poly1305 => let? x := XChaCha_new psk in Ok (SourceXChaCha x)
    | _ => let? b := AesBlock_new psk in Ok (SourceAes m psk b)
    end in
  Ok (mk_source client_session_id s ∅).

(** A new session, if there is room, with its first packet. *)
Definition track (sid : bytes) (pid : Z) (c : option Cipher) (payload : bytes) (u : UdpSource) : option bytes * UdpSource :=
  if (MAX_SERVER_SESSIONS <=? size (sessions u))%nat then (None, u) else
  let w := (ReplayWindow_accept pid ReplayWindow_new).2 in
  (Some payload, mk_source (client_session_id u) (s_seal u) (<[sid := mk_state w c]> (sessions u))).

(** A packet of a tracked one, through its window. *)
Definition filter_packet (sid : bytes) (pid : Z) (st : SessionState) (payload : bytes) (u : UdpSource) : option bytes * UdpSource :=
  let '(fresh, w) := ReplayWindow_accept pid (window st) in
  (if fresh then Some payload else None, mk_source (client_session_id u) (s_seal u) (<[sid := mk_state w (cached st)]> (sessions u))).

(** A turn of the loop of [recv], on one datagram. [None]: dropped. *)
Definition recv_turn (now : Z) (pkt : bytes) (u : UdpSource) : option bytes * UdpSource :=
  match s_seal u with
  | SourceXChaCha x =>
      match open_server_packet_chacha now x pkt (client_session_id u) with
      | Err _ => (None, u)
      | Ok (sid, pid, payload) =>
          match sessions u !! sid with
          | Some st => filter_packet sid pid st payload u
          | None => track sid pid None payload u
          end
      end
  | SourceAes m psk block =>
      match decrypt_separate_header block pkt with
      | Err _ => (None, u)
      | Ok (sid, pid, sep) =>
          let enc_body := drop 16 pkt in
          match sessions u !! sid with
          | Some st =>
              match cached st with
              | None => (None, u)
              | Some c =>
                  match open_server_body now c sep enc_body (client_session_id u) with
                  | Err _ => (None, u)
                  | Ok payload => filter_packet sid pid st payload u
                  end
              end
          | None =>
              match Cipher_new m (session_subkey m psk sid) with
              | Err _ => (None, u)
              | Ok c =>
                  match open_server_body now c sep enc_body (client_session_id u) with
                  | Err _ => (None, u)
                  | Ok payload => track sid pid (Some c) payload u
                  end
              end
          end
      end
  end.

(** [recv] with room for [room] bytes, on what the socket gives next: a datagram and the time
    of its arrival, or an error. [None]: waiting. *)
Fixpoint recv (room : nat) (evs : list (result stall.io_error (Z * bytes))) (u : UdpSource)
    : option (result stall.io_error bytes) * UdpSource * list (result stall.io_error (Z * bytes)) :=
  match evs with
  | [] => (None, u, [])
  | Err e :: evs => (Some (Err e), u, evs)
  | Ok (now, pkt) :: evs =>
      match recv_turn now pkt u with
      | (Some payload, u) => (Some (Ok (take (Nat.min (length payload) room) payload)), u, evs)
      | (None, u) => recv room evs u
      end
  end.

End udp.

(** ** The window is a set *)

(** What the filter stands for: the ids accepted so far. *)
Definition admits (id : Z) (A : list Z) : bool := bool_decide (id ∉ A) && forallb (fun j => j <? id + WINDOW) A.

Definition tracks (w : ReplayWindow) (A : list Z) : Prop :=
  if seen_any w then
    highest w ∈ A /\ (forall j, j ∈ A -> j <= highest w) /\
    (forall i, 0 <= i < 64 -> Z.testbit (bitmap w) i = true <-> (highest w - i) ∈ A)
  else A = [].

Lemma admits_spec id A : admits id A = true <-> (id ∉ A) /\ forall j, j ∈ A -> j < id + WINDOW.
Proof.
  unfold admits. rewrite andb_true_iff, bool_decide_eq_true, forallb_forall. setoid_rewrite Z.ltb_lt.
  split; intros [H1 H2]; (split; [done|]); intros j Hj; apply H2; by apply list_elem_of_In.
Qed.

Lemma tracks_first id : tracks (mk_window id 1 true) [id].
Proof.
  unfold tracks. cbn [seen_any highest bitmap]. split_and!; [by left|intros j Hj; apply list_elem_of_singleton in Hj; lia|].
  intros i Hi. rewrite list_elem_of_singleton.
  destruct (decide (i = 0)) as [->|Hn]; [split; [lia|done]|].
  rewrite (Z.bits_above_log2 1 i) by (cbn; lia). split; [done|lia].
Qed.

Lemma shifted_bit b s i : 0 <= s -> 0 <= i < 64 -> Z.testbit (wrap64 (Z.shiftl b s)) i = (s <=? i) && Z.testbit b (i - s).
Proof.
  intros Hs Hi. unfold wrap. rewrite Z.mod_pow2_bits_low, Z.shiftl_spec by lia.
  destruct (Z.leb_spec s i); [done|]. by rewrite Z.testbit_neg_r by lia.
Qed.

Lemma low_bit b i : Z.testbit (Z.lor b 1) i = Z.testbit b i || (i =? 0).
Proof. rewrite Z.lor_spec. by destruct i. Qed.

Lemma mask_bit b k : 0 <= k -> (Z.land b (Z.shiftl 1 k) =? 0) = negb (Z.testbit b k).
Proof.
  intros Hk. rewrite Z.shiftl_1_l. destruct (Z.testbit b k) eqn:E; cbn [negb].
  - apply Z.eqb_neq. intros H. assert (Z.testbit (Z.land b (2 ^ k)) k = true) as F; [|by rewrite H, Z.bits_0 in F].
    by rewrite Z.land_spec, E, Z.pow2_bits_true.
  - apply Z.eqb_eq, Z.bits_inj'. intros n Hn. rewrite Z.land_spec, Z.bits_0, Z.pow2_bits_eqb by done.
    destruct (Z.eqb_spec k n) as [->|]; [by rewrite E|apply andb_false_r].
Qed.

Lemma tracks_ahead w A id : seen_any w = true -> tracks w A -> highest w < id ->
  tracks (mk_window id (Z.lor (if 64 <=? id - highest w then 0 else wrap64 (Z.shiftl (bitmap w) (id - highest w))) 1) true) (id :: A).
Proof.
  unfold tracks. cbn [seen_any highest bitmap]. intros -> (Hin & Hmax & Hbit) Hlt. split_and!; [by left| |].
  - intros j [-> | Hj]%elem_of_cons; [lia|]. specialize (Hmax j Hj). lia.
  - intros i Hi. rewrite low_bit, orb_true_iff, Z.eqb_eq, elem_of_cons by lia.
    enough (Z.testbit (if 64 <=? id - highest w then 0 else wrap64 (Z.shiftl (bitmap w) (id - highest w))) i = true <-> (id - i) ∈ A) as ->.
    { split; (intros [H|H]; [first [by right|right; lia|left; lia]|first [by left|left; lia|by right]]). }
    destruct (Z.leb_spec 64 (id - highest w)).
    + rewrite Z.bits_0. split; [done|]. intros Hj%Hmax. lia.
    + rewrite shifted_bit, andb_true_iff, Z.leb_le by lia. destruct (decide (id - highest w <= i)) as [Hle|Hle].
      * rewrite Hbit by lia. replace (highest w - (i - (id - highest w))) with (id - i) by lia.
        split; [by intros [_ ?]|by split].
      * split; [lia|]. intros Hj%Hmax. lia.
Qed.

Lemma tracks_behind w A id : seen_any w = true -> tracks w A -> id <= highest w -> highest w - id < 64 ->
  tracks (mk_window (highest w) (Z.lor (bitmap w) (Z.shiftl 1 (highest w - id))) true) (id :: A).
Proof.
  unfold tracks. cbn [seen_any highest bitmap]. intros -> (Hin & Hmax & Hbit) Hle Hlt. split_and!; [by right| |].
  - intros j [-> | Hj]%elem_of_cons; [lia|by apply Hmax].
  - intros i Hi. rewrite Z.lor_spec, Z.shiftl_1_l, Z.pow2_bits_eqb, orb_true_iff, Z.eqb_eq, Hbit, elem_of_cons by lia.
    split; (intros [H|H]; [first [by right|right; lia|left; lia]|first [by left|left; lia|by right]]).
Qed.

Lemma accept_refines w A id : tracks w A ->
  (ReplayWindow_accept id w).1 = admits id A /\ tracks (ReplayWindow_accept id w).2 (if admits id A then id :: A else A).
Proof.
  intros Ht. unfold ReplayWindow_accept. destruct (seen_any w) eqn:Es; cbn [negb].
  2: { unfold tracks in Ht. rewrite Es in Ht. subst A. split; [done|apply tracks_first]. }
  pose proof Ht as Hx. unfold tracks in Hx. rewrite Es in Hx. destruct Hx as (Hin & Hmax & Hbit).
  destruct (Z.ltb_spec (highest w) id) as [Hlt|Hle]; cbn [fst snd].
  - assert (admits id A = true) as ->; [|split; [done|by apply tracks_ahead]].
    apply admits_spec. unfold WINDOW. split; [intros H%Hmax; lia|intros j Hj%Hmax; lia].
  - unfold WINDOW. destruct (Z.leb_spec 64 (highest w - id)); cbn [fst snd].
    + assert (admits id A = false) as ->; [|done]. apply not_true_iff_false. rewrite admits_spec. intros [_ H1].
      specialize (H1 _ Hin). unfold WINDOW in H1. lia.
    + rewrite mask_bit, negb_involutive by lia. specialize (Hbit (highest w - id)).
      replace (highest w - (highest w - id)) with id in Hbit by lia. destruct (Z.testbit _ _) eqn:Eb; cbn [fst snd].
      * assert (admits id A = false) as ->; [|done]. apply not_true_iff_false. rewrite admits_spec. intros [H1 _]. apply H1, Hbit; [lia|done].
      * assert (admits id A = true) as ->; [|split; [done|by apply tracks_behind]]. apply admits_spec.
        split; [intros H1%Hbit; [done|lia]|]. intros j Hj%Hmax. unfold WINDOW. lia.
Qed.

(** ** The receiving half is a filter of what the server sealed *)

Section source.
Context {P : SsPrims} `{!SsLaws P}.

(** A datagram opened by itself, with no session kept: its session, its number, its payload. *)
Definition opened (csid : bytes) (s : SourceSeal) (now : Z) (pkt : bytes) : option (bytes * Z * bytes) :=
  match s with
  | SourceXChaCha x => match open_server_packet_chacha now x pkt csid with Ok v => Some v | Err _ => None end
  | SourceAes m psk block =>
      match decrypt_separate_header block pkt with
      | Ok (sid, pid, sep) =>
          match open_server_body now (m, session_subkey m psk sid) sep (drop 16 pkt) csid with Ok payload => Some (sid, pid, payload) | Err _ => None end
      | Err _ => None
      end
  end.

(** What is promised: of every session, the ids passed on. *)
Definition pass_on (o : option (bytes * Z * bytes)) (seen : gmap (list Z) (list Z)) : bool * gmap (list Z) (list Z) :=
  match o with
  | None => (false, seen)
  | Some (sid, pid, _) =>
      match seen !! sid with
      | Some A => if admits pid A then (true, <[sid := pid :: A]> seen) else (false, seen)
      | None => if (MAX_SERVER_SESSIONS <=? size seen)%nat then (false, seen) else (true, <[sid := [pid]]> seen)
      end
  end.

(** The packets and errors passed on, in order. *)
Fixpoint delivered (csid : bytes) (s : SourceSeal) (evs : list (result stall.io_error (Z * bytes))) (seen : gmap (list Z) (list Z)) : list (result stall.io_error (bytes * Z * bytes)) :=
  match evs with
  | [] => []
  | Err e :: evs => Err e :: delivered csid s evs seen
  | Ok (now, pkt) :: evs =>
      match opened csid s now pkt with
      | None => delivered csid s evs seen
      | Some v => let '(fresh, seen) := pass_on (Some v) seen in
          if fresh then Ok v :: delivered csid s evs seen else delivered csid s evs seen
      end
  end.

(** Successive calls of [recv], up to the first that waits. *)
Fixpoint receive (rooms : list nat) (u : UdpSource) (evs : list (result stall.io_error (Z * bytes))) : list (result stall.io_error bytes) :=
  match rooms with
  | [] => []
  | room :: rooms =>
      match recv room evs u with
      | (Some r, u, evs) => r :: receive rooms u evs
      | (None, _, _) => []
      end
  end.

Definition cut (room : nat) (r : result stall.io_error (bytes * Z * bytes)) : result stall.io_error bytes :=
  match r with Ok v => Ok (take room v.2) | Err e => Err e end.
Definition keys (l : list (result stall.io_error (bytes * Z * bytes))) : list (bytes * Z) :=
  omap (fun r => match r with Ok v => Some v.1 | Err _ => None end) l.

Definition cache_of (s : SourceSeal) (sid : bytes) : option Cipher :=
  match s with SourceAes m psk _ => Some (m, session_subkey m psk sid) | SourceXChaCha _ => None end.

(** The cipher kept for a session is the one its id gives. *)
Definition source_ok (u : UdpSource) (seen : gmap (list Z) (list Z)) : Prop :=
  dom (sessions u) = dom seen /\
  forall sid st A, sessions u !! sid = Some st -> seen !! sid = Some A -> tracks (window st) A /\ cached st = cache_of (s_seal u) sid.

Lemma source_ok_lookup u seen sid : source_ok u seen ->
  match sessions u !! sid, seen !! sid with
  | Some st, Some A => tracks (window st) A /\ cached st = cache_of (s_seal u) sid
  | None, None => True
  | _, _ => False
  end.
Proof.
  intros [Hd H]. destruct (sessions u !! sid) eqn:E1, (seen !! sid) eqn:E2; [by eapply H| | |done].
  - apply not_elem_of_dom in E2. rewrite <- Hd in E2. apply not_elem_of_dom in E2. congruence.
  - apply not_elem_of_dom in E1. rewrite Hd in E1. apply not_elem_of_dom in E1. congruence.
Qed.

Lemma source_ok_insert u seen sid w A : source_ok u seen -> tracks w A ->
  source_ok (mk_source (client_session_id u) (s_seal u) (<[sid := mk_state w (cache_of (s_seal u) sid)]> (sessions u))) (<[sid := A]> seen).
Proof.
  intros [Hd H] Hw. split; cbn [sessions s_seal]; [by rewrite !dom_insert_L, Hd|].
  intros sid' st A' [[<- <-]|[Hn E1]]%lookup_insert_Some [[E <-]|[Hn' E2]]%lookup_insert_Some; [done|done|by subst|by eapply H].
Qed.

Lemma source_ok_size u seen : source_ok u seen -> size (sessions u) = size seen.
Proof. intros [Hd _]. by rewrite <- !size_dom, Hd. Qed.

Definition same_source (u u' : UdpSource) : Prop := client_session_id u' = client_session_id u /\ s_seal u' = s_seal u.

(** A packet that was opened meets its session as the promise says. *)
Definition met (u : UdpSource) (sid : bytes) (pid : Z) (payload : bytes) : option bytes * UdpSource :=
  match sessions u !! sid with
  | Some st => filter_packet sid pid st payload u
  | None => track sid pid (cache_of (s_seal u) sid) payload u
  end.

Lemma met_spec u seen sid pid payload : source_ok u seen ->
  let '(r, u') := met u sid pid payload in let '(fresh, seen') := pass_on (Some (sid, pid, payload)) seen in
  r = (if fresh then Some payload else None) /\ source_ok u' seen' /\ same_source u u'.
Proof.
  intros Hok. pose proof (source_ok_lookup u seen sid Hok) as Hl. unfold met, pass_on.
  destruct (sessions u !! sid) as [st|] eqn:E1, (seen !! sid) as [A|] eqn:E2; try done.
  - destruct Hl as [Ht Hc]. unfold filter_packet. pose proof (accept_refines (window st) A pid Ht) as [Ha Hw].
    destruct (ReplayWindow_accept pid (window st)) as [fresh w]. cbn [fst snd] in Ha, Hw. rewrite Hc, Ha.
    destruct (admits pid A); (split; [done|]); (split; [|done]); [by apply source_ok_insert|].
    rewrite <- (insert_id seen sid A E2). by apply source_ok_insert.
  - unfold track. rewrite (source_ok_size u seen Hok). destruct (_ <=? _)%nat; [done|]. split; [done|]. split; [|done].
    apply source_ok_insert; [done|apply tracks_first].
Qed.

Lemma recv_turn_met now pkt u seen : source_ok u seen ->
  recv_turn now pkt u = match opened (client_session_id u) (s_seal u) now pkt with None => (None, u) | Some (sid, pid, payload) => met u sid pid payload end.
Proof.
  intros Hok. unfold recv_turn, opened, met. destruct (s_seal u) as [m psk block|x] eqn:Es.
  - destruct (decrypt_separate_header block pkt) as [[[sid pid] sep]|]; [|done].
    pose proof (source_ok_lookup u seen sid Hok) as Hl. rewrite Es in Hl. cbn [cache_of] in Hl |- *. unfold Cipher_new. rewrite subkey_length, Nat.eqb_refl.
    destruct (sessions u !! sid) as [st|] eqn:El, (seen !! sid); try done; [destruct Hl as [_ ->]|];
      destruct (open_server_body _ _ _ _ _); cbn; by rewrite ?El.
  - by destruct (open_server_packet_chacha now x pkt (client_session_id u)) as [[[sid pid] payload]|].
Qed.

Lemma recv_spec room evs u seen : source_ok u seen ->
  match recv room evs u with
  | (Some r, u', evs') => exists d seen', delivered (client_session_id u) (s_seal u) evs seen = d :: delivered (client_session_id u) (s_seal u) evs' seen' /\
      r = cut room d /\ source_ok u' seen' /\ same_source u u'
  | (None, _, _) => delivered (client_session_id u) (s_seal u) evs seen = []
  end.
Proof.
  revert u seen. induction evs as [|[[now pkt]|e] evs IH]; intros u seen Hok; cbn [recv delivered]; [done| |].
  2: { by exists (Err e), seen. }
  rewrite (recv_turn_met now pkt u seen Hok). destruct (opened _ _ now pkt) as [[[sid pid] payload]|]; [|by apply IH].
  pose proof (met_spec u seen sid pid payload Hok) as H. destruct (met u sid pid payload) as [r u'], (pass_on _ seen) as [fresh seen'].
  destruct H as (-> & Hok' & [Hs1 Hs2]). destruct fresh.
  - exists (Ok (sid, pid, payload)), seen'. split_and!; [done| |done|done]. cbn [cut snd]. f_equal.
    destruct (Nat.le_ge_cases (length payload) room); [|by rewrite Nat.min_r]. by rewrite Nat.min_l, !take_ge.
  - specialize (IH u' seen' Hok'). rewrite Hs1, Hs2 in IH. destruct (recv room evs u') as [[[r|] u''] evs']; [|done].
    destruct IH as (d & seen'' & E & Hr & Hok'' & Hs3 & Hs4). exists d, seen''. split_and!; try done; split; congruence.
Qed.

Lemma receive_spec rooms u evs seen : source_ok u seen ->
  receive rooms u evs = zip_with cut rooms (delivered (client_session_id u) (s_seal u) evs seen).
Proof.
  revert u evs seen. induction rooms as [|room rooms IH]; intros u evs seen Hok; cbn [receive zip_with]; [done|].
  pose proof (recv_spec room evs u seen Hok) as H. destruct (recv room evs u) as [[[r|] u'] evs']; [|by rewrite H].
  destruct H as (d & seen' & -> & -> & Hok' & Hs1 & Hs2). cbn [zip_with]. f_equal. rewrite (IH u' evs' seen' Hok'). by rewrite Hs1, Hs2.
Qed.

Lemma delivered_keys csid s evs seen : NoDup (keys (delivered csid s evs seen)) /\
  forall sid pid, (sid, pid) ∈ keys (delivered csid s evs seen) -> forall A, seen !! sid = Some A -> pid ∉ A.
Proof.
  revert seen. induction evs as [|[[now pkt]|e] evs IH]; intros seen; cbn [delivered keys omap list_omap]; [|..].
  - split; [constructor|]. intros sid pid H. by apply not_elem_of_nil in H.
  - destruct (opened csid s now pkt) as [[[sid pid] payload]|]; [|apply IH]. cbn [pass_on].
    destruct (seen !! sid) as [A|] eqn:E.
    + destruct (admits pid A) eqn:Ea; [|apply IH]. apply admits_spec in Ea. destruct Ea as [Ha _].
      destruct (IH (<[sid := pid :: A]> seen)) as [Hn Hf]. cbn [keys omap list_omap fst]. split.
      * constructor; [|done]. intros Hin. apply (Hf sid pid Hin (pid :: A)); [apply lookup_insert_eq|by left].
      * intros sid' pid' [[= -> ->]|Hin]%elem_of_cons A' E'; [congruence|]. destruct (decide (sid' = sid)) as [->|Hne].
        -- rewrite E in E'. apply (inj Some) in E'. subst A'. intros Hp. apply (Hf sid pid' Hin (pid :: A)); [apply lookup_insert_eq|by right].
        -- apply (Hf sid' pid' Hin). by rewrite lookup_insert_ne.
    + destruct (_ <=? _)%nat; [apply IH|]. destruct (IH (<[sid := [pid]]> seen)) as [Hn Hf]. cbn [keys omap list_omap fst]. split.
      * constructor; [|done]. intros Hin. apply (Hf sid pid Hin [pid]); [apply lookup_insert_eq|by left].
      * intros sid' pid' [[= -> ->]|Hin]%elem_of_cons A' E'; [congruence|].
        apply (Hf sid' pid' Hin). rewrite lookup_insert_ne; [done|congruence].
  - apply IH.
Qed.

Lemma delivered_opened csid s evs seen v : Ok v ∈ delivered csid s evs seen -> exists now pkt, Ok (now, pkt) ∈ evs /\ opened csid s now pkt = Some v.
Proof.
  revert seen. induction evs as [|[[now pkt]|e] evs IH]; intros seen; cbn [delivered]; [intros H; by apply not_elem_of_nil in H|..].
  - assert (forall seen', Ok v ∈ delivered csid s evs seen' -> exists now' pkt', Ok (now', pkt') ∈ Ok (now, pkt) :: evs /\ opened csid s now' pkt' = Some v) as IH'.
    { intros seen' H. destruct (IH seen' H) as (now' & pkt' & H1 & H2). exists now', pkt'. split; [by right|done]. }
    destruct (opened csid s now pkt) as [v'|] eqn:E; [|apply IH']. destruct (pass_on (Some v') seen) as [[] seen']; [|apply IH'].
    intros [[= ->]|H]%elem_of_cons; [|by eapply IH']. exists now, pkt. split; [by left|done].
  - intros [[=]|H]%elem_of_cons. destruct (IH seen H) as (now' & pkt' & H1 & H2). exists now', pkt'. split; [by right|done].
Qed.

(** ** What a server seals *)

Definition server_body (ts : Z) (csid pad : bytes) (from : SocketAddr) (payload : bytes) : bytes :=
  [PKT_TYPE_SERVER] ++ to_be_bytes 8 ts ++ csid ++ to_be_bytes 2 (Z.of_nat (length pad)) ++ pad ++ write_socks_addr from ++ payload.

Definition server_packet (s : SourceSeal) (nonce sid : bytes) (pid : Z) (body : bytes) : bytes :=
  let sep := sid ++ to_be_bytes 8 pid in
  match s with
  | SourceAes m psk block => aes_encrypt block sep ++ aead_seal m (session_subkey m psk sid) (drop 4 sep) body
  | SourceXChaCha x => nonce ++ aead_seal Chacha20Poly1305 (hchacha20 x (take 16 nonce)) (replicate 4 0 ++ drop 16 nonce) (sep ++ body)
  end.

Lemma slice_get_at {A} (l pre s post : list A) a b : l = pre ++ s ++ post -> length pre = a -> (a + length s)%nat = b -> slice_get l a b = Some s.
Proof. intros -> <- <-. apply slice_get_app. Qed.

Lemma read_write_socks sa rest : sock_ok sa -> read_socks_addr (write_socks_addr sa ++ rest) = Some (sa, length (write_socks_addr sa)).
Proof.
  intros [[_ Hl] Hp]. assert (from_be_bytes (to_be_bytes 2 (port sa)) = port sa) as Hpp by (apply from_to_be_bytes_small; exact Hp).
  destruct sa as [[o|o] p]; cbn [ip port octets] in *; unfold write_socks_addr; cbn [ip port]; set (l := _ ++ rest); unfold read_socks_addr;
    rewrite !length_app, length_to_be_bytes, Hl; cbn [length Nat.add].
  - assert (head l = Some 0x01) as -> by done. cbn [mbind option_bind Z.eqb Pos.eqb].
    rewrite (slice_get_at l [0x01] o (to_be_bytes 2 p ++ rest)) by (first [unfold l; by rewrite <- !app_assoc|cbn; lia]). cbn.
    rewrite (slice_get_at l ([0x01] ++ o) (to_be_bytes 2 p) rest) by (first [unfold l; by rewrite <- !app_assoc|rewrite ?length_app, ?length_to_be_bytes; cbn; lia]).
    cbn [mbind option_bind]. by rewrite Hpp.
  - assert (head l = Some 0x04) as -> by done. cbn [mbind option_bind Z.eqb Pos.eqb].
    rewrite (slice_get_at l [0x04] o (to_be_bytes 2 p ++ rest)) by (first [unfold l; by rewrite <- !app_assoc|cbn; lia]). cbn.
    rewrite (slice_get_at l ([0x04] ++ o) (to_be_bytes 2 p) rest) by (first [unfold l; by rewrite <- !app_assoc|rewrite ?length_app, ?length_to_be_bytes; cbn; lia]).
    cbn [mbind option_bind]. by rewrite Hpp.
Qed.

Lemma parse_server_body now ts csid pad from payload : fresh now ts -> length csid = 8%nat -> Z.of_nat (length pad) < 2 ^ 16 -> sock_ok from ->
  parse_server_header now (server_body ts csid pad from payload) csid = Ok payload.
Proof.
  intros [Ht Hskew] Hc Hpad Hsa. unfold parse_server_header. set (l := server_body _ _ _ _ _).
  assert (head l = Some PKT_TYPE_SERVER) as -> by done. rewrite bool_decide_eq_true_2 by done. cbn [negb].
  set (tail := write_socks_addr from ++ payload).
  assert (l = [PKT_TYPE_SERVER] ++ to_be_bytes 8 ts ++ csid ++ to_be_bytes 2 (Z.of_nat (length pad)) ++ pad ++ tail) as El by done. clearbody l.
  rewrite (slice_get_at l [PKT_TYPE_SERVER] (to_be_bytes 8 ts) (csid ++ to_be_bytes 2 (Z.of_nat (length pad)) ++ pad ++ tail)) by (done || by rewrite length_to_be_bytes).
  cbn [ok_or]. rewrite from_to_be_bytes_small by exact Ht. rewrite (proj2 (Z.ltb_ge _ _)) by done.
  rewrite (slice_get_at l ([PKT_TYPE_SERVER] ++ to_be_bytes 8 ts) csid (to_be_bytes 2 (Z.of_nat (length pad)) ++ pad ++ tail))
    by (first [by rewrite El, <- !app_assoc|rewrite ?length_app, ?length_to_be_bytes; cbn; lia]).
  cbn [ok_or]. rewrite bool_decide_eq_true_2 by done. cbn [negb].
  rewrite (slice_get_at l ([PKT_TYPE_SERVER] ++ to_be_bytes 8 ts ++ csid) (to_be_bytes 2 (Z.of_nat (length pad))) (pad ++ tail))
    by (first [by rewrite El, <- !app_assoc|rewrite ?length_app, ?length_to_be_bytes; cbn; lia]).
  cbn [ok_or]. rewrite from_to_be_bytes_small by (cbn; lia). rewrite Nat2Z.id.
  assert (length l = (19 + length pad + length tail)%nat) as Hlen by (rewrite El, !length_app, !length_to_be_bytes, Hc; cbn [length]; lia).
  assert (drop (19 + length pad) l = tail) as Hd.
  { rewrite El, !app_assoc. apply drop_app_length'. rewrite !length_app, !length_to_be_bytes, Hc. cbn [length]. lia. }
  rewrite (proj2 (Nat.ltb_ge _ _)) by lia. rewrite Hd. unfold tail at 1. rewrite read_write_socks by done. cbn [ok_or].
  rewrite (proj2 (Nat.ltb_ge _ _)) by (rewrite Hlen; unfold tail; rewrite length_app; lia).
  rewrite <- drop_drop, Hd. unfold tail. by rewrite drop_app_length.
Qed.

Definition id_ok (sid : bytes) : Prop := bytes_ok sid /\ length sid = 8%nat.

Lemma sep_ok sid pid : id_ok sid -> bytes_ok (sid ++ to_be_bytes 8 pid) /\ length (sid ++ to_be_bytes 8 pid) = 16%nat.
Proof. intros [Hs Hl]. split; [apply Forall_app; split; [done|apply to_be_bytes_ok]|by rewrite length_app, length_to_be_bytes, Hl]. Qed.

(** The separate header comes back, of a server's packet and of the client's own. *)
Lemma decrypt_sealed block sid pid sealed : id_ok sid -> fits 64 pid -> (TAG <= length sealed)%nat ->
  decrypt_separate_header block (aes_encrypt block (sid ++ to_be_bytes 8 pid) ++ sealed) = Ok (sid, pid, sid ++ to_be_bytes 8 pid).
Proof.
  intros Hs Hp Hl. destruct (sep_ok sid pid Hs) as [Hb H16]. unfold decrypt_separate_header.
  rewrite length_app, aes_length, H16, (proj2 (Nat.ltb_ge _ _)) by lia.
  rewrite take_app_length' by (by rewrite aes_length). rewrite aes_inverse by done. destruct Hs as [_ Hs].
  rewrite take_app_length', drop_app_length' by done. by rewrite from_to_be_bytes_small.
Qed.

Lemma write_socks_ok sa : sock_ok sa -> bytes_ok (write_socks_addr sa).
Proof.
  intros [[Ho _] _]. unfold write_socks_addr. apply Forall_app; split; [|apply to_be_bytes_ok].
  destruct (ip sa); apply Forall_app; (split; [|exact Ho]); (constructor; [unfold fits; lia|constructor]).
Qed.

Lemma server_body_ok ts csid pad from payload : bytes_ok csid -> bytes_ok pad -> sock_ok from -> bytes_ok payload -> bytes_ok (server_body ts csid pad from payload).
Proof.
  intros. unfold server_body. apply Forall_app. split; [constructor; [unfold fits, PKT_TYPE_SERVER; lia|constructor]|].
  repeat first [done|by apply to_be_bytes_ok|by apply write_socks_ok|apply Forall_app; split].
Qed.

Lemma xopen_sealed x nonce body : bytes_ok body ->
  xopen x nonce (aead_seal Chacha20Poly1305 (hchacha20 x (take 16 nonce)) (replicate 4 0 ++ drop 16 nonce) body) = Ok body.
Proof. intros Hb. unfold xopen, derive, Cipher_new. rewrite hchacha_length. cbn [key_len Nat.eqb]. unfold open. cbn [fst snd]. by rewrite open_seal. Qed.

Lemma server_packet_opens csid s now nonce sid pid ts pad from payload :
  id_ok csid -> id_ok sid -> fits 64 pid -> length nonce = PACKET_NONCE -> fresh now ts -> bytes_ok pad -> Z.of_nat (length pad) < 2 ^ 16 -> sock_ok from -> bytes_ok payload ->
  opened csid s now (server_packet s nonce sid pid (server_body ts csid pad from payload)) = Some (sid, pid, payload).
Proof.
  intros [Hcb Hcl] Hs Hp Hn Hf Hpb Hpl Hsa Hpay. pose proof (server_body_ok ts csid pad from payload Hcb Hpb Hsa Hpay) as Hb.
  destruct (sep_ok sid pid Hs) as [Hsb H16]. unfold opened, server_packet. destruct s as [m psk block|x].
  - rewrite decrypt_sealed by (done || (rewrite seal_length; lia)).
    rewrite drop_app_length' by by rewrite aes_length. unfold open_server_body, open. cbn [fst snd]. rewrite open_seal by done. cbn [ok_or].
    by rewrite parse_server_body.
  - unfold open_server_packet_chacha. rewrite length_app, seal_length, Hn, (proj2 (Nat.ltb_ge _ _)) by lia.
    rewrite take_app_length', drop_app_length' by done. rewrite xopen_sealed by by apply Forall_app. set (body := server_body _ _ _ _ _) in *.
    destruct Hs as [_ Hsl]. rewrite (slice_get_at _ [] sid (to_be_bytes 8 pid ++ body)) by (first [by rewrite <- app_assoc|done]). cbn [ok_or].
    rewrite (slice_get_at _ sid (to_be_bytes 8 pid) body) by (first [by rewrite <- app_assoc|done|by rewrite length_to_be_bytes]). cbn [ok_or].
    rewrite length_app, H16, (proj2 (Nat.ltb_ge _ _)) by lia. rewrite drop_app_length' by done. unfold body. rewrite parse_server_body by done.
    by rewrite from_to_be_bytes_small.
Qed.

(** A datagram whose ids are [sep] and whose body was sealed under the key. *)
Definition sealed (s : SourceSeal) (pkt sep body : bytes) : Prop :=
  match s with
  | SourceAes m psk _ => drop 16 pkt = aead_seal m (session_subkey m psk (take 8 sep)) (drop 4 sep) body
  | SourceXChaCha x => let nonce := take 24 pkt in
      drop 24 pkt = aead_seal Chacha20Poly1305 (hchacha20 x (take 16 nonce)) (replicate 4 0 ++ drop 16 nonce) (sep ++ body)
  end.

Lemma open_Ok c n buf p : open c n buf = Ok p -> buf = aead_seal c.1 c.2 n p.
Proof. unfold open. destruct (aead_open c.1 c.2 n buf) eqn:E; [|done]. cbn. intros [= <-]. by apply open_sound. Qed.

Lemma opened_sound csid s now pkt sid pid payload : opened csid s now pkt = Some (sid, pid, payload) ->
  exists sep body, sealed s pkt sep body /\ sid = take 8 sep /\ pid = from_be_bytes (drop 8 sep) /\ parse_server_header now body csid = Ok payload.
Proof.
  unfold opened. destruct s as [m psk block|x].
  - unfold decrypt_separate_header. destruct (_ <? _)%nat; [done|]. set (sep := aes_decrypt block (take 16 pkt)). unfold open_server_body.
    destruct (open _ _ _) as [body|] eqn:E; [|done]. apply open_Ok in E. destruct (parse_server_header _ _ _) eqn:Ep; [|done].
    intros [= <- <- <-]. by exists sep, body.
  - unfold open_server_packet_chacha. destruct (_ <? _)%nat; [done|]. unfold xopen, derive, Cipher_new. rewrite hchacha_length. cbn [key_len Nat.eqb].
    destruct (open _ _ _) as [body|] eqn:E; [|done]. apply open_Ok in E. cbn [fst snd] in E.
    destruct (slice_get body 0 8) as [s8|] eqn:E1; [|done]. destruct (slice_get body 8 16) as [p8|] eqn:E2; [|done]. cbn [ok_or].
    destruct (Nat.ltb_spec (length body) 16); [done|]. destruct (parse_server_header _ _ _) eqn:Ep; [|done]. intros [= <- <- <-].
    exists (take 16 body), (drop 16 body). cbn [sealed]. rewrite take_drop. split; [exact E|].
    assert ((8 <=? length body)%nat = true) as H8 by (apply Nat.leb_le; lia). assert ((16 <=? length body)%nat = true) as H16 by (apply Nat.leb_le; lia).
    unfold slice_get in E1, E2. rewrite H8 in E1. rewrite H16 in E2. apply (inj Some) in E1, E2. subst s8 p8.
    rewrite take_take, drop_0, skipn_firstn_comm. by split_and!.
Qed.

Lemma slice_get_drop {A} (l s : list A) a b : slice_get l a b = Some s -> length s = (b - a)%nat /\ (b <= length l)%nat /\ drop a l = s ++ drop b l.
Proof.
  intros (pre & post & -> & <- & ->)%slice_get_Some. split; [lia|]. split; [rewrite !length_app; lia|].
  rewrite drop_app_length, app_assoc, drop_app_length' by by rewrite length_app. done.
Qed.

(** A reply for the client [csid], no more than 30 seconds off [now]: packet type 1, the timestamp, the id of the client's session, the
    padding behind its length, the address the payload is from. *)
Definition reply_for (csid : bytes) (now : Z) (body payload : bytes) : Prop :=
  exists ts plen pad addr, body = [1] ++ ts ++ csid ++ plen ++ pad ++ addr ++ payload /\
    length ts = 8%nat /\ Z.abs (now - from_be_bytes ts) <= 30 /\ length csid = 8%nat /\
    length plen = 2%nat /\ length pad = Z.to_nat (from_be_bytes plen) /\
    (head addr = Some 1 /\ length addr = 7%nat \/ head addr = Some 4 /\ length addr = 19%nat).

Lemma read_socks_sound buf sa n : read_socks_addr buf = Some (sa, n) ->
  (n <= length buf)%nat /\ (head buf = Some 1 /\ n = 7%nat \/ head buf = Some 4 /\ n = 19%nat).
Proof.
  unfold read_socks_addr. destruct (head buf) as [x|]; [|done]. cbn [mbind option_bind]. destruct (Z.eqb_spec x 1) as [->|]; [|destruct (Z.eqb_spec x 4) as [->|]; [|done]].
  - destruct (slice_get buf 1 5); [|done]. cbn. destruct (slice_get buf 5 7) eqn:E; [|done]. intros [= _ <-].
    apply slice_get_drop in E as (_ & E & _). split; [done|by left].
  - destruct (slice_get buf 1 17); [|done]. cbn. destruct (slice_get buf 17 19) eqn:E; [|done]. intros [= _ <-].
    apply slice_get_drop in E as (_ & E & _). split; [done|by right].
Qed.

Lemma parse_server_sound now body csid payload : parse_server_header now body csid = Ok payload -> reply_for csid now body payload.
Proof.
  unfold parse_server_header. case_bool_decide as Hh; [|done]. cbn [negb].
  destruct (slice_get body 1 9) as [ts|] eqn:E1; [|done]. cbn [ok_or]. destruct (Z.ltb_spec MAX_SKEW_SECS (Z.abs (now - from_be_bytes ts))) as [|Hs]; [done|].
  destruct (slice_get body 9 17) as [c|] eqn:E2; [|done]. cbn [ok_or]. case_bool_decide as Hc; [|done]. subst c. cbn [negb].
  destruct (slice_get body 17 19) as [plen|] eqn:E3; [|done]. cbn [ok_or]. remember (19 + Z.to_nat (from_be_bytes plen))%nat as off eqn:Eoff.
  destruct (Nat.ltb_spec (length body) off) as [|Ho]; [done|]. destruct (read_socks_addr (drop off body)) as [[sa n]|] eqn:E4; [|done]. cbn [ok_or].
  destruct (_ <? _)%nat; [done|]. intros [= <-]. apply read_socks_sound in E4 as [Hn E4].
  apply slice_get_drop in E1 as (L1 & _ & E1). apply slice_get_drop in E2 as (L2 & _ & E2). apply slice_get_drop in E3 as (L3 & _ & E3).
  assert (body = [1] ++ drop 1 body) as Eb by (destruct body; [done|]; injection Hh as ->; done).
  rewrite length_drop in Hn. exists ts, plen, (take (off - 19) (drop 19 body)), (take n (drop off body)). split_and!; try done.
  - rewrite Eb at 1. f_equal. rewrite E1. f_equal. rewrite E2. f_equal. rewrite E3. f_equal.
    rewrite <- (take_drop (off - 19) (drop 19 body)) at 1. f_equal. rewrite drop_drop. replace (19 + (off - 19))%nat with off by lia.
    rewrite <- drop_drop. by rewrite take_drop.
  - rewrite length_take, length_drop. lia.
  - rewrite length_take, length_drop. destruct E4 as [[E4 ->]|[E4 ->]]; [left|right]; (split; [|lia]); by destruct (drop off body).
Qed.

(** C15: the datagrams a client is given over a Shadowsocks association, whatever a socket yields
    and however many sessions come and go, are those a filter without any cache or bitmap gives:
    an error, or a datagram that opens by itself and, of its session, is new and less than 64 ids
    behind every id passed on, for the first eight sessions; each cut to the room of its call. No
    id of a session is passed on twice; each datagram passed on came from the socket sealed under
    the key, with a body that names this client's session id, carries a timestamp within 30 seconds
    and ends in the payload; and what a server seals so does open. *)
Theorem replies_correct m psk csid u rooms evs : UdpSource_new m psk csid = Ok u ->
  let d := delivered csid (s_seal u) evs ∅ in
  receive rooms u evs = zip_with cut rooms d /\ NoDup (keys d) /\
  (forall sid pid payload, Ok (sid, pid, payload) ∈ d -> exists now pkt sep body, Ok (now, pkt) ∈ evs /\ sealed (s_seal u) pkt sep body /\
     sid = take 8 sep /\ pid = from_be_bytes (drop 8 sep) /\ reply_for csid now body payload) /\
  (forall now nonce sid pid ts pad from payload, id_ok csid -> id_ok sid -> fits 64 pid -> length nonce = PACKET_NONCE -> fresh now ts ->
     bytes_ok pad -> Z.of_nat (length pad) < 2 ^ 16 -> sock_ok from -> bytes_ok payload ->
     opened csid (s_seal u) now (server_packet (s_seal u) nonce sid pid (server_body ts csid pad from payload)) = Some (sid, pid, payload)).
Proof.
  intros E d. assert (client_session_id u = csid /\ sessions u = ∅) as [Hc Hs].
  { unfold UdpSource_new in E. destruct m; [destruct (AesBlock_new psk)|destruct (AesBlock_new psk)|destruct (XChaCha_new psk)]; cbn in E; try discriminate; by injection E as <-. }
  split_and!.
  - assert (source_ok u ∅) as Hok by (split; [by rewrite Hs, !dom_empty_L|intros sid st A H; by rewrite Hs, lookup_empty in H]).
    rewrite (receive_spec rooms u evs ∅ Hok). by rewrite Hc.
  - apply delivered_keys.
  - intros sid pid payload Hin. apply delivered_opened in Hin. destruct Hin as (now & pkt & Hin & Ho).
    apply opened_sound in Ho. destruct Ho as (sep & body & ? & ? & ? & Hp). apply parse_server_sound in Hp. by exists now, pkt, sep, body.
  - intros. by apply server_packet_opens.
Qed.

(** ** The sending half *)

Fixpoint send_each (calls : list (Z * bytes * bytes)) (k : UdpSink) : list (result CryptoError bytes) :=
  match calls with
  | [] => []
  | (now, nonce, payload) :: calls => let '(r, k) := send now (Some nonce) payload k in r :: send_each calls k
  end.

(** A server's opening of a client's datagram. *)
Definition client_opens (m : SsMethod) (psk pkt sid : bytes) (pid : Z) (body : bytes) : Prop :=
  let sep := sid ++ to_be_bytes 8 pid in
  match m with
  | Chacha20Poly1305 => xopen psk (take 24 pkt) (drop 24 pkt) = Ok (sep ++ body)
  | _ => decrypt_separate_header psk pkt = Ok (sid, pid, sep) /\ open (m, session_subkey m psk sid) (drop 4 sep) (drop 16 pkt) = Ok body
  end.

Definition sink_of (m : SsMethod) (psk : bytes) (k : UdpSink) : Prop :=
  match m with
  | Chacha20Poly1305 => k_seal k = SinkXChaCha psk
  | _ => k_seal k = SinkAes psk (m, session_subkey m psk (k_session k))
  end.

Lemma sink_new_of m psk target sid k : UdpSink_new m psk target sid = Ok k -> sink_of m psk k /\ k_target k = target /\ k_session k = sid /\ packet_id k = 0.
Proof.
  unfold UdpSink_new, AesBlock_new, XChaCha_new, Cipher_new. rewrite subkey_length, Nat.eqb_refl.
  destruct m; [destruct (_ || _)|destruct (_ || _)|destruct (_ =? _)%nat]; cbn; try discriminate; intros E; injection E as <-; done.
Qed.

Lemma send_opens m psk k now nonce payload : sink_of m psk k -> id_ok (k_session k) -> fits 64 (packet_id k) -> length nonce = PACKET_NONCE ->
  bytes_ok (client_body now (k_target k) payload) ->
  exists pkt, send now (Some nonce) payload k = (Ok pkt, mk_sink (k_target k) (k_session k) (wrap64 (packet_id k + 1)) (k_seal k)) /\
    client_opens m psk pkt (k_session k) (packet_id k) (client_body now (k_target k) payload).
Proof.
  intros Hk Hs Hp Hn Hb. destruct (sep_ok (k_session k) (packet_id k) Hs) as [Hsb H16].
  assert (forall c, m <> Chacha20Poly1305 -> c = (m, session_subkey m psk (k_session k)) -> exists pkt,
    build_client_packet_with psk c (k_session k) (packet_id k) (k_target k) payload now = Ok pkt /\
    client_opens m psk pkt (k_session k) (packet_id k) (client_body now (k_target k) payload)) as Haes.
  { intros c Hm ->. eexists. split; [reflexivity|]. cbn [fst snd].
    unfold client_opens. destruct m; try done; (rewrite decrypt_sealed by (done || (rewrite seal_length; lia)); split; [done|]);
      rewrite (drop_app_length' (aes_encrypt _ _)) by (by rewrite aes_length); unfold open; cbn [fst snd]; by rewrite open_seal. }
  unfold send. destruct m; cbn [sink_of] in Hk; rewrite Hk.
  1-2: destruct (Haes _ ltac:(done) eq_refl) as (pkt & -> & Ho); by exists pkt.
  unfold build_client_packet_chacha, xseal, derive, Cipher_new. cbn [ok_or]. rewrite hchacha_length. cbn [key_len Nat.eqb ok_or seal fst snd].
  eexists. split; [reflexivity|]. cbn [client_opens]. rewrite take_app_length', drop_app_length' by done. rewrite <- app_assoc.
  apply xopen_sealed. rewrite app_assoc. by apply Forall_app.
Qed.

(** What a client sends opens at a server, numbered from zero, with its own nonce, its target
    before its payload. *)
Theorem sends_correct m psk target sid k calls : UdpSink_new m psk target sid = Ok k -> id_ok sid ->
  Forall (fun '(now, nonce, payload) => length nonce = PACKET_NONCE /\ bytes_ok (client_body now target payload)) calls ->
  Forall2 (fun r '(i, (now, _, payload)) => exists pkt, r = Ok pkt /\ client_opens m psk pkt sid (wrap64 (Z.of_nat i)) (client_body now target payload))
    (send_each calls k) (zip (seq 0 (length calls)) calls).
Proof.
  intros E Hs. destruct (sink_new_of m psk target sid k E) as (Hk & Ht & Hid & H0). clear E.
  assert (packet_id k = wrap64 (Z.of_nat 0)) as Hp by by rewrite H0. clear H0. revert k Hk Ht Hid Hp. generalize 0%nat as i.
  induction calls as [|[[now nonce] payload] calls IH]; intros i k Hk Ht Hid Hp Hall; [constructor|].
  apply Forall_cons_1 in Hall. destruct Hall as [[Hn Hb] Hall]. cbn [send_each].
  destruct (send_opens m psk k now nonce payload) as (pkt & -> & Ho); [done|by rewrite Hid|rewrite Hp; by apply Z.mod_pos_bound|done|by rewrite Ht|].
  constructor; [exists pkt; by rewrite Ht, Hid, Hp in Ho|]. apply IH; [by destruct m|done|done| |done].
  cbn [packet_id]. rewrite Hp. unfold wrap. rewrite Zplus_mod_idemp_l. f_equal. lia.
Qed.

End source.

(** ** A session with a replay, a forgery and an old packet *)

Definition ex_csid : bytes := replicate 8 1.
Definition ex_sid : bytes := replicate 8 2.
Definition ex_source : UdpSource :=
  match UdpSource_new Aes128Gcm ex_psk ex_csid with Ok u => u | Err _ => mk_source [] (SourceXChaCha []) ∅ end.
Definition ex_reply (pid : Z) (payload : bytes) : bytes :=
  server_packet (s_seal ex_source) [] ex_sid pid (server_body 1000 ex_csid [0; 0] (mk_sock (V4 [10; 0; 0; 1]) 53) payload).
Definition ex_evs : list (result stall.io_error (Z * bytes)) :=
  [Ok (1000, ex_reply 100 (lit "one")); Ok (1001, ex_reply 100 (lit "one")); Ok (1002, ex_reply 37 (lit "two")); Ok (1003, ex_reply 36 (lit "old"));
   Err stall.Other; Ok (1004, <[40%nat := 7]> (ex_reply 101 (lit "bad"))); Ok (1031, ex_reply 102 (lit "late")); Ok (1005, ex_reply 200 (lit "three"))].

Lemma replies_correct_witness : receive [9; 9; 9; 2; 9]%nat ex_source ex_evs = [Ok (lit "one"); Ok (lit "two"); Err stall.Other; Ok (lit "th")] /\
  NoDup (keys (delivered ex_csid (s_seal ex_source) ex_evs ∅)).
Proof.
  destruct (replies_correct Aes128Gcm ex_psk ex_csid ex_source [9; 9; 9; 2; 9]%nat ex_evs) as (H1 & H2 & _); [vm_compute; reflexivity|].
  split; [rewrite H1; vm_compute; reflexivity|exact H2].
Defined.

End shadowsocks_udp.
